(* ===== verification/_CoqProject ===== *)
-Q . S2P
Prelude.v
RustStr.v
Text.v
Api.v
Mock.v
Vfs.v
Contract.v
Security.v
App.v
System.v
Shell.v
Storage.v
BareMetal.v
BareMetalContract.v
Arch.v
Console.v
Memory.v
Net.v
Devices.v
Kernel.v
Boot.v
Rhai.v
Host.v
HostTree.v
Desktop.v
DesktopContract.v
DesktopMain.v
DesktopSim.v
BuildHost.v
Xtask.v
XtaskDocs.v
XtaskRun.v
BuildTree.v
XtaskBundle.v
XtaskBoot.v
XtaskSim.v
