(* ===== verification/Prelude.v ===== *)
(** * AFOS: a verification library

    AFOS is a portable application environment: a shell with a virtual file system, a
    permission system and a password, in which scripts run against a small API.  The same
    core runs as a native program and inside a kernel that boots on bare metal.  This
    library models the Rust sources as pure functions and state monads, component by
    component, and proves what makes each of them correct.

    ** The program and its parts

    - The shared core, [src/crates/afos-core]: path normalisation and the virtual file
      system ([vfs.rs]), the password verifier with its rate limiter ([security.rs]),
      application headers and the registry of interpreters ([app.rs]), authorisation and the
      sessions applications run in ([system.rs]), the shell ([shell.rs]).
    - The contracts, [src/crates/afos-api]: the traits [Platform] (what a backend offers the
      core), [SystemApi] (what the core offers applications) and [AppRuntime].
    - The snapshot store, [src/crates/afos-storage]: a file tree in two checksummed slots of
      a block device.
    - The Rhai runtime, [src/crates/afos-runtime-rhai]: the host functions of scripts.
    - The bare-metal backend, [src/platforms/bare-metal]: the kernel entry, heap and boot
      files ([main.rs]), the platform ([platform.rs]), the architecture layer ([arch.rs]),
      console ([console.rs]), DMA memory ([memory.rs]), network stack ([net.rs]) and VirtIO
      devices ([devices.rs]).
    - The desktop backend, [src/platforms/desktop]: the platform over the host's files,
      console and sockets ([platform.rs]) and the command-line program ([main.rs]).
    - The build tool, [src/xtask]: packages for the desktop and for bare metal, the boot
      configuration, the pinned boot loader, QEMU runs, smoke tests and the check of the
      documentation.

    The shell runs an application by parsing its header, making a session and handing the
    session to the interpreter; the session authorises each call and goes through the virtual
    file system to the platform; the bare-metal platform changes its tree in memory and
    saves it through the snapshot store to a VirtIO disk, the desktop platform works on the
    host's files.  The build tool copies the workspace's [fs] directory into an image and lists
    its files as modules of the boot loader, from which the kernel takes them.

    ** Files

    - [Prelude]: results ([Ok], [Err], [Panic]), the state-and-error monad [M] with its
      reasoning ([evolves], [preserves], [returns], [inv_run]), machine integers as [Z] with
      their limits, bytes, splices; [RustStr]: strings as UTF-8 bytes and the operations of
      [str] the sources use; [Text]: searching in strings, lossy decoding, hexadecimal digits.
    - [Api]: [afos-api].  [Mock]: the platform of the core's integration tests, the concrete
      state of many witnesses.  [Vfs], [Security], [App], [System], [Shell]: the core, one
      file per source file.  [Contract]: the class [ReliablePlatform], what the core relies
      on from a backend.
    - [Storage]: [afos-storage].  [BareMetal]: the storage side of the bare-metal platform
      over the interface [Hardware]; [BareMetalContract]: it is a [ReliablePlatform].
    - [Arch], [Console], [Memory], [Net], [Devices]: the kernel's lower layers, over classes
      for processor instructions and third-party crates.  [Kernel]: the machine put together
      as an instance of [Hardware], and the start sequence; [Boot]: what holds when the shell
      starts.
    - [Rhai]: the runtime, with the interpreter as a parameter.
    - [Host]: [std::path] and [std::fs] of a Unix host with symbolic links; [HostTree]:
      walking its directories; [Desktop], [DesktopContract], [DesktopMain], [DesktopSim]: the
      desktop platform, its contract, the program, and a concrete host.
    - [BuildHost]: processes, copies, streamed files and output, over the classes [ToolHost]
      (programs, the child process, the clock) and [Sha256]; [Xtask]: the whole build tool;
      [XtaskDocs], [XtaskRun]: the documentation check, and what the tool runs and keeps;
      [BuildTree], [XtaskBundle], [XtaskBoot]: what making, emptying and copying directories
      does, what a package holds, and what the kernel finds when it boots from it, over the
      class [LimineLoader]; [XtaskSim]: a concrete host with tools and a loader.

    A component's state is a record, its enums are inductive types, and every method is one
    definition with the guards, the order of effects and the early returns of the source.  A
    method on [&mut self] runs in [M]: effects made before an error stay.  Traits are type
    classes; a caller is proved against the class, an implementation gives the instance.

    ** What the theorems show

    - Paths and mounts (C1, C2, [Vfs]): resolved paths are canonical, the platform is only
      asked for canonical paths below [apps] and [user]; [sys_is_read_only]: [/sys] never
      changes.
    - The password (C3 to C5, C9, C10): the verifier refines a rate-limiter automaton, a
      password that was set is accepted; a session that has had [n] wrong guesses answered
      since the last right one, counted by the session and not by the code, has taken the
      sum of the lockouts; applications (but for the identifier [..]) and password changes
      cannot go around it.
    - Applications (C6 to C8, C11, C12, C32): headers and command lines round trip; an
      authorisation needs declaration, consent and password; a run makes only the platform
      calls it is entitled to: below its data directory ([data_dir], which for the
      identifiers [.] and [..] is [/user/appdata] and [/user]), for its grants, and to look
      up the verifier for a prompt; every Rhai host function is its API call; only bundled
      sources, found at the path asked for, are trusted.  [dotdot_id_reads_verifier],
      [dotdot_id_replaces_verifier] and [rename_exposes_verifier] are the ways in which the
      code lets an application at the verifier.
    - Storage (C13 to C19, C28): the codec round trips, the store is a persistent variable, a
      save is atomic, nothing on a disk makes it panic, with its slices, copies and slot
      arithmetic checked; the tree stays well formed, moves move whole subtrees, success
      survives a reboot unless the tree is empty ([emptied_disk_is_new]: such a disk is
      taken for a new one), also through the VirtIO adapter.
    - The machine (C20 to C27, C29 to C31): the keyboard types a US layout written down row
      by row; the page-table walk, through the boot loader's direct map, maps the UART and
      leaves all but its own entries alone; drawing stays in the framebuffer, the line editor
      returns the bytes that survive erasing and shows a secret only as stars; bounce
      buffers, network operations that always return, heap choice; a boot establishes the
      contract the core's theorems ask for, with or without a screen, and a kernel that stops
      says why.
    - The desktop (C33 to C35): storage is confined to the data directory whatever links it
      holds, on a host that tells links apart; temporary storage without links leaves nothing
      behind when the host refuses nothing; the system files are exactly the
      regular files below the system directory.  [DesktopPlatform_Reliable] makes every
      theorem about a [ReliablePlatform] one about the desktop.
    - The build tool (C36 to C40): the files of the workspace's [fs] other than [.gitkeep] are,
      through package, image, configuration and loader, exactly the boot files of the kernel, with which the boot
      theorem's conditions on them hold; packaging keeps the data disk; the boot loader is in
      the cache already or is extracted from the pinned archive; a smoke test ends and leaves no machine behind; the documentation check
      passes exactly the sites that are in order.

    Further theorems in the files (parsing of capabilities, configuration accesses, entropy,
    the transport's port window, the command line of the desktop, and the proofs of the
    findings) are not numbered.

    ** Fuel, bounds and panics

    [Panic] is a Rust panic, an arithmetic overflow that a checked build reports, an access
    outside a buffer, and also [hang], a loop that has used up its fuel.  Loops that the
    source bounds by data are structural.  Polling loops get fuel; the theorems say that
    enough fuel gives the result (C23, C26, C27, C31), or that the number of rounds is bounded
    by the input.  The shell's loop returns [None] when its fuel is used up.  Directory
    recursion on the host gets the depth of the file system as fuel, which is proved to be
    enough ([remove_tree_returns], [walk_returns]).  The wait of a smoke test gets one round for
    every tenth of a second of its limit, which is enough because a round sleeps as long
    (C39); the hasher gets one round more than the file has bytes.  [usize] is 64 bits wide.

    Third-party crates (Argon2, smoltcp, virtio-drivers, the font, the allocator, Rhai,
    rpassword, getrandom, sha2), the programs the build tool runs and the Limine boot loader
    are classes or parameters; laws about them are hypotheses that state
    their documented behaviour, and every theorem that has one is instantiated on a concrete
    implementation by its witness.

    ** Not modelled

    - In [main.rs] of the kernel, the stub that prints a line on a host with an operating
      system; in [arch.rs], [halt] and the AArch64 counter and cache instructions: they are
      single instructions or endless loops.
    - On the host: Windows paths, special files, other processes that change the file system
      between two calls (but for the programs and the child the build tool runs), and the
      error message of the desktop program.
    - The crate root of the core, which only declares modules. *)
From stdpp Require Export base tactics option list list_numbers strings gmap sorting.
From Stdlib Require Export ZArith Lia.
From Stdlib Require Export Strings.Byte.

#[global] Open Scope Z_scope.

(** ** Results

    [Ok]/[Err] are Rust's [Result]; [Panic] is a Rust panic (an index out of
    range, an arithmetic overflow in a checked build, a failed [expect]). *)
Inductive res (E A : Type) : Type :=
| Ok (a : A)
| Err (e : E)
| Panic.
Arguments Ok {E A} a.
Arguments Err {E A} e.
Arguments Panic {E A}.

#[export] Instance res_eq_dec {E A} `{!EqDecision E, !EqDecision A} :
  EqDecision (res E A).
Proof. solve_decision. Defined.

#[export] Instance res_ret {E} : MRet (res E) := λ A a, Ok a.
#[export] Instance res_bind {E} : MBind (res E) := λ A B k m,
  match m with Ok a => k a | Err e => Err e | Panic => Panic end.
#[export] Instance res_fmap {E} : FMap (res E) := λ A B f m,
  match m with Ok a => Ok (f a) | Err e => Err e | Panic => Panic end.

Definition map_err {E F A} (f : E → F) (m : res E A) : res F A :=
  match m with Ok a => Ok a | Err e => Err (f e) | Panic => Panic end.

Definition ok_or {E A} (e : E) (o : option A) : res E A :=
  match o with Some a => Ok a | None => Err e end.

Definition is_ok {E A} (m : res E A) : bool :=
  match m with Ok _ => true | _ => false end.

(** ** State and errors

    A method on [&mut self] that returns a [Result]: the state is kept when the
    method fails, so the effects made before an early return stay. *)
Definition M (St E A : Type) : Type := St → res E A * St.

#[export] Instance M_ret {St E} : MRet (M St E) := λ A a s, (Ok a, s).
#[export] Instance M_bind {St E} : MBind (M St E) := λ A B k m s,
  match m s with
  | (Ok a, s') => k a s'
  | (Err e, s') => (Err e, s')
  | (Panic, s') => (Panic, s')
  end.

Definition throw {St E A} (e : E) : M St E A := λ s, (Err e, s).
Definition lift {St E A} (r : res E A) : M St E A := λ s, (r, s).
Definition gets {St E A} (f : St → A) : M St E A := λ s, (Ok (f s), s).
(** A method on [&self] that can fail. *)
Definition reads {St E A} (f : St → res E A) : M St E A := λ s, (f s, s).
Definition modify {St E} (f : St → St) : M St E () := λ s, (Ok (), f s).
Definition with_err {St E F A} (f : E → F) (m : M St E A) : M St F A :=
  λ s, let '(r, s') := m s in (map_err f r, s').

(** A loop that did not finish with the fuel it was given. *)
Definition hang {St E A} : M St E A := lift Panic.
(** A method that cannot fail. *)
Definition effect {St E A} (f : St → A * St) : M St E A := λ s, let '(a, s) := f s in (Ok a, s).

(** Run a method of a field: [get] projects the field, [set] stores it back. *)
Definition zoom {St T E A} (get : St → T) (set : T → St → St) (m : M T E A) :
    M St E A :=
  λ s, let '(r, t) := m (get s) in (r, set t s).

(** A [for] loop whose body may return early through [?]. *)
Fixpoint for_each {St E X} (f : X → M St E ()) (l : list X) : M St E () :=
  match l with
  | [] => mret ()
  | x :: l' => f x ≫= λ _, for_each f l'
  end.

Declare Scope afos_scope.
Delimit Scope afos_scope with afos.
#[global] Open Scope afos_scope.

(** ** Reasoning about state and errors *)
Lemma res_bind_ok {E A B} (m : res E A) (k : A → res E B) b :
  m ≫= k = Ok b → ∃ a, m = Ok a ∧ k a = Ok b.
Proof. destruct m; naive_solver. Qed.

Lemma bind_lift_ok {St E A B} (a : A) (k : A → M St E B) s :
  (lift (Ok a) ≫= k) s = k a s.
Proof. reflexivity. Qed.

Section monad.
Context {St E : Type}.

Lemma bind_run {A B} (m : M St E A) (k : A → M St E B) s :
  (m ≫= k) s =
    match m s with
    | (Ok a, s') => k a s'
    | (Err e, s') => (Err e, s')
    | (Panic, s') => (Panic, s')
    end.
Proof. reflexivity. Qed.

Lemma bind_ok_inv {A B} (m : M St E A) (k : A → M St E B) s b s' :
  (m ≫= k) s = (Ok b, s') →
  ∃ a s1, m s = (Ok a, s1) ∧ k a s1 = (Ok b, s').
Proof. rewrite bind_run. destruct (m s) as [[] ?]; naive_solver. Qed.

Lemma zoom_ok_inv {T A} (get : St → T) set (m : M T E A) s a s' :
  zoom get set m s = (Ok a, s') →
  ∃ t, m (get s) = (Ok a, t) ∧ s' = set t s.
Proof. unfold zoom. destruct (m (get s)); naive_solver. Qed.

(** [evolves R m]: running [m] relates the state before to the state after,
    whatever the outcome.  With a preorder [R] it composes. *)
Definition evolves {A} (R : St → St → Prop) (m : M St E A) : Prop :=
  ∀ s, R s (m s).2.

(** [preserves I m]: [m] keeps the invariant [I], on every outcome. *)
Definition preserves {A} (I : St → Prop) (m : M St E A) : Prop :=
  ∀ s, I s → I (m s).2.

(** [no_panic I m]: from a state in [I], [m] does not panic. *)
Definition no_panic {A} (I : St → Prop) (m : M St E A) : Prop :=
  ∀ s, I s → (m s).1 ≠ Panic.

Section rel.
Context (R : St → St → Prop) `{!PreOrder R}.

Lemma evolves_ret {A} (a : A) : evolves R (mret a : M St E A).
Proof. intros s. simpl. reflexivity. Qed.
Lemma evolves_throw {A} (e : E) : evolves R (throw e : M St E A).
Proof. intros s. simpl. reflexivity. Qed.
Lemma evolves_lift {A} (r : res E A) : evolves R (lift r : M St E A).
Proof. intros s. simpl. reflexivity. Qed.
Lemma evolves_gets {A} (f : St → A) : evolves R (gets f : M St E A).
Proof. intros s. simpl. reflexivity. Qed.
Lemma evolves_reads {A} (f : St → res E A) : evolves R (reads f : M St E A).
Proof. intros s. simpl. reflexivity. Qed.
Lemma evolves_bind {A B} (m : M St E A) (k : A → M St E B) :
  evolves R m → (∀ a, evolves R (k a)) → evolves R (m ≫= k).
Proof.
  intros Hm Hk s. rewrite bind_run. specialize (Hm s).
  destruct (m s) as [[a|e|] s1]; simpl in *; [|done..].
  etrans; [exact Hm|apply Hk].
Qed.
Lemma evolves_gets_bind {A B} (f : St → A) (k : A → M St E B) :
  (∀ s, R s (k (f s) s).2) → evolves R (gets f ≫= k).
Proof. intros Hk s. apply Hk. Qed.
Lemma evolves_for_each {X} (f : X → M St E ()) l :
  (∀ x, x ∈ l → evolves R (f x)) → evolves R (for_each f l).
Proof.
  induction l as [|x l IH]; intros Hf; simpl; [apply evolves_ret|].
  apply evolves_bind; [apply Hf; left|].
  intros _. apply IH. intros y Hy. apply Hf. by right.
Qed.
End rel.

Lemma preserves_run {A} I (m : M St E A) s r s' :
  preserves I m → I s → m s = (r, s') → I s'.
Proof. intros Hm Hs H. specialize (Hm s Hs). by rewrite H in Hm. Qed.
Lemma preserves_ret {A} I (a : A) : preserves I (mret a : M St E A).
Proof. by intros s. Qed.
Lemma preserves_throw {A} I (e : E) : preserves I (throw e : M St E A).
Proof. by intros s. Qed.
Lemma preserves_lift {A} I (r : res E A) : preserves I (lift r : M St E A).
Proof. by intros s. Qed.
Lemma preserves_gets {A} I (f : St → A) : preserves I (gets f : M St E A).
Proof. by intros s. Qed.
Lemma preserves_reads {A} I (f : St → res E A) : preserves I (reads f : M St E A).
Proof. by intros s. Qed.
Lemma preserves_bind {A B} I (m : M St E A) (k : A → M St E B) :
  preserves I m → (∀ a, preserves I (k a)) → preserves I (m ≫= k).
Proof.
  intros Hm Hk s Hs. rewrite bind_run. specialize (Hm s Hs).
  destruct (m s) as [[a|e|] s1]; simpl in *; [by apply Hk|done..].
Qed.
  (** The continuation may use what a successful first part implies. *)
Lemma preserves_bind_ok {A B} I (m : M St E A) (k : A → M St E B) :
  preserves I m → (∀ a s s', I s → m s = (Ok a, s') → preserves I (k a)) →
  preserves I (m ≫= k).
Proof.
  intros Hm Hk s Hs. rewrite bind_run. pose proof (Hm s Hs) as H1.
  destruct (m s) as [[a|e|] s1] eqn:Hr; simpl in *; [|done..].
  by apply (Hk a s s1).
Qed.
Lemma preserves_for_each {X} I (f : X → M St E ()) l :
  (∀ x, x ∈ l → preserves I (f x)) → preserves I (for_each f l).
Proof.
  induction l as [|x l IH]; intros Hf; simpl; [apply preserves_ret|].
  apply preserves_bind; [apply Hf; left|].
  intros _. apply IH. intros y Hy. apply Hf. by right.
Qed.

Lemma no_panic_bind {A B} I (m : M St E A) (k : A → M St E B) :
  no_panic I m → preserves I m → (∀ a, no_panic I (k a)) → no_panic I (m ≫= k).
Proof.
  intros Hm Hp Hk s Hs. rewrite bind_run. specialize (Hm s Hs). specialize (Hp s Hs).
  destruct (m s) as [[a|e|] s1]; simpl in *; [by apply Hk|done..].
Qed.
Lemma no_panic_for_each {X} I (f : X → M St E ()) l :
  (∀ x, no_panic I (f x)) → (∀ x, preserves I (f x)) → no_panic I (for_each f l).
Proof.
  intros Hn Hp. induction l as [|x l IH]; [by intros s _|].
  simpl. by apply no_panic_bind.
Qed.
Lemma no_panic_lift {A} I (r : res E A) : r ≠ Panic → no_panic I (lift r : M St E A).
Proof. by intros Hr s _. Qed.
(** [returns I m]: from a state in [I], [m] succeeds and ends in [I]. *)
Definition returns {A} (I : St → Prop) (m : M St E A) : Prop :=
  ∀ s, I s → ∃ a s', m s = (Ok a, s') ∧ I s'.

Lemma returns_ret {A} I (a : A) : returns I (mret a : M St E A).
Proof. intros s Hs. by exists a, s. Qed.
Lemma returns_gets {A} I (f : St → A) : returns I (gets f : M St E A).
Proof. intros s Hs. by exists (f s), s. Qed.
Lemma returns_modify (I : St → Prop) f : (∀ s, I s → I (f s)) → returns I (modify f : M St E ()).
Proof. intros Hf s Hs. exists (), (f s). auto. Qed.
Lemma returns_bind {A B} I (m : M St E A) (k : A → M St E B) :
  returns I m → (∀ a, returns I (k a)) → returns I (m ≫= k).
Proof.
  intros Hm Hk s Hs. destruct (Hm s Hs) as (a&s1&H1&Hs1). destruct (Hk a s1 Hs1) as (b&s2&H2&Hs2).
  exists b, s2. by rewrite bind_run, H1.
Qed.
(** The state is known to be in [I] when a part of it is read. *)
Lemma returns_gets_bind {A B} (I : St → Prop) (f : St → A) (k : A → M St E B) :
  (∀ s, I s → ∃ b s', k (f s) s = (Ok b, s') ∧ I s') → returns I (gets f ≫= k).
Proof. intros Hk s Hs. destruct (Hk s Hs) as (b&s'&H1&?). by exists b, s'. Qed.
Lemma returns_for_each {X} I (f : X → M St E ()) l :
  (∀ x, x ∈ l → returns I (f x)) → returns I (for_each f l).
Proof.
  induction l as [|x l IH]; intros Hf; simpl; [apply returns_ret|].
  apply returns_bind; [apply Hf; left|]. intros _. apply IH. intros y Hy. apply Hf. by right.
Qed.
End monad.

Lemma preserves_zoom {St T E A} (I : St → Prop) (J : T → Prop) get set (m : M T E A) :
  (∀ s, I s → J (get s)) → (∀ s t, I s → J t → I (set t s)) →
  preserves J m → preserves I (zoom get set m).
Proof.
  intros Hget Hset Hm s Hs. unfold zoom.
  specialize (Hm (get s) (Hget s Hs)). destruct (m (get s)); simpl in *; auto.
Qed.

Lemma evolves_zoom {St T E A} (R : St → St → Prop) (Q : T → T → Prop) get set
    (m : M T E A) :
  (∀ s t, Q (get s) t → R s (set t s)) →
  evolves Q m → evolves R (zoom get set m).
Proof.
  intros Hset Hm s. unfold zoom.
  specialize (Hm (get s)). destruct (m (get s)); simpl in *; auto.
Qed.

(** Lemmas that close or split a goal about a single call of a component. *)
Create HintDb evolve.

(** Walk through a monadic program for an [evolves] or [preserves] goal: [tac]
    handles the binds and calls that need a lemma of their own, the rest is the
    structure of the program. *)
Ltac evolve_step tac :=
  match goal with
  | |- ∀ _, _ => intro
  | |- _ => tac
  | |- evolves _ (mret _) => apply (evolves_ret _)
  | |- evolves _ (throw _) => apply (evolves_throw _)
  | |- evolves _ (gets _) => apply (evolves_gets _)
  | |- evolves _ (reads _) => apply (evolves_reads _)
  | |- evolves _ (lift _) => apply (evolves_lift _)
  | |- evolves _ (mbind _ _) => apply (evolves_bind _)
  | |- evolves _ (for_each _ _) => apply (evolves_for_each _)
  | |- evolves _ (match ?x with _ => _ end) => destruct x eqn:?
  | |- preserves _ (mret _) => apply preserves_ret
  | |- preserves _ (throw _) => apply preserves_throw
  | |- preserves _ (gets _) => apply preserves_gets
  | |- preserves _ (reads _) => apply preserves_reads
  | |- preserves _ (lift _) => apply preserves_lift
  | |- preserves _ (mbind _ _) => apply preserves_bind
  | |- preserves _ (for_each _ _) => apply preserves_for_each
  | |- preserves _ (match ?x with _ => _ end) => destruct x eqn:?
  | |- _ => solve [eauto with evolve]
  end; cbv beta.
Ltac evolve_with tac := repeat evolve_step tac.

(** Run a monadic program symbolically: expose the binds, split on the
    outcomes of the calls, and drop the impossible branches. *)
Ltac mrun :=
  unfold throw, lift, gets, reads, modify, mret, M_ret in *;
  repeat (rewrite ?bind_run in *; simpl in *;
          case_match; simplify_eq/=; try done).

Lemma lift_ok_inv {St E A} (r : res E A) (s : St) a s' :
  lift r s = (Ok a, s') → r = Ok a ∧ s' = s.
Proof. unfold lift. naive_solver. Qed.
Lemma reads_ok_inv {St E A} (f : St → res E A) (s : St) a s' :
  reads f s = (Ok a, s') → f s = Ok a ∧ s' = s.
Proof. unfold reads. naive_solver. Qed.
Lemma gets_ok_inv {St E A} (f : St → A) (s : St) a s' :
  gets (E := E) f s = (Ok a, s') → a = f s ∧ s' = s.
Proof. unfold gets. naive_solver. Qed.
Lemma modify_ok_inv {St E} (f : St → St) (s : St) u s' :
  modify (E := E) f s = (Ok u, s') → s' = f s.
Proof. unfold modify. naive_solver. Qed.
Lemma mret_ok_inv {St E A} (x : A) (s : St) a s' :
  (mret x : M St E A) s = (Ok a, s') → a = x ∧ s' = s.
Proof. unfold mret, M_ret. naive_solver. Qed.

(** Invert a successful run step by step: every bind gives the run of its first
    part, every primitive its effect. *)
Ltac inv_run :=
  repeat match goal with
  | H : (_ ≫= _) _ = (Ok _, _) |- _ => apply bind_ok_inv in H as (?&?&?&H)
  | H : lift _ _ = (Ok _, _) |- _ => apply lift_ok_inv in H as [H ->]
  | H : reads _ _ = (Ok _, _) |- _ => apply reads_ok_inv in H as [H ->]
  | H : gets _ _ = (Ok _, _) |- _ => apply gets_ok_inv in H as [-> ->]
  | H : modify _ _ = (Ok _, _) |- _ => apply modify_ok_inv in H as ->
  | H : mret _ _ = (Ok _, _) |- _ => apply mret_ok_inv in H as [-> ->]
  | H : zoom _ _ _ _ = (Ok _, _) |- _ => apply zoom_ok_inv in H as (?&H&->)
  | H : throw _ _ = (Ok _, _) |- _ => discriminate H
  end.

(** Close an equation between closed terms by evaluation, or a decidable closed
    proposition by evaluating its decision. *)
Ltac by_vm := match goal with |- ?a = ?b => vm_cast_no_check (eq_refl b) end.
Ltac by_eval := apply (bool_decide_unpack _); vm_cast_no_check I.

(** ** Machine integers

    A [w]-bit unsigned integer is a [Z] in [0, 2^w). *)
Definition u8_max : Z := 255.
Definition u16_max : Z := 65535.
Definition u32_max : Z := 4294967295.
Definition u64_max : Z := 18446744073709551615.
(** [usize] of the 64-bit targets. *)
Definition usize_max : Z := u64_max.

Definition wrap64 (z : Z) : Z := z mod 2 ^ 64.
Definition saturating_add64 (a b : Z) : Z := Z.min (a + b) u64_max.
Definition saturating_sub (a b : Z) : Z := Z.max (a - b) 0.
Definition saturating_mul64 (a b : Z) : Z := Z.min (a * b) u64_max.
Definition saturating_add32 (a b : Z) : Z := Z.min (a + b) u32_max.
(** [try_from] into an unsigned type with maximum [m]. *)
Definition try_from (m : Z) (z : Z) : option Z :=
  if bool_decide (0 ≤ z ≤ m) then Some z else None.
Definition div_ceil (a b : Z) : Z := (a + b - 1) / b.
Definition is_u64 (z : Z) : Prop := 0 ≤ z ≤ u64_max.
Definition is_u32 (z : Z) : Prop := 0 ≤ z ≤ u32_max.

Definition len {A} (l : list A) : Z := Z.of_nat (length l).

Lemma len_app {A} (l k : list A) : len (l ++ k) = len l + len k.
Proof. unfold len. rewrite length_app. lia. Qed.
Lemma len_nonneg {A} (l : list A) : 0 ≤ len l.
Proof. unfold len. lia. Qed.
Lemma len_nil_inv {A} (l : list A) : len l = 0 → l = [].
Proof. unfold len. destruct l; simpl; [done|lia]. Qed.
Lemma try_from_Some m z y : try_from m z = Some y → y = z ∧ 0 ≤ z ≤ m.
Proof. unfold try_from. case_bool_decide; [intros [= <-]|]; done. Qed.
Lemma try_from_ok m z : 0 ≤ z ≤ m → try_from m z = Some z.
Proof. intros. unfold try_from. by rewrite bool_decide_true. Qed.
Lemma div_ceil_bound a b : 0 < b → a ≤ div_ceil a b * b < a + b.
Proof. intros Hb. unfold div_ceil. pose proof (Z.div_mod (a + b - 1) b).
  pose proof (Z.mod_pos_bound (a + b - 1) b). nia. Qed.
Lemma div_ceil_nonneg a b : 0 ≤ a → 0 < b → 0 ≤ div_ceil a b.
Proof. intros. unfold div_ceil. apply Z.div_pos; lia. Qed.

(** ** Bytes

    [u8] is [Byte.byte]; [b2z] and [z2b] are [u64::from] and the truncating
    cast. *)
#[export] Instance byte_eq_dec : EqDecision byte := Byte.byte_eq_dec.
#[export] Instance byte_inhabited : Inhabited byte := populate x00.

Definition b2z (b : byte) : Z := Z.of_N (Byte.to_N b).
Definition z2b (z : Z) : byte := default x00 (Byte.of_N (Z.to_N (z mod 256))).

Lemma b2z_range b : 0 ≤ b2z b < 256.
Proof. unfold b2z. pose proof (Byte.to_N_bounded b). lia. Qed.

Lemma b2z_z2b z : b2z (z2b z) = z mod 256.
Proof.
  unfold b2z, z2b. pose proof (Z.mod_pos_bound z 256 eq_refl).
  destruct (Byte.of_N (Z.to_N (z mod 256))) as [b|] eqn:E; simpl.
  - apply Byte.to_of_N in E. rewrite E. lia.
  - apply Byte.of_N_None_iff in E. lia.
Qed.

Lemma b2z_z2b_small z : 0 ≤ z < 256 → b2z (z2b z) = z.
Proof. intros. rewrite b2z_z2b. by apply Z.mod_small. Qed.

Lemma z2b_b2z b : z2b (b2z b) = b.
Proof.
  unfold z2b. rewrite Z.mod_small by apply b2z_range. unfold b2z.
  by rewrite N2Z.id, Byte.of_to_N.
Qed.

#[export] Instance b2z_inj : Inj (=) (=) b2z.
Proof. intros a b H. by rewrite <-(z2b_b2z a), <-(z2b_b2z b), H. Qed.

(** [to_le_bytes] and [from_le_bytes] of an [n]-byte integer. *)
Fixpoint to_le_bytes (n : nat) (z : Z) : list byte :=
  match n with
  | O => []
  | S n' => z2b z :: to_le_bytes n' (z / 256)
  end.

Fixpoint from_le_bytes (bs : list byte) : Z :=
  match bs with
  | [] => 0
  | b :: bs' => b2z b + 256 * from_le_bytes bs'
  end.

Lemma length_to_le_bytes n z : length (to_le_bytes n z) = n.
Proof. revert z. induction n; intros; simpl; auto. Qed.

Lemma from_to_le_bytes n z :
  0 ≤ z < 256 ^ Z.of_nat n → from_le_bytes (to_le_bytes n z) = z.
Proof.
  revert z. induction n as [|n IH]; intros z Hz; simpl in *; [lia|].
  rewrite b2z_z2b, IH.
  - pose proof (Z.div_mod z 256). lia.
  - replace (Z.of_nat (S n)) with (Z.succ (Z.of_nat n)) in Hz by lia.
    rewrite Z.pow_succ_r in Hz by lia.
    split; [apply Z.div_pos; lia|apply Z.div_lt_upper_bound; lia].
Qed.

Lemma from_le_bytes_range bs :
  0 ≤ from_le_bytes bs < 256 ^ Z.of_nat (length bs).
Proof.
  induction bs as [|b bs IH]; simpl; [lia|].
  replace (Z.of_nat (S (length bs))) with (Z.succ (Z.of_nat (length bs))) by lia.
  rewrite Z.pow_succ_r by lia. pose proof (b2z_range b). lia.
Qed.

(** ** Lists *)
Lemma filter_all {A} (Q : A → Prop) `{!∀ x, Decision (Q x)} l :
  Forall Q l → filter Q l = l.
Proof. induction 1; [done|]. by rewrite filter_cons_True, IHForall. Qed.

Lemma app_eq_len_inv {A} (l1 l2 k1 k2 : list A) :
  length l1 = length k1 → l1 ++ l2 = k1 ++ k2 → l1 = k1 ∧ l2 = k2.
Proof. intros ??. by apply app_inj_1. Qed.

Lemma take_app_exact {A} (l k : list A) n : n = length l → take n (l ++ k) = l.
Proof. intros ->. by rewrite take_app_length. Qed.
Lemma drop_app_exact {A} (l k : list A) n : n = length l → drop n (l ++ k) = k.
Proof. intros ->. by rewrite drop_app_length. Qed.

(** Overwrite [l] from index [n] with [k] ([copy_from_slice] on a sub-slice). *)
Definition splice {A} (l : list A) (n : nat) (k : list A) : list A :=
  take n l ++ k ++ drop (n + length k) l.

Lemma length_splice {A} (l : list A) n k :
  (n + length k ≤ length l)%nat → length (splice l n k) = length l.
Proof. intros. unfold splice. rewrite !length_app, length_take, length_drop. lia. Qed.

Lemma splice_read {A} (l : list A) n k :
  (n + length k ≤ length l)%nat → take (length k) (drop n (splice l n k)) = k.
Proof.
  intros. unfold splice. rewrite drop_app_exact by (rewrite length_take; lia).
  by rewrite take_app_length.
Qed.

Lemma splice_read_before {A} (l : list A) n k i j :
  (n + length k ≤ length l)%nat → (i + j ≤ n)%nat →
  take j (drop i (splice l n k)) = take j (drop i l).
Proof.
  intros. unfold splice. rewrite drop_app_le by (rewrite length_take; lia).
  rewrite take_app_le by (rewrite length_drop, length_take; lia).
  rewrite skipn_firstn_comm, take_take. f_equal. lia.
Qed.

Lemma splice_read_after {A} (l : list A) n k i j :
  (n + length k ≤ length l)%nat → (n + length k ≤ i)%nat →
  take j (drop i (splice l n k)) = take j (drop i l).
Proof.
  intros. unfold splice. f_equal.
  rewrite drop_app_ge by (rewrite length_take; lia). rewrite length_take.
  rewrite drop_app_ge by lia. rewrite drop_drop. f_equal. lia.
Qed.

Lemma prefix_snoc_not {A} (l : list A) x : ¬ l ++ [x] `prefix_of` l.
Proof.
  intros [k Hk]. apply (f_equal length) in Hk. rewrite !length_app in Hk. simpl in Hk. lia.
Qed.
