(* ===== verification/RustStr.v ===== *)
(** * Strings

    The part of Rust's [str]/[String] API the program uses.  A string is its
    UTF-8 bytes, so [as_bytes] is the identity and [String::from_utf8] is a
    validity check.  The operations whose pattern is an ASCII character work on
    bytes; [trim], [chars] and [is_whitespace] go through the decoded characters.
    The lemmas here carry the path and parser proofs of the components. *)
From S2P Require Import Prelude.

Abbreviation str := (list byte).
Declare Scope str_scope.
Delimit Scope str_scope with str.
Definition str_of_bytes (l : list byte) : list byte := l.
String Notation str str_of_bytes str_of_bytes : str_scope.
#[global] Open Scope str_scope.

(** Strings as map keys, at eight bits a byte. *)
#[export] Program Instance str_countable : Countable str | 0 :=
  inj_countable' String.string_of_list_byte String.list_byte_of_string _.
Next Obligation. apply String.list_byte_of_string_of_list_byte. Qed.

Definition slash : byte := "/"%byte.
Definition dot : byte := "."%byte.
Definition backslash : byte := "\"%byte.
Definition nul : byte := x00.
Definition nl : byte := x0a.
Definition cr : byte := x0d.

(** ** Searching and slicing *)
Definition contains (c : byte) (s : str) : bool := bool_decide (c ∈ s).

Definition starts_with (p s : str) : bool := bool_decide (p `prefix_of` s).

Definition ends_with_char (c : byte) (s : str) : bool :=
  bool_decide (last s = Some c).

Fixpoint strip_prefix (p s : str) : option str :=
  match p, s with
  | [], _ => Some s
  | a :: p', b :: s' => if decide (a = b) then strip_prefix p' s' else None
  | _ :: _, [] => None
  end.

(** [str::split] on an ASCII character: always at least one piece. *)
Fixpoint split (c : byte) (s : str) : list str :=
  match s with
  | [] => [[]]
  | b :: s' =>
      if decide (b = c) then [] :: split c s'
      else match split c s' with
           | [] => [[b]]
           | h :: t => (b :: h) :: t
           end
  end.

(** [str::rsplit(c).next()]: the last piece. *)
Definition rsplit_next (c : byte) (s : str) : option str := head (rev (split c s)).

(** [str::split_once]: at the first occurrence. *)
Fixpoint split_once (c : byte) (s : str) : option (str * str) :=
  match s with
  | [] => None
  | b :: s' =>
      if decide (b = c) then Some ([], s')
      else prod_map (cons b) id <$> split_once c s'
  end.

(** [str::rsplit_once]: at the last occurrence. *)
Fixpoint rsplit_once (c : byte) (s : str) : option (str * str) :=
  match s with
  | [] => None
  | b :: s' =>
      match rsplit_once c s' with
      | Some (l, r) => Some (b :: l, r)
      | None => if decide (b = c) then Some ([], s') else None
      end
  end.

(** [slice::join]. *)
Fixpoint join (sep : str) (l : list str) : str :=
  match l with
  | [] => []
  | [x] => x
  | x :: l' => x ++ sep ++ join sep l'
  end.

(** [str::lines]: pieces end at a line feed; a carriage return before the line
    feed is dropped, and there is no empty last line. *)
Fixpoint split_inclusive (c : byte) (s : str) : list str :=
  match s with
  | [] => []
  | b :: s' =>
      if decide (b = c) then [b] :: split_inclusive c s'
      else match split_inclusive c s' with
           | [] => [[b]]
           | h :: t => (b :: h) :: t
           end
  end.

Definition strip_suffix_char (c : byte) (s : str) : option str :=
  if ends_with_char c s then Some (take (length s - 1) s) else None.

Definition strip_eol (line : str) : str :=
  match strip_suffix_char nl line with
  | None => line
  | Some l => default l (strip_suffix_char cr l)
  end.

Definition lines (s : str) : list str := strip_eol <$> split_inclusive nl s.

(** ** ASCII *)
Definition is_ascii_digit (b : byte) : bool := bool_decide (48 ≤ b2z b ≤ 57).
Definition is_ascii_uppercase (b : byte) : bool := bool_decide (65 ≤ b2z b ≤ 90).
Definition is_ascii_lowercase (b : byte) : bool := bool_decide (97 ≤ b2z b ≤ 122).
Definition is_ascii_alphanumeric (b : byte) : bool :=
  is_ascii_digit b || is_ascii_uppercase b || is_ascii_lowercase b.
Definition to_ascii_lowercase (b : byte) : byte :=
  if is_ascii_uppercase b then z2b (b2z b + 32) else b.
Definition to_ascii_uppercase (b : byte) : byte :=
  if is_ascii_lowercase b then z2b (b2z b - 32) else b.
Definition eq_ignore_ascii_case (s t : str) : bool :=
  bool_decide (to_ascii_lowercase <$> s = to_ascii_lowercase <$> t).

(** ** Integers as text *)
Fixpoint digits_value (acc : Z) (s : str) : option Z :=
  match s with
  | [] => Some acc
  | b :: s' =>
      if is_ascii_digit b then digits_value (acc * 10 + (b2z b - 48)) s' else None
  end.

(** [str::parse] into an integer type with range [lo, hi]: an optional sign
    (a minus only for a signed type), at least one digit, and no overflow. *)
Definition parse_int (lo hi : Z) (s : str) : option Z :=
  let checked (z : Z) := if bool_decide (lo ≤ z ≤ hi) then Some z else None in
  match s with
  | [] => None
  | [b] => if decide (b = "+"%byte) then None
           else if decide (b = "-"%byte) then None
           else digits_value 0 [b] ≫= checked
  | b :: s' =>
      if decide (b = "+"%byte) then digits_value 0 s' ≫= checked
      else if bool_decide (lo < 0) && bool_decide (b = "-"%byte)
      then digits_value 0 s' ≫= λ z, checked (- z)
      else digits_value 0 s ≫= checked
  end.
Definition parse_i32 : str → option Z := parse_int (-2147483648) 2147483647.
Definition parse_u16 : str → option Z := parse_int 0 u16_max.
Definition parse_u8 : str → option Z := parse_int 0 u8_max.

(** [Display] of an integer: one more digit of fuel than the binary length. *)
Fixpoint digits_fuel (fuel : nat) (z : Z) (acc : str) : str :=
  match fuel with
  | O => acc
  | S f =>
      let acc' := z2b (48 + z mod 10) :: acc in
      if bool_decide (z < 10) then acc' else digits_fuel f (z / 10) acc'
  end.
Definition dec_unsigned (z : Z) : str := digits_fuel (S (Z.to_nat (Z.log2 z))) z [].
Definition dec (z : Z) : str :=
  if bool_decide (z < 0) then "-" ++ dec_unsigned (- z) else dec_unsigned z.

(** ** Characters: UTF-8 *)
Definition is_cont (b : byte) : bool := bool_decide (128 ≤ b2z b < 192).
Definition between (lo hi : Z) (b : byte) : bool := bool_decide (lo ≤ b2z b ≤ hi).
Definition cont_bits (b : byte) : Z := b2z b - 128.

(** The decoder of [core::str]: well-formed UTF-8 byte sequences only (no
    overlong forms, no surrogates, nothing above U+10FFFF). *)
Fixpoint utf8_decode (s : str) : option (list Z) :=
  match s with
  | [] => Some []
  | a :: s1 =>
    if bool_decide (b2z a < 128) then cons (b2z a) <$> utf8_decode s1
    else if between 194 223 a then
      match s1 with
      | b :: s2 =>
          if is_cont b
          then cons ((b2z a - 192) * 64 + cont_bits b) <$> utf8_decode s2
          else None
      | [] => None
      end
    else if between 224 239 a then
      match s1 with
      | b :: c :: s3 =>
          if is_cont b && is_cont c
             && (if bool_decide (b2z a = 224) then bool_decide (160 ≤ b2z b)
                 else if bool_decide (b2z a = 237) then bool_decide (b2z b < 160)
                 else true)
          then cons ((b2z a - 224) * 4096 + cont_bits b * 64 + cont_bits c)
                 <$> utf8_decode s3
          else None
      | _ => None
      end
    else if between 240 244 a then
      match s1 with
      | b :: c :: d :: s4 =>
          if is_cont b && is_cont c && is_cont d
             && (if bool_decide (b2z a = 240) then bool_decide (144 ≤ b2z b)
                 else if bool_decide (b2z a = 244) then bool_decide (b2z b < 144)
                 else true)
          then cons ((b2z a - 240) * 262144 + cont_bits b * 4096
                       + cont_bits c * 64 + cont_bits d) <$> utf8_decode s4
          else None
      | _ => None
      end
    else None
  end.

Definition utf8_encode_char (c : Z) : str :=
  if bool_decide (c < 128) then [z2b c]
  else if bool_decide (c < 2048) then [z2b (192 + c / 64); z2b (128 + c mod 64)]
  else if bool_decide (c < 65536)
  then [z2b (224 + c / 4096); z2b (128 + c / 64 mod 64); z2b (128 + c mod 64)]
  else [z2b (240 + c / 262144); z2b (128 + c / 4096 mod 64);
        z2b (128 + c / 64 mod 64); z2b (128 + c mod 64)].

Definition utf8_encode (l : list Z) : str := l ≫= utf8_encode_char.

Definition valid_utf8 (s : str) : bool := bool_decide (is_Some (utf8_decode s)).

(** [String::from_utf8]. *)
Definition from_utf8 (bs : list byte) : option str :=
  if valid_utf8 bs then Some bs else None.

(** [str::chars]; a Rust [str] is always valid UTF-8. *)
Definition chars (s : str) : list Z := default [] (utf8_decode s).

Definition is_scalar (c : Z) : Prop := 0 ≤ c ≤ 1114111 ∧ ¬ 55296 ≤ c ≤ 57343.

(** [char::is_whitespace]: the Unicode property White_Space. *)
Definition is_whitespace (c : Z) : bool :=
  bool_decide (9 ≤ c ≤ 13 ∨ c = 32 ∨ c = 133 ∨ c = 160 ∨ c = 5760
               ∨ 8192 ≤ c ≤ 8202 ∨ c = 8232 ∨ c = 8233 ∨ c = 8239 ∨ c = 8287
               ∨ c = 12288).

Fixpoint trim_start_chars (l : list Z) : list Z :=
  match l with
  | [] => []
  | c :: l' => if is_whitespace c then trim_start_chars l' else l
  end.
Definition trim_chars (l : list Z) : list Z :=
  rev (trim_start_chars (rev (trim_start_chars l))).
(** [str::trim]. *)
Definition trim (s : str) : str := utf8_encode (trim_chars (chars s)).

(** ** The order of [BTreeMap<String, _>] keys: bytewise lexicographic *)
Fixpoint str_leb (s t : str) : bool :=
  match s, t with
  | [], _ => true
  | _ :: _, [] => false
  | a :: s', b :: t' =>
      if bool_decide (b2z a < b2z b) then true
      else if bool_decide (a = b) then str_leb s' t' else false
  end.
Definition str_le (s t : str) : Prop := str_leb s t.
#[export] Instance str_le_dec : RelDecision str_le.
Proof. intros s t. unfold str_le. apply _. Defined.

(** Iteration over a [BTreeMap] and over a [BTreeSet]: in key order. *)
Definition btree_iter {V} (m : gmap str V) : list (str * V) :=
  merge_sort (λ p q, str_le p.1 q.1) (map_to_list m).
Definition btree_values {V} (m : gmap str V) : list V := (btree_iter m).*2.
Definition btree_set_iter (m : gset str) : list str := merge_sort str_le (elements m).

(** ** Lemmas: prefixes *)
Lemma strip_prefix_Some p s r : strip_prefix p s = Some r ↔ s = p ++ r.
Proof.
  revert s. induction p as [|a p IH]; intros s; simpl; [naive_solver|].
  destruct s as [|b s]; simpl; [naive_solver|].
  case_decide; [rewrite IH; naive_solver|naive_solver].
Qed.

Lemma strip_prefix_app p r : strip_prefix p (p ++ r) = Some r.
Proof. by apply strip_prefix_Some. Qed.

Lemma strip_prefix_None p s : strip_prefix p s = None ↔ ¬ p `prefix_of` s.
Proof.
  split.
  - intros H [r ->]. by rewrite strip_prefix_app in H.
  - intros H. destruct (strip_prefix p s) as [r|] eqn:E; [|done].
    apply strip_prefix_Some in E. destruct H. by exists r.
Qed.

Lemma starts_with_spec p s : starts_with p s = true ↔ ∃ r, s = p ++ r.
Proof. unfold starts_with. rewrite bool_decide_eq_true. done. Qed.

(** [path == prefix] or [path] continues [prefix] with a slash: the test the
    program writes with [strip_prefix] and [starts_with('/')]. *)
Definition under (prefix path : str) : Prop :=
  path = prefix ∨ ∃ r, path = prefix ++ slash :: r.

Lemma under_refl p : under p p.
Proof. by left. Qed.

Lemma under_trans p q r : under p q → under q r → under p r.
Proof.
  intros [->|[x ->]] [->|[y ->]]; unfold under; [by left|eauto..].
  right. exists (x ++ slash :: y). by rewrite <-app_assoc.
Qed.

Lemma under_dir prefix path : starts_with (prefix ++ "/") path = true → under prefix path.
Proof.
  intros [r ->]%bool_decide_eq_true. right. exists r. by rewrite <-app_assoc.
Qed.

Lemma suffix_slash_spec prefix path :
  (match strip_prefix prefix path with
   | Some suffix => starts_with "/" suffix
   | None => false
   end) = true ↔ ∃ r, path = prefix ++ slash :: r.
Proof.
  split.
  - destruct (strip_prefix prefix path) as [suf|] eqn:E; [|done].
    rewrite starts_with_spec. intros [r ->].
    apply strip_prefix_Some in E. by exists r.
  - intros [r ->]. rewrite strip_prefix_app. by apply starts_with_spec; exists r.
Qed.

(** ** Lemmas: split and join *)
Lemma split_nonempty c s : split c s ≠ [].
Proof. induction s; simpl; repeat case_match; done. Qed.

Lemma split_nin c s : Forall (λ x, c ∉ x) (split c s).
Proof.
  induction s as [|b s IH]; simpl.
  - constructor; [set_solver|done].
  - case_decide; [constructor; [set_solver|done]|].
    destruct (split c s) as [|h t]; [by constructor; [set_solver|]|].
    apply Forall_cons in IH as [??]. constructor; [set_solver|done].
Qed.

Lemma join_cons sep x l : l ≠ [] → join sep (x :: l) = x ++ sep ++ join sep l.
Proof. by destruct l. Qed.

Lemma join_split c s : join [c] (split c s) = s.
Proof.
  induction s as [|b s IH]; simpl; [done|].
  pose proof (split_nonempty c s).
  case_decide as Hbc.
  - subst. rewrite join_cons by done. simpl. by rewrite IH.
  - destruct (split c s) as [|h t]; [done|].
    destruct t; simpl in *; by rewrite <-IH.
Qed.

Lemma split_no c s : c ∉ s → split c s = [s].
Proof.
  induction s as [|b s IH]; simpl; intros Hc; [done|].
  rewrite decide_False by set_solver. rewrite IH by set_solver. done.
Qed.

Lemma split_app_sep c s t : split c (s ++ c :: t) = split c s ++ split c t.
Proof.
  induction s as [|b s IH]; simpl; [by rewrite decide_True|].
  rewrite IH. case_decide; [done|].
  pose proof (split_nonempty c s). destruct (split c s); done.
Qed.

Lemma split_join c l :
  l ≠ [] → Forall (λ x, c ∉ x) l → split c (join [c] l) = l.
Proof.
  induction l as [|x l IH]; [done|]. intros _ [Hx Hl]%Forall_cons.
  destruct l as [|y l]; [by apply split_no|].
  rewrite join_cons by done.
  change ([c] ++ join [c] (y :: l)) with (c :: join [c] (y :: l)).
  by rewrite split_app_sep, split_no, IH.
Qed.

Lemma elem_of_join x sep l :
  x ∈ join sep l → x ∈ sep ∨ ∃ s, s ∈ l ∧ x ∈ s.
Proof.
  induction l as [|y l IH]; simpl; [set_solver|].
  destruct l as [|z l]; [set_solver|].
  rewrite !elem_of_app. intros [?|[?|?]]; [set_solver..|].
  destruct (IH H) as [?|(s&?&?)]; set_solver.
Qed.

Lemma elem_of_split_char c s p x : p ∈ split c s → x ∈ p → x ∈ s.
Proof.
  revert p. induction s as [|b s IH]; simpl; intros p Hp Hx.
  { apply list_elem_of_singleton in Hp as ->. done. }
  case_decide as Hbc.
  { apply elem_of_cons in Hp as [->|Hp]; [by apply elem_of_nil in Hx|].
    right. by eapply IH. }
  destruct (split c s) as [|h t] eqn:E.
  { apply list_elem_of_singleton in Hp as ->.
    apply list_elem_of_singleton in Hx as ->. by left. }
  apply elem_of_cons in Hp as [->|Hp]; [|right; eapply IH; [by right|done]].
  apply elem_of_cons in Hx as [->|Hx]; [by left|].
  right. eapply IH; [by left|done].
Qed.

Lemma join_app sep l k :
  l ≠ [] → k ≠ [] → join sep (l ++ k) = join sep l ++ sep ++ join sep k.
Proof.
  induction l as [|x l IH]; [done|]. intros _ Hk.
  destruct l as [|y l]; [by simpl app; rewrite join_cons|].
  simpl app in *. rewrite !join_cons by done. rewrite IH by done.
  by rewrite <-!app_assoc.
Qed.

Lemma rsplit_once_None c s : rsplit_once c s = None ↔ c ∉ s.
Proof.
  induction s as [|b s IH]; simpl; [set_solver|].
  rewrite elem_of_cons. destruct (rsplit_once c s) as [[l r]|]; [naive_solver|].
  case_decide; naive_solver.
Qed.

Lemma rsplit_once_app c l r : c ∉ r → rsplit_once c (l ++ c :: r) = Some (l, r).
Proof.
  intros Hr. induction l as [|b l IH]; simpl; [|by rewrite IH].
  rewrite (proj2 (rsplit_once_None c r)) by done. by rewrite decide_True.
Qed.

Lemma rsplit_once_Some c s l r :
  rsplit_once c s = Some (l, r) ↔ s = l ++ c :: r ∧ c ∉ r.
Proof.
  split; [|intros [-> ?]; by apply rsplit_once_app].
  revert l. induction s as [|b s IH]; intros l; simpl; [done|].
  destruct (rsplit_once c s) as [[l' r']|] eqn:E.
  - intros [= <- <-]. by destruct (IH l' eq_refl) as [-> ?].
  - apply rsplit_once_None in E. case_decide; naive_solver.
Qed.

Lemma split_once_app c l r : c ∉ l → split_once c (l ++ c :: r) = Some (l, r).
Proof.
  induction l as [|b l IH]; simpl; intros Hl; [by rewrite decide_True|].
  rewrite decide_False by set_solver. rewrite IH by set_solver. done.
Qed.

Lemma split_once_None c s : split_once c s = None ↔ c ∉ s.
Proof.
  induction s as [|b s IH]; simpl; [set_solver|]. rewrite elem_of_cons.
  case_decide; [naive_solver|]. rewrite fmap_None. naive_solver.
Qed.

Lemma split_once_Some c s l r :
  split_once c s = Some (l, r) ↔ s = l ++ c :: r ∧ c ∉ l.
Proof.
  split; [|intros [-> ?]; by apply split_once_app].
  revert l. induction s as [|b s IH]; intros l; simpl; [done|].
  case_decide; [intros [= <- <-]; set_solver|].
  destruct (split_once c s) as [[l' r']|] eqn:E; [|done].
  intros [= <- <-]. destruct (IH l' eq_refl) as [-> ?]. set_solver.
Qed.

Lemma rsplit_next_app c l r : c ∉ r → rsplit_next c (l ++ c :: r) = Some r.
Proof.
  intros. unfold rsplit_next.
  by rewrite split_app_sep, (split_no c r), rev_app_distr.
Qed.

Lemma rsplit_next_no c s : c ∉ s → rsplit_next c s = Some s.
Proof. intros. unfold rsplit_next. by rewrite split_no. Qed.

(** ** Lemmas: lines *)
Lemma split_inclusive_line l rest :
  nl ∉ l → split_inclusive nl (l ++ nl :: rest) = (l ++ [nl]) :: split_inclusive nl rest.
Proof.
  induction l as [|b l IH]; simpl; intros Hl; [done|].
  apply not_elem_of_cons in Hl as [??].
  rewrite decide_False by done. by rewrite IH.
Qed.

Lemma strip_suffix_char_snoc c l : strip_suffix_char c (l ++ [c]) = Some l.
Proof.
  unfold strip_suffix_char, ends_with_char. rewrite last_snoc.
  rewrite bool_decide_true by done. f_equal. rewrite length_app. simpl.
  apply take_app_exact. lia.
Qed.

Lemma lines_line l rest :
  nl ∉ l → cr ∉ l → lines (l ++ nl :: rest) = l :: lines rest.
Proof.
  intros Hn Hc. unfold lines. rewrite split_inclusive_line by done.
  rewrite fmap_cons. f_equal. unfold strip_eol. rewrite strip_suffix_char_snoc.
  unfold strip_suffix_char at 1, ends_with_char.
  rewrite bool_decide_false; [done|]. intros Hl. apply Hc.
  rewrite last_lookup in Hl. by eapply list_elem_of_lookup_2.
Qed.

(** ** Lemmas: UTF-8 *)
Ltac zdiv := Z.to_euclidean_division_equations; lia.
Ltac bd_true := rewrite bool_decide_true by (first [lia | zdiv]).
Ltac bd_false := rewrite bool_decide_false by (first [lia | zdiv]).

Lemma b2z_z2b_eq z : 0 ≤ z ≤ 255 → b2z (z2b z) = z.
Proof. intros. apply b2z_z2b_small. lia. Qed.

Lemma utf8_decode_encode_char c s :
  is_scalar c → utf8_decode (utf8_encode_char c ++ s) = cons c <$> utf8_decode s.
Proof.
  intros [Hr Hs]. unfold utf8_encode_char.
  destruct (decide (c < 128)); [bd_true|bd_false].
  { simpl. rewrite b2z_z2b_eq by lia. by bd_true. }
  destruct (decide (c < 2048)); [bd_true|bd_false].
  { simpl. unfold between, is_cont, cont_bits.
    rewrite !b2z_z2b_eq by zdiv. bd_false. do 2 bd_true.
    do 2 f_equal. zdiv. }
  destruct (decide (c < 65536)); [bd_true|bd_false].
  { simpl. unfold between, is_cont, cont_bits.
    rewrite !b2z_z2b_eq by zdiv. do 2 bd_false. do 3 bd_true. simpl.
    destruct (decide (224 + c / 4096 = 224)); [do 2 bd_true|bd_false].
    { do 2 f_equal. zdiv. }
    destruct (decide (224 + c / 4096 = 237)); [do 2 bd_true|bd_false].
    { do 2 f_equal. zdiv. }
    do 2 f_equal. zdiv. }
  simpl. unfold between, is_cont, cont_bits.
  rewrite !b2z_z2b_eq by zdiv. do 3 bd_false. do 4 bd_true. simpl.
  destruct (decide (240 + c / 262144 = 240)); [do 2 bd_true|bd_false].
  { do 2 f_equal. zdiv. }
  destruct (decide (240 + c / 262144 = 244)); [do 2 bd_true|bd_false].
  { do 2 f_equal. zdiv. }
  do 2 f_equal. zdiv.
Qed.

Lemma utf8_decode_encode l :
  Forall is_scalar l → utf8_decode (utf8_encode l) = Some l.
Proof.
  induction 1 as [|c l Hc Hl IH]; [done|].
  unfold utf8_encode in *. rewrite bind_cons.
  rewrite utf8_decode_encode_char by done. by rewrite IH.
Qed.

Lemma z2b_eq z b : z = b2z b → z2b z = b.
Proof. intros ->. apply z2b_b2z. Qed.

Lemma utf8_char_1 a :
  b2z a < 128 → utf8_encode_char (b2z a) = [a] ∧ is_scalar (b2z a).
Proof.
  intros. pose proof (b2z_range a). split; [|unfold is_scalar; lia].
  unfold utf8_encode_char. bd_true. by rewrite z2b_b2z.
Qed.

Lemma utf8_char_2 a b c :
  c = (b2z a - 192) * 64 + cont_bits b →
  194 ≤ b2z a ≤ 223 → 128 ≤ b2z b < 192 →
  utf8_encode_char c = [a; b] ∧ is_scalar c.
Proof.
  unfold cont_bits. intros -> ??. split; [|unfold is_scalar; lia].
  unfold utf8_encode_char. bd_false. bd_true.
  repeat f_equal; apply z2b_eq; zdiv.
Qed.

Lemma utf8_char_3 a b d c :
  c = (b2z a - 224) * 4096 + cont_bits b * 64 + cont_bits d →
  224 ≤ b2z a ≤ 239 → 128 ≤ b2z b < 192 → 128 ≤ b2z d < 192 →
  (b2z a = 224 → 160 ≤ b2z b) → (b2z a = 237 → b2z b < 160) →
  utf8_encode_char c = [a; b; d] ∧ is_scalar c.
Proof.
  unfold cont_bits. intros -> ?????. split; [|unfold is_scalar; lia].
  unfold utf8_encode_char. do 2 bd_false. bd_true.
  repeat f_equal; apply z2b_eq; zdiv.
Qed.

Lemma utf8_char_4 a b d e c :
  c = (b2z a - 240) * 262144 + cont_bits b * 4096 + cont_bits d * 64 + cont_bits e →
  240 ≤ b2z a ≤ 244 → 128 ≤ b2z b < 192 → 128 ≤ b2z d < 192 → 128 ≤ b2z e < 192 →
  (b2z a = 240 → 144 ≤ b2z b) → (b2z a = 244 → b2z b < 144) →
  utf8_encode_char c = [a; b; d; e] ∧ is_scalar c.
Proof.
  unfold cont_bits. intros -> ??????. split; [|unfold is_scalar; lia].
  unfold utf8_encode_char. do 3 bd_false.
  repeat f_equal; apply z2b_eq; zdiv.
Qed.

(** Case analysis on the boolean guards of the decoder, one at a time. *)
Ltac split_guard H :=
  lazymatch type of H with
  | (if ?b then _ else _) = _ =>
      let E := fresh "G" in
      destruct b eqn:E;
      repeat match goal with
             | E : _ && _ = true |- _ => apply andb_prop in E as [? ?]
             | E : bool_decide _ = true |- _ => apply bool_decide_eq_true in E
             | E : bool_decide _ = false |- _ => apply bool_decide_eq_false in E
             end
  end.

Lemma utf8_encode_decode s l :
  utf8_decode s = Some l → utf8_encode l = s ∧ Forall is_scalar l.
Proof.
  remember (length s) as n eqn:Hn. assert (length s ≤ n)%nat as Hlen by lia.
  clear Hn. revert s l Hlen. induction n as [|n IH]; intros s l Hlen H.
  { destruct s; simpl in *; [by simplify_eq|lia]. }
  assert (∀ c pre s' l, utf8_encode_char c = pre ∧ is_scalar c →
    (length s' ≤ n)%nat → cons c <$> utf8_decode s' = Some l →
    utf8_encode l = pre ++ s' ∧ Forall is_scalar l) as Hstep.
  { intros c pre s' l0 [<- ?] ? (l'&Hd&->)%fmap_Some.
    apply IH in Hd as [<- ?]; [|done].
    unfold utf8_encode. rewrite bind_cons. auto. }
  destruct s as [|a s1]; simpl in *; [by simplify_eq|].
  unfold between, is_cont in H.
  split_guard H; [|split_guard H; [|split_guard H; [|split_guard H; [|done]]]].
  - eapply (Hstep _ [a]); [by apply utf8_char_1| |done]; lia.
  - destruct s1 as [|b s2]; [done|]. split_guard H; [|done]. simpl in *.
    eapply (Hstep _ [a; b]); [by apply utf8_char_2| |done]; lia.
  - destruct s1 as [|b [|c s3]]; [done..|]. split_guard H; [|done]. simpl in *.
    eapply (Hstep _ [a; b; c]); [apply utf8_char_3; [done..| |]| |done]; [..|lia];
      intros; repeat case_bool_decide; lia.
  - destruct s1 as [|b [|c [|d s4]]]; [done..|]. split_guard H; [|done]. simpl in *.
    eapply (Hstep _ [a; b; c; d]); [apply utf8_char_4; [done..| |]| |done]; [..|lia];
      intros; repeat case_bool_decide; lia.
Qed.

Lemma chars_encode s : valid_utf8 s → utf8_encode (chars s) = s.
Proof.
  unfold valid_utf8, chars. rewrite bool_decide_spec.
  intros [l Hl]. rewrite Hl. by apply utf8_encode_decode in Hl as [??].
Qed.

Lemma chars_scalar s : Forall is_scalar (chars s).
Proof.
  unfold chars. destruct (utf8_decode s) as [l|] eqn:E; simpl; [|constructor].
  by apply utf8_encode_decode in E as [??].
Qed.

Lemma valid_utf8_encode l : Forall is_scalar l → valid_utf8 (utf8_encode l).
Proof. intros. unfold valid_utf8. by rewrite bool_decide_spec, utf8_decode_encode. Qed.

Lemma utf8_decode_ascii s :
  Forall (λ b, b2z b < 128) s → utf8_decode s = Some (b2z <$> s).
Proof.
  induction 1 as [|b s Hb Hs IH]; [done|]. simpl. bd_true. by rewrite IH.
Qed.

Lemma from_utf8_ascii s : Forall (λ b, b2z b < 128) s → from_utf8 s = Some s.
Proof.
  intros H. unfold from_utf8, valid_utf8. rewrite utf8_decode_ascii by done.
  by rewrite bool_decide_true.
Qed.

(** ** Lemmas: the key order and iteration in it *)
Lemma str_le_cons a b s t :
  str_le (a :: s) (b :: t) ↔ b2z a < b2z b ∨ (a = b ∧ str_le s t).
Proof.
  unfold str_le. simpl. case_bool_decide; [naive_solver|].
  case_bool_decide; naive_solver.
Qed.

#[export] Instance str_le_refl : Reflexive str_le.
Proof. intros s. induction s; [done|]. apply str_le_cons. auto. Qed.

#[export] Instance str_le_trans : Transitive str_le.
Proof.
  intros s. induction s as [|a s IH]; intros [|b t] [|c u]; try done.
  rewrite !str_le_cons. intros [?|[-> ?]] [?|[-> ?]]; [left; lia|auto..].
  right. split; [done|]. by eapply IH.
Qed.

#[export] Instance str_le_antisym : AntiSymm (=) str_le.
Proof.
  intros s. induction s as [|a s IH]; intros [|b t]; try done.
  rewrite !str_le_cons. intros [?|[-> ?]] [?|[? ?]]; subst; try lia.
  f_equal. by apply IH.
Qed.

#[export] Instance str_le_total : Total str_le.
Proof.
  intros s. induction s as [|a s IH]; intros [|b t]; [by left|by left|by right|].
  rewrite !str_le_cons. destruct (decide (a = b)) as [->|Hne].
  - destruct (IH t); auto.
  - destruct (decide (b2z a < b2z b)); [auto|]. right. left.
    assert (b2z a ≠ b2z b) by (intros H; by apply (inj b2z) in H). lia.
Qed.

Section btree.
Context {V : Type}.
Implicit Types m : gmap str V.

Lemma btree_iter_perm m : btree_iter m ≡ₚ map_to_list m.
Proof. apply merge_sort_Permutation. Qed.

Lemma btree_iter_nodup m : NoDup (btree_iter m).*1.
Proof. rewrite btree_iter_perm. apply NoDup_fst_map_to_list. Qed.

Lemma elem_of_btree_iter m k v : (k, v) ∈ btree_iter m ↔ m !! k = Some v.
Proof. rewrite btree_iter_perm. apply elem_of_map_to_list. Qed.

Lemma list_to_map_btree_iter m : list_to_map (btree_iter m) = m.
Proof.
  rewrite <-(list_to_map_to_list m) at 2. apply list_to_map_proper.
  - apply btree_iter_nodup.
  - apply btree_iter_perm.
Qed.

(** The keys come out in strictly increasing order. *)
Lemma btree_iter_sorted m : StronglySorted str_le (btree_iter m).*1.
Proof.
  unfold btree_iter.
  assert (StronglySorted (λ p q : str * V, str_le p.1 q.1)
    (merge_sort (λ p q, str_le p.1 q.1) (map_to_list m))) as Hs.
  { assert (Transitive (λ p q : str * V, str_le p.1 q.1)).
    { intros p q r ??. by trans q.1. }
    assert (Total (λ p q : str * V, str_le p.1 q.1)).
    { intros p q. apply (total str_le). }
    by apply StronglySorted_merge_sort. }
  induction Hs as [|p l Hl IH Hp]; simpl; constructor; [done|].
  by apply Forall_fmap.
Qed.
End btree.

Lemma btree_set_iter_perm (m : gset str) : btree_set_iter m ≡ₚ elements m.
Proof. apply merge_sort_Permutation. Qed.
Lemma btree_set_iter_nodup (m : gset str) : NoDup (btree_set_iter m).
Proof. rewrite btree_set_iter_perm. apply NoDup_elements. Qed.
Lemma elem_of_btree_set_iter (m : gset str) k : k ∈ btree_set_iter m ↔ k ∈ m.
Proof. rewrite btree_set_iter_perm. apply elem_of_elements. Qed.

(** ** Lemmas: integers as text *)
Lemma digits_value_app acc s t :
  digits_value acc (s ++ t) = digits_value acc s ≫= λ z, digits_value z t.
Proof.
  revert acc. induction s as [|b s IH]; intros acc; simpl; [done|].
  case_match; [apply IH|done].
Qed.

Lemma digit_byte d :
  0 ≤ d < 10 → is_ascii_digit (z2b (48 + d)) = true ∧ b2z (z2b (48 + d)) - 48 = d.
Proof.
  intros. unfold is_ascii_digit. rewrite !b2z_z2b_eq by lia.
  split; [by bd_true|lia].
Qed.

(** Every digit list the printer makes reads back as the number it printed. *)
Lemma digits_fuel_value fuel z acc :
  0 ≤ z < 2 ^ Z.of_nat fuel → (fuel ≠ 0)%nat →
  ∃ ds, digits_fuel fuel z acc = ds ++ acc ∧ ds ≠ [] ∧
    Forall (λ b, is_ascii_digit b = true) ds ∧ digits_value 0 ds = Some z.
Proof.
  revert z acc. induction fuel as [|f IH]; intros z acc Hz Hf; [done|].
  destruct (digit_byte (z mod 10)) as [Hd Hv]; [apply Z.mod_pos_bound; lia|].
  simpl. case_bool_decide as Hlt.
  - exists [z2b (48 + z mod 10)]. simpl. rewrite Hd, Hv.
    rewrite Z.mod_small by lia. split_and!; [done..|constructor; [|constructor]|].
    + by rewrite <-(Z.mod_small z 10) by lia.
    + done.
  - replace (Z.of_nat (S f)) with (Z.succ (Z.of_nat f)) in Hz by lia.
    rewrite Z.pow_succ_r in Hz by lia.
    destruct (IH (z / 10) (z2b (48 + z mod 10) :: acc)) as (ds&Heq&Hne&Hall&Hval).
    { split; [apply Z.div_pos; lia|apply Z.div_lt_upper_bound; lia]. }
    { intros ->. simpl in Hz. lia. }
    exists (ds ++ [z2b (48 + z mod 10)]).
    rewrite <-app_assoc. split_and!; [done| |by apply Forall_app_2; auto|].
    + by destruct ds.
    + rewrite digits_value_app, Hval. simpl. rewrite Hd, Hv. f_equal. zdiv.
Qed.

Lemma dec_unsigned_value z :
  0 ≤ z → dec_unsigned z ≠ [] ∧ Forall (λ b, is_ascii_digit b = true) (dec_unsigned z)
          ∧ digits_value 0 (dec_unsigned z) = Some z.
Proof.
  intros Hz. unfold dec_unsigned.
  destruct (digits_fuel_value (S (Z.to_nat (Z.log2 z))) z []) as (ds&->&?&?&?).
  { split; [done|]. pose proof (Z.log2_nonneg z).
    replace (Z.of_nat (S (Z.to_nat (Z.log2 z)))) with (Z.succ (Z.log2 z)) by lia.
    destruct (decide (z = 0)) as [->|]; [done|].
    apply Z.log2_spec. lia. }
  { done. }
  by rewrite app_nil_r.
Qed.

Lemma digit_not_sign b :
  is_ascii_digit b = true → b ≠ "+"%byte ∧ b ≠ "-"%byte.
Proof.
  unfold is_ascii_digit. rewrite bool_decide_eq_true.
  intros H; split; intros ->; vm_compute in H; naive_solver.
Qed.

(** Printing an integer and parsing it back, for any integer type that holds it. *)
Lemma parse_int_dec lo hi z :
  lo ≤ z ≤ hi → parse_int lo hi (dec z) = Some z.
Proof.
  intros Hz. unfold dec. case_bool_decide as Hneg.
  - destruct (dec_unsigned_value (- z)) as (Hne&_&Hv); [lia|].
    destruct (dec_unsigned (- z)) as [|b s] eqn:E; [done|].
    simpl. rewrite bool_decide_true by lia. simpl in Hv. simpl. rewrite Hv. simpl.
    rewrite Z.opp_involutive. by rewrite bool_decide_true.
  - destruct (dec_unsigned_value z) as (Hne&Hd&Hv); [lia|].
    destruct (dec_unsigned z) as [|b s] eqn:E; [done|].
    apply Forall_cons in Hd as [Hb _]. destruct (digit_not_sign b Hb) as [Hp Hm].
    unfold parse_int. rewrite !(decide_False (P := b = _)) by done.
    rewrite (bool_decide_false (b = _)) by done. rewrite andb_false_r.
    destruct s; rewrite Hv; simpl; by rewrite bool_decide_true.
Qed.

(** ** Lemmas: trim *)
Lemma utf8_decode_app s t l :
  utf8_decode s = Some l → utf8_decode (s ++ t) = app l <$> utf8_decode t.
Proof.
  intros [<- Hl]%utf8_encode_decode. induction Hl as [|c l Hc Hl IH].
  - unfold utf8_encode. simpl. by destruct (utf8_decode t).
  - unfold utf8_encode in *. rewrite bind_cons, <-app_assoc.
    rewrite utf8_decode_encode_char, IH by done. by destruct (utf8_decode t).
Qed.

(** No white space at the edges: the text [trim] leaves alone. *)
Definition trimmed (s : str) : Prop :=
  ∃ l, utf8_decode s = Some l
    ∧ (∀ c, head l = Some c → is_whitespace c = false)
    ∧ (∀ c, last l = Some c → is_whitespace c = false).

Lemma trim_start_id l :
  (∀ c, head l = Some c → is_whitespace c = false) → trim_start_chars l = l.
Proof. destruct l as [|c l]; simpl; [done|]. intros H. by rewrite (H c eq_refl). Qed.

Lemma trim_id s : trimmed s → trim s = s.
Proof.
  intros (l&Hd&Hh&Hl). unfold trim, trim_chars, chars. rewrite Hd. simpl.
  rewrite (trim_start_id l) by done. rewrite (trim_start_id (rev l)), rev_involutive.
  - by apply utf8_encode_decode in Hd as [??].
  - intros c Hc. apply Hl. rewrite <-head_reverse. unfold reverse. by rewrite <-rev_alt.
Qed.

Lemma trimmed_ascii s :
  Forall (λ b, b2z b < 128 ∧ is_whitespace (b2z b) = false) s → trimmed s.
Proof.
  intros Hs. exists (b2z <$> s). split_and!.
  - apply utf8_decode_ascii. eapply Forall_impl; [done|]. by intros ? [??].
  - intros c. destruct s as [|b s]; [done|]. intros [= <-].
    by apply Forall_cons in Hs as [[??] _].
  - intros c. rewrite fmap_last. intros (b&Hb&->)%fmap_Some.
    rewrite last_lookup in Hb. by destruct (Forall_lookup_1 _ _ _ _ Hs Hb).
Qed.

(** Trimmed pieces around any valid text. *)
Lemma trimmed_wrap s m t :
  s ≠ "" → t ≠ "" → trimmed s → valid_utf8 m → trimmed t → trimmed (s ++ m ++ t).
Proof.
  intros Hs Ht (ls&Hds&Hhs&_) Hm (lt&Hdt&_&Hlt).
  unfold valid_utf8 in Hm. apply bool_decide_unpack in Hm as [lm Hdm].
  exists (ls ++ lm ++ lt).
  rewrite (utf8_decode_app _ _ _ Hds), (utf8_decode_app _ _ _ Hdm), Hdt. simpl.
  assert (ls ≠ []) by (intros ->; apply utf8_encode_decode in Hds as [<- _]; done).
  assert (lt ≠ []) by (intros ->; apply utf8_encode_decode in Hdt as [<- _]; done).
  split_and!; [done|..].
  - intros c. destruct ls; [done|]. apply Hhs.
  - intros c. rewrite !last_app. destruct (last lt) eqn:E; [|by apply last_None in E].
    intros [= ->]. by apply Hlt.
Qed.

Lemma valid_utf8_trimmed s : trimmed s → valid_utf8 s.
Proof. intros (l&Hl&_). unfold valid_utf8. by rewrite bool_decide_spec, Hl. Qed.

Lemma valid_utf8_app s t : valid_utf8 s → valid_utf8 t → valid_utf8 (s ++ t).
Proof.
  unfold valid_utf8. rewrite !bool_decide_spec. intros [ls Hs] [lt Ht].
  rewrite (utf8_decode_app _ _ _ Hs), Ht. by eexists.
Qed.

Lemma from_utf8_valid s : valid_utf8 s → from_utf8 s = Some s.
Proof. unfold from_utf8. by destruct (valid_utf8 s). Qed.

Lemma length_btree_iter {V} (m : gmap str V) : length (btree_iter m) = size m.
Proof. by rewrite btree_iter_perm, length_map_to_list. Qed.
Lemma length_btree_set_iter (m : gset str) : length (btree_set_iter m) = size m.
Proof. by rewrite btree_set_iter_perm. Qed.

(** From here on the operations are used through their lemmas. *)
#[global] Arguments strip_prefix : simpl never.
#[global] Arguments split : simpl never.
#[global] Arguments split_once : simpl never.
#[global] Arguments rsplit_once : simpl never.
