(* ===== verification/Text.v ===== *)
(** * Text

    The operations of [str] that look for a string, the lossy reading of bytes as text, and
    hexadecimal digits: what the runtime, the desktop program and the build tool use beside
    [RustStr]. *)
From S2P Require Import Prelude RustStr.

(** ** [String::from_utf8_lossy]

    The length of the longest valid or the shortest invalid sequence at the front, and
    whether it is valid; a byte past the end reads as zero. *)
Definition byte_at (s : list byte) (i : nat) : Z := default 0 (b2z <$> s !! i).
Definition continuation (c : Z) : bool := bool_decide (128 ≤ c ≤ 191).

Definition second_ok (first second : Z) : bool :=
  if bool_decide (first = 0xe0) then bool_decide (0xa0 ≤ second ≤ 0xbf)
  else if bool_decide (first = 0xed) then bool_decide (0x80 ≤ second ≤ 0x9f)
  else if bool_decide (first = 0xf0) then bool_decide (0x90 ≤ second ≤ 0xbf)
  else if bool_decide (first = 0xf4) then bool_decide (0x80 ≤ second ≤ 0x8f)
  else continuation second.

Definition utf8_chunk (s : list byte) : nat * bool :=
  let first := byte_at s 0 in
  if bool_decide (first < 128) then (1%nat, true)
  else if bool_decide (0xc2 ≤ first ≤ 0xdf) then
    if continuation (byte_at s 1) then (2%nat, true) else (1%nat, false)
  else if bool_decide (0xe0 ≤ first ≤ 0xef) then
    if negb (second_ok first (byte_at s 1)) then (1%nat, false)
    else if continuation (byte_at s 2) then (3%nat, true) else (2%nat, false)
  else if bool_decide (0xf0 ≤ first ≤ 0xf4) then
    if negb (second_ok first (byte_at s 1)) then (1%nat, false)
    else if negb (continuation (byte_at s 2)) then (2%nat, false)
    else if continuation (byte_at s 3) then (4%nat, true) else (3%nat, false)
  else (1%nat, false).

Fixpoint lossy_loop (fuel : nat) (s : list byte) : str :=
  match fuel, s with
  | O, _ | _, [] => []
  | S fuel, _ =>
      let '(n, valid) := utf8_chunk s in
      (if valid then take n s else utf8_encode_char 0xfffd) ++ lossy_loop fuel (drop n s)
  end.
Definition from_utf8_lossy (s : list byte) : str := lossy_loop (length s) s.

(** ** Searching for a string *)

(** [str::find]: the byte index of the first occurrence. *)
Fixpoint find_str (needle s : str) : option nat :=
  if starts_with needle s then Some O
  else match s with
  | [] => None
  | _ :: s => S <$> find_str needle s
  end.

(** [str::contains]. *)
Definition contains_str (needle s : str) : bool := bool_decide (is_Some (find_str needle s)).

(** [str::split_once] on a string. *)
Definition split_once_str (needle s : str) : option (str * str) :=
  i ← find_str needle s; Some (take i s, drop (i + length needle) s).

(** The first occurrence, and that there is one. *)
Definition first_occurrence (needle pre post s : str) : Prop :=
  s = pre ++ needle ++ post
  ∧ ∀ j, (j < length pre)%nat → ¬ needle `prefix_of` drop j s.
Definition occurs (needle s : str) : Prop := ∃ pre post, s = pre ++ needle ++ post.

Lemma find_str_Some needle s i :
  find_str needle s = Some i ↔
  (i ≤ length s)%nat ∧ first_occurrence needle (take i s) (drop (i + length needle) s) s.
Proof.
  revert i. induction s as [|b s IH]; intros i; cbn [find_str]; unfold starts_with;
    case_bool_decide as Hp.
  - destruct Hp as [post Hp]. symmetry in Hp. apply app_nil in Hp as [-> ->]. split.
    + intros [= <-]. split; [simpl; lia|]. split; [done|]. simpl. lia.
    + intros [Hi _]. simpl in Hi. f_equal. lia.
  - split; [done|]. intros [_ [Hs _]]. destruct Hp. rewrite take_nil in Hs.
    by exists (drop (i + length needle) []).
  - destruct Hp as [post Hp]. split.
    + intros [= <-]. split; [lia|]. split; [|simpl; lia]. cbn [take app]. rewrite Hp at 1.
      f_equal. by rewrite Hp, Nat.add_0_l, drop_app_length.
    + intros [_ [_ Hf]]. destruct i as [|i]; [done|]. destruct (Hf O); [simpl; lia|].
      rewrite drop_0, Hp. by exists post.
  - destruct i as [|i].
    + split; [by destruct (find_str needle s)|]. intros [_ [Hs _]]. destruct Hp.
      rewrite Hs. by eexists.
    + transitivity (find_str needle s = Some i).
      { destruct (find_str needle s); simpl; naive_solver. }
      rewrite IH. unfold first_occurrence. cbn [length take drop Nat.add app]. split.
      * intros (Hi&Hs&Hf). split; [lia|]. split; [by f_equal|]. intros [|j] Hj; [done|].
        apply Hf. lia.
      * intros (Hi&Hs&Hf). split; [lia|]. split; [by injection Hs|]. intros j Hj.
        apply (Hf (S j)). lia.
Qed.

Lemma find_str_first needle pre post s :
  first_occurrence needle pre post s → find_str needle s = Some (length pre).
Proof.
  intros Hf. apply find_str_Some. pose proof Hf as [Hs _].
  assert (take (length pre) s = pre) as -> by (by rewrite Hs, take_app_length).
  assert (drop (length pre + length needle) s = post) as ->.
  { rewrite Hs, app_assoc. apply drop_app_exact. by rewrite length_app. }
  split; [|done]. rewrite Hs, length_app. lia.
Qed.

Lemma find_str_None needle s : find_str needle s = None ↔ ¬ occurs needle s.
Proof.
  induction s as [|b s IH]; cbn [find_str]; unfold starts_with; case_bool_decide as Hp.
  - split; [done|]. intros []. destruct Hp as [post Hp]. by exists [], post.
  - split; [|done]. intros _ (pre&post&Hs). symmetry in Hs.
    apply app_nil in Hs as [_ [-> _]%app_nil]. destruct Hp. by apply prefix_nil.
  - split; [done|]. intros []. destruct Hp as [post Hp]. by exists [], post.
  - rewrite fmap_None, IH. split; intros Hn (pre&post&Hs); apply Hn.
    + destruct pre as [|a pre]; [destruct Hp; by exists post|]. injection Hs as -> ->.
      by exists pre, post.
    + exists (b :: pre), post. by rewrite Hs.
Qed.

Lemma contains_str_spec needle s : contains_str needle s = true ↔ occurs needle s.
Proof.
  unfold contains_str. rewrite bool_decide_eq_true, <-not_eq_None_Some, find_str_None.
  split; [|tauto]. intros Hn. destruct (find_str needle s) as [i|] eqn:E.
  - apply find_str_Some in E as [_ [Hs _]]. by eexists _, _.
  - by apply find_str_None in E.
Qed.

(** Cutting at the first occurrence. *)
Lemma split_once_str_Some needle s pre post :
  split_once_str needle s = Some (pre, post) ↔ first_occurrence needle pre post s.
Proof.
  unfold split_once_str. split.
  - destruct (find_str needle s) as [i|] eqn:E; [|done]. intros [= <- <-].
    by apply find_str_Some in E as [_ ?].
  - intros Hf. rewrite (find_str_first _ pre post) by done. pose proof Hf as [Hs _].
    cbn [mbind option_bind]. do 2 f_equal; [by rewrite Hs, take_app_length|].
    rewrite Hs, app_assoc. apply drop_app_exact. by rewrite length_app.
Qed.

(** ** Hexadecimal *)
Definition hex_digit (n : Z) : byte := z2b (if bool_decide (n < 10) then 48 + n else 87 + n).
(** [{byte:02x}]. *)
Definition hex_byte (b : byte) : str := [hex_digit (b2z b / 16); hex_digit (b2z b mod 16)].
Definition hex_string (bs : list byte) : str := bs ≫= hex_byte.

Lemma hex_digit_inj m n : 0 ≤ m < 16 → 0 ≤ n < 16 → hex_digit m = hex_digit n → m = n.
Proof.
  intros Hm Hn H. apply (f_equal b2z) in H. unfold hex_digit in H.
  rewrite !b2z_z2b_small in H by (repeat case_bool_decide; lia).
  repeat case_bool_decide; lia.
Qed.

(** Two byte strings with the same digits are the same. *)
#[export] Instance hex_string_inj : Inj (=) (=) hex_string.
Proof.
  intros l. induction l as [|a l IH]; intros [|b k] H; [done..|].
  unfold hex_string in H. rewrite !bind_cons in H. unfold hex_byte in H.
  injection H as H1 H2 H3. pose proof (b2z_range a). pose proof (b2z_range b).
  apply hex_digit_inj in H1;
    [|split; [apply Z.div_pos; lia|apply Z.div_lt_upper_bound; lia]..].
  apply hex_digit_inj in H2; [|apply Z.mod_pos_bound; lia..]. f_equal; [|by apply IH].
  apply (inj b2z). rewrite (Z.div_mod (b2z a) 16), (Z.div_mod (b2z b) 16) by lia. congruence.
Qed.

(** ** Lossy reading of valid text *)
Lemma byte_at_0 a s : byte_at (a :: s) 0 = b2z a.
Proof. done. Qed.
Lemma byte_at_S a s i : byte_at (a :: s) (S i) = byte_at s i.
Proof. done. Qed.

(** Text that is valid UTF-8 is read as it is. *)
Lemma lossy_valid_loop fuel s l :
  (length s ≤ fuel)%nat → utf8_decode s = Some l → lossy_loop fuel s = s.
Proof.
  revert s l. induction fuel as [|fuel IH]; intros s l Hf Hd; [destruct s; [done|simpl in *; lia]|].
  assert (∀ n, utf8_chunk s = (n, true) → (0 < n)%nat →
    (∃ l', utf8_decode (drop n s) = Some l') → lossy_loop (S fuel) s = s) as Hgo.
  { intros n Hc Hn [l' Hl']. destruct s as [|a s1]; [done|]. cbn [lossy_loop]. rewrite Hc.
    rewrite (IH _ l'); [apply take_drop| |done]. rewrite length_drop. simpl in *. lia. }
  destruct s as [|a s1]; [done|]. cbn [utf8_decode] in Hd. unfold between, is_cont in Hd.
  case_bool_decide as H1.
  { destruct (utf8_decode s1) eqn:E; [|done]. apply (Hgo 1%nat); [|lia|by eexists].
    unfold utf8_chunk. rewrite byte_at_0. by rewrite bool_decide_true. }
  case_bool_decide as H2.
  { destruct s1 as [|b s2]; [done|]. case_bool_decide as H3; [|done].
    destruct (utf8_decode s2) eqn:E; [|done]. apply (Hgo 2%nat); [|lia|by eexists].
    unfold utf8_chunk, continuation. rewrite byte_at_S, !byte_at_0, bool_decide_false by lia.
    by rewrite !bool_decide_true by lia. }
  case_bool_decide as H3.
  { destruct s1 as [|b [|c s3]]; [done..|].
    destruct (_ && _ && _) eqn:Hb; [|done]. destruct (utf8_decode s3) eqn:E; [|done].
    apply andb_true_iff in Hb as [[Hb Hc]%andb_true_iff Hx].
    rewrite bool_decide_eq_true in Hb, Hc. apply (Hgo 3%nat); [|lia|by eexists].
    unfold utf8_chunk, second_ok, continuation. rewrite !byte_at_S, !byte_at_0.
    rewrite !(bool_decide_false (b2z a < 128)), (bool_decide_false (0xc2 ≤ _ ≤ 0xdf)),
      (bool_decide_true (0xe0 ≤ b2z a ≤ 0xef)), (bool_decide_true (128 ≤ b2z c ≤ 191)) by lia.
    repeat case_bool_decide; try done; lia. }
  case_bool_decide as H4; [|done].
  destruct s1 as [|b [|c [|d s4]]]; [done..|].
  destruct (_ && _ && _) eqn:Hb; [|done]. destruct (utf8_decode s4) eqn:E; [|done].
  apply andb_true_iff in Hb as [[[Hb Hc]%andb_true_iff Hd']%andb_true_iff Hx].
  rewrite bool_decide_eq_true in Hb, Hc, Hd'. apply (Hgo 4%nat); [|lia|by eexists].
  unfold utf8_chunk, second_ok, continuation. rewrite !byte_at_S, !byte_at_0.
  rewrite !(bool_decide_false (b2z a < 128)), (bool_decide_false (0xc2 ≤ _ ≤ 0xdf)),
    (bool_decide_false (0xe0 ≤ b2z a ≤ 0xef)), (bool_decide_true (0xf0 ≤ b2z a ≤ 0xf4)),
    (bool_decide_true (128 ≤ b2z c ≤ 191)), (bool_decide_true (128 ≤ b2z d ≤ 191)) by lia.
  repeat case_bool_decide; try done; lia.
Qed.
Lemma lossy_valid s : valid_utf8 s = true → from_utf8_lossy s = s.
Proof. intros [l Hl]%bool_decide_eq_true. by eapply lossy_valid_loop. Qed.
