(* ===== verification/Api.v ===== *)
(** * The AFOS contracts ([crates/afos-api/src/lib.rs])

    The error type, the capability type and the three traits of the system:
    [Platform] (what a backend offers), [SystemApi] (what an application may
    call) and [AppRuntime] (an interpreter of application sources).  A trait is
    a type class whose methods run in the state monad of the implementing type.

    An interpreted application can do nothing but call [SystemApi] methods, so
    what [AppRuntime::execute] does with a source is a tree of such calls: a
    theorem about every [app_prog] is a theorem about every application. *)
From S2P Require Import Prelude RustStr.

Inductive Error : Type :=
| InvalidPath
| NotFound (path : str)
| AlreadyExists (path : str)
| NotDirectory (path : str)
| IsDirectory (path : str)
| ReadOnly (path : str)
| PermissionDenied (message : str)
| CapabilityNotDeclared (capability : str)
| AuthenticationFailed
| AuthenticationRequired
| RateLimited (milliseconds : Z)
| InvalidInput (message : str)
| Unsupported (message : str)
| ResourceLimit (message : str)
| Runtime (message : str)
| Io (message : str).

#[export] Instance Error_eq_dec : EqDecision Error.
Proof. solve_decision. Defined.

(** [impl Display for Error]. *)
Definition error_to_string (e : Error) : str :=
  match e with
  | InvalidPath => "invalid path"
  | NotFound path => "not found: " ++ path
  | AlreadyExists path => "already exists: " ++ path
  | NotDirectory path => "not a directory: " ++ path
  | IsDirectory path => "is a directory: " ++ path
  | ReadOnly path => "read-only path: " ++ path
  | PermissionDenied message => "permission denied: " ++ message
  | CapabilityNotDeclared capability => "capability not declared: " ++ capability
  | AuthenticationFailed => "authentication failed"
  | AuthenticationRequired => "authentication required"
  | RateLimited ms => "authentication rate limited for " ++ dec ms ++ " ms"
  | InvalidInput message => "invalid input: " ++ message
  | Unsupported message => "unsupported: " ++ message
  | ResourceLimit message => "resource limit: " ++ message
  | Runtime message => "runtime error: " ++ message
  | Io message => "I/O error: " ++ message
  end.

Record SystemInfo := {
  si_name : str; si_version : str; si_platform : str; si_architecture : str }.

Record StorageEntry := { se_name : str; se_is_dir : bool; se_len : Z }.

Record NetStatus := {
  ns_link_up : bool; ns_mac : str; ns_address : option str; ns_gateway : option str }.

(** ** The platform trait

    A method that fills a [&mut [u8]] takes the buffer and returns it changed.
    Reading the clock may move it. *)
Class Platform (P : Type) : Type := {
  console_write : str → M P Error ();
  console_read_line : str → bool → M P Error str;
  console_clear : M P Error ();
  storage_read : str → M P Error (list byte);
  storage_write : str → list byte → M P Error ();
  storage_list : str → M P Error (list StorageEntry);
  storage_create_dir_all : str → M P Error ();
  storage_remove : str → M P Error ();
  storage_rename : str → str → M P Error ();
  storage_exists : str → M P Error bool;
  monotonic_millis : M P Error Z;
  fill_random : list byte → M P Error (list byte);
  system_info : P → SystemInfo;
  poll_cancel : P → bool * P;
  net_status : M P Error NetStatus;
  net_connect : str → Z → M P Error Z;
  net_send : Z → list byte → M P Error Z;
  net_recv : Z → list byte → M P Error (Z * list byte);
  net_close : Z → M P Error ()
}.

(** The default methods of the trait: a backend without cancellation input and
    without networking. *)
Definition net_unavailable : Error :=
  Unsupported "networking is unavailable on this platform".
Definition default_poll_cancel {P} : P → bool * P := λ p, (false, p).
Definition default_net_status {P} : M P Error NetStatus := throw net_unavailable.
Definition default_net_connect {P} (_host : str) (_port : Z) : M P Error Z :=
  throw net_unavailable.
Definition default_net_send {P} (_handle : Z) (_data : list byte) : M P Error Z :=
  throw net_unavailable.
Definition default_net_recv {P} (_handle : Z) (_out : list byte) :
    M P Error (Z * list byte) := throw net_unavailable.
Definition default_net_close {P} (_handle : Z) : M P Error () := throw net_unavailable.

(** ** Capabilities *)
Inductive Capability : Type :=
| FsRead (path : str)
| FsWrite (path : str)
| Clock
| CapSystemInfo
| Network (host : str).

#[export] Instance Capability_eq_dec : EqDecision Capability.
Proof. solve_decision. Defined.

(** [impl Display for Capability]. *)
Definition capability_to_string (c : Capability) : str :=
  match c with
  | FsRead path => "fs.read:" ++ path
  | FsWrite path => "fs.write:" ++ path
  | Clock => "clock"
  | CapSystemInfo => "system.info"
  | Network host => "net:" ++ host
  end.

Record AppIdentity := {
  app_id : str;
  app_source_path : str;
  app_trusted : bool;
  app_api_version : Z;
  app_capabilities : list Capability }.

(** ** The interface applications see *)
Class SystemApi (S : Type) : Type := {
  api_app : M S Error AppIdentity;
  api_args : M S Error (list str);
  api_cwd : M S Error str;
  api_console_write : str → M S Error ();
  api_console_read_line : str → M S Error str;
  api_read_text : str → M S Error str;
  api_write_text : str → str → M S Error ();
  api_list : str → M S Error (list StorageEntry);
  api_create_dir_all : str → M S Error ();
  api_remove : str → M S Error ();
  api_rename : str → str → M S Error ();
  api_appdata_read : str → M S Error str;
  api_appdata_write : str → str → M S Error ();
  api_monotonic_millis : M S Error Z;
  api_system_info : M S Error SystemInfo;
  api_net_status : M S Error NetStatus;
  api_net_connect : str → Z → M S Error Z;
  api_net_send : Z → list byte → M S Error Z;
  api_net_recv : Z → Z → M S Error (list byte);
  api_net_close : Z → M S Error ();
  api_cancelled : M S Error bool
}.

(** ** Applications as trees of [SystemApi] calls *)
Inductive api_op : Type → Type :=
| OpApp : api_op AppIdentity
| OpArgs : api_op (list str)
| OpCwd : api_op str
| OpConsoleWrite (text : str) : api_op ()
| OpConsoleReadLine (prompt : str) : api_op str
| OpReadText (path : str) : api_op str
| OpWriteText (path text : str) : api_op ()
| OpList (path : str) : api_op (list StorageEntry)
| OpCreateDirAll (path : str) : api_op ()
| OpRemove (path : str) : api_op ()
| OpRename (from to : str) : api_op ()
| OpAppdataRead (path : str) : api_op str
| OpAppdataWrite (path text : str) : api_op ()
| OpMonotonicMillis : api_op Z
| OpSystemInfo : api_op SystemInfo
| OpNetStatus : api_op NetStatus
| OpNetConnect (host : str) (port : Z) : api_op Z
| OpNetSend (handle : Z) (data : list byte) : api_op Z
| OpNetRecv (handle max : Z) : api_op (list byte)
| OpNetClose (handle : Z) : api_op ()
| OpCancelled : api_op bool.

Definition api_exec {S} `{!SystemApi S} {T} (o : api_op T) : M S Error T :=
  match o with
  | OpApp => api_app
  | OpArgs => api_args
  | OpCwd => api_cwd
  | OpConsoleWrite text => api_console_write text
  | OpConsoleReadLine prompt => api_console_read_line prompt
  | OpReadText path => api_read_text path
  | OpWriteText path text => api_write_text path text
  | OpList path => api_list path
  | OpCreateDirAll path => api_create_dir_all path
  | OpRemove path => api_remove path
  | OpRename from to => api_rename from to
  | OpAppdataRead path => api_appdata_read path
  | OpAppdataWrite path text => api_appdata_write path text
  | OpMonotonicMillis => api_monotonic_millis
  | OpSystemInfo => api_system_info
  | OpNetStatus => api_net_status
  | OpNetConnect host port => api_net_connect host port
  | OpNetSend handle data => api_net_send handle data
  | OpNetRecv handle max => api_net_recv handle max
  | OpNetClose handle => api_net_close handle
  | OpCancelled => api_cancelled
  end.

(** An application run: it finishes with a result, or calls the API and goes on
    with the answer (an error is an answer: scripts can catch it). *)
Inductive app_prog : Type :=
| AppDone (r : res Error Z)
| AppCall (T : Type) (o : api_op T) (k : Error + T → app_prog).
Arguments AppCall {T} o k.

Fixpoint run_prog {S} `{!SystemApi S} (p : app_prog) : M S Error Z :=
  match p with
  | AppDone r => lift r
  | AppCall o k => λ s,
      match api_exec o s with
      | (Ok t, s') => run_prog (k (inr t)) s'
      | (Err e, s') => run_prog (k (inl e)) s'
      | (Panic, s') => (Panic, s')
      end
  end.

(** [AppRuntime]: [rt_execute] is the call tree the interpreter makes of a
    source. *)
Record AppRuntime := {
  rt_id : str;
  rt_extension : str;
  rt_execute : str → app_prog }.

(** What every API call of an implementation keeps, every application keeps. *)
Lemma run_prog_preserves {S} `{!SystemApi S} (I : S → Prop) p :
  (∀ T (o : api_op T), preserves I (api_exec o)) → preserves I (run_prog p).
Proof.
  intros Hop. induction p as [r|T o k IH]; intros s Hs; simpl; [done|].
  specialize (Hop T o s Hs). destruct (api_exec o s) as [[t|e|] s1]; simpl in *;
    [by apply IH..|done].
Qed.

Lemma run_prog_evolves {S} `{!SystemApi S} (R : S → S → Prop) `{!PreOrder R} p :
  (∀ T (o : api_op T), evolves R (api_exec o)) → evolves R (run_prog p).
Proof.
  intros Hop. induction p as [r|T o k IH]; intros s; simpl; [reflexivity|].
  specialize (Hop T o s). destruct (api_exec o s) as [[t|e|] s1]; simpl in *;
    [etrans; [exact Hop|apply IH]..|done].
Qed.
