(* ===== verification/Mock.v ===== *)
(** * The in-memory platform of the core's own tests
    ([crates/afos-core/tests/core.rs], [MockPlatform])

    A complete [Platform] instance that runs: the concrete states on which the
    theorems about an arbitrary platform are instantiated. *)
From S2P Require Import Prelude RustStr Api.

Record MockPlatform := mk_mock {
  mock_files : gmap str (list byte);
  mock_dirs : gset str;
  mock_input : list str;
  mock_output : str;
  mock_now : Z;
  mock_connected : list str }.

Definition mock_default : MockPlatform := mk_mock ∅ ∅ [] [] 0 [].

Definition mock_set_files f (p : MockPlatform) : MockPlatform :=
  mk_mock (f (mock_files p)) (mock_dirs p) (mock_input p) (mock_output p)
    (mock_now p) (mock_connected p).
Definition mock_set_dirs f (p : MockPlatform) : MockPlatform :=
  mk_mock (mock_files p) (f (mock_dirs p)) (mock_input p) (mock_output p)
    (mock_now p) (mock_connected p).
Definition mock_set_input f (p : MockPlatform) : MockPlatform :=
  mk_mock (mock_files p) (mock_dirs p) (f (mock_input p)) (mock_output p)
    (mock_now p) (mock_connected p).
Definition mock_set_output f (p : MockPlatform) : MockPlatform :=
  mk_mock (mock_files p) (mock_dirs p) (mock_input p) (f (mock_output p))
    (mock_now p) (mock_connected p).
Definition mock_set_connected f (p : MockPlatform) : MockPlatform :=
  mk_mock (mock_files p) (mock_dirs p) (mock_input p) (mock_output p)
    (mock_now p) (f (mock_connected p)).

Definition mock_parent (path : str) : str :=
  match rsplit_once slash path with Some (parent, _) => parent | None => "" end.

(** The directories [add_parents] inserts: every non-empty prefix of the path. *)
Fixpoint parent_chain (current : str) (parts : list str) : list str :=
  match parts with
  | [] => []
  | c :: rest =>
      let current' := (if bool_decide (current = "") then "" else current ++ "/") ++ c in
      current' :: parent_chain current' rest
  end.

Definition mock_add_parents (path : str) (p : MockPlatform) : MockPlatform :=
  mock_set_dirs
    (λ d, foldl (λ d c, {[c]} ∪ d) d
            (parent_chain "" (filter (λ c, c ≠ "") (split slash path)))) p.

Definition mock_write (path : str) (data : list byte) (p : MockPlatform) : MockPlatform :=
  mock_set_files <[path := data]> (mock_add_parents (mock_parent path) p).

Definition mock_child (prefix path : str) : option str :=
  match strip_prefix prefix path with
  | Some remainder =>
      if bool_decide (remainder = "") || contains slash remainder then None
      else Some remainder
  | None => None
  end.

Definition mock_entries (prefix : str) (p : MockPlatform) : gmap str StorageEntry :=
  let entries := foldl (λ m d,
    match mock_child prefix d with
    | Some name => <[name := {| se_name := name; se_is_dir := true; se_len := 0 |}]> m
    | None => m
    end) ∅ (btree_set_iter (mock_dirs p)) in
  foldl (λ m f,
    match mock_child prefix f.1 with
    | Some name =>
        <[name := {| se_name := name; se_is_dir := false; se_len := len f.2 |}]> m
    | None => m
    end) entries (btree_iter (mock_files p)).

Fixpoint mock_random (index : nat) (output : list byte) : list byte :=
  match output with
  | [] => []
  | _ :: rest => z2b (Z.lxor (Z.of_nat index) 165) :: mock_random (S index) rest
  end.

#[export] Instance MockPlatform_Platform : Platform MockPlatform := {|
  console_write text := modify (mock_set_output (λ o, o ++ text));
  console_read_line _ _ := λ p,
    match mock_input p with
    | [] => (Err (Io "no mock input"), p)
    | line :: rest => (Ok line, mock_set_input (λ _, rest) p)
    end;
  console_clear := modify (mock_set_output (λ _, []));
  storage_read path := reads (λ p, ok_or (NotFound path) (mock_files p !! path));
  storage_write path data := modify (mock_write path data);
  storage_list path := reads (λ p,
    if bool_decide (path ∈ mock_dirs p)
    then Ok (btree_values
               (mock_entries (if bool_decide (path = "") then "" else path ++ "/") p))
    else Err (NotDirectory path));
  storage_create_dir_all path := modify (mock_add_parents path);
  storage_remove path := modify (λ p,
    mock_set_dirs (filter (λ n, n ≠ path ∧ starts_with (path ++ "/") n = false))
      (mock_set_files (λ f, filter (λ kv, starts_with (path ++ "/") kv.1 = false)
                              (delete path f)) p));
  storage_rename from to := λ p,
    match mock_files p !! from with
    | None => (Err (NotFound from), p)
    | Some data => (Ok (), mock_write to data (mock_set_files (delete from) p))
    end;
  storage_exists path := gets (λ p,
    bool_decide (is_Some (mock_files p !! path)) || bool_decide (path ∈ mock_dirs p));
  monotonic_millis := gets mock_now;
  fill_random output := mret (mock_random 0 output);
  system_info _ := {| si_name := "AFOS"; si_version := "test";
                      si_platform := "mock"; si_architecture := "test" |};
  poll_cancel := default_poll_cancel;
  net_status := mret {| ns_link_up := true; ns_mac := "mock";
                        ns_address := Some "198.51.100.2/24";
                        ns_gateway := Some "198.51.100.1" |};
  net_connect host port := λ p,
    let p' := mock_set_connected (λ c, c ++ [host ++ ":" ++ dec port]) p in
    (Ok (len (mock_connected p')), p');
  net_send _ data := mret (len data);
  net_recv _ out := mret (0, out);
  net_close _ := mret ()
|}.
