(* ===== verification/Vfs.v ===== *)
(** * The virtual file system ([crates/afos-core/src/vfs.rs])

    Path normalisation, the read-only [/sys] table and the routing of every
    other path to the platform's storage.  The theorems show that a normalised
    path is canonical, that normalisation rejects exactly the paths that climb
    above the root, that the platform only ever sees paths below [apps] and
    [user], and that nothing changes [/sys]. *)
From S2P Require Import Prelude RustStr Api Mock.

Record EmbeddedFile := { ef_path : str; ef_data : list byte }.

Definition is_path_prefix (prefix path : str) : bool :=
  bool_decide (path = prefix)
  || match strip_prefix prefix path with
     | Some suffix => starts_with "/" suffix
     | None => false
     end.

(** ** [normalize_path]

    The component vector is kept with its top (the last component) first. *)
Fixpoint walk (components parts : list str) : res Error (list str) :=
  match parts with
  | [] => Ok components
  | component :: rest =>
      if bool_decide (component = "") || bool_decide (component = ".")
      then walk components rest
      else if bool_decide (component = "..")
      then match components with
           | [] => Err InvalidPath
           | _ :: components' => walk components' rest
           end
      else walk (component :: components) rest
  end.

Definition cwd_components (cwd : str) : list str :=
  rev (filter (λ c, c ≠ "") (split slash cwd)).

Definition normalize_path (cwd input : str) : res Error str :=
  if contains nul input || contains backslash input then Err InvalidPath
  else
    let components := if negb (starts_with "/" input) then cwd_components cwd else [] in
    components ← walk components (split slash input);
    Ok ("/" ++ join "/" (rev components)).

(** ** The file system *)
Record Vfs (P : Type) := mk_vfs {
  vfs_platform : P;
  vfs_system_files : list EmbeddedFile }.
Arguments mk_vfs {P}.
Arguments vfs_platform {P}.
Arguments vfs_system_files {P}.

Definition set_vfs_platform {P} (p : P) (v : Vfs P) : Vfs P :=
  mk_vfs p (vfs_system_files v).

(** [platform_mut()]: run a platform method. *)
Definition platform_mut {P A} (m : M P Error A) : M (Vfs P) Error A :=
  zoom vfs_platform set_vfs_platform m.

Definition persistent_path (path : str) : res Error str :=
  relative ← ok_or InvalidPath (strip_prefix "/" path);
  if bool_decide (relative = "")
     || negb (is_path_prefix "apps" relative || is_path_prefix "user" relative)
  then Err (PermissionDenied "path is outside persistent mounts")
  else Ok relative.

Definition system_file (files : list EmbeddedFile) (path : str) : option EmbeddedFile :=
  List.find (λ file, bool_decide (ef_path file = path)) files.

Definition dir_prefix (path : str) : str :=
  if ends_with_char slash path then path else path ++ "/".

Definition system_dir_exists (files : list EmbeddedFile) (path : str) : bool :=
  existsb (λ file, starts_with (dir_prefix path) (ef_path file)) files.

Definition list_system_step (prefix : str) (entries : gmap str StorageEntry)
    (file : EmbeddedFile) : gmap str StorageEntry :=
  match strip_prefix prefix (ef_path file) with
  | None => entries
  | Some remainder =>
      let '(name, is_dir) :=
        match split_once slash remainder with
        | Some (name, _) => (name, true)
        | None => (remainder, false)
        end in
      if bool_decide (name = "") then entries
      else match entries !! name with
           | Some _ => entries
           | None =>
               <[name := {| se_name := name; se_is_dir := is_dir;
                            se_len := if is_dir then 0 else len (ef_data file) |}]>
                 entries
           end
  end.

Definition list_system (files : list EmbeddedFile) (path : str) :
    res Error (list StorageEntry) :=
  if negb (bool_decide (path = "/sys")) && negb (system_dir_exists files path)
  then Err (NotFound path)
  else Ok (btree_values (foldl (list_system_step (dir_prefix path)) ∅ files)).

Definition layout_dirs : list str :=
  ["apps"; "user"; "user/config"; "user/saves"; "user/appdata"].

Definition protected_roots : list str :=
  ["/"; "/apps"; "/user"; "/user/config"; "/user/saves"; "/user/appdata"].

Definition root_entry (name : str) : StorageEntry :=
  {| se_name := name; se_is_dir := true; se_len := 0 |}.

Definition vfs_new {P} (platform : P) : Vfs P := mk_vfs platform [].
Definition vfs_with_system_files {P} (platform : P) (files : list EmbeddedFile) : Vfs P :=
  mk_vfs platform files.

Section operations.
Context {P : Type} `{!Platform P}.

Definition vfs_initialize_layout : M (Vfs P) Error () :=
  for_each (λ path, platform_mut (storage_create_dir_all path)) layout_dirs.

Definition vfs_exists (path : str) : M (Vfs P) Error bool :=
  path ← lift (normalize_path "/" path);
  if bool_decide (path = "/") || bool_decide (path = "/sys")
     || bool_decide (path = "/apps") || bool_decide (path = "/user")
  then mret true
  else if is_path_prefix "/sys" path
  then gets (λ v, bool_decide (is_Some (system_file (vfs_system_files v) path))
                  || system_dir_exists (vfs_system_files v) path)
  else
    rel ← lift (persistent_path path);
    platform_mut (storage_exists rel).

Definition vfs_read (path : str) : M (Vfs P) Error (list byte) :=
  path ← lift (normalize_path "/" path);
  if is_path_prefix "/sys" path
  then reads (λ v, ok_or (NotFound path)
                     (ef_data <$> system_file (vfs_system_files v) path))
  else
    rel ← lift (persistent_path path);
    platform_mut (storage_read rel).

Definition vfs_read_text (path : str) : M (Vfs P) Error str :=
  bytes ← vfs_read path;
  lift (ok_or (InvalidInput "file is not valid UTF-8") (from_utf8 bytes)).

Definition vfs_write (path : str) (data : list byte) : M (Vfs P) Error () :=
  path ← lift (normalize_path "/" path);
  if is_path_prefix "/sys" path then throw (ReadOnly path)
  else
    rel ← lift (persistent_path path);
    platform_mut (storage_write rel data).

Definition vfs_list (path : str) : M (Vfs P) Error (list StorageEntry) :=
  path ← lift (normalize_path "/" path);
  if bool_decide (path = "/")
  then mret [root_entry "sys"; root_entry "apps"; root_entry "user"]
  else if is_path_prefix "/sys" path
  then reads (λ v, list_system (vfs_system_files v) path)
  else
    rel ← lift (persistent_path path);
    platform_mut (storage_list rel).

Definition vfs_create_dir_all (path : str) : M (Vfs P) Error () :=
  path ← lift (normalize_path "/" path);
  if is_path_prefix "/sys" path then throw (ReadOnly path)
  else
    rel ← lift (persistent_path path);
    platform_mut (storage_create_dir_all rel).

Definition vfs_remove (path : str) : M (Vfs P) Error () :=
  path ← lift (normalize_path "/" path);
  if is_path_prefix "/sys" path then throw (ReadOnly path)
  else if bool_decide (path ∈ protected_roots)
  then throw (PermissionDenied "cannot remove an AFOS root directory")
  else
    rel ← lift (persistent_path path);
    platform_mut (storage_remove rel).

Definition vfs_rename (from to : str) : M (Vfs P) Error () :=
  from ← lift (normalize_path "/" from);
  to ← lift (normalize_path "/" to);
  if is_path_prefix "/sys" from || is_path_prefix "/sys" to
  then throw (ReadOnly "/sys")
  else
    rel_from ← lift (persistent_path from);
    rel_to ← lift (persistent_path to);
    platform_mut (storage_rename rel_from rel_to).
End operations.

(** ** Canonical paths

    The specification side: a path is a list of proper components. *)
Definition component (c : str) : Prop :=
  c ≠ "" ∧ c ≠ "." ∧ c ≠ ".." ∧ slash ∉ c ∧ nul ∉ c ∧ backslash ∉ c.

#[export] Instance component_dec c : Decision (component c).
Proof. unfold component. apply _. Defined.

Definition path_of (cs : list str) : str := "/" ++ join "/" cs.

Definition canonical (p : str) : Prop := ∃ cs, Forall component cs ∧ p = path_of cs.

Definition pieces (p : str) : list str := filter (λ c, c ≠ "") (split slash p).

Lemma component_slash c : component c → slash ∉ c.
Proof. unfold component. tauto. Qed.

Lemma components_slash cs : Forall component cs → Forall (λ c, slash ∉ c) cs.
Proof. intros. eapply Forall_impl; [done|]. apply component_slash. Qed.

(** What splitting and joining need of a name. *)
Definition part (c : str) : Prop := c ≠ "" ∧ slash ∉ c.

Lemma split_path_of_parts cs :
  Forall part cs → split slash (path_of cs) = "" :: match cs with [] => [""] | _ => cs end.
Proof.
  intros Hcs. unfold path_of. change ("/" ++ join "/" cs) with ([] ++ slash :: join "/" cs).
  rewrite split_app_sep. simpl. f_equal.
  destruct cs; [done|]. apply split_join; [done|]. eapply Forall_impl; [done|]. by intros ? [].
Qed.

Lemma pieces_path_of_parts cs : Forall part cs → pieces (path_of cs) = cs.
Proof.
  intros H. unfold pieces. rewrite split_path_of_parts by done.
  rewrite filter_cons_False by naive_solver.
  destruct cs as [|c cs]; [done|]. apply filter_all. eapply Forall_impl; [done|]. by intros ? [].
Qed.

Lemma component_part c : component c → part c.
Proof. unfold component, part. tauto. Qed.
Lemma components_parts cs : Forall component cs → Forall part cs.
Proof. intros. eapply Forall_impl; [done|]. apply component_part. Qed.

Lemma filter_components cs : Forall component cs → filter (λ c, c ≠ "") cs = cs.
Proof.
  intros. apply filter_all. eapply Forall_impl; [done|]. by intros c [??].
Qed.

Lemma split_path_of cs :
  Forall component cs →
  split slash (path_of cs) = "" :: match cs with [] => [""] | _ => cs end.
Proof. intros. by apply split_path_of_parts, components_parts. Qed.

Lemma pieces_path_of cs : Forall component cs → pieces (path_of cs) = cs.
Proof. intros. by apply pieces_path_of_parts, components_parts. Qed.

Lemma path_of_inj cs ds :
  Forall component cs → Forall component ds → path_of cs = path_of ds → cs = ds.
Proof.
  intros Hc Hd H. rewrite <-(pieces_path_of cs), <-(pieces_path_of ds) by done.
  by rewrite H.
Qed.

Lemma canonical_alt p : canonical p ↔ Forall component (pieces p) ∧ p = path_of (pieces p).
Proof.
  split; [|intros [??]; by exists (pieces p)].
  intros (cs&Hcs&->). by rewrite pieces_path_of.
Qed.

#[export] Instance canonical_dec p : Decision (canonical p).
Proof.
  refine (cast_if (decide (Forall component (pieces p) ∧ p = path_of (pieces p))));
    by rewrite canonical_alt.
Defined.

(** [walk] on proper components only pushes. *)
Lemma walk_components base cs :
  Forall component cs → walk base cs = Ok (rev cs ++ base).
Proof.
  intros Hcs. revert base. induction Hcs as [|c cs Hc Hcs IH]; intros base; [done|].
  destruct Hc as (?&?&?&?). simpl. rewrite !bool_decide_false by done. simpl.
  rewrite IH, <-app_assoc. done.
Qed.

(** [walk] keeps a stack of proper components proper. *)
Lemma walk_proper base parts cs :
  Forall component base →
  Forall (λ c, slash ∉ c ∧ nul ∉ c ∧ backslash ∉ c) parts →
  walk base parts = Ok cs → Forall component cs.
Proof.
  intros Hb Hp. revert base Hb. induction Hp as [|c parts Hc Hp IH]; simpl;
    intros base Hb H; [by simplify_eq|].
  destruct (bool_decide (c = "") || bool_decide (c = ".")) eqn:E1; [by eapply IH|].
  apply orb_false_elim in E1 as [?%bool_decide_eq_false ?%bool_decide_eq_false].
  case_bool_decide as E2.
  - destruct base as [|b base]; [done|]. apply Forall_cons in Hb as [_ Hb].
    by eapply IH.
  - eapply (IH (c :: base)); [|done]. constructor; [|done]. unfold component. tauto.
Qed.

Lemma parts_clean input :
  contains nul input || contains backslash input = false →
  Forall (λ c, slash ∉ c ∧ nul ∉ c ∧ backslash ∉ c) (split slash input).
Proof.
  unfold contains. intros [Hn%bool_decide_eq_false Hb%bool_decide_eq_false]%orb_false_elim.
  apply Forall_forall. intros c Hc.
  pose proof (proj1 (Forall_forall _ _) (split_nin slash input) c Hc).
  split_and!; [done|..]; intros H'; by eapply elem_of_split_char in H'.
Qed.

Lemma cwd_components_path_of cs :
  Forall component cs → cwd_components (path_of cs) = rev cs.
Proof. intros. unfold cwd_components. f_equal. by apply pieces_path_of. Qed.

Lemma normalize_components cwd input p :
  canonical cwd → normalize_path cwd input = Ok p →
  ∃ cs, Forall component cs ∧ p = path_of cs ∧
    walk (if negb (starts_with "/" input) then cwd_components cwd else [])
      (split slash input) = Ok (rev cs) ∧
    contains nul input || contains backslash input = false.
Proof.
  intros (ws&Hws&->) H. unfold normalize_path in H.
  destruct (contains nul input || contains backslash input) eqn:E; [done|].
  destruct (walk _ _) as [cs|e|] eqn:W; simplify_eq/=.
  exists (rev cs). rewrite rev_involutive. split_and!; [|done..].
  apply List.Forall_rev. eapply walk_proper; [|by apply parts_clean|done].
  destruct (negb (starts_with "/" input)); [|constructor].
  rewrite cwd_components_path_of by done. by apply List.Forall_rev.
Qed.

Lemma canonical_root : canonical "/".
Proof. by exists []. Qed.
#[export] Hint Resolve canonical_root : core.

Lemma canonical_clean p :
  canonical p → contains nul p || contains backslash p = false.
Proof.
  intros (cs&Hcs&->). unfold contains.
  assert (∀ b, b ≠ slash → (∀ c, component c → b ∉ c) → b ∉ path_of cs) as Hb.
  { intros b Hne Hc Hin. unfold path_of in Hin.
    apply elem_of_cons in Hin as [->|Hin]; [done|].
    apply elem_of_join in Hin as [Hin|(c&Hin&Hb)].
    - by apply list_elem_of_singleton in Hin as ->.
    - apply (Hc c); [|done]. by eapply Forall_forall in Hcs. }
  rewrite !bool_decide_false; [done|..]; apply Hb; [done| |done|];
    unfold component; tauto.
Qed.

Lemma starts_with_path_of cs : starts_with "/" (path_of cs) = true.
Proof. apply starts_with_spec. by eexists. Qed.

Lemma normalize_canonical_id cwd p : canonical p → normalize_path cwd p = Ok p.
Proof.
  intros Hp. unfold normalize_path. rewrite canonical_clean by done.
  destruct Hp as (cs&Hcs&->). rewrite starts_with_path_of, split_path_of by done.
  simpl. destruct cs as [|c cs]; [done|].
  rewrite walk_components by done. simpl.
  rewrite app_nil_r. by rewrite <-(rev_involutive (c :: cs)).
Qed.

Lemma normalize_canonical cwd input p :
  canonical cwd → normalize_path cwd input = Ok p → canonical p.
Proof.
  intros Hc H. destruct (normalize_components _ _ _ Hc H) as (cs&?&?&_). by exists cs.
Qed.

(** ** Theorems: normalisation *)

(** C1. Whatever the input, a path resolved from a canonical working directory
    is canonical: absolute, without empty, [.] or [..] components, and free of
    NUL and backslash. *)
Theorem normalize_path_canonical cwd input p :
  canonical cwd → normalize_path cwd input = Ok p → canonical p.
Proof. apply normalize_canonical. Qed.

Lemma normalize_path_canonical_witness :
  canonical "/user/saves" ∧ normalize_path "/user/saves" "./../config//x" = Ok "/user/config/x"
  ∧ canonical "/user/config/x".
Proof.
  assert (canonical "/user/saves") as Hc
    by by_eval.
  split_and!; [done|by_vm|].
  by apply (normalize_path_canonical "/user/saves" "./../config//x").
Defined.

(** Normalisation is the identity on canonical paths, from any working
    directory; so it is idempotent, and the second normalisation inside the
    file system operations never changes a path the caller resolved. *)
Theorem normalize_path_idempotent cwd cwd' input p :
  canonical cwd → normalize_path cwd input = Ok p → normalize_path cwd' p = Ok p.
Proof.
  intros Hc H. apply normalize_canonical_id.
  destruct (normalize_components _ _ _ Hc H) as (cs&?&?&_). by exists cs.
Qed.

Lemma normalize_path_idempotent_witness :
  canonical "/" ∧ normalize_path "/" "apps/./a" = Ok "/apps/a"
  ∧ normalize_path "/user" "/apps/a" = Ok "/apps/a".
Proof.
  split_and!; [done|by_vm|].
  by apply (normalize_path_idempotent "/" "/user" "apps/./a").
Defined.

(** How far a component moves from the root. *)
Definition step_depth (c : str) : Z :=
  if bool_decide (c = "") || bool_decide (c = ".") then 0
  else if bool_decide (c = "..") then -1 else 1.
Definition depth (parts : list str) : Z := foldr (λ c z, step_depth c + z) 0 parts.

Lemma walk_outcome base parts :
  (walk base parts = Err InvalidPath ∧
     ∃ k, len base + depth (take k parts) < 0)
  ∨ (∃ cs, walk base parts = Ok cs ∧ len cs = len base + depth parts ∧
     ∀ k, 0 ≤ len base + depth (take k parts)).
Proof.
  revert base. induction parts as [|c parts IH]; intros base; simpl.
  { right. exists base. split_and!; [done|lia|].
    intros k. rewrite take_nil. simpl. pose proof (len_nonneg base). lia. }
  assert (∀ base', len base' = len base + step_depth c →
    (walk base' parts = Err InvalidPath ∧
       ∃ k, len base + depth (take k (c :: parts)) < 0)
    ∨ (∃ cs, walk base' parts = Ok cs ∧ len cs = len base + (step_depth c + depth parts)
       ∧ ∀ k, 0 ≤ len base + depth (take k (c :: parts)))) as Hstep.
  { intros base' Hlen. destruct (IH base') as [[-> [k Hk]]|(cs&->&Hcs&Hk)].
    - left. split; [done|]. exists (S k). simpl. lia.
    - right. exists cs. split_and!; [done|lia|].
      intros [|k]; simpl; [pose proof (len_nonneg base); lia|].
      specialize (Hk k). lia. }
  unfold step_depth in *.
  destruct (bool_decide (c = "") || bool_decide (c = ".")); [apply Hstep; lia|].
  case_bool_decide.
  - destruct base as [|b base].
    + left. split; [done|]. exists 1%nat. subst c. by vm_compute.
    + apply Hstep. unfold len. simpl. lia.
  - apply Hstep. unfold len. simpl. lia.
Qed.

(** [normalize_path] rejects exactly the inputs with a NUL or a backslash and
    the inputs that climb above the root at some point, counting from the
    working directory when they are relative; it accepts every other input and
    never panics. *)
Theorem normalize_path_rejects_escape cwd input :
  let start := if starts_with "/" input then 0 else len (pieces cwd) in
  (normalize_path cwd input = Err InvalidPath ↔
     nul ∈ input ∨ backslash ∈ input ∨
     ∃ k, start + depth (take k (split slash input)) < 0)
  ∧ (normalize_path cwd input = Err InvalidPath ∨ ∃ p, normalize_path cwd input = Ok p).
Proof.
  unfold normalize_path.
  destruct (contains nul input || contains backslash input) eqn:E.
  { apply orb_prop in E as [?%bool_decide_eq_true|?%bool_decide_eq_true]; naive_solver. }
  apply orb_false_elim in E as [?%bool_decide_eq_false ?%bool_decide_eq_false].
  assert (len (if negb (starts_with "/" input) then cwd_components cwd else [])
          = if starts_with "/" input then 0 else len (pieces cwd)) as <-.
  { destruct (starts_with "/" input); [done|]. unfold len, cwd_components; simpl.
    by rewrite length_rev. }
  destruct (walk_outcome (if negb (starts_with "/" input) then cwd_components cwd else [])
              (split slash input)) as [[-> Hk]|(cs&->&_&Hk)]; simpl; [tauto|].
  split; [|naive_solver]. split; [done|].
  intros [?|[?|[k Hlt]]]; [done..|]. specialize (Hk k). lia.
Qed.

Lemma walk_app base parts parts' :
  walk base (parts ++ parts') = walk base parts ≫= λ b, walk b parts'.
Proof.
  revert base. induction parts as [|c parts IH]; intros base; simpl; [done|].
  repeat case_match; done || apply IH.
Qed.

(** Resolving a relative path from a canonical working directory is resolving
    the absolute path one writes by putting the directory in front. *)
Theorem normalize_path_relative cwd input :
  canonical cwd → starts_with "/" input = false →
  normalize_path cwd input = normalize_path "/" (cwd ++ "/" ++ input).
Proof.
  intros Hc Hrel. pose proof (canonical_clean _ Hc) as Hclean.
  destruct Hc as (cs&Hcs&->). unfold normalize_path.
  assert (∀ b, contains b (path_of cs) = false → b ≠ slash →
    contains b (path_of cs ++ "/" ++ input) = contains b input) as Hcont.
  { unfold contains. intros b Hb%bool_decide_eq_false Hne. apply bool_decide_ext.
    rewrite !elem_of_app, list_elem_of_singleton. naive_solver. }
  apply orb_false_elim in Hclean as [? ?]. rewrite !Hcont, Hrel by done.
  destruct (contains nul input || contains backslash input); [done|].
  change (path_of cs ++ "/" ++ input) with (path_of cs ++ slash :: input).
  rewrite split_app_sep, split_path_of, walk_app, cwd_components_path_of by done.
  assert (starts_with "/" (path_of cs ++ slash :: input) = true) as ->
    by (apply starts_with_spec; by eexists).
  simpl. destruct cs as [|c cs]; [done|].
  rewrite (walk_components [] (c :: cs)) by done. simpl. by rewrite app_nil_r.
Qed.

Lemma normalize_path_relative_witness :
  canonical "/user" ∧ starts_with "/" "a/../b" = false ∧
  normalize_path "/user" "a/../b" = normalize_path "/" "/user/a/../b".
Proof.
  assert (canonical "/user") as Hc
    by by_eval.
  split_and!; [done|by_vm|].
  by apply (normalize_path_relative "/user" "a/../b").
Defined.

(** ** Routing *)
Lemma is_path_prefix_spec prefix path :
  is_path_prefix prefix path = true ↔ under prefix path.
Proof.
  unfold is_path_prefix, under. rewrite orb_true_iff, bool_decide_eq_true.
  by rewrite suffix_slash_spec.
Qed.

Lemma is_path_prefix_false prefix path :
  is_path_prefix prefix path = false ↔ ¬ under prefix path.
Proof. rewrite <-is_path_prefix_spec. by destruct (is_path_prefix _ _). Qed.

(** The relative paths a platform may be asked about. *)
Definition mount_path (rel : str) : Prop :=
  (under "apps" rel ∨ under "user" rel) ∧ canonical ("/" ++ rel).

#[export] Instance under_dec prefix path : Decision (under prefix path).
Proof.
  refine (cast_if (decide (is_path_prefix prefix path = true)));
    by rewrite <-is_path_prefix_spec.
Defined.
#[export] Instance mount_path_dec rel : Decision (mount_path rel).
Proof. unfold mount_path. apply _. Defined.

Lemma persistent_path_Ok path rel :
  canonical path → persistent_path path = Ok rel → path = "/" ++ rel ∧ mount_path rel.
Proof.
  intros Hc. unfold persistent_path.
  destruct (strip_prefix "/" path) as [r|] eqn:E; [|done]. simpl.
  apply strip_prefix_Some in E as ->.
  destruct (bool_decide (r = "") || _) eqn:G; [done|]. intros [= <-].
  apply orb_false_elim in G as [_ G]. apply negb_false_iff, orb_true_iff in G.
  rewrite !is_path_prefix_spec in G. done.
Qed.

Lemma persistent_path_mount rel :
  mount_path rel → persistent_path ("/" ++ rel) = Ok rel.
Proof.
  intros [Hu _]. unfold persistent_path. rewrite strip_prefix_app. simpl.
  rewrite bool_decide_false by (intros ->; by destruct Hu as [[|[? ?]]|[|[? ?]]]).
  by rewrite <-!is_path_prefix_spec, <-orb_true_iff in Hu; rewrite Hu.
Qed.

Lemma mount_path_not_sys rel : mount_path rel → is_path_prefix "/sys" ("/" ++ rel) = false.
Proof.
  intros [Hu _]. apply is_path_prefix_false. intros Hs.
  by destruct Hs as [?|[? ?]], Hu as [[->|[? ->]]|[->|[? ->]]].
Qed.

(** On a canonical path below a mount an operation is the platform's. *)
Section mounted.
Context {P : Type} `{!Platform P}.
Implicit Types v : Vfs P.

Lemma mount_normalize rel : mount_path rel → normalize_path "/" ("/" ++ rel) = Ok ("/" ++ rel).
Proof. intros [_ Hc]. by apply normalize_canonical_id. Qed.

Ltac mounted :=
  intros Hm; rewrite mount_normalize, bind_lift_ok, mount_path_not_sys by done;
  rewrite persistent_path_mount by done.

Lemma vfs_read_mount rel v :
  mount_path rel → vfs_read ("/" ++ rel) v = platform_mut (storage_read rel) v.
Proof. unfold vfs_read. by mounted. Qed.

Lemma vfs_write_mount rel d v :
  mount_path rel → vfs_write ("/" ++ rel) d v = platform_mut (storage_write rel d) v.
Proof. unfold vfs_write. by mounted. Qed.

Lemma vfs_create_mount rel v :
  mount_path rel →
  vfs_create_dir_all ("/" ++ rel) v = platform_mut (storage_create_dir_all rel) v.
Proof. unfold vfs_create_dir_all. by mounted. Qed.

Lemma vfs_exists_mount rel v :
  mount_path rel → rel ≠ "apps" → rel ≠ "user" →
  vfs_exists ("/" ++ rel) v = platform_mut (storage_exists rel) v.
Proof.
  intros Hm ??. unfold vfs_exists. rewrite mount_normalize, bind_lift_ok by done.
  rewrite !bool_decide_false; [by cbn [orb]; rewrite mount_path_not_sys,
    persistent_path_mount by done|..]; try (intros [=]; done);
    destruct Hm as [[[->|[? ->]]|[->|[? ->]]] _]; done.
Qed.
End mounted.

Inductive vfs_op : Type :=
| VfsInitializeLayout
| VfsExists (path : str)
| VfsRead (path : str)
| VfsReadText (path : str)
| VfsWrite (path : str) (data : list byte)
| VfsList (path : str)
| VfsCreateDirAll (path : str)
| VfsRemove (path : str)
| VfsRename (from to : str).

(** Any method of the file system, its answer dropped. *)
Definition vfs_exec {P} `{!Platform P} (o : vfs_op) : M (Vfs P) Error () :=
  match o with
  | VfsInitializeLayout => vfs_initialize_layout
  | VfsExists path => vfs_exists path ;; mret ()
  | VfsRead path => vfs_read path ;; mret ()
  | VfsReadText path => vfs_read_text path ;; mret ()
  | VfsWrite path data => vfs_write path data
  | VfsList path => vfs_list path ;; mret ()
  | VfsCreateDirAll path => vfs_create_dir_all path
  | VfsRemove path => vfs_remove path
  | VfsRename from to => vfs_rename from to
  end.

(** [confined R]: [R] holds across every storage call the contract allows, that
    is on a mount path, and for a removal on one that is no layout directory. *)
Record confined {P} `{!Platform P} (R : P → P → Prop) : Prop := {
  confined_read rel : mount_path rel → evolves R (storage_read rel);
  confined_write rel data : mount_path rel → evolves R (storage_write rel data);
  confined_list rel : mount_path rel → evolves R (storage_list rel);
  confined_create rel : mount_path rel → evolves R (storage_create_dir_all rel);
  confined_remove rel :
    mount_path rel → rel ∉ layout_dirs → evolves R (storage_remove rel);
  confined_rename from to :
    mount_path from → mount_path to → evolves R (storage_rename from to);
  confined_exists rel : mount_path rel → evolves R (storage_exists rel) }.

Definition vfs_rel {P} (R : P → P → Prop) (v v' : Vfs P) : Prop :=
  R (vfs_platform v) (vfs_platform v') ∧ vfs_system_files v' = vfs_system_files v.

#[export] Instance vfs_rel_preorder {P} (R : P → P → Prop) `{!PreOrder R} :
  PreOrder (vfs_rel R).
Proof.
  split.
  - intros v. by split.
  - intros v1 v2 v3 [??] [??]. split; [by etrans|congruence].
Qed.

Section confinement.
Context {P : Type} `{!Platform P} (R : P → P → Prop) `{!PreOrder R}.

Lemma evolves_platform_mut {A} (m : M P Error A) :
  evolves R m → evolves (vfs_rel R) (platform_mut m).
Proof. apply evolves_zoom. intros v t Ht. by split. Qed.

Lemma evolves_normalize {A} path (k : str → M (Vfs P) Error A) :
  (∀ p, canonical p → evolves (vfs_rel R) (k p)) →
  evolves (vfs_rel R) (p ← lift (normalize_path "/" path); k p).
Proof.
  intros Hk v. rewrite bind_run. unfold lift.
  destruct (normalize_path "/" path) as [p|e|] eqn:E; [|simpl; reflexivity..].
  apply Hk. by eapply normalize_canonical in E.
Qed.

Lemma evolves_persistent {A} path (k : str → M (Vfs P) Error A) :
  canonical path →
  (∀ rel, path = "/" ++ rel → mount_path rel → evolves (vfs_rel R) (k rel)) →
  evolves (vfs_rel R) (rel ← lift (persistent_path path); k rel).
Proof.
  intros Hc Hk v. rewrite bind_run. unfold lift.
  destruct (persistent_path path) as [p|e|] eqn:E; [|simpl; reflexivity..].
  apply persistent_path_Ok in E as [??]; [|done]. by apply Hk.
Qed.

Local Hint Resolve confined_read confined_write confined_list confined_create
  confined_rename confined_exists : evolve.

Ltac vfs_evolve :=
  evolve_with ltac:(first [apply evolves_normalize | apply evolves_persistent; [done|]
                          | apply evolves_platform_mut; solve [eauto with evolve]]).

Lemma layout_mount path : path ∈ layout_dirs → mount_path path.
Proof.
  apply (Forall_forall (λ p, mount_path p)). by_eval.
Qed.

Lemma protected_roots_layout rel :
  rel ∈ layout_dirs → "/" ++ rel ∈ protected_roots.
Proof. apply (Forall_forall (λ p, "/" ++ p ∈ protected_roots)). by_eval. Qed.

Lemma vfs_exec_evolves (o : vfs_op) : confined R → evolves (vfs_rel R) (vfs_exec o).
Proof.
  intros Hc. destruct o; simpl; unfold vfs_initialize_layout, vfs_exists, vfs_read_text,
    vfs_read, vfs_write, vfs_list, vfs_create_dir_all, vfs_remove, vfs_rename; vfs_evolve.
  - apply evolves_platform_mut. by apply confined_create, layout_mount.
  - subst. apply evolves_platform_mut, confined_remove; [done..|].
    intros ?%protected_roots_layout. by case_bool_decide.
Qed.

(** C2. For every platform and every preorder [R] on its states that holds across
    the storage calls the contract allows, each file system operation moves the
    platform along [R] and leaves the [/sys] table as it was: no operation hands
    the platform a path outside [apps] and [user], a path that is not canonical,
    or a layout directory to remove. *)
Theorem vfs_confinement (o : vfs_op) :
  confined R → evolves (vfs_rel R) (vfs_exec o).
Proof. apply vfs_exec_evolves. Qed.
End confinement.

(** The test platform is confined: nothing outside the mounts changes. *)
Definition mock_outside (p p' : MockPlatform) : Prop :=
  ∀ k, ¬ under "apps" k → ¬ under "user" k → mock_files p' !! k = mock_files p !! k.

#[export] Instance mock_outside_preorder : PreOrder mock_outside.
Proof.
  split; [by intros p k|]. intros p1 p2 p3 H1 H2 k ??. rewrite H2, H1 by done. done.
Qed.

Lemma mount_path_ne rel k :
  mount_path rel → ¬ under "apps" k → ¬ under "user" k → ¬ under rel k.
Proof. intros [[|] _] ?? ?; eauto using under_trans. Qed.

Lemma mount_path_self k :
  mount_path k → ¬ under "apps" k → ¬ under "user" k → False.
Proof. intros [[|] _]; done. Qed.

Lemma mock_confined : confined mock_outside.
Proof.
  split; intros; intros p k ??; unfold mock_write; simpl; try done.
  - rewrite lookup_insert_ne; [done|]. intros ->. by apply (mount_path_self k).
  - rewrite map_lookup_filter. unfold mock_set_files; simpl.
    rewrite lookup_delete_ne
      by (intros ->; by apply (mount_path_self k)).
    destruct (mock_files p !! k); [|done]. simpl.
    rewrite option_guard_True; [done|].
    destruct (starts_with (rel ++ "/") k) eqn:E; [|done].
    apply under_dir in E. by eapply mount_path_ne in E.
  - destruct (mock_files p !! from); simpl; [|done].
    rewrite lookup_insert_ne, lookup_delete_ne; [done|..];
      intros ->; by apply (mount_path_self k).
Qed.

Lemma vfs_confinement_witness :
  confined mock_outside ∧
  evolves (vfs_rel mock_outside) (vfs_exec (VfsRename "/user/a" "/apps/b")).
Proof.
  split; [exact mock_confined|].
  apply (vfs_confinement mock_outside). exact mock_confined.
Defined.

(** ** The read-only system tree *)

(** A path that normalises below [/sys] cannot be written, created, removed or
    renamed from or to: the operation fails with [ReadOnly] and changes nothing,
    on any platform; reading it returns the bytes of the bundled file. *)
Theorem sys_is_read_only {P} `{!Platform P} (v : Vfs P) path p other q data :
  normalize_path "/" path = Ok p → under "/sys" p → normalize_path "/" other = Ok q →
  vfs_write path data v = (Err (ReadOnly p), v)
  ∧ vfs_create_dir_all path v = (Err (ReadOnly p), v)
  ∧ vfs_remove path v = (Err (ReadOnly p), v)
  ∧ vfs_rename path other v = (Err (ReadOnly "/sys"), v)
  ∧ vfs_rename other path v = (Err (ReadOnly "/sys"), v)
  ∧ vfs_read path v =
      (ok_or (NotFound p) (ef_data <$> system_file (vfs_system_files v) p), v).
Proof.
  intros Hp Hs Hq. apply is_path_prefix_spec in Hs.
  unfold vfs_write, vfs_create_dir_all, vfs_remove, vfs_rename, vfs_read.
  rewrite Hp, Hq, !bind_lift_ok, Hs, orb_true_r. done.
Qed.

Definition sys_example : Vfs MockPlatform :=
  vfs_with_system_files mock_default
    [{| ef_path := "/sys/README.txt"; ef_data := "read-only test system" |}].

Lemma sys_is_read_only_witness :
  normalize_path "/" "sys//README.txt" = Ok "/sys/README.txt" ∧
  under "/sys" "/sys/README.txt" ∧ normalize_path "/" "/user/x" = Ok "/user/x" ∧
  vfs_read "sys//README.txt" sys_example = (Ok "read-only test system", sys_example).
Proof.
  assert (under "/sys" "/sys/README.txt") as Hu by by_eval.
  split_and!; [by_vm|done|by_vm|].
  apply (sys_is_read_only sys_example "sys//README.txt" "/sys/README.txt"
           "/user/x" "/user/x" []); [by_vm|done|by_vm].
Defined.

(** What a bundled file contributes to the listing of a directory: itself when
    it lies directly in it, else the directory that leads to it. *)
Definition sys_entry (prefix : str) (f : EmbeddedFile) (e : StorageEntry) : Prop :=
  se_name e ≠ "" ∧ slash ∉ se_name e ∧
  ((ef_path f = prefix ++ se_name e ∧ se_is_dir e = false ∧ se_len e = len (ef_data f))
   ∨ (∃ r, ef_path f = prefix ++ se_name e ++ slash :: r ∧ se_is_dir e = true
           ∧ se_len e = 0)).

Lemma list_system_step_spec prefix m f :
  (∃ e, sys_entry prefix f e ∧ (∀ e', sys_entry prefix f e' → e' = e) ∧
     list_system_step prefix m f =
       match m !! se_name e with Some _ => m | None => <[se_name e := e]> m end)
  ∨ ((∀ e, ¬ sys_entry prefix f e) ∧ list_system_step prefix m f = m).
Proof.
  unfold list_system_step, sys_entry.
  destruct (strip_prefix prefix (ef_path f)) as [rem|] eqn:E.
  2:{ right. split; [|done]. apply strip_prefix_None in E.
      intros e (?&?&[[H _]|(r&H&_)]); apply E; rewrite H; by eexists. }
  apply strip_prefix_Some in E. rewrite E.
  assert (∀ x, prefix ++ rem = prefix ++ x ↔ rem = x) as Hpre.
  { intros x. split; [apply app_inv_head|by intros ->]. }
  setoid_rewrite Hpre.
  destruct (split_once slash rem) as [[name r]|] eqn:S.
  - apply split_once_Some in S as [-> Hn]. case_bool_decide as Hne.
    + right. split; [|done]. subst name. intros [n ? ?] (Hn0&Hs&[(Hx&_)|(r'&Hx&_)]);
        simpl in *.
      * subst n. destruct Hs. by left.
      * destruct n as [|b n]; simplify_eq/=. destruct Hs. by left.
    + left. eexists {| se_name := name; se_is_dir := true; se_len := 0 |}.
      simpl. split_and!; [done..|by right; exists r| |done].
      intros [n d l] (Hn0&Hs&[(Hx&_)|(r'&Hx&Hd&Hl)]); simpl in *; subst.
      * destruct Hs. apply elem_of_app. right. by left.
      * pose proof (split_once_app slash name r Hn) as H1. rewrite Hx in H1.
        rewrite split_once_app in H1 by done. by simplify_eq.
  - apply split_once_None in S. case_bool_decide as Hne.
    + right. split; [|done]. subst rem. intros [n ? ?] (Hn0&Hs&[(Hx&_)|(r'&Hx&_)]);
        simpl in *; [done|by destruct n].
    + left. eexists {| se_name := rem; se_is_dir := false; se_len := len (ef_data f) |}.
      simpl. split_and!; [done..|by left| |done].
      intros [n d l] (Hn0&Hs&[(Hx&Hd&Hl)|(r'&Hx&_)]); simpl in *; subst; [done|].
      destruct S. apply elem_of_app. right. by left.
Qed.

(** [first_entry prefix files n e]: the first file that contributes an entry
    named [n] contributes [e]. *)
Fixpoint first_entry (prefix : str) (files : list EmbeddedFile) (n : str)
    (e : StorageEntry) : Prop :=
  match files with
  | [] => False
  | f :: rest =>
      (sys_entry prefix f e ∧ se_name e = n)
      ∨ ((∀ e', sys_entry prefix f e' → se_name e' ≠ n) ∧ first_entry prefix rest n e)
  end.

Lemma list_system_fold prefix files m n e :
  foldl (list_system_step prefix) m files !! n = Some e ↔
  m !! n = Some e ∨ (m !! n = None ∧ first_entry prefix files n e).
Proof.
  revert m. induction files as [|f files IH]; intros m; simpl.
  { destruct (m !! n); naive_solver. }
  rewrite IH. destruct (list_system_step_spec prefix m f)
    as [(ef&Hef&Huniq&->)|[Hno ->]]; [|destruct (m !! n); naive_solver].
  destruct (m !! se_name ef) as [e0|] eqn:E.
  - destruct (decide (se_name ef = n)) as [<-|Hne].
    + rewrite E. naive_solver.
    + assert (∀ e', sys_entry prefix f e' → se_name e' ≠ n)
        by (intros e' ->%Huniq; done).
      destruct (m !! n); [naive_solver|]. split.
      * intros [?|[_ ?]]; auto.
      * intros [?|(_&[[Hx ?]|[_ ?]])]; auto. by apply Huniq in Hx as ->.
  - rewrite lookup_insert. case_decide as Hn.
    + subst n. rewrite E. split.
      * intros [[= ->]|[? _]]; [|done]. auto.
      * intros [?|(_&[[->%Huniq _]|[Hno _]])]; [done|by left|]. by destruct (Hno ef).
    + assert (∀ e', sys_entry prefix f e' → se_name e' ≠ n)
        by (intros e' ->%Huniq; done).
      destruct (m !! n); [naive_solver|]. split.
      * intros [?|[_ ?]]; auto.
      * intros [?|(_&[[Hx ?]|[_ ?]])]; auto. by apply Huniq in Hx as ->.
Qed.

Lemma first_entry_name prefix files n e : first_entry prefix files n e → se_name e = n.
Proof. induction files; simpl; naive_solver. Qed.

Lemma btree_values_spec (m : gmap str StorageEntry) :
  (∀ n e, m !! n = Some e → se_name e = n) →
  StronglySorted str_le (se_name <$> btree_values m)
  ∧ NoDup (se_name <$> btree_values m)
  ∧ ∀ e, e ∈ btree_values m ↔ m !! se_name e = Some e.
Proof.
  intros Hk. assert (se_name <$> btree_values m = (btree_iter m).*1) as ->.
  { unfold btree_values. rewrite <-list_fmap_compose. apply list_fmap_ext.
    intros i [n e] Hi. simpl. eapply Hk, elem_of_btree_iter, list_elem_of_lookup_2, Hi. }
  split_and!; [apply btree_iter_sorted|apply btree_iter_nodup|].
  intros e. unfold btree_values. rewrite list_elem_of_fmap. split.
  - intros ([n e']&->&Hin). apply elem_of_btree_iter in Hin. simpl.
    by rewrite (Hk _ _ Hin).
  - intros H. exists (se_name e, e). split; [done|]. by apply elem_of_btree_iter.
Qed.

(** The listing of a bundled directory is sorted by name without repetition,
    and has exactly one entry per child, the one the first bundled file that
    lies in or below that child gives: a file with its length, a directory with
    length zero. *)
Theorem list_system_spec files path entries :
  list_system files path = Ok entries →
  StronglySorted str_le (se_name <$> entries)
  ∧ NoDup (se_name <$> entries)
  ∧ ∀ e, e ∈ entries ↔ first_entry (dir_prefix path) files (se_name e) e.
Proof.
  unfold list_system. destruct (_ && _); [done|]. intros [= <-].
  assert (∀ n e, foldl (list_system_step (dir_prefix path)) ∅ files !! n = Some e
            ↔ first_entry (dir_prefix path) files n e) as Hf.
  { intros n e. rewrite list_system_fold, lookup_empty. naive_solver. }
  destruct (btree_values_spec (foldl (list_system_step (dir_prefix path)) ∅ files))
    as (?&?&Hin).
  - intros n e ?%Hf. by eapply first_entry_name.
  - split_and!; [done..|]. intros e. by rewrite Hin, Hf.
Qed.

Lemma list_system_spec_witness :
  let files := [{| ef_path := "/sys/apps/ls.rhai"; ef_data := "ls" |};
                {| ef_path := "/sys/README.txt"; ef_data := "hello" |};
                {| ef_path := "/sys/apps/rm.rhai"; ef_data := "rm" |}] in
  let entries := [{| se_name := "README.txt"; se_is_dir := false; se_len := 5 |};
                  {| se_name := "apps"; se_is_dir := true; se_len := 0 |}] in
  list_system files "/sys" = Ok entries ∧ NoDup (se_name <$> entries).
Proof.
  intros files entries. split; [by_vm|].
  apply (list_system_spec files "/sys" entries). by_vm.
Defined.
