(* ===== verification/Contract.v ===== *)
(** * What the shared core relies on from a platform

    [Platform] fixes the methods of a backend; [ReliablePlatform] states the
    behaviour the core's guarantees rest on: what was written is read back, other
    files are left alone, and the console, the clock and the random source do not
    touch storage.  The core's theorems are proved against this class; the
    backends discharge it. *)
From S2P Require Import Prelude RustStr Api Mock Vfs.

Class ReliablePlatform (P : Type) `{!Platform P} : Type := {
  (** The backend's own invariant. *)
  plat_ok : P → Prop;
  (** The bytes stored under a relative path. *)
  stored : P → str → option (list byte);

  law_read p rel d :
    plat_ok p → mount_path rel → stored p rel = Some d →
    storage_read rel p = (Ok d, p);
  law_read_missing p rel :
    plat_ok p → mount_path rel → stored p rel = None →
    ∃ e, storage_read rel p = (Err e, p);
  law_exists p rel :
    plat_ok p → mount_path rel → is_Some (stored p rel) →
    storage_exists rel p = (Ok true, p);
  law_write p rel d p' :
    plat_ok p → mount_path rel → storage_write rel d p = (Ok (), p') →
    plat_ok p' ∧ stored p' rel = Some d ∧ ∀ k, k ≠ rel → stored p' k = stored p k;
  law_write_err p rel d e p' :
    plat_ok p → mount_path rel → storage_write rel d p = (Err e, p') →
    plat_ok p' ∧ ∀ k, stored p' k = stored p k;
  law_write_returns p rel d :
    plat_ok p → mount_path rel → (storage_write rel d p).1 ≠ Panic;
  law_create p rel r p' :
    plat_ok p → mount_path rel → storage_create_dir_all rel p = (r, p') →
    plat_ok p' ∧ ∀ k, stored p' k = stored p k;
  law_list p rel r p' :
    plat_ok p → mount_path rel → storage_list rel p = (r, p') →
    plat_ok p' ∧ ∀ k, stored p' k = stored p k;
  law_exists_keeps p rel r p' :
    plat_ok p → mount_path rel → storage_exists rel p = (r, p') →
    plat_ok p' ∧ ∀ k, stored p' k = stored p k;
  law_remove p rel r p' :
    plat_ok p → mount_path rel → storage_remove rel p = (r, p') →
    plat_ok p' ∧ ∀ k, ¬ under rel k → stored p' k = stored p k;
  law_rename p from to r p' :
    plat_ok p → mount_path from → mount_path to → storage_rename from to p = (r, p') →
    plat_ok p' ∧ ∀ k, ¬ under from k → ¬ under to k → stored p' k = stored p k;
  law_clock p :
    plat_ok p → ∃ t p', monotonic_millis p = (Ok t, p') ∧ is_u64 t ∧ plat_ok p'
                        ∧ ∀ k, stored p' k = stored p k;
  law_random p buf b p' :
    plat_ok p → fill_random buf p = (Ok b, p') →
    length b = length buf;
  law_random_keeps p buf r p' :
    plat_ok p → fill_random buf p = (r, p') →
    plat_ok p' ∧ ∀ k, stored p' k = stored p k;
  law_console_write p text r p' :
    plat_ok p → console_write text p = (r, p') →
    plat_ok p' ∧ ∀ k, stored p' k = stored p k;
  law_console_read p prompt secret r p' :
    plat_ok p → console_read_line prompt secret p = (r, p') →
    plat_ok p' ∧ ∀ k, stored p' k = stored p k;
  law_console_clear p r p' :
    plat_ok p → console_clear p = (r, p') → plat_ok p' ∧ ∀ k, stored p' k = stored p k;
  law_cancel p :
    plat_ok p → plat_ok (poll_cancel p).2
                ∧ ∀ k, stored (poll_cancel p).2 k = stored p k;
  law_net_status p r p' :
    plat_ok p → net_status p = (r, p') → plat_ok p' ∧ ∀ k, stored p' k = stored p k;
  law_net_connect p host port r p' :
    plat_ok p → net_connect host port p = (r, p') →
    plat_ok p' ∧ ∀ k, stored p' k = stored p k;
  law_net_send p handle data r p' :
    plat_ok p → net_send handle data p = (r, p') →
    plat_ok p' ∧ ∀ k, stored p' k = stored p k;
  law_net_recv p handle out r p' :
    plat_ok p → net_recv handle out p = (r, p') →
    plat_ok p' ∧ ∀ k, stored p' k = stored p k;
  law_net_close p handle r p' :
    plat_ok p → net_close handle p = (r, p') →
    plat_ok p' ∧ ∀ k, stored p' k = stored p k }.

Lemma length_mock_random i b : length (mock_random i b) = length b.
Proof. revert i. induction b; intros i; simpl; auto. Qed.

#[export] Program Instance MockPlatform_Reliable : ReliablePlatform MockPlatform := {|
  plat_ok p := is_u64 (mock_now p);
  stored p rel := mock_files p !! rel |}.
Next Obligation. intros p rel d _ _ H. simpl. unfold reads. by rewrite H. Qed.
Next Obligation. intros p rel _ _ H. simpl. unfold reads. rewrite H. by eexists. Qed.
Next Obligation.
  intros p rel _ _ H. simpl. unfold gets. by rewrite bool_decide_true.
Qed.
Next Obligation.
  intros p rel d p' Hp _ [= <-]. simpl. split_and!; [done|by rewrite lookup_insert_eq|].
  intros k Hk. by rewrite lookup_insert_ne.
Qed.
Next Obligation. done. Qed.
Next Obligation. done. Qed.
Next Obligation. by intros p rel r p' Hp _ [= <- <-]. Qed.
Next Obligation. by intros p rel r p' Hp _ [= <- <-]. Qed.
Next Obligation. by intros p rel r p' Hp _ [= <- <-]. Qed.
Next Obligation.
  intros p rel r p' Hp _ [= <- <-]. split; [done|]. intros k Hk.
  unfold mock_set_files, mock_set_dirs. simpl. rewrite map_lookup_filter.
  rewrite lookup_delete_ne by (intros ->; apply Hk, under_refl).
  destruct (mock_files p !! k); [|done]. simpl. rewrite option_guard_True; [done|].
  destruct (starts_with (rel ++ "/") k) eqn:E; [|done]. by apply under_dir in E.
Qed.
Next Obligation.
  intros p from to r p' Hp _ _ H. simpl in H. case_match; simplify_eq/=; [|done].
  split; [done|]. intros k Hf Ht.
  rewrite lookup_insert_ne, lookup_delete_ne; [done|..]; intros ->; eauto using under_refl.
Qed.
Next Obligation. intros p Hp. by exists (mock_now p), p. Qed.
Next Obligation.
  intros p buf b p' Hp [= <- <-]. by rewrite length_mock_random.
Qed.
Next Obligation. by intros p buf r p' Hp [= <- <-]. Qed.
Next Obligation. by intros p text r p' Hp [= <- <-]. Qed.
Next Obligation.
  intros p prompt secret r p' Hp H. simpl in H. case_match; by simplify_eq/=.
Qed.
Next Obligation. by intros p r p' Hp [= <- <-]. Qed.
Next Obligation. done. Qed.
Next Obligation. by intros p r p' Hp [= <- <-]. Qed.
Next Obligation. by intros p host port r p' Hp [= <- <-]. Qed.
Next Obligation. by intros p handle data r p' Hp [= <- <-]. Qed.
Next Obligation. by intros p handle out r p' Hp [= <- <-]. Qed.
Next Obligation. by intros p handle r p' Hp [= <- <-]. Qed.

(** Every call a mount path admits keeps the backend's invariant. *)
Section keeps.
Context {P : Type} `{PP : !Platform P} `{RP : !ReliablePlatform P}.

Lemma preserves_read_law (K : P → Prop) rel :
  mount_path rel → (∀ p, K p → plat_ok p) → preserves K (storage_read rel).
Proof.
  intros Hm Hk p Hp. destruct (stored p rel) as [d|] eqn:E.
  - by rewrite (law_read p rel d) by auto.
  - destruct (law_read_missing p rel) as [e ->]; auto.
Qed.

(** A call that keeps the files keeps what is said about files. *)
Lemma preserves_files {A} (K : P → Prop) (m : M P Error A) :
  (∀ p, K p → plat_ok p) →
  (∀ p p', K p → plat_ok p' → (∀ k, stored p' k = stored p k) → K p') →
  (∀ p r p', plat_ok p → m p = (r, p') → plat_ok p' ∧ ∀ k, stored p' k = stored p k) →
  preserves K m.
Proof.
  intros Hk Hsame Hm p Hp. destruct (m p) as [r p'] eqn:E.
  destruct (Hm p r p') as [??]; [auto..|]. by apply (Hsame p).
Qed.

Lemma law_clock_keeps p r p' :
  plat_ok p → monotonic_millis p = (r, p') → plat_ok p' ∧ ∀ k, stored p' k = stored p k.
Proof.
  intros Hp H. destruct (law_clock p Hp) as (t&p1&H1&_&?&?).
  rewrite H1 in H. by injection H as <- <-.
Qed.

Lemma law_write_keeps p rel d r p' :
  plat_ok p → mount_path rel → storage_write rel d p = (r, p') →
  plat_ok p' ∧ ∀ k, k ≠ rel → stored p' k = stored p k.
Proof.
  intros Hp Hm H. pose proof (law_write_returns p rel d Hp Hm) as Hr.
  destruct r as [[]|e|].
  - by destruct (law_write p rel d p') as (?&_&?).
  - destruct (law_write_err p rel d e p') as [??]; auto.
  - by rewrite H in Hr.
Qed.
End keeps.
