(* ===== verification/Security.v ===== *)
(** * Authentication ([crates/afos-core/src/security.rs])

    The master-password manager: the verifier file, the hexadecimal codec and the
    rate limiter.  Argon2 is a library the source only calls, so it is a
    parameter.  The theorems show the codec's round trip, that a password that was
    set is accepted and another one is not, that the manager refines a small
    limiter automaton, and how long a run of wrong guesses must take. *)
From S2P Require Import Prelude RustStr Api Mock Vfs Contract.

Definition SECURITY_PATH : str := "/user/config/security".
Definition SALT_LEN : nat := 16.
Definition HASH_LEN : nat := 32.

(** The [argon2] crate: parameter validation, and hashing into a buffer.  Errors
    are their [Display] text. *)
Class Argon2 : Type := {
  argon2_params : Type;
  params_new : Z → Z → Z → option Z → res str argon2_params;
  hash_password_into : argon2_params → list byte → list byte → list byte → res str (list byte)
}.

Record SecurityManager := mk_security {
  failed_attempts : Z;
  blocked_until : Z }.

#[export] Instance SecurityManager_eq_dec : EqDecision SecurityManager.
Proof. solve_decision. Defined.

Definition security_new : SecurityManager := mk_security 0 0.

(** ** Hexadecimal *)
Definition hex_table : list byte := "0123456789abcdef".

Definition index_at {E} (l : list byte) (i : nat) : res E byte :=
  match l !! i with Some b => Ok b | None => Panic end.

Fixpoint encode_hex_loop {E} (bytes : list byte) : res E (list byte) :=
  match bytes with
  | [] => Ok []
  | b :: rest =>
      high ← index_at hex_table (Z.to_nat (Z.shiftr (b2z b) 4));
      low ← index_at hex_table (Z.to_nat (Z.land (b2z b) 15));
      out ← encode_hex_loop rest;
      Ok (high :: low :: out)
  end.

Definition encode_hex {E} (bytes : list byte) : res E str :=
  output ← encode_hex_loop bytes;
  Ok (default "" (from_utf8 output)).

Definition hex_nibble (value : byte) : res Error Z :=
  let v := b2z value in
  if bool_decide (48 ≤ v ≤ 57) then Ok (v - 48)
  else if bool_decide (97 ≤ v ≤ 102) then Ok (v - 97 + 10)
  else if bool_decide (65 ≤ v ≤ 70) then Ok (v - 65 + 10)
  else Err (InvalidInput "invalid hexadecimal value").

(** The loop over the output array: [n] bytes left, the next one at [index]. *)
Fixpoint decode_hex_loop (n index : nat) (value : str) : res Error (list byte) :=
  match n with
  | O => Ok []
  | S n' =>
      hb ← index_at value (index * 2);
      high ← hex_nibble hb;
      lb ← index_at value (index * 2 + 1);
      low ← hex_nibble lb;
      rest ← decode_hex_loop n' (S index) value;
      Ok (z2b (Z.lor (Z.shiftl high 4) low) :: rest)
  end.

Definition decode_hex (n : nat) (value : str) : res Error (list byte) :=
  if bool_decide (length value ≠ (n * 2)%nat)
  then Err (InvalidInput "invalid hexadecimal length")
  else decode_hex_loop n 0 value.

Definition derive `{!Argon2} (password salt : list byte) : res Error (list byte) :=
  params ← map_err (λ error, Runtime ("Argon2 parameters: " ++ error))
             (params_new (19 * 1024) 2 1 (Some (Z.of_nat HASH_LEN)));
  map_err (λ error, Runtime ("Argon2: " ++ error))
    (hash_password_into params password salt (replicate HASH_LEN x00)).

Definition auth_magic : str := "AFOS-AUTH-1".

(** ** The manager

    Its methods borrow the manager and the file system together. *)
Section manager.
Context {P : Type} `{!Platform P} `{!Argon2}.

Definition sec_state : Type := SecurityManager * Vfs P.
Definition on_vfs {A} (m : M (Vfs P) Error A) : M sec_state Error A :=
  zoom snd (λ v s, (s.1, v)) m.
Definition set_manager (m : SecurityManager) : M sec_state Error () :=
  modify (λ s, (m, s.2)).

Definition has_password : M sec_state Error bool := on_vfs (vfs_exists SECURITY_PATH).

Definition set_password (password : str) : M sec_state Error () :=
  if bool_decide (password = "") then
    present ← on_vfs (vfs_exists SECURITY_PATH);
    (if present : bool then on_vfs (vfs_remove SECURITY_PATH) else mret ());;
    set_manager (mk_security 0 0)
  else
    salt ← on_vfs (platform_mut (fill_random (replicate SALT_LEN x00)));
    hash ← lift (derive password salt);
    salt_hex ← lift (encode_hex salt);
    hash_hex ← lift (encode_hex hash);
    on_vfs (vfs_write SECURITY_PATH
              (auth_magic ++ [nl] ++ salt_hex ++ [nl] ++ hash_hex ++ [nl]));;
    set_manager (mk_security 0 0).

Definition verify (password : str) : M sec_state Error () :=
  now ← on_vfs (platform_mut monotonic_millis);
  self ← gets fst;
  if bool_decide (now < blocked_until self)
  then throw (RateLimited (blocked_until self - now))
  else
    encoded ← on_vfs (vfs_read_text SECURITY_PATH);
    let ls := lines encoded in
    if bool_decide (ls !! 0%nat ≠ Some auth_magic)
    then throw (InvalidInput "invalid security configuration")
    else
      salt_line ← lift (ok_or (InvalidInput "missing password salt") (ls !! 1%nat));
      salt ← lift (decode_hex SALT_LEN salt_line);
      hash_line ← lift (ok_or (InvalidInput "missing password verifier") (ls !! 2%nat));
      expected ← lift (decode_hex HASH_LEN hash_line);
      actual ← lift (derive password salt);
      if bool_decide (actual = expected) then set_manager (mk_security 0 0)
      else
        let failed := saturating_add32 (failed_attempts self) 1 in
        set_manager
          (mk_security failed
             (if bool_decide (3 ≤ failed)
              then saturating_add64 now (Z.shiftl 1000 (Z.min (failed - 3) 5))
              else blocked_until self));;
        throw AuthenticationFailed.
End manager.

(** ** The hexadecimal codec *)
Definition hex_digit (b : byte) : Prop := b2z b < 128 ∧ b ≠ nl ∧ b ≠ cr.

Lemma hex_byte {E} b :
  ∃ h l, index_at (E := E) hex_table (Z.to_nat (Z.shiftr (b2z b) 4)) = Ok h
    ∧ index_at (E := E) hex_table (Z.to_nat (Z.land (b2z b) 15)) = Ok l
    ∧ hex_digit h ∧ hex_digit l
    ∧ hex_nibble h = Ok (Z.shiftr (b2z b) 4) ∧ hex_nibble l = Ok (Z.land (b2z b) 15)
    ∧ z2b (Z.lor (Z.shiftl (Z.shiftr (b2z b) 4) 4) (Z.land (b2z b) 15)) = b.
Proof.
  destruct b; (do 2 eexists; split; [vm_compute; reflexivity|];
    split; [vm_compute; reflexivity|]; unfold hex_digit; by vm_compute).
Qed.

Lemma encode_hex_loop_spec {E} bs :
  ∃ out, encode_hex_loop (E := E) bs = Ok out ∧ length out = (length bs * 2)%nat
    ∧ Forall hex_digit out
    ∧ ∀ pre index, length pre = (index * 2)%nat →
        decode_hex_loop (length bs) index (pre ++ out) = Ok bs.
Proof.
  induction bs as [|b bs (out&IHe&IHl&IHf&IHd)]; [by exists []|].
  destruct (hex_byte (E := E) b) as (h&l&Hh&Hl&?&?&Hnh&Hnl&Hb).
  exists (h :: l :: out). simpl. rewrite Hh. simpl. rewrite Hl. simpl. rewrite IHe. simpl.
  split_and!; [done|lia|auto|].
  intros pre index Hpre.
  assert (index_at (E := Error) (pre ++ h :: l :: out) (index * 2) = Ok h) as ->.
  { unfold index_at. by rewrite lookup_app_r, Hpre, Nat.sub_diag by lia. }
  assert (index_at (E := Error) (pre ++ h :: l :: out) (index * 2 + 1) = Ok l) as ->.
  { unfold index_at. rewrite lookup_app_r by lia.
    by replace (index * 2 + 1 - length pre)%nat with 1%nat by lia. }
  simpl. rewrite Hnh. simpl. rewrite Hnl. simpl.
  rewrite (assoc_L (++) pre [h; l] out : pre ++ h :: l :: out = _).
  rewrite IHd by (rewrite length_app; simpl; lia). simpl. by rewrite Hb.
Qed.

Lemma encode_hex_spec {E} bs :
  ∃ out, encode_hex (E := E) bs = Ok out ∧ Forall hex_digit out
    ∧ length out = (length bs * 2)%nat ∧ decode_hex (length bs) out = Ok bs.
Proof.
  destruct (encode_hex_loop_spec (E := E) bs) as (out&He&Hl&Hf&Hd).
  exists out. unfold encode_hex, decode_hex. rewrite He. simpl.
  rewrite from_utf8_ascii by (eapply Forall_impl; [done|]; by intros ? [??]).
  split_and!; [done..|]. rewrite bool_decide_false by lia. by apply (Hd []).
Qed.

(** Encoding bytes as hexadecimal and decoding the text returns the bytes, for
    every length; the encoder never panics. *)
Theorem hex_roundtrip (bs : list byte) :
  ∃ text, encode_hex (E := Error) bs = Ok text
    ∧ length text = (length bs * 2)%nat ∧ decode_hex (length bs) text = Ok bs.
Proof.
  destruct (encode_hex_spec (E := Error) bs) as (out&?&_&?&?). by exists out.
Qed.

Lemma hex_nibble_no_panic b : hex_nibble b ≠ Panic.
Proof. unfold hex_nibble. repeat case_match; done. Qed.

Lemma decode_hex_loop_no_panic n index value :
  ((index + n) * 2 ≤ length value)%nat → decode_hex_loop n index value ≠ Panic.
Proof.
  revert index. induction n as [|n IH]; intros index Hl; simpl; [done|].
  destruct (lookup_lt_is_Some_2 value (index * 2)) as [hb Hb]; [lia|].
  destruct (lookup_lt_is_Some_2 value (index * 2 + 1)) as [lb Hlb]; [lia|].
  unfold index_at. rewrite Hb, Hlb. simpl.
  pose proof (hex_nibble_no_panic hb). pose proof (hex_nibble_no_panic lb).
  destruct (hex_nibble hb); [|done..]. simpl. destruct (hex_nibble lb); [|done..]. simpl.
  specialize (IH (S index)). destruct (decode_hex_loop n (S index) value); [done..|].
  intros _. apply IH; [lia|done].
Qed.

Lemma decode_hex_no_panic n value : decode_hex n value ≠ Panic.
Proof.
  unfold decode_hex. case_bool_decide as Hl; [done|].
  apply decode_hex_loop_no_panic. lia.
Qed.

(** ** The rate limiter as an automaton *)
Inductive auth_result := Accepted | Rejected | Blocked (remaining : Z).

(** How long the manager blocks after the [failed]-th wrong password. *)
Definition lock_delay (failed : Z) : Z :=
  if bool_decide (failed < 3) then 0 else 1000 * 2 ^ Z.min (failed - 3) 5.

Definition limiter (m : SecurityManager) (now : Z) (correct : bool) :
    auth_result * SecurityManager :=
  if bool_decide (now < blocked_until m) then (Blocked (blocked_until m - now), m)
  else if correct then (Accepted, security_new)
  else
    let failed := Z.min (failed_attempts m + 1) u32_max in
    (Rejected,
     mk_security failed
       (if bool_decide (failed < 3) then blocked_until m
        else Z.min (now + lock_delay failed) u64_max)).

Definition auth_outcome (r : auth_result) : res Error () :=
  match r with
  | Accepted => Ok ()
  | Rejected => Err AuthenticationFailed
  | Blocked ms => Err (RateLimited ms)
  end.

Lemma lock_delay_bounds k : 3 ≤ k → 1000 ≤ lock_delay k ≤ 32000.
Proof.
  intros Hk. unfold lock_delay. rewrite bool_decide_false by lia.
  assert (0 ≤ Z.min (k - 3) 5 ≤ 5) as Hm by lia.
  pose proof (Z.pow_le_mono_r 2 0 (Z.min (k - 3) 5)).
  pose proof (Z.pow_le_mono_r 2 (Z.min (k - 3) 5) 5). lia.
Qed.

Lemma lock_delay_mono k l : k ≤ l → lock_delay k ≤ lock_delay l.
Proof.
  intros Hkl. destruct (decide (k < 3)) as [Hk|Hk].
  { unfold lock_delay at 1. rewrite bool_decide_true by lia.
    destruct (decide (l < 3)); [unfold lock_delay; by rewrite bool_decide_true by lia|].
    pose proof (lock_delay_bounds l). lia. }
  unfold lock_delay. rewrite !bool_decide_false by lia.
  apply Z.mul_le_mono_nonneg_l; [lia|]. apply Z.pow_le_mono_r; lia.
Qed.

Lemma shiftl_lock_delay failed :
  3 ≤ failed → Z.shiftl 1000 (Z.min (failed - 3) 5) = lock_delay failed.
Proof.
  intros. unfold lock_delay. rewrite bool_decide_false by lia.
  rewrite Z.shiftl_mul_pow2 by lia. done.
Qed.

(** ** The verifier file *)
Definition verifier_rel : str := "user/config/security".

Lemma verifier_mount : mount_path verifier_rel.
Proof. by_eval. Qed.

Definition verifier_text (salt_hex hash_hex : str) : str :=
  auth_magic ++ [nl] ++ salt_hex ++ [nl] ++ hash_hex ++ [nl].

Lemma lines_verifier a b :
  Forall hex_digit a → Forall hex_digit b →
  lines (verifier_text a b) = [auth_magic; a; b].
Proof.
  intros Ha Hb. unfold verifier_text.
  assert (∀ x, Forall hex_digit x → nl ∉ x ∧ cr ∉ x) as Hx.
  { intros x Hx. split; intros Hin; by destruct (proj1 (Forall_forall _ _) Hx _ Hin) as (_&?&?). }
  change (auth_magic ++ [nl] ++ a ++ [nl] ++ b ++ [nl])
    with (auth_magic ++ nl :: a ++ nl :: b ++ nl :: []).
  rewrite lines_line by by_eval. by rewrite !lines_line by (by apply Hx).
Qed.

Lemma verifier_text_utf8 a b :
  Forall hex_digit a → Forall hex_digit b →
  from_utf8 (verifier_text a b) = Some (verifier_text a b).
Proof.
  intros Ha Hb. apply from_utf8_ascii. unfold verifier_text.
  assert (∀ x, Forall hex_digit x → Forall (λ b, b2z b < 128) x) as Hx.
  { intros x Hx. eapply Forall_impl; [done|]. by intros ? [??]. }
  repeat apply Forall_app_2; try (by apply Hx); by_eval.
Qed.

(** ** The manager against a reliable platform *)
Section verifier.
Context {P : Type} `{PP : !Platform P} `{RP : !ReliablePlatform P} `{AR : !Argon2}.
Implicit Types (v : Vfs P) (m : SecurityManager) (salt hash : list byte).

(** The verifier of [salt] and [hash] is what the security file holds. *)
Definition verifier_stored salt hash v : Prop :=
  length salt = SALT_LEN ∧ length hash = HASH_LEN ∧ plat_ok (vfs_platform v) ∧
  ∃ a b, encode_hex (E := Error) salt = Ok a ∧ encode_hex (E := Error) hash = Ok b
    ∧ stored (vfs_platform v) verifier_rel = Some (verifier_text a b).

Lemma platform_mut_run {A} (m : M P Error A) v r p' :
  m (vfs_platform v) = (r, p') → platform_mut m v = (r, set_vfs_platform p' v).
Proof. intros H. unfold platform_mut, zoom. by rewrite H. Qed.

Lemma on_vfs_run {A} (f : M (Vfs P) Error A) m v r v' :
  f v = (r, v') → on_vfs f (m, v) = (r, (m, v')).
Proof. intros H. unfold on_vfs, zoom. simpl. by rewrite H. Qed.

Lemma vfs_read_text_stored rel d v :
  mount_path rel → plat_ok (vfs_platform v) → stored (vfs_platform v) rel = Some d →
  from_utf8 d = Some d → vfs_read_text ("/" ++ rel) v = (Ok d, v).
Proof.
  intros Hm Hok Hst Hu. unfold vfs_read_text. rewrite bind_run, vfs_read_mount by done.
  rewrite (platform_mut_run _ _ (Ok d) (vfs_platform v)) by (by apply law_read).
  rewrite Hu. by destruct v.
Qed.

(** Reading the clock: the time, and a state with the same files. *)
Lemma clock_run m v salt hash :
  verifier_stored salt hash v →
  ∃ now v', on_vfs (platform_mut monotonic_millis) (m, v) = (Ok now, (m, v'))
    ∧ is_u64 now ∧ verifier_stored salt hash v'
    ∧ ∃ p', monotonic_millis (vfs_platform v) = (Ok now, p').
Proof.
  intros (?&?&Hok&a&b&Ha&Hb&Hst).
  destruct (law_clock _ Hok) as (now&p'&Hc&Hu&Hok'&Hsame).
  exists now, (set_vfs_platform p' v). split_and!; [|done| |by exists p'].
  - by apply on_vfs_run, platform_mut_run.
  - split_and!; [done..|]. exists a, b. simpl. by rewrite Hsame.
Qed.

(** An attempt against a stored verifier, on every outcome of the hash. *)
Lemma verify_run m v salt hash password :
  verifier_stored salt hash v →
  ∃ now p' v', monotonic_millis (vfs_platform v) = (Ok now, p') ∧
    verifier_stored salt hash v' ∧
    verify password (m, v) =
      if bool_decide (now < blocked_until m)
      then (Err (RateLimited (blocked_until m - now)), (m, v'))
      else match derive password salt with
           | Ok h => (auth_outcome (limiter m now (bool_decide (h = hash))).1,
                      ((limiter m now (bool_decide (h = hash))).2, v'))
           | Err e => (Err e, (m, v'))
           | Panic => (Panic, (m, v'))
           end.
Proof.
  intros Hv. destruct (clock_run m _ _ _ Hv) as (now&v'&Hclock&Hu&Hv'&p'&Hp').
  exists now, p', v'. split_and!; [done..|].
  unfold verify, limiter. rewrite bind_run, Hclock, bind_run. simpl.
  case_bool_decide as Hb; [done|].
  destruct Hv' as (Hls&Hlh&Hok&a&b&Ha&Hbb&Hst).
  destruct (encode_hex_spec (E := Error) salt) as (a'&Ha'&Hfa&_&Hda).
  destruct (encode_hex_spec (E := Error) hash) as (b'&Hb'&Hfb&_&Hdb).
  rewrite Ha in Ha'. injection Ha' as <-. rewrite Hbb in Hb'. injection Hb' as <-.
  rewrite bind_run. change SECURITY_PATH with ("/" ++ verifier_rel).
  rewrite (on_vfs_run _ m v' _ _
    (vfs_read_text_stored _ _ v' verifier_mount Hok Hst (verifier_text_utf8 _ _ Hfa Hfb))).
  rewrite lines_verifier by done. simpl.
  rewrite bind_lift_ok, <-Hls, Hda, bind_lift_ok, bind_lift_ok, <-Hlh, Hdb, bind_lift_ok.
  destruct (derive password salt) as [h|e|]; [|done..].
  rewrite bind_lift_ok. case_bool_decide; [done|].
  unfold saturating_add32, saturating_add64. rewrite bind_run. simpl.
  do 3 f_equal. repeat case_bool_decide; try lia.
  by rewrite shiftl_lock_delay by lia.
Qed.

Lemma verify_refines_limiter_aux m v salt hash password h :
  verifier_stored salt hash v → derive password salt = Ok h →
  ∃ now p' v', monotonic_millis (vfs_platform v) = (Ok now, p') ∧
    verify password (m, v) =
      (auth_outcome (limiter m now (bool_decide (h = hash))).1,
       ((limiter m now (bool_decide (h = hash))).2, v'))
    ∧ verifier_stored salt hash v'.
Proof.
  intros Hv Hd. destruct (verify_run m v salt hash password Hv) as (now&p'&v'&?&?&Hr).
  exists now, p', v'. split_and!; [done| |done]. rewrite Hr, Hd. unfold limiter.
  by case_bool_decide.
Qed.

(** An accepted password has the stored hash. *)
Lemma verify_ok_hash m v salt hash password st' :
  verifier_stored salt hash v → verify password (m, v) = (Ok (), st') →
  derive password salt = Ok hash ∧ verifier_stored salt hash st'.2.
Proof.
  intros Hv. destruct (verify_run m v salt hash password Hv) as (now&p'&v'&_&?&->).
  case_bool_decide; [done|]. destruct (derive password salt) as [h|e|]; [|done..].
  unfold limiter. rewrite bool_decide_false by done.
  destruct (bool_decide (h = hash)) eqn:E; [|done].
  apply bool_decide_eq_true in E as ->. by intros [= <-].
Qed.

Lemma verify_keeps_verifier m v salt hash password r m' v' :
  verifier_stored salt hash v → verify password (m, v) = (r, (m', v')) →
  verifier_stored salt hash v'.
Proof.
  intros Hv. destruct (verify_run m v salt hash password Hv) as (now&p'&v1&_&Hv1&->).
  intros Hr. repeat case_match; by simplify_eq/=.
Qed.

(** C3. On a reliable platform that holds the verifier of some salt and hash, an
    attempt behaves as the limiter automaton says: blocked while the clock is
    before [blocked_until], else accepted exactly when the derived hash is the
    stored one; the manager's state is the automaton's and the verifier stays. *)
Theorem verify_refines_limiter m v salt hash password h :
  verifier_stored salt hash v → derive password salt = Ok h →
  ∃ now p' v', monotonic_millis (vfs_platform v) = (Ok now, p') ∧
    verify password (m, v) =
      (auth_outcome (limiter m now (bool_decide (h = hash))).1,
       ((limiter m now (bool_decide (h = hash))).2, v'))
    ∧ verifier_stored salt hash v'.
Proof. apply verify_refines_limiter_aux. Qed.

Lemma vfs_write_stored rel d v v' :
  mount_path rel → plat_ok (vfs_platform v) →
  vfs_write ("/" ++ rel) d v = (Ok (), v') →
  plat_ok (vfs_platform v') ∧ stored (vfs_platform v') rel = Some d.
Proof.
  intros Hm Hok. rewrite vfs_write_mount by done. unfold platform_mut, zoom.
  destruct (storage_write rel d (vfs_platform v)) as [r p'] eqn:E.
  intros [= -> <-]. by apply law_write in E as (?&?&?).
Qed.

Context (hash_length : ∀ ps password salt out h,
  hash_password_into ps password salt out = Ok h → length h = length out).

Lemma derive_length password salt h : derive password salt = Ok h → length h = HASH_LEN.
Proof.
  unfold derive. intros (ps&_&H)%res_bind_ok.
  destruct (hash_password_into _ _ _ _) eqn:E; simplify_eq/=.
  by apply hash_length in E.
Qed.

Lemma set_password_stores password m v m' v' :
  plat_ok (vfs_platform v) → password ≠ "" →
  set_password password (m, v) = (Ok (), (m', v')) →
  m' = security_new ∧
  ∃ salt hash, derive password salt = Ok hash ∧ verifier_stored salt hash v'.
Proof.
  intros Hok Hne. unfold set_password. rewrite bool_decide_false by done. intros H.
  apply bind_ok_inv in H as (salt&s1&Hr&H). apply bind_ok_inv in H as (hash&s2&Hd&H).
  apply bind_ok_inv in H as (a&s3&Ha&H). apply bind_ok_inv in H as (b&s4&Hb&H).
  apply bind_ok_inv in H as ([]&s5&Hw&H).
  apply lift_ok_inv in Hd as [Hd ->], Ha as [Ha ->], Hb as [Hb ->].
  apply zoom_ok_inv in Hr as (v1&Hr&->). apply zoom_ok_inv in Hr as (p1&Hr&->).
  pose proof (law_random _ _ _ _ Hok Hr) as Hls.
  apply law_random_keeps in Hr as [Hok1 _]; [|done].
  apply zoom_ok_inv in Hw as (v2&Hw&->).
  apply (vfs_write_stored verifier_rel) in Hw as (?&?); [|exact verifier_mount|done].
  apply modify_ok_inv in H. simplify_eq/=. split; [done|]. exists salt, hash. split; [done|].
  split_and!; [by rewrite Hls|by eapply derive_length|done|]. by exists a, b.
Qed.

(** C4. A password that was set without an error is accepted by the next attempt,
    and any other one is accepted only if it derives the same hash: the answer to
    a guess [q] is decided by its hash under the stored salt, and the guess that
    was set has the stored hash. *)
Theorem set_password_then_verify password m v st' :
  plat_ok (vfs_platform v) → password ≠ "" →
  set_password password (m, v) = (Ok (), st') →
  (verify password st').1 = Ok () ∧
  ∃ salt hash, derive password salt = Ok hash ∧
    ∀ q h, derive q salt = Ok h →
      (verify q st').1 = if decide (h = hash) then Ok () else Err AuthenticationFailed.
Proof.
  intros Hok Hne H. destruct st' as [m' v'].
  apply set_password_stores in H as (->&salt&hash&Hd&Hst); [|done..].
  assert (∀ q h, derive q salt = Ok h → (verify q (security_new, v')).1
            = if decide (h = hash) then Ok () else Err AuthenticationFailed) as Hq.
  { intros q h Hh.
    destruct (clock_run security_new _ _ _ Hst) as (now&_&_&[Hu _]&_&p'&Hp).
    destruct (verify_refines_limiter_aux security_new v' salt hash q h Hst Hh)
      as (now'&p''&v''&Hp'&->&_).
    rewrite Hp in Hp'. injection Hp' as <- <-.
    unfold limiter. simpl. rewrite bool_decide_false by lia.
    case_decide; [by rewrite bool_decide_true|by rewrite bool_decide_false]. }
  split; [|by exists salt, hash]. rewrite (Hq _ _ Hd). by rewrite decide_True.
Qed.
End verifier.

(** ** Guessing takes time *)

(** The least time between the first and the [n]-th wrong password that was
    checked. *)
Fixpoint lockout (n : nat) : Z :=
  match n with
  | O => 0
  | S k => lockout k + lock_delay (Z.of_nat k)
  end.

Lemma lockout_linear n : (8 ≤ n)%nat → lockout n = 31000 + 32000 * (Z.of_nat n - 8).
Proof.
  induction 1 as [|n Hn IH]; [by vm_compute|]. simpl. rewrite IH.
  unfold lock_delay. rewrite bool_decide_false by lia.
  rewrite Z.min_r by lia. change (2 ^ 5) with 32. lia.
Qed.

Section guessing.
Context {P : Type} `{PP : !Platform P} `{AR : !Argon2}.
Implicit Types (v : Vfs P) (m : SecurityManager) (n : nat) (t : Z).

(** The backend's own read errors are about files: none of them is the answer of
    the password check. *)
Context (reads_honest : ∀ rel (p : P), (storage_read rel p).1 ≠ Err AuthenticationFailed).

(** A session with the manager from its creation: any calls of [verify] and
    [set_password] in any order, on a file system that may change in between and
    with a clock that does not go back.  [guessing n t0 t m]: at time [t] the
    manager is [m], and [n] guesses were answered "wrong password" since [t0], the
    moment of the last accepted guess or of the last change of the password. *)
Inductive guessing : nat → Z → Z → SecurityManager → Prop :=
| guessing_start t : guessing 0 t t security_new
| guessing_wrong n t0 t m t' p' v q m' v' :
    guessing n t0 t m → t ≤ t' →
    monotonic_millis (vfs_platform v) = (Ok t', p') →
    verify q (m, v) = (Err AuthenticationFailed, (m', v')) →
    guessing (S n) t0 t' m'
| guessing_unchecked n t0 t m t' p' v q r m' v' :
    guessing n t0 t m → t ≤ t' →
    monotonic_millis (vfs_platform v) = (Ok t', p') →
    verify q (m, v) = (r, (m', v')) → r ≠ Ok () → r ≠ Err AuthenticationFailed →
    guessing n t0 t' m'
| guessing_accepted n t0 t m t' p' v q m' v' :
    guessing n t0 t m → t ≤ t' →
    monotonic_millis (vfs_platform v) = (Ok t', p') →
    verify q (m, v) = (Ok (), (m', v')) →
    guessing 0 t' t' m'
| guessing_set n t0 t m t' v q m' v' :
    guessing n t0 t m → t ≤ t' →
    set_password q (m, v) = (Ok (), (m', v')) →
    guessing 0 t' t' m'
| guessing_not_set n t0 t m t' v q r m' v' :
    guessing n t0 t m → t ≤ t' →
    set_password q (m, v) = (r, (m', v')) → r ≠ Ok () →
    guessing n t0 t' m'.

Lemma res_bind_not_err {E A B} (x : res E A) (f : A → res E B) e :
  x ≠ Err e → (∀ a, f a ≠ Err e) → (x ≫= f) ≠ Err e.
Proof. destruct x as [a|e'|]; simpl; [auto|congruence|done]. Qed.

Lemma hex_nibble_honest b : hex_nibble b ≠ Err AuthenticationFailed.
Proof. unfold hex_nibble. repeat case_match; done. Qed.

Lemma decode_hex_honest k value : decode_hex k value ≠ Err AuthenticationFailed.
Proof.
  unfold decode_hex. case_bool_decide; [done|].
  generalize 0%nat as index. clear. induction k as [|k IH]; intros index; simpl; [done|].
  unfold index_at.
  repeat (apply res_bind_not_err; [first [apply hex_nibble_honest|apply IH|by case_match]|intros ?]).
  done.
Qed.

Lemma derive_honest q salt : derive q salt ≠ Err AuthenticationFailed.
Proof.
  unfold derive. destruct (params_new _ _ _ _); [simpl|done..].
  by destruct (hash_password_into _ _ _ _).
Qed.

Lemma read_verifier_honest v :
  (vfs_read_text SECURITY_PATH v).1 ≠ Err AuthenticationFailed.
Proof.
  unfold vfs_read_text. rewrite bind_run. change SECURITY_PATH with ("/" ++ verifier_rel).
  rewrite vfs_read_mount by exact verifier_mount. unfold platform_mut, zoom.
  pose proof (reads_honest verifier_rel (vfs_platform v)) as Hr.
  destruct (storage_read verifier_rel (vfs_platform v)) as [[d|e|] p]; simpl in *;
    [by destruct (from_utf8 d)|done..].
Qed.

(** What an attempt does to the manager, by its answer and on any platform. *)
Definition answered m t (r : res Error ()) m' : Prop :=
  match r with
  | Ok _ => m' = security_new
  | Err AuthenticationFailed => blocked_until m ≤ t ∧ m' = (limiter m t false).2
  | _ => m' = m
  end.

Lemma answered_other m t r : r ≠ Ok () → r ≠ Err AuthenticationFailed → answered m t r m.
Proof. destruct r as [[]|[]|]; done. Qed.

Ltac bail := intros [= <- <- _]; apply answered_other; congruence.
Lemma verify_answer q m v t p' r m' v' :
  monotonic_millis (vfs_platform v) = (Ok t, p') →
  verify q (m, v) = (r, (m', v')) → answered m t r m'.
Proof.
  intros Hc. unfold verify. rewrite bind_run.
  rewrite (on_vfs_run _ m v _ _ (platform_mut_run _ v _ _ Hc)).
  rewrite bind_run. simpl. case_bool_decide as Hb; [bail|].
  rewrite bind_run. unfold on_vfs, zoom. simpl.
  pose proof (read_verifier_honest (set_vfs_platform p' v)) as Hread.
  destruct (vfs_read_text SECURITY_PATH (set_vfs_platform p' v)) as [[enc|e1|] v1];
    simpl in Hread; [|bail..].
  case_bool_decide; [bail|]. unfold lift. rewrite !bind_run.
  destruct (lines enc !! 1%nat) as [l1|]; simpl; [|bail].
  rewrite !bind_run. pose proof (decode_hex_honest SALT_LEN l1).
  destruct (decode_hex SALT_LEN l1) as [salt|e1|]; [|bail..].
  rewrite !bind_run. destruct (lines enc !! 2%nat) as [l2|]; simpl; [|bail].
  rewrite !bind_run. pose proof (decode_hex_honest HASH_LEN l2).
  destruct (decode_hex HASH_LEN l2) as [hash|e1|]; [|bail..].
  rewrite !bind_run. pose proof (derive_honest q salt).
  destruct (derive q salt) as [h|e1|]; [|bail..].
  case_bool_decide; [by intros [= <- <- _]|].
  rewrite bind_run. simpl. intros [= <- <- _]. split; [lia|].
  unfold limiter. rewrite (bool_decide_false (t < _)) by done. simpl.
  unfold saturating_add32, saturating_add64. f_equal.
  repeat case_bool_decide; try lia. by rewrite shiftl_lock_delay by lia.
Qed.

Lemma set_password_answer q m v r m' v' :
  set_password q (m, v) = (r, (m', v')) → m' = if decide (r = Ok ()) then security_new else m.
Proof.
  unfold set_password. case_bool_decide; rewrite bind_run; unfold on_vfs, zoom; simpl.
  - destruct (vfs_exists SECURITY_PATH v) as [[b|e|] v1]; [|by intros [= <- <- _]..].
    rewrite bind_run. destruct b; [|by intros [= <- <- _]].
    simpl. by destruct (vfs_remove SECURITY_PATH v1) as [[[]|e|] v2]; intros [= <- <- _].
  - destruct (platform_mut _ v) as [[salt|e|] v1]; [|by intros [= <- <- _]..].
    unfold lift. rewrite !bind_run. destruct (derive q salt); [|by intros [= <- <- _]..].
    rewrite !bind_run. destruct (encode_hex salt); [|by intros [= <- <- _]..].
    rewrite !bind_run. destruct (encode_hex _); [|by intros [= <- <- _]..].
    rewrite !bind_run. simpl.
    by destruct (vfs_write SECURITY_PATH _ v1) as [[[]|e|] v2]; intros [= <- <- _].
Qed.

(** The state of the limiter after [n] wrong guesses. *)
Definition throttled (n : nat) (t0 t : Z) (m : SecurityManager) : Prop :=
  failed_attempts m = Z.of_nat n ∧ t0 + lockout n ≤ t
  ∧ ((n < 3)%nat ∨ t0 + lockout (S n) ≤ blocked_until m).

Lemma throttled_new t : throttled 0 t t security_new.
Proof. split_and!; [done|simpl; lia|left; lia]. Qed.

Lemma throttled_later n t0 t t' m : t ≤ t' → throttled n t0 t m → throttled n t0 t' m.
Proof. intros ? (?&?&?). split_and!; [done|lia|done]. Qed.

Lemma lockout_3 k : (k ≤ 3)%nat → lockout k = 0.
Proof. intros. do 4 (destruct k as [|k]; [done|]). lia. Qed.

Lemma throttled_step n t0 t t' m :
  t ≤ t' → t' + 32000 ≤ u64_max → Z.of_nat (S n) ≤ u32_max →
  throttled n t0 t m → blocked_until m ≤ t' → throttled (S n) t0 t' (limiter m t' false).2.
Proof.
  intros Ht Hbig Hf (Hk&Hlow&Hlock) Hb. unfold limiter.
  rewrite bool_decide_false by lia. simpl.
  rewrite Z.min_l by lia. replace (failed_attempts m + 1) with (Z.of_nat (S n)) by lia.
  assert (t0 + lockout (S n) ≤ t') as Hlow'.
  { destruct Hlock as [Hlt|?]; [|lia].
    rewrite (lockout_3 (S n)) by lia. rewrite (lockout_3 n) in Hlow by lia. lia. }
  split_and!; [done..|]. destruct (decide (S n < 3)%nat); [by left|right].
  rewrite bool_decide_false by lia. pose proof (lock_delay_bounds (Z.of_nat (S n))).
  cbn [blocked_until]. rewrite Z.min_l by lia. change (lockout (S (S n)))
    with (lockout (S n) + lock_delay (Z.of_nat (S n))). lia.
Qed.

Lemma guessing_throttled n t0 t m :
  guessing n t0 t m → t + 32000 ≤ u64_max → Z.of_nat n ≤ u32_max → throttled n t0 t m.
Proof.
  induction 1 as [t|n t0 t m t' p' v q m' v' Hg IH Hle Hc Hv
    |n t0 t m t' p' v q r m' v' Hg IH Hle Hc Hv Hok Hw|n t0 t m t' p' v q m' v' Hg IH Hle Hc Hv
    |n t0 t m t' v q m' v' Hg IH Hle Hs|n t0 t m t' v q r m' v' Hg IH Hle Hs Hok];
    intros Hbig Hn.
  - apply throttled_new.
  - destruct (verify_answer _ _ _ _ _ _ _ _ Hc Hv) as [Hb ->].
    apply throttled_step with t; [done..|apply IH; lia|done].
  - assert (m' = m) as ->.
    { pose proof (verify_answer _ _ _ _ _ _ _ _ Hc Hv) as Ha. by destruct r as [[]|[]|]. }
    apply throttled_later with t, IH; lia.
  - pose proof (verify_answer _ _ _ _ _ _ _ _ Hc Hv) as ->. apply throttled_new.
  - apply set_password_answer in Hs as ->. apply throttled_new.
  - apply set_password_answer in Hs as ->. rewrite decide_False by done.
    apply throttled_later with t, IH; lia.
Qed.

(** C5. In any session with the manager, with accepted guesses, changes of the
    password, failing attempts and changes of the file system in between, [n]
    guesses that were answered "wrong password" since the last accepted guess or
    change of the password (at [t0]) have taken at least [lockout n] milliseconds:
    1 s after the third, doubled up to 32 s for each further one (from the eighth
    guess on, 32 s per guess).  The count is the session's, not the manager's
    field.  The clock stays 32 s below its largest value, the count at most at
    that of a [u32], and a storage backend does not answer [AuthenticationFailed]
    to a read. *)
Theorem brute_force_throttled n t0 t m :
  guessing n t0 t m → t + 32000 ≤ u64_max → Z.of_nat n ≤ u32_max →
  t0 + lockout n ≤ t
  ∧ ((8 ≤ n)%nat → 31000 + 32000 * (Z.of_nat n - 8) ≤ t - t0).
Proof.
  intros Hg Hbig Hn. destruct (guessing_throttled _ _ _ _ Hg Hbig Hn) as (_&Hlow&_).
  split; [done|]. intros H8. rewrite lockout_linear in Hlow by lia. lia.
Qed.
End guessing.

(** ** Concrete runs *)

(** A hash for evaluation only: the buffer's length of password and salt. *)
#[local] Instance example_argon2 : Argon2 := {|
  argon2_params := ();
  params_new _ _ _ _ := Ok ();
  hash_password_into _ password salt out := Ok (take (length out) (password ++ salt ++ out)) |}.

Lemma example_hash_length ps password salt out h :
  hash_password_into ps password salt out = Ok h → length h = length out.
Proof. intros [= <-]. rewrite length_take, !length_app. lia. Qed.

Definition example_salt : list byte := mock_random 0 (replicate SALT_LEN x00).
Definition example_hash : list byte := default [] (
  match derive "pw" example_salt with Ok h => Some h | _ => None end).
Definition example_vfs : Vfs MockPlatform :=
  (set_password "pw" (security_new, vfs_new mock_default)).2.2.

Lemma example_stored : verifier_stored example_salt example_hash example_vfs.
Proof.
  split_and!; [by_vm|by_vm|by vm_compute|].
  do 2 eexists. split; [vm_compute; reflexivity|]. split; [vm_compute; reflexivity|].
  by_vm.
Qed.

Lemma verify_refines_limiter_witness :
  verifier_stored example_salt example_hash example_vfs ∧
  derive "pw" example_salt = Ok example_hash ∧
  ∃ now p' v', monotonic_millis (vfs_platform example_vfs) = (Ok now, p') ∧
    verify "pw" (security_new, example_vfs) =
      (auth_outcome (limiter security_new now (bool_decide (example_hash = example_hash))).1,
       ((limiter security_new now (bool_decide (example_hash = example_hash))).2, v'))
    ∧ verifier_stored example_salt example_hash v'.
Proof.
  split_and!; [exact example_stored|by_vm|].
  apply (verify_refines_limiter security_new example_vfs example_salt example_hash "pw");
    [exact example_stored|by_vm].
Defined.

Lemma set_password_then_verify_witness :
  plat_ok (vfs_platform (vfs_new mock_default)) ∧ "pw" ≠ ("" : str) ∧
  set_password "pw" (security_new, vfs_new mock_default)
    = (Ok (), (security_new, example_vfs)) ∧
  (verify "pw" (security_new, example_vfs)).1 = Ok ().
Proof.
  split_and!; [by vm_compute|done|by_vm|].
  apply (set_password_then_verify example_hash_length "pw" security_new
           (vfs_new mock_default)); [by vm_compute|done|by_vm].
Defined.

Lemma mock_reads_honest rel (p : MockPlatform) :
  (storage_read rel p).1 ≠ Err AuthenticationFailed.
Proof. cbn. unfold reads. simpl. by destruct (mock_files p !! rel). Qed.

(** The example's platform with its clock at [t]. *)
Definition example_at (t : Z) : Vfs MockPlatform :=
  set_vfs_platform
    (mk_mock (mock_files (vfs_platform example_vfs)) (mock_dirs (vfs_platform example_vfs))
       [] "" t []) example_vfs.

(** Three wrong guesses at once, one that is not checked, and the fourth after the
    second the limiter asks for. *)
Lemma example_guess :
  guessing (P := MockPlatform) 4 0 1000 (mk_security 4 3000).
Proof.
  apply (guessing_wrong 3 0 500 (mk_security 3 1000) 1000 (vfs_platform (example_at 1000))
           (example_at 1000) "guess" (mk_security 4 3000) (example_at 1000));
    [|lia|by_vm|by_vm].
  apply (guessing_unchecked 3 0 0 (mk_security 3 1000) 500 (vfs_platform (example_at 500))
           (example_at 500) "guess" (Err (RateLimited 500)) (mk_security 3 1000)
           (example_at 500)); [|lia|by_vm|by_vm|done|done].
  apply (guessing_wrong 2 0 0 (mk_security 2 0) 0 (vfs_platform (example_at 0))
           (example_at 0) "guess" (mk_security 3 1000) (example_at 0)); [|lia|by_vm|by_vm].
  apply (guessing_wrong 1 0 0 (mk_security 1 0) 0 (vfs_platform (example_at 0))
           (example_at 0) "guess" (mk_security 2 0) (example_at 0)); [|lia|by_vm|by_vm].
  apply (guessing_wrong 0 0 0 security_new 0 (vfs_platform (example_at 0))
           (example_at 0) "guess" (mk_security 1 0) (example_at 0)); [|lia|by_vm|by_vm].
  apply guessing_start.
Qed.

Lemma brute_force_throttled_witness :
  guessing (P := MockPlatform) 4 0 1000 (mk_security 4 3000) ∧ 0 + lockout 4 ≤ 1000.
Proof.
  split; [exact example_guess|].
  apply (brute_force_throttled (P := MockPlatform) mock_reads_honest 4 0 1000
           (mk_security 4 3000)); [exact example_guess|by vm_compute|by vm_compute].
Defined.
