(* ===== verification/App.v ===== *)
(** * Application metadata and runtimes ([crates/afos-core/src/app.rs])

    The header directives of a script, the capability syntax and the registry of
    interpreters.  The theorems show that capabilities and headers survive
    printing and parsing, what every accepted header guarantees about the
    identity, and that the registry never holds two runtimes for one extension. *)
From S2P Require Import Prelude RustStr Api.

Record AppMetadata := { identity : AppIdentity }.

Definition parse_capability (value : str) : res Error Capability :=
  if bool_decide (value = "clock") then Ok Clock
  else if bool_decide (value = "system.info") then Ok CapSystemInfo
  else match strip_prefix "fs.read:" value with
  | Some path => Ok (FsRead path)
  | None =>
  match strip_prefix "fs.write:" value with
  | Some path => Ok (FsWrite path)
  | None =>
  match strip_prefix "net:" value with
  | Some host =>
      if bool_decide (host = "")
      then Err (InvalidInput "network capability requires a host pattern")
      else Ok (Network host)
  | None => Err (InvalidInput ("unknown capability: " ++ value))
  end end end.

(** [capabilities.push(parse_capability(item)?)] over the items. *)
Fixpoint parse_capabilities (items : list str) (capabilities : list Capability) :
    res Error (list Capability) :=
  match items with
  | [] => Ok capabilities
  | item :: rest =>
      c ← parse_capability item;
      parse_capabilities rest (capabilities ++ [c])
  end.

Definition capability_items (value : str) : list str :=
  filter (λ item, item ≠ "") (trim <$> split ","%byte value).

(** The file name without its last extension. *)
Definition file_stem (source_path : str) : option str :=
  name ← rsplit_next slash source_path;
  let stem := match rsplit_once dot name with Some (stem, _) => stem | None => name end in
  if bool_decide (stem = "") then None else Some stem.

Definition valid_id_byte (b : byte) : bool :=
  is_ascii_alphanumeric b || bool_decide (b = "."%byte)
  || bool_decide (b = "-"%byte) || bool_decide (b = "_"%byte).

Definition directive_prefix : str := "// afos:".

(** The loop over the source lines, with the loop's three variables. *)
Fixpoint parse_lines (ls : list str) (id : str) (api_version : Z)
    (capabilities : list Capability) : res Error (str * Z * list Capability) :=
  match ls with
  | [] => Ok (id, api_version, capabilities)
  | line :: rest =>
      let trimmed := trim line in
      if bool_decide (trimmed = "") then parse_lines rest id api_version capabilities
      else match strip_prefix directive_prefix trimmed with
      | None =>
          if starts_with "//" trimmed then parse_lines rest id api_version capabilities
          else Ok (id, api_version, capabilities)
      | Some directive =>
          match split_once "="%byte directive with
          | None => Err (InvalidInput "AFOS directive must use key=value")
          | Some (key, value) =>
              if bool_decide (trim key = "api") then
                match parse_u16 (trim value) with
                | None => Err (InvalidInput "invalid API version")
                | Some v =>
                    if negb (bool_decide (v = 1))
                    then Err (Unsupported ("application API version " ++ dec v))
                    else parse_lines rest id v capabilities
                end
              else if bool_decide (trim key = "id") then
                let candidate := trim value in
                if bool_decide (candidate = "") || negb (forallb valid_id_byte candidate)
                then Err (InvalidInput "invalid application ID")
                else parse_lines rest candidate api_version capabilities
              else if bool_decide (trim key = "capabilities") then
                capabilities ← parse_capabilities (capability_items value) capabilities;
                parse_lines rest id api_version capabilities
              else Err (InvalidInput ("unknown AFOS directive: " ++ trim key))
          end
      end
  end.

Definition parse_metadata (source_path source : str) (trusted : bool) :
    res Error AppMetadata :=
  filename ← ok_or (InvalidInput "application has no file name") (file_stem source_path);
  '(id, api_version, capabilities) ← parse_lines (lines source) filename 1 [];
  Ok {| identity := {| app_id := id; app_source_path := source_path;
                       app_trusted := trusted; app_api_version := api_version;
                       app_capabilities := capabilities |} |}.

(** ** The runtime registry *)
Definition RuntimeRegistry : Type := list AppRuntime.

Definition registry_new : RuntimeRegistry := [].

Definition registry_register (runtime : AppRuntime) : M RuntimeRegistry Error () :=
  λ runtimes,
    if existsb (λ r, bool_decide (rt_extension r = rt_extension runtime)) runtimes
    then (Err (AlreadyExists (rt_extension runtime)), runtimes)
    else (Ok (), runtimes ++ [runtime]).

Definition registry_execute {S} `{!SystemApi S} (runtimes : RuntimeRegistry)
    (path source : str) : M S Error Z :=
  extension ← lift (ok_or (Unsupported "application has no extension")
                      (snd <$> rsplit_once dot path));
  runtime ← lift (ok_or (Unsupported ("*." ++ extension ++ " applications"))
                    (List.find (λ r, bool_decide (rt_extension r = extension)) runtimes));
  run_prog (rt_execute runtime source).

Definition registry_supports (runtimes : RuntimeRegistry) (path : str) : bool :=
  match rsplit_once dot path with
  | Some (_, extension) =>
      existsb (λ r, bool_decide (rt_extension r = extension)) runtimes
  | None => false
  end.

(** ** Capabilities: printing and parsing *)
Definition printable (c : Capability) : Prop := c ≠ Network "".

Lemma parse_capability_print c :
  printable c → parse_capability (capability_to_string c) = Ok c.
Proof.
  intros Hc. destruct c as [path|path| | |host]; try reflexivity.
  destruct host as [|b host]; [by destruct Hc|reflexivity].
Qed.

(** A capability that is printed and parsed again is the same capability (a
    network capability needs a host pattern); so a declared capability means what
    the prompt shows. *)
Theorem capability_roundtrip c :
  c ≠ Network "" → parse_capability (capability_to_string c) = Ok c.
Proof. apply parse_capability_print. Qed.

Lemma capability_roundtrip_witness :
  FsWrite "/user/saves" ≠ Network "" ∧
  parse_capability (capability_to_string (FsWrite "/user/saves"))
    = Ok (FsWrite "/user/saves").
Proof. split; [done|]. by apply (capability_roundtrip (FsWrite "/user/saves")). Defined.

(** ** What an accepted header guarantees *)
Lemma parse_capabilities_hosts items caps caps' :
  Forall printable caps → parse_capabilities items caps = Ok caps' →
  Forall printable caps'.
Proof.
  revert caps. induction items as [|item items IH]; simpl; intros caps Hc H;
    [by simplify_eq|].
  apply res_bind_ok in H as (c&Hp&H). apply IH in H; [done|].
  apply Forall_app_2; [done|]. constructor; [|done].
  unfold parse_capability in Hp. repeat case_match; simplify_eq/=; try done.
  case_bool_decide; [done|]. by intros [= ->].
Qed.

(** An application name: a file stem, or what the [id] directive accepts. *)
Definition plain_id (id : str) : Prop := id ≠ "" ∧ slash ∉ id.

Lemma valid_id_plain id :
  id ≠ "" → forallb valid_id_byte id = true → plain_id id.
Proof.
  intros Hne Hall. split; [done|]. intros Hin.
  rewrite forallb_forall in Hall. apply list_elem_of_In, Hall in Hin. by vm_compute in Hin.
Qed.

Lemma parse_lines_spec ls id api caps id' api' caps' :
  parse_lines ls id api caps = Ok (id', api', caps') →
  (id' = id ∨ (id' ≠ "" ∧ forallb valid_id_byte id' = true))
  ∧ (api' = api ∨ api' = 1)
  ∧ (Forall printable caps → Forall printable caps').
Proof.
  revert id api caps. induction ls as [|line ls IH]; intros id api caps; cbn [parse_lines];
    [intros [= <- <- <-]; auto|].
  destruct (bool_decide (trim line = "")); [apply IH|].
  destruct (strip_prefix directive_prefix (trim line)) as [d|].
  2:{ destruct (starts_with "//" (trim line)); [apply IH|]. intros [= <- <- <-]; auto. }
  destruct (split_once "="%byte d) as [[key value]|]; [|done].
  destruct (bool_decide (trim key = "api")).
  { destruct (parse_u16 (trim value)) as [v|]; [|done].
    destruct (bool_decide (v = 1)) eqn:E; [|done]. apply bool_decide_eq_true in E as ->.
    simpl. intros H. apply IH in H as (?&[?|?]&?); auto. }
  destruct (bool_decide (trim key = "id")).
  { destruct (bool_decide (trim value = "")) eqn:E; [done|].
    destruct (forallb valid_id_byte (trim value)) eqn:F; [|done]. simpl.
    apply bool_decide_eq_false in E. intros H. apply IH in H as ([->|?]&?&?); auto. }
  destruct (bool_decide (trim key = "capabilities")); [|done].
  intros (caps1&Hc&H)%res_bind_ok. apply IH in H as (?&?&Hp). split_and!; [done..|].
  intros Hcaps. apply Hp. by eapply parse_capabilities_hosts.
Qed.

Lemma file_stem_plain path stem : file_stem path = Some stem → plain_id stem.
Proof.
  unfold file_stem, rsplit_next. intros (name&Hn&H)%bind_Some.
  assert (slash ∉ name) as Hs.
  { apply head_Some_elem_of, list_elem_of_In in Hn. rewrite <-in_rev in Hn.
    apply list_elem_of_In in Hn. by apply (proj1 (Forall_forall _ _) (split_nin slash path)). }
  destruct (rsplit_once dot name) as [[l r]|] eqn:E; case_bool_decide; simplify_eq/=.
  - apply rsplit_once_Some in E as [-> _]. split; [done|].
    apply not_elem_of_app in Hs as [??]. done.
  - by split.
Qed.

(** An accepted header gives an identity with a non-empty name without a
    slash, API version 1, the path and the trust the caller passed, and only
    network capabilities with a host pattern: no directive can raise the trust. *)
Theorem parse_metadata_identity path source trusted md :
  parse_metadata path source trusted = Ok md →
  let app := identity md in
  app_id app ≠ "" ∧ slash ∉ app_id app ∧ app_api_version app = 1
  ∧ app_trusted app = trusted ∧ app_source_path app = path
  ∧ Forall printable (app_capabilities app).
Proof.
  unfold parse_metadata. intros (stem&Hs&H)%res_bind_ok.
  destruct (file_stem path) as [stem'|] eqn:E; simplify_eq/=.
  apply res_bind_ok in H as ([[id api] caps]&Hl&H). simplify_eq/=.
  apply parse_lines_spec in Hl as (Hid&Hapi&Hcaps).
  assert (plain_id id) as [??].
  { destruct Hid as [->|[??]]; [by eapply file_stem_plain|by apply valid_id_plain]. }
  split_and!; [done..|naive_solver|done|done|]. apply Hcaps. constructor.
Qed.

Lemma parse_metadata_identity_witness :
  let md := {| identity := {| app_id := "notes"; app_source_path := "/apps/notes.rhai";
                app_trusted := false; app_api_version := 1; app_capabilities := [Clock] |} |} in
  parse_metadata "/apps/notes.rhai" "// afos:capabilities=clock" false = Ok md
  ∧ app_trusted (identity md) = false.
Proof.
  intros md. split; [by_vm|].
  apply (parse_metadata_identity "/apps/notes.rhai" "// afos:capabilities=clock" false md).
  by_vm.
Defined.

(** ** Headers: printing and parsing *)
Definition directive (key value : str) : str :=
  directive_prefix ++ key ++ "="%byte :: value.

Definition print_header (id : str) (caps : list Capability) : str :=
  directive "api" "1" ++ nl :: directive "id" id ++ nl ::
  directive "capabilities" (join "," (capability_to_string <$> caps)) ++ [nl].

(** A capability whose text can stand in a list on one line. *)
Definition listable (c : Capability) : Prop :=
  printable c ∧ trimmed (capability_to_string c) ∧
  Forall (λ b, b ≠ ","%byte ∧ b ≠ nl ∧ b ≠ cr) (capability_to_string c).

(** A script whose header is over: its first line is code. *)
Definition code_body (body : str) : Prop :=
  match lines body with
  | [] => True
  | line :: _ => trim line ≠ "" ∧ starts_with "//" (trim line) = false
  end.

Lemma capability_text_ne c : capability_to_string c ≠ "".
Proof. by destruct c. Qed.

Lemma listable_items caps :
  Forall listable caps →
  capability_items (join "," (capability_to_string <$> caps)) = capability_to_string <$> caps.
Proof.
  intros Hc. unfold capability_items. destruct caps as [|c caps]; [done|].
  rewrite split_join; [|done|].
  - assert (trim <$> (capability_to_string <$> c :: caps) = capability_to_string <$> c :: caps)
      as ->.
    { rewrite <-list_fmap_compose. apply Forall_fmap_ext_1.
      eapply Forall_impl; [exact Hc|]. intros x (_&Ht&_). by apply trim_id. }
    apply filter_all. apply Forall_fmap, Forall_true. intros x. apply capability_text_ne.
  - apply Forall_fmap. eapply Forall_impl; [exact Hc|]. intros x (_&_&Hf) Hin.
    by destruct (proj1 (Forall_forall _ _) Hf _ Hin).
Qed.

Lemma parse_capabilities_print caps acc :
  Forall printable caps →
  parse_capabilities (capability_to_string <$> caps) acc = Ok (acc ++ caps).
Proof.
  intros Hc. revert acc. induction Hc as [|c caps Hc Hcs IH]; intros acc; simpl.
  - by rewrite app_nil_r.
  - rewrite parse_capability_print by done. simpl. rewrite IH.
    by rewrite <-app_assoc.
Qed.

Lemma directive_line key value :
  Forall (λ b, b2z b < 128 ∧ is_whitespace (b2z b) = false) key →
  "="%byte ∉ key → trimmed value → key ≠ "" →
  let line := directive key value in
  trim line = line ∧ bool_decide (line = "") = false
  ∧ strip_prefix directive_prefix line = Some (key ++ "="%byte :: value)
  ∧ split_once "="%byte (key ++ "="%byte :: value) = Some (key, value)
  ∧ trim key = key.
Proof.
  intros Hk Heq Ht Hne line. subst line. unfold directive.
  assert (trimmed key) as Htk by (by apply trimmed_ascii).
  split_and!; [|done|by apply strip_prefix_app|by apply split_once_app|by apply trim_id].
  apply trim_id.
  assert (valid_utf8 (" afos:" ++ key)) as Hu.
  { apply valid_utf8_app; [by vm_compute|by apply valid_utf8_trimmed]. }
  destruct (decide (value = "")) as [->|Hv].
  - replace (directive_prefix ++ key ++ ["="%byte])
      with ("//" ++ ((" afos:" ++ key) ++ "=")) by by rewrite <-!app_assoc.
    apply trimmed_wrap; [done..| |done|]; apply trimmed_ascii; by_eval.
  - replace (directive_prefix ++ key ++ "="%byte :: value)
      with ("//" ++ (((" afos:" ++ key) ++ "=") ++ value)) by by rewrite <-!app_assoc.
    apply trimmed_wrap; [done..| | |done]; [apply trimmed_ascii; by_eval|].
    by apply valid_utf8_app; [|by vm_compute].
Qed.

Lemma trimmed_join l :
  Forall (λ x, x ≠ "" ∧ trimmed x) l → trimmed (join "," l).
Proof.
  intros Hl. destruct (decide (l = [])) as [->|Hne]; [by apply trimmed_ascii|].
  assert (join "," l ≠ "" ∧ trimmed (join "," l)) as [_ ?]; [|done].
  induction Hl as [|x l [Hx Ht] Hl IH]; [done|].
  destruct (decide (l = [])) as [->|Hne']; [done|].
  rewrite join_cons by done. destruct (IH Hne') as [??].
  split; [by destruct x|]. apply trimmed_wrap; done.
Qed.

Lemma valid_id_trimmed id : forallb valid_id_byte id = true → trimmed id.
Proof.
  intros H. apply trimmed_ascii, Forall_forall. intros b Hb.
  rewrite forallb_forall in H. apply list_elem_of_In, H in Hb. by destruct b.
Qed.

Lemma valid_id_line id b : forallb valid_id_byte id = true → b = nl ∨ b = cr → b ∉ id.
Proof.
  intros H Hb Hin. rewrite forallb_forall in H. apply list_elem_of_In, H in Hin.
  by destruct Hb as [-> | ->].
Qed.

Lemma listable_line caps b :
  Forall listable caps → b = nl ∨ b = cr →
  b ∉ join "," (capability_to_string <$> caps).
Proof.
  intros Hc Hb Hin. apply elem_of_join in Hin as [Hin|(x&Hin&Hx)].
  - apply list_elem_of_singleton in Hin as ->. by destruct Hb.
  - apply list_elem_of_fmap in Hin as (c&->&Hin).
    destruct (proj1 (Forall_forall _ _) Hc _ Hin) as (_&_&Hf).
    destruct (proj1 (Forall_forall _ _) Hf _ Hx) as (_&?&?). by destruct Hb.
Qed.

Lemma directive_nin b key value :
  b ∉ directive_prefix → b ∉ key → b ≠ "="%byte → b ∉ value → b ∉ directive key value.
Proof.
  intros ????. unfold directive.
  apply not_elem_of_app; split; [done|]. apply not_elem_of_app; split; [done|].
  by apply not_elem_of_cons.
Qed.

(** The three header lines, then the body. *)
Lemma lines_print_header id caps body :
  forallb valid_id_byte id = true → Forall listable caps →
  lines (print_header id caps ++ body) =
    directive "api" "1" :: directive "id" id
    :: directive "capabilities" (join "," (capability_to_string <$> caps)) :: lines body.
Proof.
  intros Hid Hc. unfold print_header.
  assert (∀ b, b = nl ∨ b = cr → b ∉ directive_prefix ∧ b ≠ "="%byte
            ∧ b ∉ ("api" : str) ∧ b ∉ ("1" : str) ∧ b ∉ ("id" : str)
            ∧ b ∉ ("capabilities" : str)) as Hb.
  { intros b [-> | ->]; split_and!; by_eval. }
  repeat (rewrite <-app_assoc, <-app_comm_cons).
  destruct (Hb nl) as (?&?&?&?&?&?); [by left|].
  destruct (Hb cr) as (?&?&?&?&?&?); [by right|].
  do 3 (rewrite lines_line by (apply directive_nin; auto using valid_id_line, listable_line);
        f_equal).
Qed.

Lemma parse_lines_body body id api caps :
  code_body body → parse_lines (lines body) id api caps = Ok (id, api, caps).
Proof.
  unfold code_body. destruct (lines body) as [|line rest]; [done|]. intros [Hne Hc].
  cbn [parse_lines]. rewrite bool_decide_false by done.
  destruct (strip_prefix directive_prefix (trim line)) as [d|] eqn:E; [|by rewrite Hc].
  apply strip_prefix_Some in E. exfalso. apply not_true_iff_false in Hc. apply Hc.
  apply starts_with_spec. rewrite E. by eexists (" afos:" ++ d).
Qed.

(** One directive line with a known key: its value reaches the key's branch. *)
Section directives.
Context (rest : list str) (id : str) (api : Z) (caps : list Capability).

Lemma parse_directive key value :
  key ∈ ["api"; "id"; "capabilities"] → trimmed value →
  parse_lines (directive key value :: rest) id api caps =
    if bool_decide (key = "api") then
      match parse_u16 value with
      | None => Err (InvalidInput "invalid API version")
      | Some v => if negb (bool_decide (v = 1))
                  then Err (Unsupported ("application API version " ++ dec v))
                  else parse_lines rest id v caps
      end
    else if bool_decide (key = "id") then
      if bool_decide (value = "") || negb (forallb valid_id_byte value)
      then Err (InvalidInput "invalid application ID")
      else parse_lines rest value api caps
    else caps ← parse_capabilities (capability_items value) caps; parse_lines rest id api caps.
Proof.
  intros Hk Ht. destruct (directive_line key value) as (T&E&P&S&K).
  - revert Hk. apply (Forall_forall (λ k, Forall (λ b, b2z b < 128 ∧
      is_whitespace (b2z b) = false) k)). by_eval.
  - revert Hk. apply (Forall_forall (λ k, "="%byte ∉ k)). by_eval.
  - done.
  - revert Hk. apply (Forall_forall (λ k, k ≠ "")). by_eval.
  - cbn [parse_lines]. rewrite T, E, P, S, K, trim_id by done.
    destruct (decide (key = "api")) as [Ha|Ha]; [by rewrite !bool_decide_true|].
    rewrite !(bool_decide_false (key = "api")) by done.
    destruct (decide (key = "id")) as [Hi|Hi].
    { by rewrite !(bool_decide_true (key = "id")) by done. }
    rewrite !(bool_decide_false (key = "id")), bool_decide_true; [done| |done].
    apply list_elem_of_In in Hk as [?|[?|[?|[]]]]; by subst key.
Qed.

Lemma parse_api_line : parse_lines (directive "api" "1" :: rest) id api caps
  = parse_lines rest id 1 caps.
Proof.
  rewrite parse_directive by (by_eval || (by apply trimmed_ascii; by_eval)).
  assert (parse_u16 "1" = Some 1) as -> by by_vm. done.
Qed.

Lemma parse_id_line new :
  new ≠ "" → forallb valid_id_byte new = true →
  parse_lines (directive "id" new :: rest) id api caps = parse_lines rest new api caps.
Proof.
  intros Hne Hv. rewrite parse_directive by (by_eval || by apply valid_id_trimmed).
  rewrite (bool_decide_false ("id" = "api")),
    (bool_decide_true ("id" = "id")), (bool_decide_false (new = "")), Hv by done. done.
Qed.

Lemma parse_capabilities_line cs :
  Forall listable cs →
  parse_lines (directive "capabilities" (join "," (capability_to_string <$> cs)) :: rest)
    id api caps = parse_lines rest id api (caps ++ cs).
Proof.
  intros Hc. rewrite parse_directive; [|by_eval|].
  - rewrite (bool_decide_false ("capabilities" = "api")),
      (bool_decide_false ("capabilities" = "id")) by done.
    rewrite listable_items, parse_capabilities_print by
      (done || (eapply Forall_impl; [exact Hc|]; by intros c [??])). done.
  - apply trimmed_join, Forall_fmap. eapply Forall_impl; [exact Hc|].
    intros c (_&?&_). split; [apply capability_text_ne|done].
Qed.
End directives.

(** C6. A script that starts with the printed header of an identity and goes on
    with code is parsed to that identity: the application gets the name and the
    capabilities its author wrote, whatever its file is called. *)
Theorem header_roundtrip path stem id caps body trusted :
  file_stem path = Some stem → id ≠ "" → forallb valid_id_byte id = true →
  Forall listable caps → code_body body →
  parse_metadata path (print_header id caps ++ body) trusted =
    Ok {| identity := {| app_id := id; app_source_path := path; app_trusted := trusted;
                         app_api_version := 1; app_capabilities := caps |} |}.
Proof.
  intros Hs Hne Hid Hc Hb. unfold parse_metadata. rewrite Hs, lines_print_header by done.
  cbn [ok_or mbind res_bind].
  rewrite parse_api_line, parse_id_line, parse_capabilities_line, parse_lines_body by done.
  done.
Qed.

Lemma header_roundtrip_witness :
  file_stem "/apps/a.b.rhai" = Some ("a.b" : str) ∧
  forallb valid_id_byte "my-app" = true ∧
  Forall listable [FsRead "/user/saves"; Clock] ∧ code_body "print(1);" ∧
  parse_metadata "/apps/a.b.rhai"
    (print_header "my-app" [FsRead "/user/saves"; Clock] ++ "print(1);") false =
    Ok {| identity := {| app_id := "my-app"; app_source_path := "/apps/a.b.rhai";
            app_trusted := false; app_api_version := 1;
            app_capabilities := [FsRead "/user/saves"; Clock] |} |}.
Proof.
  assert (Forall listable [FsRead "/user/saves"; Clock]) as Hl.
  { repeat constructor; try (by apply trimmed_ascii; by_eval); by_eval. }
  assert (code_body "print(1);") as Hb by (vm_compute; done).
  split_and!; [by_vm|by_vm|done|done|].
  apply (header_roundtrip "/apps/a.b.rhai" "a.b"); [by_vm|done|by_vm|done|done].
Defined.

(** ** The registry *)
Definition registry_ok (rs : RuntimeRegistry) : Prop := NoDup (rt_extension <$> rs).

Lemma registry_exists_ext rs ext :
  existsb (λ r, bool_decide (rt_extension r = ext)) rs = true ↔ ext ∈ rt_extension <$> rs.
Proof.
  rewrite existsb_exists, list_elem_of_fmap. split.
  - intros (r&Hin&He%bool_decide_eq_true). exists r. split; [done|]. by apply list_elem_of_In.
  - intros (r&->&Hin). exists r. split; [by apply list_elem_of_In|]. by apply bool_decide_eq_true.
Qed.

Lemma registry_find rs ext :
  ext ∈ rt_extension <$> rs →
  ∃ rt, List.find (λ r, bool_decide (rt_extension r = ext)) rs = Some rt
    ∧ rt ∈ rs ∧ rt_extension rt = ext.
Proof.
  intros H. destruct (List.find _ rs) as [rt|] eqn:E.
  - apply find_some in E as [Hin Hx%bool_decide_eq_true]. exists rt.
    split_and!; [done|by apply list_elem_of_In|done].
  - apply list_elem_of_fmap in H as (r&->&Hin%list_elem_of_In).
    eapply find_none in E; [|done]. by apply bool_decide_eq_false in E.
Qed.

Lemma NoDup_fmap_inj_on {A B} (f : A → B) l x y :
  NoDup (f <$> l) → x ∈ l → y ∈ l → f x = f y → x = y.
Proof.
  intros Hnd [i Hi]%list_elem_of_lookup [j Hj]%list_elem_of_lookup Hf.
  assert (i = j) as ->; [|congruence].
  eapply NoDup_lookup; [exact Hnd|by rewrite list_lookup_fmap, Hi|].
  by rewrite list_lookup_fmap, Hj, Hf.
Qed.

(** The registry never holds two runtimes for one extension: registering keeps
    that invariant, refuses a second runtime and changes nothing then.  A path is
    supported exactly when it has an extension some runtime claims; then exactly
    that runtime runs the source, and an unsupported path is an [Unsupported] error
    that touches no state. *)
Theorem registry_dispatch {S} `{!SystemApi S} (rs : RuntimeRegistry) :
  registry_ok rs →
  (∀ rt, registry_ok (registry_register rt rs).2
     ∧ registry_register rt rs =
         if decide (rt_extension rt ∈ rt_extension <$> rs)
         then (Err (AlreadyExists (rt_extension rt)), rs) else (Ok (), rs ++ [rt]))
  ∧ ∀ path source (s : S),
      if registry_supports rs path
      then ∃ stem rt, path = stem ++ dot :: rt_extension rt ∧ rt ∈ rs
           ∧ (∀ rt', rt' ∈ rs → rt_extension rt' = rt_extension rt → rt' = rt)
           ∧ registry_execute rs path source s = run_prog (rt_execute rt source) s
      else ∃ msg, registry_execute rs path source s = (Err (Unsupported msg), s).
Proof.
  intros Hok. split.
  - intros rt. unfold registry_register.
    pose proof (registry_exists_ext rs (rt_extension rt)) as Hx.
    destruct (existsb _ rs); case_decide as Hin; [done|by destruct Hin; apply Hx| |].
    { assert (false = true) by (by apply Hx). done. }
    split; [|done]. unfold registry_ok. simpl. rewrite fmap_app.
    apply NoDup_app. split_and!; [done| |by apply NoDup_singleton].
    intros x Hx1 Hx2%list_elem_of_singleton. by subst x.
  - intros path source s. unfold registry_supports, registry_execute.
    destruct (rsplit_once dot path) as [[stem ext]|] eqn:E; [|by eexists].
    pose proof (registry_exists_ext rs ext) as Hx. destruct (existsb _ rs).
    + destruct (registry_find rs ext) as (rt&Hf&Hin&Hext); [by apply Hx|].
      apply rsplit_once_Some in E as [-> _]. exists stem, rt. rewrite Hext.
      split_and!; [done..| |].
      * intros rt' ??. eapply NoDup_fmap_inj_on; [exact Hok|done..|congruence].
      * cbn [fmap option_fmap option_map ok_or snd]. rewrite !bind_lift_ok.
        by rewrite Hf.
    + cbn [fmap option_fmap option_map ok_or snd]. rewrite !bind_lift_ok.
      destruct (List.find _ rs) as [rt|] eqn:F; [|by eexists]. exfalso.
      apply find_some in F as [Hin He%bool_decide_eq_true]. assert (false = true); [|done].
      apply Hx, list_elem_of_fmap. exists rt. split; [done|by apply list_elem_of_In].
Qed.

