(* ===== verification/System.v ===== *)
(** * The system and its application sessions ([crates/afos-core/src/system.rs])

    First-run setup, password changes, the authorisation prompt and [AppSession],
    the only implementation of [SystemApi].  The theorems show what a granted
    authorisation implies, that an application reaches no file, host or connection
    outside its data directory, its grants and what bookkeeping reads, that the verifier
    is only replaced through the identifier [..], and that setup and password changes cannot be bypassed. *)
From S2P Require Import Prelude RustStr Api Mock Vfs Contract Security App.

Definition INITIALIZED_PATH : str := "/user/config/initialized".

Record System (P : Type) := mk_system {
  sys_vfs : Vfs P;
  sys_security : SecurityManager }.
Arguments mk_system {P}.
Arguments sys_vfs {P}.
Arguments sys_security {P}.

Definition system_new {P} (platform : P) : System P :=
  mk_system (vfs_new platform) security_new.
Definition system_with_vfs {P} (vfs : Vfs P) : System P := mk_system vfs security_new.
Definition into_platform {P} (s : System P) : P := vfs_platform (sys_vfs s).

(** ** Declared capabilities *)
Definition path_prefix (prefix path : str) : bool :=
  bool_decide (prefix = "/") || bool_decide (path = prefix)
  || match strip_prefix prefix path with
     | Some suffix => starts_with "/" suffix
     | None => false
     end.

Definition grants (declared requested : Capability) : bool :=
  match declared, requested with
  | FsRead prefix, FsRead path | FsWrite prefix, FsWrite path =>
      match normalize_path "/" prefix with
      | Ok normalized => path_prefix normalized path
      | _ => false
      end
  | Clock, Clock | CapSystemInfo, CapSystemInfo => true
  | Network pattern, Network host =>
      bool_decide (pattern = "*") || eq_ignore_ascii_case pattern host
  | _, _ => false
  end.

Definition declares (app : AppIdentity) (requested : Capability) : bool :=
  existsb (λ declared, grants declared requested) (app_capabilities app).

Definition is_network (c : Capability) : bool :=
  match c with Network _ => true | _ => false end.

Definition declares_any_network (app : AppIdentity) : bool :=
  existsb is_network (app_capabilities app).

Definition affirmative (answer : str) : bool :=
  eq_ignore_ascii_case answer "y" || eq_ignore_ascii_case answer "yes".

Definition permission_prompt (app : AppIdentity) (capability : Capability)
    (resource : str) : str :=
  [nl] ++ "Permission request" ++ [nl] ++ "  app: " ++ app_id app ++ [nl]
  ++ "  operation: " ++ capability_to_string capability ++ [nl]
  ++ "  resource: " ++ resource ++ [nl].

(** ** The system *)
Section system.
Context {P : Type} `{!Platform P} `{!Argon2}.

Definition on_sys_vfs {A} (m : M (Vfs P) Error A) : M (System P) Error A :=
  zoom sys_vfs (λ v s, mk_system v (sys_security s)) m.
Definition on_platform {A} (m : M P Error A) : M (System P) Error A :=
  on_sys_vfs (platform_mut m).
(** A call of the security manager, which borrows the file system too. *)
Definition on_security {A} (m : M sec_state Error A) : M (System P) Error A :=
  zoom (λ s, (sys_security s, sys_vfs s)) (λ t _, mk_system t.2 t.1) m.

Definition prompt_new_password : M (System P) Error () :=
  password ← on_platform
    (console_read_line "New master password (empty disables it): " true);
  (if bool_decide (password ≠ "") then
     confirmation ← on_platform (console_read_line "Confirm master password: " true);
     if bool_decide (password ≠ confirmation)
     then throw (InvalidInput "password confirmation does not match")
     else mret ()
   else mret ());;
  on_security (set_password password).

Definition initialize (interactive : bool) : M (System P) Error () :=
  on_sys_vfs vfs_initialize_layout;;
  present ← on_sys_vfs (vfs_exists INITIALIZED_PATH);
  if present : bool then mret ()
  else
    on_platform (console_write ("AFOS first-run setup" ++ [nl]));;
    (if interactive then
       answer ← on_platform
         (console_read_line "Configure a master password? [y/N] " false);
       if affirmative answer then prompt_new_password else mret ()
     else mret ());;
    on_sys_vfs (vfs_write INITIALIZED_PATH ("AFOS-SETUP-1" ++ [nl])).

Definition change_password : M (System P) Error () :=
  present ← on_security has_password;
  (if present : bool then
     current ← on_platform (console_read_line "Current master password: " true);
     on_security (verify current)
   else mret ());;
  prompt_new_password.

Definition authorize (app : AppIdentity) (capability : Capability) (resource : str) :
    M (System P) Error () :=
  if bool_decide (resource = SECURITY_PATH)
     || match strip_prefix SECURITY_PATH resource with
        | Some suffix => starts_with "/" suffix
        | None => false
        end
  then throw (PermissionDenied "security configuration is not exposed to applications")
  else if negb (declares app capability)
  then throw (CapabilityNotDeclared (capability_to_string capability))
  else if app_trusted app then mret ()
  else
    on_platform (console_write (permission_prompt app capability resource));;
    answer ← on_platform (console_read_line "Allow this operation once? [y/N] " false);
    if negb (eq_ignore_ascii_case answer "y") && negb (eq_ignore_ascii_case answer "yes")
    then throw (PermissionDenied "request denied")
    else
      present ← on_security has_password;
      if present : bool then
        password ← on_platform (console_read_line "Master password: " true);
        on_security (verify password)
      else mret ().
End system.

(** ** Sessions *)
Record AppSession (P : Type) := mk_session {
  ses_system : System P;
  ses_app : AppIdentity;
  ses_args : list str;
  ses_cwd : str;
  ses_appdata_root : str;
  ses_sockets : list Z }.
Arguments mk_session {P}.
Arguments ses_system {P}.
Arguments ses_app {P}.
Arguments ses_args {P}.
Arguments ses_cwd {P}.
Arguments ses_appdata_root {P}.
Arguments ses_sockets {P}.

Definition appdata_dir (id : str) : str := "/user/appdata/" ++ id.

Definition session_new {P} (system : System P) (app : AppIdentity) (args : list str)
    (cwd : str) : AppSession P :=
  mk_session system app args cwd (appdata_dir (app_id app)) [].

Definition isize_max : Z := 9223372036854775807.

Section session.
Context {P : Type} `{!Platform P} `{!Argon2}.
Notation Ses := (M (AppSession P) Error).

Definition set_system (y : System P) (s : AppSession P) : AppSession P :=
  mk_session y (ses_app s) (ses_args s) (ses_cwd s) (ses_appdata_root s) (ses_sockets s).
Definition set_sockets (hs : list Z) (s : AppSession P) : AppSession P :=
  mk_session (ses_system s) (ses_app s) (ses_args s) (ses_cwd s) (ses_appdata_root s) hs.

Definition on_system {A} (m : M (System P) Error A) : Ses A :=
  zoom ses_system set_system m.
Definition ses_vfs {A} (m : M (Vfs P) Error A) : Ses A := on_system (on_sys_vfs m).
Definition ses_platform {A} (m : M P Error A) : Ses A := on_system (on_platform m).

Definition resolve (path : str) : Ses str :=
  reads (λ s, normalize_path (ses_cwd s) path).

Definition owned_socket (handle : Z) : Ses () :=
  reads (λ s, if bool_decide (handle ∈ ses_sockets s) then Ok ()
              else Err (NotFound ("network connection " ++ dec handle))).

Definition resolve_appdata (path : str) : Ses str :=
  reads (λ s,
    resolved ← normalize_path (ses_appdata_root s) path;
    if negb (path_prefix (ses_appdata_root s) resolved)
    then Err (PermissionDenied "path escapes application data")
    else Ok resolved).

(** [self.system.authorize(&self.app, ..)]. *)
Definition ses_authorize (capability : Capability) (resource : str) : Ses () :=
  app ← gets ses_app;
  on_system (authorize app capability resource).

Definition ses_read_text (path : str) : Ses str :=
  path ← resolve path;
  ses_authorize (FsRead path) path;;
  ses_vfs (vfs_read_text path).

Definition ses_write_text (path text : str) : Ses () :=
  path ← resolve path;
  ses_authorize (FsWrite path) path;;
  ses_vfs (vfs_write path text).

Definition ses_list (path : str) : Ses (list StorageEntry) :=
  path ← resolve path;
  ses_authorize (FsRead path) path;;
  ses_vfs (vfs_list path).

Definition ses_create_dir_all (path : str) : Ses () :=
  path ← resolve path;
  ses_authorize (FsWrite path) path;;
  ses_vfs (vfs_create_dir_all path).

Definition ses_remove (path : str) : Ses () :=
  path ← resolve path;
  ses_authorize (FsWrite path) path;;
  ses_vfs (vfs_remove path).

Definition ses_rename (from to : str) : Ses () :=
  from ← resolve from;
  to ← resolve to;
  ses_authorize (FsWrite from) from;;
  ses_authorize (FsWrite to) to;;
  ses_vfs (vfs_rename from to).

Definition ses_appdata_read (path : str) : Ses str :=
  path ← resolve_appdata path;
  ses_vfs (vfs_read_text path).

Definition ses_appdata_write (path text : str) : Ses () :=
  path ← resolve_appdata path;
  root ← gets ses_appdata_root;
  ses_vfs (vfs_create_dir_all root);;
  ses_vfs (vfs_write path text).

Definition ses_monotonic_millis : Ses Z :=
  ses_authorize Clock "monotonic clock";;
  ses_platform monotonic_millis.

Definition ses_system_info : Ses SystemInfo :=
  ses_authorize CapSystemInfo "system information";;
  ses_platform (gets system_info).

Definition ses_net_status : Ses NetStatus :=
  app ← gets ses_app;
  if negb (declares_any_network app)
  then throw (CapabilityNotDeclared "net:<host>")
  else ses_platform net_status.

Definition ses_net_connect (host : str) (port : Z) : Ses Z :=
  if bool_decide (host = "") then throw (InvalidInput "empty network host")
  else
    ses_authorize (Network host) (host ++ ":" ++ dec port);;
    handle ← ses_platform (net_connect host port);
    modify (λ s, set_sockets (ses_sockets s ++ [handle]) s);;
    mret handle.

Definition ses_net_send (handle : Z) (data : list byte) : Ses Z :=
  owned_socket handle;;
  ses_platform (net_send handle data).

(** [vec![0; max]] panics above [isize::MAX] bytes. *)
Definition ses_net_recv (handle max : Z) : Ses (list byte) :=
  owned_socket handle;;
  (if bool_decide (isize_max < max) then lift Panic else mret ());;
  '(count, buffer) ← ses_platform (net_recv handle (replicate (Z.to_nat max) x00));
  mret (take (Z.to_nat count) buffer).

Definition ses_net_close (handle : Z) : Ses () :=
  owned_socket handle;;
  modify (λ s, set_sockets (filter (λ open, open ≠ handle) (ses_sockets s)) s);;
  ses_platform (net_close handle).

(** [poll_cancel] cannot fail. *)
Definition cancel_call : M P Error bool :=
  λ p, let '(b, p') := poll_cancel p in (Ok b, p').

#[export] Instance AppSession_SystemApi : SystemApi (AppSession P) := {|
  api_app := gets ses_app;
  api_args := gets ses_args;
  api_cwd := gets ses_cwd;
  api_console_write text := ses_platform (console_write text);
  api_console_read_line prompt := ses_platform (console_read_line prompt false);
  api_read_text := ses_read_text;
  api_write_text := ses_write_text;
  api_list := ses_list;
  api_create_dir_all := ses_create_dir_all;
  api_remove := ses_remove;
  api_rename := ses_rename;
  api_appdata_read := ses_appdata_read;
  api_appdata_write := ses_appdata_write;
  api_monotonic_millis := ses_monotonic_millis;
  api_system_info := ses_system_info;
  api_net_status := ses_net_status;
  api_net_connect := ses_net_connect;
  api_net_send := ses_net_send;
  api_net_recv := ses_net_recv;
  api_net_close := ses_net_close;
  api_cancelled := ses_platform cancel_call |}.
End session.

(** ** Granted authorisations *)
Lemma security_guard resource :
  bool_decide (resource = SECURITY_PATH)
  || match strip_prefix SECURITY_PATH resource with
     | Some suffix => starts_with "/" suffix
     | None => false
     end = is_path_prefix SECURITY_PATH resource.
Proof. done. Qed.

Section granted.
Context {P : Type} `{PP : !Platform P} `{AR : !Argon2}.
Implicit Types s : System P.

Definition set_platform (p : P) (s : System P) : System P :=
  mk_system (set_vfs_platform p (sys_vfs s)) (sys_security s).

Lemma on_platform_run {A} (m : M P Error A) s r p' :
  m (into_platform s) = (r, p') → on_platform m s = (r, set_platform p' s).
Proof.
  unfold on_platform, on_sys_vfs, platform_mut, into_platform, zoom. by intros ->.
Qed.

Lemma on_platform_ok {A} (m : M P Error A) s a s' :
  on_platform m s = (Ok a, s') →
  ∃ p', m (into_platform s) = (Ok a, p') ∧ s' = set_platform p' s.
Proof.
  unfold on_platform, on_sys_vfs, platform_mut, into_platform, zoom.
  destruct (m (vfs_platform (sys_vfs s))) as [r p']. intros [= -> <-]. by exists p'.
Qed.

Lemma authorize_granted app c resource s s' :
  authorize app c resource s = (Ok (), s') →
  declares app c = true ∧ ¬ under SECURITY_PATH resource.
Proof.
  unfold authorize. rewrite security_guard.
  destruct (is_path_prefix _ _) eqn:E; [done|]. apply is_path_prefix_false in E.
  by destruct (declares app c).
Qed.

Lemma authorize_refused app c resource s :
  declares app c = false →
  ∃ e, authorize app c resource s = (Err e, s) ∧
    e = if decide (under SECURITY_PATH resource)
        then PermissionDenied "security configuration is not exposed to applications"
        else CapabilityNotDeclared (capability_to_string c).
Proof.
  intros Hd. unfold authorize. rewrite security_guard, Hd. case_decide as Hu.
  - apply is_path_prefix_spec in Hu. rewrite Hu. by eexists.
  - apply is_path_prefix_false in Hu. rewrite Hu. by eexists.
Qed.

Context `{RP : !ReliablePlatform P}.

Lemma verifier_stored_platform salt hash s p' :
  verifier_stored salt hash (sys_vfs s) →
  plat_ok p' ∧ (∀ k, stored p' k = stored (into_platform s) k) →
  verifier_stored salt hash (sys_vfs (set_platform p' s)).
Proof.
  intros (?&?&?&a&b&?&?&Hst) [? Hsame]. split_and!; [done..|].
  exists a, b. split_and!; [done..|]. cbn. by rewrite Hsame.
Qed.

Lemma has_password_stored salt hash s :
  verifier_stored salt hash (sys_vfs s) → on_security has_password s = (Ok true, s).
Proof.
  intros (?&?&Hok&a&b&?&?&Hst). unfold on_security, has_password, on_vfs, zoom.
  change SECURITY_PATH with ("/" ++ verifier_rel).
  rewrite vfs_exists_mount by (done || exact verifier_mount). unfold platform_mut, zoom.
  cbn. rewrite (law_exists (vfs_platform (sys_vfs s)) verifier_rel)
    by (done || exact verifier_mount). by destruct s as [[??] ?].
Qed.

(** C7. On a reliable platform that holds a verifier, an untrusted application is
    granted an operation only if it declared the capability, the resource is not
    the security file, and, on the console, the prompt naming the application, the
    operation and the resource was shown, then answered with [y] or [yes], then
    followed by a password whose hash under the stored salt is the stored hash. *)
Theorem authorize_needs_consent app c resource salt hash s s' :
  verifier_stored salt hash (sys_vfs s) → app_trusted app = false →
  authorize app c resource s = (Ok (), s') →
  declares app c = true ∧ ¬ under SECURITY_PATH resource ∧
  ∃ p1 p2 p3 answer password,
    console_write (permission_prompt app c resource) (into_platform s) = (Ok (), p1)
    ∧ console_read_line "Allow this operation once? [y/N] " false p1 = (Ok answer, p2)
    ∧ affirmative answer = true
    ∧ console_read_line "Master password: " true p2 = (Ok password, p3)
    ∧ derive password salt = Ok hash.
Proof.
  intros Hv Ht H. destruct (authorize_granted _ _ _ _ _ H) as [Hd Hu].
  split_and!; [done..|]. revert H. unfold authorize. rewrite security_guard.
  apply is_path_prefix_false in Hu. rewrite Hu, Hd, Ht. cbn [negb]. intros H.
  apply bind_ok_inv in H as ([]&s1&Hw&H). apply on_platform_ok in Hw as (p1&Hw&->).
  assert (Hv1 := Hv). eapply verifier_stored_platform in Hv1;
    [|eapply law_console_write; [apply Hv|exact Hw]].
  apply bind_ok_inv in H as (answer&s2&Hr&H). apply on_platform_ok in Hr as (p2&Hr&->).
  eapply verifier_stored_platform in Hv1;
    [|eapply law_console_read; [apply Hv1|exact Hr]].
  rewrite <-negb_orb in H.
  change (_ || _) with (affirmative answer) in H.
  destruct (affirmative answer) eqn:Ha; cbn [negb] in H; [|done].
  rewrite bind_run, (has_password_stored _ _ _ Hv1) in H.
  apply bind_ok_inv in H as (password&s3&Hp&H). apply on_platform_ok in Hp as (p3&Hp&->).
  eapply verifier_stored_platform in Hv1;
    [|eapply law_console_read; [apply Hv1|exact Hp]].
  apply zoom_ok_inv in H as (t&H&->).
  apply verify_ok_hash with (salt := salt) (hash := hash) in H as [H _]; [|exact Hv1].
  by exists p1, p2, p3, answer, password.
Qed.
End granted.

(** ** What an application may reach *)

(** [needs s o]: the capability call [o] must be granted first. *)
Definition needs {P T} (s : AppSession P) (o : api_op T) : option Capability :=
  match o with
  | OpReadText path | OpList path =>
      match normalize_path (ses_cwd s) path with Ok p => Some (FsRead p) | _ => None end
  | OpWriteText path _ | OpCreateDirAll path | OpRemove path =>
      match normalize_path (ses_cwd s) path with Ok p => Some (FsWrite p) | _ => None end
  | OpRename from to =>
      match normalize_path (ses_cwd s) from, normalize_path (ses_cwd s) to with
      | Ok p, Ok _ => Some (FsWrite p)
      | _, _ => None
      end
  | OpMonotonicMillis => Some Clock
  | OpSystemInfo => Some CapSystemInfo
  | OpNetConnect host _ => if bool_decide (host = "") then None else Some (Network host)
  | _ => None
  end.

Section refused.
Context {P : Type} `{PP : !Platform P} `{AR : !Argon2}.

Definition refusal (c : Capability) (e : Error) : Prop :=
  e = CapabilityNotDeclared (capability_to_string c)
  ∨ e = PermissionDenied "security configuration is not exposed to applications".

Lemma ses_authorize_refused {A} c resource (k : () → M (AppSession P) Error A) s :
  declares (ses_app s) c = false →
  ∃ e, (ses_authorize c resource ≫= k) s = (Err e, s) ∧ refusal c e.
Proof.
  intros Hd. destruct (authorize_refused (ses_app s) c resource (ses_system s) Hd)
    as (e&He&Hx).
  exists e. unfold ses_authorize, on_system. rewrite !bind_run. cbn. unfold zoom.
  rewrite He. split; [by destruct s|]. unfold refusal. case_decide; auto.
Qed.

Lemma resolve_run {A} path p (k : str → M (AppSession P) Error A) s :
  normalize_path (ses_cwd s) path = Ok p → (resolve path ≫= k) s = k p s.
Proof. intros H. unfold resolve, reads. by rewrite bind_run, H. Qed.

(** A call whose capability the application did not declare fails at once: the
    user is not asked, and neither the platform nor the session changes, so the
    call cannot even be used to show a prompt. *)
Theorem undeclared_refused {T} (o : api_op T) (s : AppSession P) c :
  needs s o = Some c → declares (ses_app s) c = false →
  ∃ e, api_exec o s = (Err e, s) ∧ refusal c e.
Proof.
  intros Hn Hd. destruct o; try discriminate Hn; cbn [needs] in Hn;
    repeat match type of Hn with
    | context [normalize_path ?cwd ?path] =>
        destruct (normalize_path cwd path) eqn:?; try discriminate Hn
    | context [bool_decide ?Q] => destruct (decide Q);
        [rewrite bool_decide_true in Hn by done; discriminate Hn
        |rewrite bool_decide_false in Hn by done]
    end; injection Hn as <-; cbn;
    unfold ses_read_text, ses_write_text, ses_list, ses_create_dir_all, ses_remove,
      ses_rename, ses_monotonic_millis, ses_system_info, ses_net_connect;
    repeat (erewrite resolve_run by eassumption);
    rewrite ?bool_decide_false by done; by apply ses_authorize_refused.
Qed.
End refused.

(** Where the data directory of an application is once the file system has
    normalised its path: [/user/appdata/<id>], except for the two names that are no
    file names, which the header accepts as well. *)
Definition data_dir (id : str) : str :=
  if bool_decide (id = ".") then "/user/appdata"
  else if bool_decide (id = "..") then "/user"
  else appdata_dir id.

(** The paths below [/] an application may read or change: what it declared (the
    security file apart), and its own data directory. *)
Definition readable (app : AppIdentity) (rel : str) : Prop :=
  mount_path rel ∧
  ((declares app (FsRead ("/" ++ rel)) = true ∧ ¬ under SECURITY_PATH ("/" ++ rel))
   ∨ under (data_dir (app_id app)) ("/" ++ rel)).

Definition writable (app : AppIdentity) (rel : str) : Prop :=
  mount_path rel ∧
  ((declares app (FsWrite ("/" ++ rel)) = true ∧ ¬ under SECURITY_PATH ("/" ++ rel))
   ∨ under (data_dir (app_id app)) ("/" ++ rel)).

(** [app_contract app I]: the property [I] of the open connections and the platform
    survives every platform call the application is entitled to cause.  The
    password check of a prompt looks for the verifier and reads it
    ([may_find_verifier], [may_check_verifier]); the application does not see what
    it read.  The calls it is not entitled to are not mentioned: a run that keeps
    every such [I] makes no other call. *)
Record app_contract {P} `{!Platform P} (app : AppIdentity) (I : list Z → P → Prop) :
    Prop := {
  may_write text hs : preserves (I hs) (console_write text);
  may_read_line prompt secret hs : preserves (I hs) (console_read_line prompt secret);
  may_clock hs : preserves (I hs) monotonic_millis;
  may_cancel hs p : I hs p → I hs (poll_cancel p).2;
  may_find_verifier hs : preserves (I hs) (storage_exists verifier_rel);
  may_check_verifier hs : preserves (I hs) (storage_read verifier_rel);
  may_read rel hs : readable app rel → preserves (I hs) (storage_read rel);
  may_list rel hs : readable app rel → preserves (I hs) (storage_list rel);
  may_store rel data hs : writable app rel → preserves (I hs) (storage_write rel data);
  may_create rel hs : writable app rel → preserves (I hs) (storage_create_dir_all rel);
  may_remove rel hs :
    writable app rel → rel ∉ layout_dirs → preserves (I hs) (storage_remove rel);
  may_rename from to hs :
    writable app from → writable app to → preserves (I hs) (storage_rename from to);
  may_net_status hs : declares_any_network app = true → preserves (I hs) net_status;
  may_connect host port hs p :
    declares app (Network host) = true → I hs p →
    match net_connect host port p with
    | (Ok h, p') => I (hs ++ [h]) p'
    | (_, p') => I hs p'
    end;
  may_send h data hs : h ∈ hs → preserves (I hs) (net_send h data);
  may_recv h out hs : h ∈ hs → preserves (I hs) (net_recv h out);
  may_close h hs p :
    h ∈ hs → I hs p → I (filter (λ o, o ≠ h) hs) (net_close h p).2 }.

(** File system calls on a canonical path reach the platform with that path. *)
Section vfs_calls.
Context {P : Type} `{PP : !Platform P} (K : P → Prop).

Definition on_plat (v : Vfs P) : Prop := K (vfs_platform v).

Lemma preserves_platform_mut {A} (m : M P Error A) :
  preserves K m → preserves on_plat (platform_mut m).
Proof. by apply preserves_zoom. Qed.

Lemma preserves_lift_ok {St E A B} (J : St → Prop) (r : res E A) (k : A → M St E B) :
  (∀ a, r = Ok a → preserves J (k a)) → preserves J (lift r ≫= k).
Proof. intros Hk s Hs. unfold lift. rewrite bind_run. destruct r; [by apply Hk|done..]. Qed.

Ltac vfs_call :=
  rewrite !normalize_canonical_id by eassumption;
  evolve_with ltac:(first
    [ apply preserves_lift_ok; intros ? [= <-]
    | let H := fresh in
      apply preserves_lift_ok; intros ? H;
      apply persistent_path_Ok in H as [??]; [|eassumption]
    | apply preserves_platform_mut ]); auto.

Lemma preserves_vfs_read path :
  canonical path →
  (∀ rel, path = "/" ++ rel → mount_path rel → preserves K (storage_read rel)) →
  preserves on_plat (vfs_read path).
Proof. intros Hc Hk. unfold vfs_read. vfs_call. Qed.

Lemma preserves_vfs_read_text path :
  canonical path →
  (∀ rel, path = "/" ++ rel → mount_path rel → preserves K (storage_read rel)) →
  preserves on_plat (vfs_read_text path).
Proof.
  intros Hc Hk. unfold vfs_read_text. apply preserves_bind.
  - by apply preserves_vfs_read.
  - intros bytes. apply preserves_lift.
Qed.

Lemma preserves_vfs_exists path :
  canonical path →
  (∀ rel, path = "/" ++ rel → mount_path rel → preserves K (storage_exists rel)) →
  preserves on_plat (vfs_exists path).
Proof. intros Hc Hk. unfold vfs_exists. vfs_call. Qed.

(** On any path, what reaches the platform is the normalised path. *)
Ltac vfs_call_at :=
  evolve_with ltac:(first
    [ let H := fresh in apply preserves_lift_ok; intros ? H;
      lazymatch type of H with
      | normalize_path _ _ = _ => pose proof (normalize_canonical _ _ _ canonical_root H)
      | _ => apply persistent_path_Ok in H as [??]; [|eassumption]
      end
    | apply preserves_platform_mut ]); eauto.

Lemma preserves_vfs_read_text_at path :
  (∀ rel, normalize_path "/" path = Ok ("/" ++ rel) → mount_path rel →
     preserves K (storage_read rel)) →
  preserves on_plat (vfs_read_text path).
Proof. intros Hk. unfold vfs_read_text, vfs_read. vfs_call_at; subst; auto. Qed.

Lemma preserves_vfs_write_at path data :
  (∀ rel, normalize_path "/" path = Ok ("/" ++ rel) → mount_path rel →
     preserves K (storage_write rel data)) →
  preserves on_plat (vfs_write path data).
Proof. intros Hk. unfold vfs_write. vfs_call_at; subst; auto. Qed.

Lemma preserves_vfs_create_at path :
  (∀ rel, normalize_path "/" path = Ok ("/" ++ rel) → mount_path rel →
     preserves K (storage_create_dir_all rel)) →
  preserves on_plat (vfs_create_dir_all path).
Proof. intros Hk. unfold vfs_create_dir_all. vfs_call_at; subst; auto. Qed.

(** Any path: what reaches the platform is normalised. *)
Lemma preserves_vfs_any {A} path (k : str → M (Vfs P) Error A) :
  (∀ p, canonical p → preserves on_plat (k p)) →
  preserves on_plat (p ← lift (normalize_path "/" path); k p).
Proof.
  intros Hk. apply preserves_lift_ok. intros p Hp. apply Hk.
  by eapply normalize_canonical in Hp.
Qed.

Lemma preserves_vfs_lookup path :
  (∀ rel, mount_path rel → preserves K (storage_exists rel)) →
  (∀ rel, mount_path rel → preserves K (storage_read rel)) →
  (∀ rel, mount_path rel → preserves K (storage_list rel)) →
  preserves on_plat (vfs_exists path) ∧ preserves on_plat (vfs_read_text path)
  ∧ preserves on_plat (vfs_list path).
Proof.
  intros He Hr Hl. split_and!; unfold vfs_exists, vfs_read_text, vfs_read, vfs_list.
  all: evolve_with ltac:(first
    [ apply preserves_vfs_any
    | let H := fresh in
      apply preserves_lift_ok; intros ? H;
      apply persistent_path_Ok in H as [??]; [|eassumption]
    | apply preserves_platform_mut ]); auto.
Qed.

Lemma preserves_vfs_write path data :
  canonical path →
  (∀ rel, path = "/" ++ rel → mount_path rel → preserves K (storage_write rel data)) →
  preserves on_plat (vfs_write path data).
Proof. intros Hc Hk. unfold vfs_write. vfs_call. Qed.

Lemma preserves_vfs_list path :
  canonical path →
  (∀ rel, path = "/" ++ rel → mount_path rel → preserves K (storage_list rel)) →
  preserves on_plat (vfs_list path).
Proof. intros Hc Hk. unfold vfs_list. vfs_call. Qed.

Lemma preserves_vfs_create path :
  canonical path →
  (∀ rel, path = "/" ++ rel → mount_path rel →
     preserves K (storage_create_dir_all rel)) →
  preserves on_plat (vfs_create_dir_all path).
Proof. intros Hc Hk. unfold vfs_create_dir_all. vfs_call. Qed.

Lemma preserves_vfs_remove path :
  canonical path →
  (∀ rel, path = "/" ++ rel → mount_path rel → rel ∉ layout_dirs →
     preserves K (storage_remove rel)) →
  preserves on_plat (vfs_remove path).
Proof.
  intros Hc Hk. unfold vfs_remove. vfs_call. apply Hk; [done..|].
  intros ?%protected_roots_layout. subst. by case_bool_decide.
Qed.

Lemma preserves_vfs_rename from to :
  canonical from → canonical to →
  (∀ rel rel', from = "/" ++ rel → to = "/" ++ rel' → mount_path rel → mount_path rel' →
     preserves K (storage_rename rel rel')) →
  preserves on_plat (vfs_rename from to).
Proof.
  intros Hf Ht Hk. unfold vfs_rename. vfs_call.
Qed.
End vfs_calls.

(** The authorisation prompt and the password check use the console, the clock and
    the verifier only. *)
Section prompts.
Context {P : Type} `{PP : !Platform P} `{AR : !Argon2} (K : P → Prop).
Context (K_write : ∀ text, preserves K (console_write text))
        (K_line : ∀ prompt secret, preserves K (console_read_line prompt secret))
        (K_clock : preserves K monotonic_millis)
        (K_exists : preserves K (storage_exists verifier_rel))
        (K_read : preserves K (storage_read verifier_rel)).

Definition sys_inv (s : System P) : Prop := K (into_platform s).

Lemma preserves_on_platform {A} (m : M P Error A) :
  preserves K m → preserves sys_inv (on_platform m).
Proof.
  intros Hm. apply (preserves_zoom sys_inv (on_plat K)); [done..|].
  by apply preserves_platform_mut.
Qed.

Lemma preserves_on_sys_vfs {A} (m : M (Vfs P) Error A) :
  preserves (on_plat K) m → preserves sys_inv (on_sys_vfs m).
Proof. by apply (preserves_zoom sys_inv (on_plat K)). Qed.

Lemma preserves_on_security {A} (m : M sec_state Error A) :
  preserves (λ t : SecurityManager * Vfs P, on_plat K t.2) m →
  preserves sys_inv (on_security m).
Proof. by apply (preserves_zoom sys_inv). Qed.

Lemma canonical_security : canonical SECURITY_PATH.
Proof. by_eval. Qed.

Lemma security_rel rel : SECURITY_PATH = "/" ++ rel → rel = verifier_rel.
Proof. by intros [= <-]. Qed.

Lemma preserves_on_vfs {A} (m : M (Vfs P) Error A) :
  preserves (on_plat K) m →
  preserves (λ t : SecurityManager * Vfs P, on_plat K t.2) (on_vfs m).
Proof. by apply preserves_zoom. Qed.

Lemma preserves_has_password :
  preserves (λ t : SecurityManager * Vfs P, on_plat K t.2) has_password.
Proof.
  apply preserves_on_vfs, preserves_vfs_exists; [exact canonical_security|].
  by intros rel ->%security_rel _.
Qed.

Lemma preserves_verify password :
  preserves (λ t : SecurityManager * Vfs P, on_plat K t.2) (verify password).
Proof.
  unfold verify. evolve_with ltac:(idtac; match goal with
    | |- preserves _ (on_vfs (platform_mut _)) =>
        apply preserves_on_vfs, preserves_platform_mut, K_clock
    | |- preserves _ (on_vfs (vfs_read_text _)) =>
        apply preserves_on_vfs, preserves_vfs_read_text;
          [exact canonical_security|by intros rel ->%security_rel _]
    | |- preserves _ (set_manager _) => by intros t Ht
    end).
Qed.

Lemma preserves_authorize app c resource :
  preserves sys_inv (authorize app c resource).
Proof.
  unfold authorize. evolve_with ltac:(idtac; match goal with
    | |- preserves _ (on_platform _) => apply preserves_on_platform; auto
    | |- preserves _ (on_security has_password) =>
        apply preserves_on_security, preserves_has_password
    | |- preserves _ (on_security (verify _)) =>
        apply preserves_on_security, preserves_verify
    end).
Qed.
End prompts.

(** ** The data directory *)

(** [walk] keeps an end of its stack and puts proper components on it. *)
Lemma walk_shape base parts out :
  Forall (λ c, slash ∉ c ∧ nul ∉ c ∧ backslash ∉ c) parts → walk base parts = Ok out →
  ∃ k fresh, out = fresh ++ drop k base ∧ Forall component fresh.
Proof.
  intros Hp. revert base. enough (∀ base fresh, Forall component fresh →
    walk (fresh ++ base) parts = Ok out →
    ∃ k fresh', out = fresh' ++ drop k base ∧ Forall component fresh') as H.
  { intros base. by apply (H base []). }
  induction Hp as [|c parts Hc Hp IH]; intros base fresh Hf; simpl.
  - intros [= <-]. by exists 0%nat, fresh.
  - destruct (bool_decide (c = "") || bool_decide (c = ".")) eqn:E1; [by apply IH|].
    apply orb_false_elim in E1 as [?%bool_decide_eq_false ?%bool_decide_eq_false].
    case_bool_decide as E2.
    + destruct fresh as [|f fresh]; simpl; [|apply Forall_cons in Hf as [_ Hf]; by apply IH].
      destruct base as [|b base]; [done|]. intros (k&fresh'&Ho&Hf')%(IH base []); [|done].
      by exists (S k), fresh'.
    + apply (IH base (c :: fresh)). constructor; [|done]. unfold component. tauto.
Qed.

Lemma under_path_of cs ds :
  cs ≠ [] → Forall part cs → Forall part ds → under (path_of cs) (path_of ds) →
  ∃ rest, ds = cs ++ rest.
Proof.
  intros Hne Hcs Hds [H|[r H]]; apply (f_equal pieces) in H.
  - rewrite !pieces_path_of_parts in H by done. exists []. by rewrite app_nil_r.
  - unfold pieces in H at 2. rewrite split_app_sep, filter_app in H.
    change (filter (λ c, c ≠ "") (split slash (path_of cs))) with (pieces (path_of cs)) in H.
    rewrite !pieces_path_of_parts in H by done. eauto.
Qed.

(** What a path that [resolve_appdata] returns is: the directory and proper
    components below it. *)
Lemma resolved_appdata id path q :
  plain_id id → normalize_path (appdata_dir id) path = Ok q → under (appdata_dir id) q →
  ∃ rest, Forall component rest ∧ q = path_of (["user"; "appdata"; id] ++ rest).
Proof.
  intros Hid H Hu. change (appdata_dir id) with (path_of ["user"; "appdata"; id]) in *.
  assert (Forall part ["user"; "appdata"; id]) as Hroot.
  { constructor; [by_eval|]. constructor; [by_eval|]. by constructor. }
  unfold normalize_path in H.
  destruct (contains nul path || contains backslash path) eqn:Hclean; [done|].
  apply parts_clean in Hclean. destruct (walk _ _) as [out|e|] eqn:W; simplify_eq/=.
  apply walk_shape in W as (k&fresh&->&Hf); [|done].
  assert (∃ j, rev (drop k (if negb (starts_with "/" path)
            then cwd_components (path_of ["user"; "appdata"; id]) else []))
          = take j ["user"; "appdata"; id]) as [j Hj].
  { destruct (negb _); [|exists 0%nat; by rewrite drop_nil].
    unfold cwd_components. fold (pieces (path_of ["user"; "appdata"; id])).
    rewrite pieces_path_of_parts by done.
    exists (3 - k)%nat. by do 4 (destruct k as [|k]; [done|]). }
  rewrite rev_app_distr, Hj in *. fold (path_of (take j ["user"; "appdata"; id] ++ rev fresh)) in *.
  assert (Forall component (rev fresh)) as Hfr by (by apply List.Forall_rev).
  change ("/" ++ join "/" (take j ["user"; "appdata"; id] ++ rev fresh))
    with (path_of (take j ["user"; "appdata"; id] ++ rev fresh)) in *.
  apply under_path_of in Hu as [rest Hrest]; [|done|done|];
    [|apply Forall_app_2; [by apply Forall_take|by apply components_parts]].
  rewrite Hrest. exists rest. split; [|done].
  apply (f_equal (drop 3)) in Hrest. simpl in Hrest. rewrite drop_0 in Hrest. rewrite <-Hrest.
  rewrite drop_app. apply Forall_app_2; [|by apply Forall_drop].
  rewrite skipn_firstn_comm. by do 4 (destruct j as [|j]; [done|]).
Qed.

Lemma data_dir_normalizes id rest n :
  plain_id id → Forall component rest →
  normalize_path "/" (path_of (["user"; "appdata"; id] ++ rest)) = Ok n →
  under (data_dir id) n.
Proof.
  intros Hid Hrest. unfold normalize_path. destruct (_ || _) eqn:Hclean; [done|].
  rewrite starts_with_path_of, split_path_of_parts.
  2: { do 2 (constructor; [by_eval|]). constructor; [done|by apply components_parts]. }
  simpl negb. cbv iota.
  change ("" :: match ["user"; "appdata"; id] ++ rest with [] => [""]
                | _ :: _ => ["user"; "appdata"; id] ++ rest end)
    with (["" : str; "user" : str; "appdata" : str; id] ++ rest).
  rewrite walk_app. unfold data_dir.
  assert (∀ base, base ≠ [] → under (path_of base) (path_of (base ++ rest))) as Hbase.
  { intros base Hb. destruct rest as [|c rest]; [left; by rewrite app_nil_r|right].
    exists (join "/" (c :: rest)). unfold path_of. by rewrite join_app. }
  case_bool_decide as E1; [subst id|case_bool_decide as E2; [subst id|]].
  - change (walk [] ["" : str; "user" : str; "appdata" : str; "." : str])
      with (Ok (E := Error) ["appdata" : str; "user" : str]).
    cbn [mbind res_bind]. rewrite walk_components by done. intros [= <-].
    rewrite rev_app_distr, rev_involutive. by apply (Hbase ["user" : str; "appdata" : str]).
  - change (walk [] ["" : str; "user" : str; "appdata" : str; ".." : str])
      with (Ok (E := Error) ["user" : str]).
    cbn [mbind res_bind]. rewrite walk_components by done. intros [= <-].
    rewrite rev_app_distr, rev_involutive. by apply (Hbase ["user" : str]).
  - assert (walk [] ["" : str; "user" : str; "appdata" : str; id]
            = Ok [id; "appdata" : str; "user" : str]) as ->.
    { destruct Hid. simpl. by rewrite !bool_decide_false. }
    cbn [mbind res_bind]. rewrite walk_components by done. intros [= <-].
    rewrite rev_app_distr, rev_involutive. by apply (Hbase ["user" : str; "appdata" : str; id]).
Qed.

(** Whatever the header's name, a path that [resolve_appdata] returns is handled
    below the data directory. *)
Lemma appdata_confined id path q n :
  plain_id id → normalize_path (appdata_dir id) path = Ok q →
  path_prefix (appdata_dir id) q = true → normalize_path "/" q = Ok n → under (data_dir id) n.
Proof.
  intros Hid Hq Hp Hn. unfold path_prefix in Hp. rewrite bool_decide_false in Hp by done.
  apply is_path_prefix_spec in Hp.
  destruct (resolved_appdata id path q Hid Hq Hp) as (rest&Hrest&->).
  by apply (data_dir_normalizes id rest).
Qed.

Lemma appdata_dir_confined id n :
  plain_id id → normalize_path "/" (appdata_dir id) = Ok n → under (data_dir id) n.
Proof. intros Hid Hn. by apply (data_dir_normalizes id [] n). Qed.

(** ** Confinement of a session *)
Section confined_session.
Context {P : Type} `{PP : !Platform P} `{AR : !Argon2}.
Context (app : AppIdentity) (cwd : str) (I : list Z → P → Prop).
Context (Hid : plain_id (app_id app)) (Hcwd : canonical cwd) (HI : app_contract app I).

(** The session still belongs to [app], with [hs] open. *)
Definition session_at (hs : list Z) (s : AppSession P) : Prop :=
  ses_app s = app ∧ ses_appdata_root s = appdata_dir (app_id app) ∧ ses_cwd s = cwd
  ∧ ses_sockets s = hs ∧ I hs (into_platform (ses_system s)).

Lemma preserves_on_system {A} hs (m : M (System P) Error A) :
  preserves (sys_inv (I hs)) m → preserves (session_at hs) (on_system m).
Proof.
  apply preserves_zoom; [by intros s (_&_&_&_&?)|].
  intros s t (?&?&?&?&_) Ht. by split_and!.
Qed.

Lemma preserves_ses_vfs {A} hs (m : M (Vfs P) Error A) :
  preserves (on_plat (I hs)) m → preserves (session_at hs) (ses_vfs m).
Proof. intros. by apply preserves_on_system, preserves_on_sys_vfs. Qed.

Lemma preserves_ses_platform {A} hs (m : M P Error A) :
  preserves (I hs) m → preserves (session_at hs) (ses_platform m).
Proof. intros. by apply preserves_on_system, preserves_on_platform. Qed.

Lemma preserves_ses_authorize {A} hs c resource (k : () → M (AppSession P) Error A) :
  (declares app c = true → ¬ under SECURITY_PATH resource →
   preserves (session_at hs) (k ())) →
  preserves (session_at hs) (ses_authorize c resource ≫= k).
Proof.
  intros Hk. apply preserves_bind_ok.
  - unfold ses_authorize. apply preserves_bind; [apply preserves_gets|].
    intros a. apply preserves_on_system, preserves_authorize; by destruct HI.
  - intros [] s s' (Ha&_) H. unfold ses_authorize, on_system in H. inv_run.
    apply authorize_granted in H as [??]. rewrite Ha in *. by apply Hk.
Qed.

Lemma preserves_resolve {A} hs path (k : str → M (AppSession P) Error A) :
  (∀ p, canonical p → preserves (session_at hs) (k p)) →
  preserves (session_at hs) (resolve path ≫= k).
Proof.
  intros Hk. apply preserves_bind_ok; [apply preserves_reads|].
  intros p s s' (_&_&Hc&_) H. apply Hk. unfold resolve in H. inv_run.
  rewrite Hc in H. by eapply normalize_canonical in H.
Qed.

(** A literal path whose normal form is in the data directory. *)
Definition in_data (path : str) : Prop :=
  ∀ n, normalize_path "/" path = Ok n → under (data_dir (app_id app)) n.

Lemma preserves_resolve_appdata {A} hs path (k : str → M (AppSession P) Error A) :
  (∀ p, in_data p → preserves (session_at hs) (k p)) →
  preserves (session_at hs) (resolve_appdata path ≫= k).
Proof.
  intros Hk. apply preserves_bind_ok; [apply preserves_reads|].
  intros p s s' (_&Hr&_) H. unfold resolve_appdata in H. inv_run.
  rewrite Hr in H. apply res_bind_ok in H as (q&Hq&H).
  destruct (path_prefix _ q) eqn:E; [|done]. injection H as <-.
  apply Hk. intros n. by apply (appdata_confined _ path).
Qed.

Lemma preserves_owned {A} hs h (k : () → M (AppSession P) Error A) :
  (h ∈ hs → preserves (session_at hs) (k ())) →
  preserves (session_at hs) (owned_socket h ≫= k).
Proof.
  intros Hk. apply preserves_bind_ok; [apply preserves_reads|].
  intros [] s s' (_&_&_&Hs&_) H. unfold owned_socket in H. inv_run.
  rewrite Hs in H. by case_bool_decide; [apply Hk|].
Qed.

Lemma preserves_get_app {A} hs (k : AppIdentity → M (AppSession P) Error A) :
  preserves (session_at hs) (k app) → preserves (session_at hs) (gets ses_app ≫= k).
Proof. intros Hk s Hs. rewrite bind_run. cbn. destruct (Hs) as [-> _]. by apply Hk. Qed.
Lemma preserves_get_root {A} hs (k : str → M (AppSession P) Error A) :
  preserves (session_at hs) (k (appdata_dir (app_id app))) →
  preserves (session_at hs) (gets ses_appdata_root ≫= k).
Proof. intros Hk s Hs. rewrite bind_run. cbn. destruct (Hs) as (_&->&_). by apply Hk. Qed.

Lemma preserves_cancel hs : preserves (I hs) cancel_call.
Proof.
  intros p Hp. unfold cancel_call. apply (may_cancel _ _ HI) in Hp.
  by destruct (poll_cancel p).
Qed.

Ltac ses_step :=
  first
    [ apply preserves_resolve; intros ??
    | apply preserves_resolve_appdata; intros ??
    | apply preserves_ses_authorize; intros ??
    | apply preserves_owned; intros ?
    | apply preserves_get_app
    | apply preserves_get_root
    | apply preserves_ses_platform
    | apply preserves_ses_vfs ].

Lemma readable_declared path rel :
  declares app (FsRead path) = true → ¬ under SECURITY_PATH path →
  path = "/" ++ rel → mount_path rel → readable app rel.
Proof. intros ?? -> ?. split; auto. Qed.
Lemma readable_appdata path rel :
  in_data path → normalize_path "/" path = Ok ("/" ++ rel) → mount_path rel →
  readable app rel.
Proof. intros Hd ??. split; auto. Qed.
Lemma writable_declared path rel :
  declares app (FsWrite path) = true → ¬ under SECURITY_PATH path →
  path = "/" ++ rel → mount_path rel → writable app rel.
Proof. intros ?? -> ?. split; auto. Qed.
Lemma writable_appdata path rel :
  in_data path → normalize_path "/" path = Ok ("/" ++ rel) → mount_path rel →
  writable app rel.
Proof. intros Hd ??. split; auto. Qed.
Lemma root_in_data : in_data (appdata_dir (app_id app)).
Proof. intros n. by apply appdata_dir_confined. Qed.

Local Hint Resolve readable_declared readable_appdata writable_declared
  writable_appdata root_in_data preserves_cancel : evolve.
Local Hint Resolve may_write may_read_line may_clock may_read may_list may_store
  may_create may_remove may_rename may_net_status may_send may_recv : evolve.

(** A call that leaves the set of connections alone. *)
Definition keeps_sockets {T} (o : api_op T) : bool :=
  match o with OpNetConnect _ _ | OpNetClose _ => false | _ => true end.

Lemma preserves_api_exec {T} (o : api_op T) hs :
  keeps_sockets o = true → preserves (session_at hs) (api_exec o).
Proof.
  intros Ho. destruct o; try discriminate Ho; cbn;
    unfold ses_read_text, ses_write_text, ses_list, ses_create_dir_all, ses_remove,
      ses_rename, ses_appdata_read, ses_appdata_write, ses_monotonic_millis,
      ses_system_info, ses_net_status, ses_net_send, ses_net_recv.
  all: evolve_with ltac:(ses_step).
  all: try match goal with
    | _ : in_data ?p |- preserves _ (vfs_read_text ?p) => apply preserves_vfs_read_text_at
    | _ : in_data ?p |- preserves _ (vfs_write ?p _) => apply preserves_vfs_write_at
    | |- preserves _ (vfs_create_dir_all (appdata_dir _)) => apply preserves_vfs_create_at
    end.
  all: first [apply preserves_vfs_read_text | apply preserves_vfs_write
    | apply preserves_vfs_list | apply preserves_vfs_create | apply preserves_vfs_remove
    | apply preserves_vfs_rename | idtac]; eauto 6 with evolve.
  by destruct (declares_any_network app) eqn:E; eauto with evolve.
Qed.

(** The invariant of a whole run: the connections are the session's own. *)
Definition session_inv (s : AppSession P) : Prop := session_at (ses_sockets s) s.

Lemma session_at_inv hs s : session_at hs s → session_inv s.
Proof. intros (?&?&?&<-&?). by split_and!. Qed.

Lemma preserves_connect host port : preserves session_inv (ses_net_connect host port).
Proof.
  intros s Hs. unfold ses_net_connect. case_bool_decide; [done|].
  set (hs := ses_sockets s) in *. unfold session_inv in Hs. fold hs in Hs.
  pose proof (preserves_ses_authorize hs (Network host) (host ++ ":" ++ dec port) mret) as Hm.
  assert (preserves (session_at hs) (ses_authorize (Network host) (host ++ ":" ++ dec port)))
    as Ha.
  { intros t Ht. specialize (Hm ltac:(intros; apply preserves_ret) t Ht).
    rewrite bind_run in Hm.
    by destruct (ses_authorize _ _ t) as [[[]|e|] t']. }
  specialize (Ha s Hs). rewrite bind_run.
  destruct (ses_authorize _ _ s) as [[[]|e|] s1] eqn:E; simpl in Ha;
    [|by eapply session_at_inv..].
  assert (declares app (Network host) = true) as Hd.
  { unfold ses_authorize, on_system in E. inv_run. destruct Hs as [Happ _].
    rewrite Happ in E. by apply authorize_granted in E as [? _]. }
  destruct Ha as (?&?&?&Hk&Hplat).
  pose proof (may_connect _ _ HI host port hs _ Hd Hplat) as Hc.
  rewrite bind_run. unfold ses_platform, on_system, zoom.
  destruct (net_connect host port (into_platform (ses_system s1))) as [r p'] eqn:En.
  rewrite (on_platform_run _ _ _ _ En).
  destruct r; (split_and!; try done); simpl; rewrite ?Hk; done.
Qed.

Lemma preserves_close h : preserves session_inv (ses_net_close h).
Proof.
  intros s (?&?&?&_&Hplat). unfold ses_net_close, owned_socket. rewrite bind_run. cbn.
  case_bool_decide as Hin; [|by split_and!].
  pose proof (may_close _ _ HI h (ses_sockets s) _ Hin Hplat) as Hc.
  rewrite bind_run. cbn. unfold ses_platform, on_system, zoom. cbn.
  destruct (net_close h (into_platform (ses_system s))) as [r p'] eqn:En.
  rewrite (on_platform_run _ _ _ _ En). by split_and!.
Qed.

Lemma preserves_api_exec_inv {T} (o : api_op T) : preserves session_inv (api_exec o).
Proof.
  destruct (keeps_sockets o) eqn:E.
  - intros s Hs. eapply session_at_inv, preserves_api_exec; [done|exact Hs].
  - destruct o; try discriminate E; [apply preserves_connect|apply preserves_close].
Qed.
End confined_session.

Lemma session_keeps_contract {P} `{PP : !Platform P} `{AR : !Argon2}
    (system : System P) app args cwd (I : list Z → P → Prop) (prog : app_prog) :
  plain_id (app_id app) → canonical cwd → app_contract app I →
  I [] (into_platform system) →
  session_inv app cwd I (run_prog prog (session_new system app args cwd)).2.
Proof.
  intros Hid Hcwd HI H0.
  apply (run_prog_preserves (session_inv app cwd I)); [|by split_and!].
  intros T o. by apply preserves_api_exec_inv.
Qed.

(** C8. Confinement: an application run is any tree of API calls, of an application
    with any name an accepted header gives it ([.] and [..] included).  Whatever
    property [I] of the open connections and the platform survives the calls the
    application is entitled to (reads and writes below its declared prefixes, the
    security file excepted, or in its data directory [data_dir]; connections to
    declared hosts; traffic on connections this session opened and has not closed;
    the console, the clock, and the look at the verifier that the password check of a
    prompt takes), [I] holds after the run.  So a run causes no other platform call:
    not outside its directories, not to another host, not on a foreign or closed
    handle.  [data_dir] is [/user/appdata/<id>] for a name that is a file name; for
    [.] it is [/user/appdata] and for [..] it is [/user]. *)
Theorem app_confinement {P} `{PP : !Platform P} `{AR : !Argon2}
    (system : System P) app args cwd (I : list Z → P → Prop) (prog : app_prog) :
  plain_id (app_id app) → canonical cwd → app_contract app I →
  I [] (into_platform system) →
  let s' := (run_prog prog (session_new system app args cwd)).2 in
  ses_app s' = app ∧ I (ses_sockets s') (into_platform (ses_system s')).
Proof.
  intros Hid Hcwd HI H0 s'.
  by destruct (session_keeps_contract system app args cwd I prog Hid Hcwd HI H0)
    as (?&_&_&_&?).
Qed.

(** ** The verifier file *)
Lemma under_verifier rel :
  under rel verifier_rel → rel ∈ [verifier_rel; "user"; "user/config"].
Proof.
  intros [->|[r Hr]]; [by left|].
  assert (∀ n, n ∈ seq 0 (length verifier_rel) → verifier_rel !! n = Some slash →
            take n verifier_rel ∈ (["user"; "user/config"] : list str)) as Hall.
  { apply (Forall_forall (λ n, _ → _)). by_eval. }
  assert (verifier_rel !! length rel = Some slash) as Hs.
  { rewrite Hr, lookup_app_r, Nat.sub_diag by done. done. }
  right. replace rel with (take (length rel) verifier_rel)
    by (rewrite Hr; apply take_app_length).
  apply Hall; [|done]. apply elem_of_seq. apply lookup_lt_Some in Hs. lia.
Qed.

Section verifier_safe.
Context {P : Type} `{PP : !Platform P} `{RP : !ReliablePlatform P} `{AR : !Argon2}.
Context (app : AppIdentity) (Hdots : app_id app ≠ "..")
        (Huser : declares app (FsWrite "/user") = false)
        (Hconfig : declares app (FsWrite "/user/config") = false).

Lemma writable_not_verifier rel : writable app rel → ¬ under rel verifier_rel.
Proof.
  intros [_ [[Hd Hs]|Hu]] Hin%under_verifier%list_elem_of_In.
  - destruct Hin as [<-|[<-|[<-|[]]]]; [by apply Hs; left|..];
      [discriminate (eq_trans (eq_sym Huser) Hd)|discriminate (eq_trans (eq_sym Hconfig) Hd)].
  - unfold data_dir in Hu. rewrite (bool_decide_false (app_id app = "..")) in Hu by done.
    case_bool_decide; destruct Hin as [<-|[<-|[<-|[]]]]; by destruct Hu as [?|[? ?]].
Qed.

Lemma verifier_app_contract d :
  app_contract app (λ _ p, plat_ok p ∧ stored p verifier_rel = d).
Proof.
  assert (∀ {A} (m : M P Error A), (∀ p r p', plat_ok p → m p = (r, p') →
    plat_ok p' ∧ ∀ k, stored p' k = stored p k) →
    preserves (λ p, plat_ok p ∧ stored p verifier_rel = d) m) as Hf.
  { intros A m. apply preserves_files; [by intros p [??]|].
    intros p p' [? <-] ? Hsame. by rewrite Hsame. }
  assert (∀ {A} (m : M P Error A), (∀ p r p', plat_ok p → m p = (r, p') →
    plat_ok p' ∧ stored p' verifier_rel = stored p verifier_rel) →
    preserves (λ p, plat_ok p ∧ stored p verifier_rel = d) m) as Hw.
  { intros A m Hm p [Hp <-]. destruct (m p) as [r p'] eqn:E. eauto. }
  split; intros.
  - apply Hf. eauto using law_console_write.
  - apply Hf. eauto using law_console_read.
  - apply Hf. eauto using law_clock_keeps.
  - destruct H. destruct (law_cancel p) as [? ->]; auto.
  - apply Hf. eauto using law_exists_keeps, verifier_mount.
  - apply preserves_read_law; [exact verifier_mount|by intros ? [??]].
  - destruct H. apply preserves_read_law; [done|by intros ? [??]].
  - destruct H. apply Hf. eauto using law_list.
  - pose proof (writable_not_verifier _ H). destruct H as [Hm _]. apply Hw.
    intros p r p' Hp E. eapply law_write_keeps in E as [? Hk]; [|done..].
    split; [done|]. apply Hk. intros <-. eauto using under_refl.
  - destruct H. apply Hf. eauto using law_create.
  - pose proof (writable_not_verifier _ H). destruct H as [Hm _]. apply Hw.
    intros p r p' Hp E. eapply law_remove in E as [??]; eauto.
  - pose proof (writable_not_verifier _ H). pose proof (writable_not_verifier _ H0).
    destruct H as [Hm _], H0 as [Hm0 _]. apply Hw.
    intros p r p' Hp E. eapply law_rename in E as [??]; eauto.
  - apply Hf. eauto using law_net_status.
  - destruct H0 as [? <-]. destruct (net_connect host port p) as [r p'] eqn:E.
    eapply law_net_connect in E as [? Hk]; [|done]. rewrite Hk. by destruct r.
  - apply Hf. eauto using law_net_send.
  - apply Hf. eauto using law_net_recv.
  - destruct H0 as [? <-]. destruct (net_close h p) as [r p'] eqn:E.
    eapply law_net_close in E as [? Hk]; [|done]. by rewrite Hk.
Qed.
End verifier_safe.

(** C9. On a reliable platform, no run of an application without write access to
    [/user] or [/user/config] changes the password verifier, whatever else it
    declares and even if the user grants every request, provided its name is not
    [..]: the header accepts that name, and such an application does reach the
    verifier ([dotdot_id_reads_verifier], [dotdot_id_replaces_verifier]). *)
Theorem app_keeps_verifier {P} `{PP : !Platform P} `{RP : !ReliablePlatform P}
    `{AR : !Argon2} (system : System P) app args cwd (prog : app_prog) :
  plain_id (app_id app) → app_id app ≠ ".." → canonical cwd →
  declares app (FsWrite "/user") = false → declares app (FsWrite "/user/config") = false →
  plat_ok (into_platform system) →
  let p' := into_platform (ses_system (run_prog prog (session_new system app args cwd)).2) in
  plat_ok p' ∧ stored p' verifier_rel = stored (into_platform system) verifier_rel.
Proof.
  intros Hid Hdots Hcwd Huser Hconfig Hok p'.
  destruct (session_keeps_contract system app args cwd _ prog Hid Hcwd
    (verifier_app_contract app Hdots Huser Hconfig
       (stored (into_platform system) verifier_rel)))
    as (_&_&_&_&?); done.
Qed.

(** ** Password changes and first-run setup *)
Section setup.
Context {P : Type} `{PP : !Platform P} `{RP : !ReliablePlatform P} `{AR : !Argon2}.
Implicit Types s : System P.

Lemma keeps_ok {A} (m : M P Error A) :
  (∀ p r p', plat_ok p → m p = (r, p') → plat_ok p' ∧ ∀ k, stored p' k = stored p k) →
  preserves plat_ok m.
Proof. intros Hm. apply preserves_files; auto. Qed.

Lemma preserves_ok_write rel d : mount_path rel → preserves plat_ok (storage_write rel d).
Proof.
  intros Hm p Hp. destruct (storage_write rel d p) as [r p'] eqn:E.
  by apply law_write_keeps in E as [? _].
Qed.
Lemma preserves_ok_remove rel : mount_path rel → preserves plat_ok (storage_remove rel).
Proof.
  intros Hm p Hp. destruct (storage_remove rel p) as [r p'] eqn:E.
  by apply law_remove in E as [? _].
Qed.

Lemma preserves_set_password password :
  preserves (λ t : SecurityManager * Vfs P, on_plat plat_ok t.2) (set_password password).
Proof.
  unfold set_password. evolve_with ltac:(idtac; match goal with
    | |- preserves _ (on_vfs (vfs_exists _)) =>
        apply preserves_on_vfs, preserves_vfs_exists; [exact canonical_security|];
        intros rel _ Hm; apply keeps_ok; eauto using law_exists_keeps
    | |- preserves _ (on_vfs (vfs_remove _)) =>
        apply preserves_on_vfs, preserves_vfs_remove; [exact canonical_security|];
        eauto using preserves_ok_remove
    | |- preserves _ (on_vfs (vfs_write _ _)) =>
        apply preserves_on_vfs, preserves_vfs_write; [exact canonical_security|];
        eauto using preserves_ok_write
    | |- preserves _ (on_vfs (platform_mut _)) =>
        apply preserves_on_vfs, preserves_platform_mut, keeps_ok;
        eauto using law_random_keeps
    | |- preserves _ (set_manager _) => by intros t Ht
    end).
Qed.

Lemma preserves_prompt_new_password :
  preserves (sys_inv plat_ok) prompt_new_password.
Proof.
  unfold prompt_new_password. evolve_with ltac:(idtac; match goal with
    | |- preserves _ (on_platform _) =>
        apply preserves_on_platform, keeps_ok; eauto using law_console_read
    | |- preserves _ (on_security _) =>
        apply preserves_on_security, preserves_set_password
    end).
Qed.

Lemma preserves_layout : preserves (sys_inv plat_ok) (on_sys_vfs vfs_initialize_layout).
Proof.
  apply preserves_on_sys_vfs, preserves_for_each. intros rel Hin%layout_mount.
  apply preserves_platform_mut, keeps_ok. eauto using law_create.
Qed.

Definition marker_rel : str := "user/config/initialized".

(** [initialize] behind a marker file. *)
Lemma initialize_marked s d interactive :
  plat_ok (into_platform s) → stored (into_platform s) marker_rel = Some d →
  initialize interactive s = on_sys_vfs vfs_initialize_layout s.
Proof.
  intros Hok Hst. unfold initialize. rewrite bind_run.
  set (J := λ p, plat_ok p ∧ stored p marker_rel = Some d).
  assert (preserves (sys_inv J) (on_sys_vfs vfs_initialize_layout)) as Hp.
  { apply preserves_on_sys_vfs, preserves_for_each. intros rel Hin%layout_mount.
    apply preserves_platform_mut, preserves_files; [by intros p [??]| |].
    - intros p p' [_ Hd] ? Hk. split; [done|]. by rewrite Hk.
    - eauto using law_create. }
  specialize (Hp s (conj Hok Hst)).
  destruct (on_sys_vfs vfs_initialize_layout s) as [[[]|e|] s1]; [|done..].
  destruct Hp as [Hok1 Hst1]. rewrite bind_run. unfold on_sys_vfs, zoom.
  change INITIALIZED_PATH with ("/" ++ marker_rel).
  assert (mount_path marker_rel) as Hm by by_eval.
  rewrite vfs_exists_mount by done. unfold platform_mut, zoom.
  unfold into_platform in *. rewrite law_exists by done.
  by destruct s1 as [[??] ?].
Qed.

(** First-run setup happens once: when the layout is made and there is no
    marker, a successful [initialize] leaves the marker file, and from then on
    [initialize] makes the layout again and does nothing else, in particular it
    never offers to set a new password. *)
Theorem setup_runs_once s s1 s' interactive :
  plat_ok (into_platform s) →
  (on_sys_vfs vfs_initialize_layout;; on_sys_vfs (vfs_exists INITIALIZED_PATH)) s
    = (Ok false, s1) →
  initialize interactive s = (Ok (), s') →
  plat_ok (into_platform s') ∧
  stored (into_platform s') marker_rel = Some ("AFOS-SETUP-1" ++ [nl]) ∧
  ∀ again, initialize again s' = on_sys_vfs vfs_initialize_layout s'.
Proof.
  intros Hok H1 H. unfold initialize in H. apply bind_ok_inv in H as ([]&sa&Ha&H).
  rewrite bind_run, Ha in H1. rewrite bind_run, H1 in H.
  assert (plat_ok (into_platform s1)) as Hok1.
  { eapply (preserves_run (sys_inv plat_ok)); [| |exact H1].
    - apply preserves_on_sys_vfs, preserves_vfs_exists; [by_eval|].
      intros rel _ Hm. apply keeps_ok. eauto using law_exists_keeps.
    - by eapply (preserves_run (sys_inv plat_ok)); [apply preserves_layout| |exact Ha]. }
  apply bind_ok_inv in H as ([]&s2&Hw&H). apply on_platform_ok in Hw as (p2&Hw&->).
  apply law_console_write in Hw as [Hok2 _]; [|done].
  apply bind_ok_inv in H as ([]&s3&Hq&H).
  assert (plat_ok (into_platform s3)) as Hok3.
  { eapply (preserves_run (sys_inv plat_ok)); [| |exact Hq]; [|exact Hok2].
    evolve_with ltac:(first [apply preserves_prompt_new_password
      | apply preserves_on_platform, keeps_ok; eauto using law_console_read]). }
  apply zoom_ok_inv in H as (v&H&->).
  apply (vfs_write_stored marker_rel) in H as [Hok' Hst']; [|by by_eval|done].
  split_and!; [done..|]. intros again. by eapply initialize_marked.
Qed.

(** C10. The password cannot be changed behind its owner's back: against a stored
    verifier, either the line typed as the current password has the stored hash, or
    the change fails and the verifier is still stored. *)
Theorem change_password_guarded salt hash s r s' :
  verifier_stored salt hash (sys_vfs s) → change_password s = (r, s') →
  (∃ current p1,
     console_read_line "Current master password: " true (into_platform s) = (Ok current, p1)
     ∧ derive current salt = Ok hash)
  ∨ (r ≠ Ok () ∧ verifier_stored salt hash (sys_vfs s')).
Proof.
  intros Hv. unfold change_password.
  rewrite bind_run, (has_password_stored _ _ _ Hv), bind_run, bind_run.
  destruct (console_read_line "Current master password: " true (into_platform s))
    as [rl p1] eqn:Hl.
  rewrite (on_platform_run _ _ _ _ Hl).
  assert (verifier_stored salt hash (sys_vfs (set_platform p1 s))) as Hv1.
  { apply verifier_stored_platform; [done|]. eapply law_console_read; [apply Hv|exact Hl]. }
  destruct rl as [current|e|]; [|by intros [= <- <-]; right..].
  destruct (on_security (verify current) (set_platform p1 s)) as [rv s2] eqn:Hr.
  unfold on_security, zoom in Hr. cbn [fst snd] in Hr.
  destruct (verify current _) as [rv' [m2 v2]] eqn:Hver. injection Hr as -> <-.
  pose proof (verify_keeps_verifier _ _ _ _ _ _ _ _ Hv1 Hver) as Hv2.
  destruct rv as [[]|e|]; intros H; [|by injection H as <- <-; right..].
  left. exists current, p1. split; [done|]. by eapply verify_ok_hash in Hver as [? _].
Qed.
End setup.

(** ** An application named [..]

    The directive [id] accepts every name made of alphanumeric characters, dots,
    dashes and underscores, so also [..]; the hypothesis [component (app_id app)]
    of the confinement theorems excludes it, and this is what it excludes. *)
Definition dotdot_source : str := directive "id" "..".

(** An untrusted application that declares nothing but names itself [..] has
    [/user/appdata/..] as its data directory: its [appdata_read] of [config/security]
    returns the password verifier, without any prompt or effect. *)
Theorem dotdot_id_reads_verifier {P} `{PP : !Platform P} `{RP : !ReliablePlatform P}
    `{AR : !Argon2} (system : System P) d :
  plat_ok (into_platform system) → stored (into_platform system) verifier_rel = Some d →
  from_utf8 d = Some d →
  ∃ md, parse_metadata "/apps/evil.rhai" dotdot_source false = Ok md
    ∧ app_trusted (identity md) = false ∧ app_capabilities (identity md) = []
    ∧ let s := session_new system (identity md) [] "/user" in
      api_exec (OpAppdataRead "config/security") s = (Ok d, s).
Proof.
  intros Hok Hst Hu. eexists. split; [vm_compute; reflexivity|]. split_and!; [done..|].
  cbn zeta beta iota. set (s := session_new system _ [] "/user").
  change (ses_appdata_read "config/security" s = (Ok d, s)). unfold ses_appdata_read.
  rewrite bind_run. unfold resolve_appdata, reads.
  assert (normalize_path (appdata_dir "..") "config/security"
          = Ok "/user/appdata/../config/security") as Hn by by_vm.
  assert (vfs_read_text "/user/appdata/../config/security" (sys_vfs system)
          = (Ok d, sys_vfs system)) as Hr.
  { rewrite <-(vfs_read_text_stored verifier_rel d (sys_vfs system) verifier_mount) by done.
    unfold vfs_read_text, vfs_read.
    assert (normalize_path "/" "/user/appdata/../config/security"
            = normalize_path "/" ("/" ++ verifier_rel)) as -> by by_vm. done. }
  change (ses_appdata_root s) with (appdata_dir ".."). rewrite Hn. cbn [mbind res_bind].
  assert (path_prefix (appdata_dir "..") "/user/appdata/../config/security" = true) as ->
    by by_vm.
  cbn [negb]. unfold ses_vfs, on_system, on_sys_vfs, zoom. subst s. cbn.
  rewrite Hr. by destruct system.
Qed.

(** ** Concrete runs *)
#[local] Existing Instance example_argon2.

Definition example_app (caps : list Capability) : AppIdentity :=
  {| app_id := "notes"; app_source_path := "/apps/notes.rhai"; app_trusted := false;
     app_api_version := 1; app_capabilities := caps |}.

(** The system of the examples: password [pw], and lines waiting on the console. *)
Definition example_system (input : list str) : System MockPlatform :=
  system_with_vfs (set_vfs_platform
    (mock_set_input (λ _, input) (vfs_platform example_vfs)) example_vfs).

Lemma example_system_stored input :
  verifier_stored example_salt example_hash (sys_vfs (example_system input)).
Proof.
  destruct example_stored as (?&?&?&a&b&?&?&?). split_and!; [done..|]. by exists a, b.
Qed.

Lemma authorize_needs_consent_witness :
  verifier_stored example_salt example_hash (sys_vfs (example_system ["y"; "pw"])) ∧
  (authorize (example_app [Clock]) Clock "monotonic clock"
     (example_system ["y"; "pw"])).1 = Ok () ∧
  declares (example_app [Clock]) Clock = true.
Proof.
  split_and!; [apply example_system_stored|by_vm|].
  assert (∃ s', authorize (example_app [Clock]) Clock "monotonic clock"
                  (example_system ["y"; "pw"]) = (Ok (), s')) as [s' Hs'].
  { eexists. vm_compute. reflexivity. }
  by apply (authorize_needs_consent (example_app [Clock]) Clock "monotonic clock"
    example_salt example_hash (example_system ["y"; "pw"]) s');
    [apply example_system_stored|reflexivity|].
Defined.

Lemma undeclared_refused_witness :
  let s := session_new (example_system []) (example_app [FsRead "/user/saves"]) [] "/user" in
  needs s (OpReadText "config/x") = Some (FsRead "/user/config/x") ∧
  declares (ses_app s) (FsRead "/user/config/x") = false ∧
  ∃ e, api_exec (OpReadText "config/x") s = (Err e, s) ∧ refusal (FsRead "/user/config/x") e.
Proof.
  intros s. split_and!; [by_vm|by_vm|].
  apply (undeclared_refused (OpReadText "config/x") s (FsRead "/user/config/x")); by_vm.
Defined.

(** A script that writes to its data directory, then tries the verifier. *)
Definition example_prog : app_prog :=
  AppCall (OpAppdataWrite "log" "hello") (λ _,
    AppCall (OpWriteText "/user/config/security" "x") (λ _, AppDone (Ok 0))).

Lemma app_confinement_witness :
  let app := example_app [FsWrite "/user/saves"] in
  let I := λ (_ : list Z) (p : MockPlatform),
             plat_ok p ∧ stored p verifier_rel = stored (vfs_platform example_vfs) verifier_rel in
  app_contract app I ∧
  let s' := (run_prog example_prog (session_new (example_system []) app [] "/user")).2 in
  ses_app s' = app ∧ I (ses_sockets s') (into_platform (ses_system s')).
Proof.
  intros app I.
  assert (app_contract app I) as HI
    by (apply verifier_app_contract; first [done|by_vm]).
  split; [exact HI|].
  apply (app_confinement (example_system []) app [] "/user" I example_prog);
    [by_eval|by_eval|exact HI|]. split; [apply (example_system_stored [])|done].
Defined.

Lemma app_keeps_verifier_witness :
  let app := example_app [FsWrite "/user/saves"] in
  plain_id (app_id app) ∧ app_id app ≠ ".." ∧ canonical "/user" ∧
  declares app (FsWrite "/user") = false ∧ declares app (FsWrite "/user/config") = false ∧
  stored (into_platform (ses_system (run_prog example_prog
    (session_new (example_system []) app [] "/user")).2)) verifier_rel
  = stored (into_platform (example_system [])) verifier_rel.
Proof.
  intros app. split_and!; [by_eval|done|by_eval|by_vm|by_vm|].
  apply (app_keeps_verifier (example_system []) app [] "/user" example_prog);
    [by_eval|done|by_eval|by_vm|by_vm|]. apply (example_system_stored []).
Defined.

Lemma setup_runs_once_witness :
  let s := system_new mock_default in
  plat_ok (into_platform s) ∧
  ((on_sys_vfs vfs_initialize_layout;; on_sys_vfs (vfs_exists INITIALIZED_PATH)) s).1
    = Ok false ∧
  (initialize false s).1 = Ok () ∧
  stored (into_platform (initialize false s).2) marker_rel = Some ("AFOS-SETUP-1" ++ [nl]).
Proof.
  intros s. split_and!; [by vm_compute|by_vm|by_vm|].
  apply (setup_runs_once s
    ((on_sys_vfs vfs_initialize_layout;; on_sys_vfs (vfs_exists INITIALIZED_PATH)) s).2
    (initialize false s).2 false); [by vm_compute|by_vm|by_vm].
Defined.

Lemma change_password_guarded_witness :
  let s := example_system ["guess"] in
  verifier_stored example_salt example_hash (sys_vfs s) ∧
  (change_password s).1 = Err AuthenticationFailed ∧
  verifier_stored example_salt example_hash (sys_vfs (change_password s).2).
Proof.
  intros s. split_and!; [apply example_system_stored|by_vm|].
  destruct (change_password_guarded example_salt example_hash s (change_password s).1
    (change_password s).2) as [(c&p&Hl&Hd)|[_ H]];
    [apply example_system_stored|by destruct (change_password s)| |exact H].
  exfalso. vm_compute in Hl. injection Hl as <- _. by vm_compute in Hd.
Defined.

Lemma dotdot_id_reads_verifier_witness :
  let text := default [] (stored (vfs_platform example_vfs) verifier_rel) in
  stored (into_platform (example_system [])) verifier_rel = Some text ∧
  from_utf8 text = Some text ∧
  ∃ md, parse_metadata "/apps/evil.rhai" dotdot_source false = Ok md
    ∧ app_trusted (identity md) = false ∧ app_capabilities (identity md) = []
    ∧ let s := session_new (example_system []) (identity md) [] "/user" in
      api_exec (OpAppdataRead "config/security") s = (Ok text, s).
Proof.
  intros text. split_and!; [by_vm|by_vm|].
  apply (dotdot_id_reads_verifier (example_system []) text);
    [apply (example_system_stored [])|by_vm|by_vm].
Defined.

(** The same application replaces the verifier, without any prompt: the run makes no
    output and leaves the unread input. *)
Example dotdot_id_replaces_verifier :
  ∃ md, parse_metadata "/apps/evil.rhai" dotdot_source false = Ok md ∧
    let s := session_new (example_system ["n"]) (identity md) [] "/user" in
    let '(r, s') := api_exec (OpAppdataWrite "config/security" "mine") s in
    r = Ok () ∧ stored (into_platform (ses_system s')) verifier_rel = Some ("mine" : str)
    ∧ mock_output (into_platform (ses_system s')) = mock_output (into_platform (ses_system s))
    ∧ mock_input (into_platform (ses_system s')) = ["n" : str].
Proof.
  eexists. split; [vm_compute; reflexivity|].
  split; [vm_compute; reflexivity|]. split_and!; by_vm.
Qed.

Lemma registry_dispatch_witness :
  let rt := {| rt_id := "rhai"; rt_extension := "rhai"; rt_execute _ := AppDone (Ok 0) |} in
  registry_ok [rt] ∧ registry_register rt [rt] = (Err (AlreadyExists "rhai"), [rt]).
Proof.
  intros rt. assert (registry_ok [rt]) as Hok by (by apply NoDup_singleton).
  split; [done|].
  destruct (registry_dispatch (S := AppSession MockPlatform) [rt] Hok) as [Hreg _].
  rewrite (proj2 (Hreg rt)). by_vm.
Defined.
