(* ===== verification/Shell.v ===== *)
(** * The shell ([crates/afos-core/src/shell.rs])

    The command-line splitter, the built-in commands, the lookup of applications
    and the interactive loop.  The theorems show that quoting and splitting are
    inverse, that the working directory stays canonical, that only bundled sources
    are trusted and that bundled commands cannot be shadowed. *)
From S2P Require Import Prelude RustStr Api Mock Vfs Contract Security App System.

(** ** The command-line splitter *)
Record split_state := mk_split {
  sp_output : list str;
  sp_current : str;
  sp_quote : option Z;
  sp_escaped : bool }.

Definition c_backslash : Z := 92.
Definition c_single : Z := 39.
Definition c_double : Z := 34.

Definition push (s : str) (c : Z) : str := s ++ utf8_encode_char c.

(** One round of the loop over the characters. *)
Definition split_step (st : split_state) (character : Z) : split_state :=
  let '(mk_split output current quote escaped) := st in
  if escaped then mk_split output (push current character) quote false
  else if bool_decide (character = c_backslash) then mk_split output current quote true
  else match quote with
  | Some active_quote =>
      if bool_decide (character = active_quote) then mk_split output current None escaped
      else mk_split output (push current character) quote escaped
  | None =>
      if bool_decide (character = c_single) || bool_decide (character = c_double)
      then mk_split output current (Some character) escaped
      else if is_whitespace character then
        if negb (bool_decide (current = ""))
        then mk_split (output ++ [current]) "" quote escaped
        else st
      else mk_split output (push current character) quote escaped
  end.

Definition split_finish (st : split_state) : res Error (list str) :=
  let current := if sp_escaped st then push (sp_current st) c_backslash else sp_current st in
  match sp_quote st with
  | Some _ => Err (InvalidInput "unterminated quote")
  | None =>
      Ok (if negb (bool_decide (current = "")) then sp_output st ++ [current]
          else sp_output st)
  end.

Definition split_command_line (input : str) : res Error (list str) :=
  split_finish (foldl split_step (mk_split [] "" None false) (chars input)).

(** ** The shell *)
Inductive CommandOutcome : Type :=
| Continue (code : Z)
| Exit (code : Z).

Record ShellConfig := { interactive_setup : bool; banner : bool }.
Definition shell_config_default : ShellConfig :=
  {| interactive_setup := true; banner := true |}.

Record Afos (P : Type) := mk_afos {
  afos_system : System P;
  afos_runtimes : RuntimeRegistry;
  afos_cwd : str }.
Arguments mk_afos {P}.
Arguments afos_system {P}.
Arguments afos_runtimes {P}.
Arguments afos_cwd {P}.

Definition afos_new {P} (platform : P) : Afos P :=
  mk_afos (system_new platform) registry_new "/user".
Definition afos_with_system_files {P} (platform : P) (files : list EmbeddedFile) : Afos P :=
  mk_afos (system_with_vfs (vfs_with_system_files platform files)) registry_new "/user".

Definition SOURCE_LIMIT : Z := 1024 * 1024.

Definition is_trusted_path (path : str) : bool :=
  match strip_prefix "/sys/apps/" path with
  | Some suffix => negb (contains slash suffix)
  | None => false
  end.

Section shell.
Context {P : Type} `{!Platform P} `{!Argon2}.
Notation Sh := (M (Afos P) Error).

Definition afos_on_system {A} (m : M (System P) Error A) : Sh A :=
  zoom afos_system (λ s a, mk_afos s (afos_runtimes a) (afos_cwd a)) m.
Definition afos_vfs {A} (m : M (Vfs P) Error A) : Sh A := afos_on_system (on_sys_vfs m).
Definition afos_platform {A} (m : M P Error A) : Sh A := afos_on_system (on_platform m).

Definition register_runtime (runtime : AppRuntime) : Sh () :=
  zoom afos_runtimes (λ rs a, mk_afos (afos_system a) rs (afos_cwd a))
    (registry_register runtime).

Definition afos_initialize (interactive : bool) : Sh () :=
  afos_on_system (initialize interactive).

Definition command_path (root command : str) : str :=
  if contains dot command then root ++ "/" ++ command
  else root ++ "/" ++ command ++ ".rhai".

(** [exists(path)? && runtimes.supports(path)]. *)
Definition runnable (path : str) : Sh bool :=
  present ← afos_vfs (vfs_exists path);
  if present : bool then gets (λ a, registry_supports (afos_runtimes a) path)
  else mret false.

(** The loop over the two application roots. *)
Fixpoint search_roots (roots : list str) (command : str) : Sh str :=
  match roots with
  | [] => throw (NotFound command)
  | root :: rest =>
      found ← runnable (command_path root command);
      if found : bool then mret (command_path root command)
      else search_roots rest command
  end.

Definition resolve_command (command : str) : Sh str :=
  if contains slash command then
    path ← reads (λ a, normalize_path (afos_cwd a) command);
    found ← runnable path;
    if found : bool then mret path
    else if negb (match rsplit_next slash path with
                  | Some name => contains dot name
                  | None => false
                  end)
    then
      present ← afos_vfs (vfs_exists (path ++ ".rhai"));
      if present : bool then mret (path ++ ".rhai") else throw (NotFound path)
    else throw (NotFound path)
  else search_roots ["/sys/apps"; "/apps"] command.

(** The first half of [execute_app]: find, read and parse the application. *)
Definition load_app (command : str) : Sh (str * str * AppMetadata) :=
  path ← resolve_command command;
  source ← afos_vfs (vfs_read_text path);
  if bool_decide (SOURCE_LIMIT < len source)
  then throw (ResourceLimit "application source exceeds 1 MiB")
  else
    metadata ← lift (parse_metadata path source (is_trusted_path path));
    mret (path, source, metadata).

(** The second half: run it in a session that borrows the system. *)
Definition run_session (runtimes : RuntimeRegistry) (path source : str) :
    M (AppSession P) Error Z :=
  code ← registry_execute runtimes path source;
  (if negb (bool_decide (code = 0)) then
     app ← gets ses_app;
     ses_platform (console_write
       (app_id app ++ " exited with status " ++ dec code ++ [nl]))
   else mret ());;
  mret code.

Definition run_app (path source : str) (metadata : AppMetadata) (args : list str) : Sh Z :=
  λ a,
    let session := session_new (afos_system a) (identity metadata)
                     (app_id (identity metadata) :: args) (afos_cwd a) in
    let '(r, session') := run_session (afos_runtimes a) path source session in
    (r, mk_afos (ses_system session') (afos_runtimes a) (afos_cwd a)).

Definition execute_app (command : str) (args : list str) : Sh Z :=
  '(path, source, metadata) ← load_app command;
  run_app path source metadata args.

Definition run_command (line : str) : Sh CommandOutcome :=
  args ← lift (split_command_line line);
  match args with
  | [] => mret (Continue 0)
  | command :: args =>
      if bool_decide (command = "cd") then
        target ← reads (λ a, normalize_path (afos_cwd a) (default "/user" (head args)));
        afos_vfs (vfs_list target);;
        modify (λ a, mk_afos (afos_system a) (afos_runtimes a) target);;
        mret (Continue 0)
      else if bool_decide (command = "exit") then
        code ← lift match head args with
                    | None => Ok 0
                    | Some value => ok_or (InvalidInput "exit status must be an integer")
                                      (parse_i32 value)
                    end;
        mret (Exit code)
      else if bool_decide (command = "clear") then
        afos_platform console_clear;;
        mret (Continue 0)
      else if bool_decide (command = "passwd") || bool_decide (command = "setup") then
        afos_on_system change_password;;
        afos_platform (console_write ("Master password updated." ++ [nl]));;
        mret (Continue 0)
      else if bool_decide (command = "run") then
        match args with
        | [] => throw (InvalidInput "usage: run <app> [args...]")
        | path :: app_args =>
            code ← execute_app path app_args;
            mret (Continue code)
        end
      else
        code ← execute_app command args;
        mret (Continue code)
  end.

(** At most [fuel] rounds of the read loop; [None] when it is still running. *)
Fixpoint shell_loop (fuel : nat) : Sh (option Z) :=
  match fuel with
  | O => mret None
  | S fuel' =>
      cwd ← gets afos_cwd;
      line ← afos_platform (console_read_line ("AFOS:" ++ cwd ++ "$ ") false);
      outcome ← run_command line;
      match outcome with
      | Continue _ => shell_loop fuel'
      | Exit code => mret (Some code)
      end
  end.

Definition run_interactive (fuel : nat) (config : ShellConfig) : Sh (option Z) :=
  afos_initialize (interactive_setup config);;
  (if banner config then
     afos_platform (console_write
       ("AFOS 0.2.0 — portable application environment" ++ [nl]
        ++ "Type `help` for commands." ++ [nl; nl]))
   else mret ());;
  shell_loop fuel.
End shell.

Example split_test :
  split_command_line ("echo " ++ [x22] ++ "hello world" ++ [x22] ++ " one\ two")
    = Ok ["echo"; "hello world"; "one two"].
Proof. by_vm. Qed.
Example split_test_open : split_command_line "echo 'no" = Err (InvalidInput "unterminated quote").
Proof. by_vm. Qed.

(** ** Quoting *)
Definition quote_char (c : Z) : list Z :=
  if bool_decide (c = c_double) || bool_decide (c = c_backslash) then [c_backslash; c] else [c].
Definition quote_word (w : list Z) : list Z := c_double :: (w ≫= quote_char) ++ [c_double].
Fixpoint quote_line (ws : list (list Z)) : list Z :=
  match ws with
  | [] => []
  | w :: rest => quote_word w ++ 32 :: quote_line rest
  end.

Lemma split_quoted out cur w :
  foldl split_step (mk_split out cur (Some c_double) false) (w ≫= quote_char)
    = mk_split out (cur ++ utf8_encode w) (Some c_double) false.
Proof.
  revert cur. induction w as [|c w IH]; intros cur; simpl; [by rewrite app_nil_r|].
  rewrite foldl_app.
  assert (foldl split_step (mk_split out cur (Some c_double) false) (quote_char c)
          = mk_split out (push cur c) (Some c_double) false) as ->.
  { unfold quote_char. destruct (_ || _) eqn:E; simpl.
    - done.
    - apply orb_false_elim in E as [E1 E2]. by rewrite E2, E1. }
  rewrite IH. unfold push. by rewrite <-app_assoc.
Qed.

Lemma split_quote_word out w :
  foldl split_step (mk_split out "" None false) (quote_word w)
    = mk_split out (utf8_encode w) None false.
Proof.
  unfold quote_word. simpl foldl. rewrite foldl_app, split_quoted. done.
Qed.

Lemma utf8_encode_char_ne c : utf8_encode_char c ≠ "".
Proof. unfold utf8_encode_char. by repeat case_match. Qed.

Lemma utf8_encode_ne w : w ≠ [] → utf8_encode w ≠ "".
Proof.
  destruct w as [|c w]; [done|]. intros _ H. simpl in H.
  by apply app_nil in H as [?%utf8_encode_char_ne _].
Qed.

Lemma split_space out cur :
  cur ≠ "" → split_step (mk_split out cur None false) 32 = mk_split (out ++ [cur]) "" None false.
Proof. intros Hc. unfold split_step. simpl. by rewrite bool_decide_false. Qed.

Lemma split_quote_line out ws :
  Forall (.≠ []) ws →
  foldl split_step (mk_split out "" None false) (quote_line ws)
    = mk_split (out ++ (utf8_encode <$> ws)) "" None false.
Proof.
  intros Hws. revert out. induction Hws as [|w ws Hw Hws IH]; intros out;
    cbn [quote_line fmap list_fmap].
  - by rewrite app_nil_r.
  - rewrite foldl_app, split_quote_word. cbn [foldl].
    rewrite split_space, IH by (by apply utf8_encode_ne). by rewrite <-app_assoc.
Qed.

Lemma quote_line_scalar ws :
  Forall (Forall is_scalar) ws → Forall is_scalar (quote_line ws).
Proof.
  induction 1 as [|w ws Hw Hws IH]; simpl; [done|]. unfold quote_word.
  assert (is_scalar c_double ∧ is_scalar c_backslash ∧ is_scalar 32) as (?&?&?)
    by (unfold is_scalar, c_double, c_backslash; lia).
  constructor; [done|]. rewrite <-app_assoc. apply Forall_app_2.
  - apply Forall_bind. eapply Forall_impl; [exact Hw|]. intros c Hc.
    change (Forall is_scalar (quote_char c)). unfold quote_char.
    destruct (_ || _); auto.
  - simpl. auto.
Qed.

(** C11. Quoting and splitting are inverse: any non-empty words, whatever characters
    they contain (blanks, quotes, backslashes included), come back unchanged from a
    line that writes each one in double quotes with quotes and backslashes escaped. *)
Theorem split_quote_roundtrip ws :
  Forall (Forall is_scalar) ws → Forall (.≠ []) ws →
  split_command_line (utf8_encode (quote_line ws)) = Ok (utf8_encode <$> ws).
Proof.
  intros Hs Hne. unfold split_command_line, chars.
  rewrite utf8_decode_encode by (by apply quote_line_scalar). simpl default.
  by rewrite split_quote_line.
Qed.

Lemma split_quote_roundtrip_witness :
  let ws := [[101; 99; 104; 111]; [104; 34; 32; 92; 128512]] in
  Forall (Forall is_scalar) ws ∧ Forall (.≠ []) ws ∧
  split_command_line (utf8_encode (quote_line ws)) = Ok (utf8_encode <$> ws).
Proof.
  intros ws. assert (Forall (Forall is_scalar) ws) by (unfold is_scalar; by_eval).
  assert (Forall (.≠ []) ws) by by_eval.
  split_and!; [done..|]. by apply (split_quote_roundtrip ws).
Defined.

(** Every word the splitter returns is non-empty. *)
Lemma split_step_words st c :
  Forall (.≠ "") (sp_output st) → Forall (.≠ "") (sp_output (split_step st c)).
Proof.
  destruct st as [out cur q e]. intros Ho. unfold split_step.
  repeat case_match; simplify_eq/=; try done. case_bool_decide; [done|].
  apply Forall_app_2; [done|]. by constructor.
Qed.

(** Splitting always returns: words that are all non-empty, or the error of an
    unterminated quote; so a command name is never empty. *)
Theorem split_command_line_total input :
  (∃ ws, split_command_line input = Ok ws ∧ Forall (.≠ "") ws)
  ∨ split_command_line input = Err (InvalidInput "unterminated quote").
Proof.
  unfold split_command_line.
  assert (∀ l st, Forall (.≠ "") (sp_output st) →
            Forall (.≠ "") (sp_output (foldl split_step st l))) as Hf.
  { induction l as [|c l IH]; intros st Hst; [done|]. simpl.
    apply IH. by apply split_step_words. }
  specialize (Hf (chars input) (mk_split [] "" None false) ltac:(constructor)).
  destruct (foldl _ _ _) as [out cur q e]. unfold split_finish. cbn [sp_quote sp_output sp_current sp_escaped] in *.
  destruct q; [by right|]. left. eexists. split; [done|].
  case_bool_decide; simpl; [done|]. apply Forall_app_2; [done|]. by constructor.
Qed.

(** ** Commands keep the working directory canonical *)
Section shell_inv.
Context {P : Type} `{PP : !Platform P} `{AR : !Argon2}.
Context (rs : RuntimeRegistry).

Definition shell_inv (a : Afos P) : Prop := canonical (afos_cwd a) ∧ afos_runtimes a = rs.

Lemma preserves_afos_system {A} (m : M (System P) Error A) :
  preserves shell_inv (afos_on_system m).
Proof. apply (preserves_zoom shell_inv (λ _, True)); [done|by intros s t [??]|done]. Qed.

Lemma preserves_run_app path source md args :
  preserves shell_inv (run_app path source md args).
Proof.
  intros a Ha. unfold run_app. by destruct (run_session _ _ _ _).
Qed.

Ltac shell_step := first [apply preserves_afos_system | apply preserves_run_app].

Lemma preserves_runnable path : preserves shell_inv (runnable path).
Proof. unfold runnable. evolve_with shell_step. Qed.

Lemma preserves_search_roots roots command :
  preserves shell_inv (search_roots roots command).
Proof.
  induction roots; simpl; evolve_with ltac:(first [apply preserves_runnable | shell_step]).
Qed.

Lemma preserves_load_app command : preserves shell_inv (load_app command).
Proof.
  unfold load_app, resolve_command.
  evolve_with ltac:(first [apply preserves_runnable | apply preserves_search_roots
                          | shell_step]).
Qed.

Lemma preserves_execute_app command args : preserves shell_inv (execute_app command args).
Proof.
  unfold execute_app. evolve_with ltac:(first [apply preserves_load_app | shell_step]).
Qed.

Lemma preserves_cd arg :
  preserves shell_inv
    (target ← reads (λ a, normalize_path (afos_cwd a) arg);
     afos_vfs (vfs_list target);;
     modify (λ a, mk_afos (afos_system a) (afos_runtimes a) target);;
     mret (Continue 0)).
Proof.
  apply preserves_bind_ok; [apply preserves_reads|]. intros target a a' [Hc _] Ht.
  apply reads_ok_inv in Ht as [Ht _]. apply normalize_canonical in Ht; [|done].
  apply preserves_bind; [apply preserves_afos_system|]. intros _.
  apply preserves_bind; [by intros b [_ ?]|]. intros _. apply preserves_ret.
Qed.

Lemma preserves_run_command line : preserves shell_inv (run_command line).
Proof.
  unfold run_command.
  evolve_with ltac:(first [apply preserves_cd | apply preserves_execute_app | shell_step]).
Qed.

Lemma preserves_shell_loop fuel : preserves shell_inv (shell_loop fuel).
Proof.
  induction fuel as [|fuel IH]; simpl;
    evolve_with ltac:(first [apply preserves_run_command | exact IH | shell_step]).
Qed.

(** The shell's working directory is canonical and its runtimes stay registered,
    whatever the command line and however it ends, and so after any number of
    rounds of the interactive loop: every path the shell and its applications
    resolve is resolved from a canonical directory. *)
Theorem shell_keeps_cwd (a : Afos P) line fuel config :
  canonical (afos_cwd a) → afos_runtimes a = rs →
  let a1 := (run_command line a).2 in
  let a2 := (run_interactive fuel config a).2 in
  (canonical (afos_cwd a1) ∧ afos_runtimes a1 = rs)
  ∧ canonical (afos_cwd a2) ∧ afos_runtimes a2 = rs.
Proof.
  intros Hc Hr. split; [by apply preserves_run_command|].
  assert (preserves shell_inv (run_interactive fuel config)) as Hp; [|by apply Hp].
  unfold run_interactive.
  evolve_with ltac:(first [apply preserves_shell_loop | shell_step]).
Qed.
End shell_inv.

(** ** Trust *)
Section trust.
Context {P : Type} `{PP : !Platform P} `{AR : !Argon2}.
Implicit Types (v : Vfs P) (a : Afos P).

Definition afos_files (a : Afos P) : list EmbeddedFile :=
  vfs_system_files (sys_vfs (afos_system a)).

Lemma trusted_path_sys path p :
  is_trusted_path path = true → normalize_path "/" path = Ok p → under "/sys" p.
Proof.
  unfold is_trusted_path. destruct (strip_prefix "/sys/apps/" path) as [suf|] eqn:E; [|done].
  apply strip_prefix_Some in E as ->. intros Hs%negb_true_iff.
  unfold contains in Hs. apply bool_decide_eq_false in Hs.
  unfold normalize_path. destruct (_ || _); [done|].
  assert (starts_with "/" ("/sys/apps/" ++ suf) = true) as ->.
  { apply starts_with_spec. by exists ("sys/apps/" ++ suf). }
  cbn [negb].
  change ("/sys/apps/" ++ suf) with ([] ++ slash :: "sys" ++ slash :: "apps" ++ slash :: suf).
  rewrite !split_app_sep, (split_no slash suf) by done.
  change (split slash [] ++ split slash "sys" ++ split slash "apps" ++ [suf])
    with ["";"sys";"apps";suf].
  cbn [walk]. rewrite (bool_decide_true ("" = "")) by done. cbn [orb].
  repeat rewrite (bool_decide_false ("sys" = _)) by done.
  repeat rewrite (bool_decide_false ("apps" = _)) by done. cbn [orb].
  destruct (_ || _); [|case_bool_decide]; cbn; intros [= <-].
  - right. by exists "apps".
  - by left.
  - right. by exists ("apps/" ++ suf).
Qed.

Lemma read_trusted path v source v' :
  is_trusted_path path = true → vfs_read_text path v = (Ok source, v') →
  ∃ f, f ∈ vfs_system_files v ∧ normalize_path "/" path = Ok (ef_path f) ∧ ef_data f = source.
Proof.
  intros Ht H. unfold vfs_read_text, vfs_read in H.
  apply bind_ok_inv in H as (bytes&v1&H&Hu). apply lift_ok_inv in Hu as [Hu ->].
  apply bind_ok_inv in H as (p&v2&Hp&H). apply lift_ok_inv in Hp as [Hp ->].
  pose proof Hp as Hn.
  apply trusted_path_sys in Hp; [|done]. apply is_path_prefix_spec in Hp. rewrite Hp in H.
  apply reads_ok_inv in H as [H _].
  destruct (system_file (vfs_system_files v) p) as [f|] eqn:Hf; simplify_eq/=.
  apply find_some in Hf as [Hin <-%bool_decide_eq_true]. exists f.
  split_and!; [by apply list_elem_of_In|done|].
  unfold from_utf8 in Hu. by case_match; simplify_eq/=.
Qed.

Section files.
Context (fs : list EmbeddedFile).
Definition files_are (a : Afos P) : Prop := afos_files a = fs.

Lemma preserves_files_vfs {A} (m : M (Vfs P) Error A) :
  preserves (λ v, vfs_system_files v = fs) m → preserves files_are (afos_vfs m).
Proof.
  intros Hm. apply (preserves_zoom files_are (λ s, vfs_system_files (sys_vfs s) = fs));
    [done..|].
  by apply (preserves_zoom _ (λ v, vfs_system_files v = fs)).
Qed.

Lemma preserves_files_exists path : preserves files_are (afos_vfs (vfs_exists path)).
Proof.
  apply preserves_files_vfs. unfold vfs_exists.
  evolve_with ltac:(apply (preserves_zoom _ (λ _, True)); [done..|done]).
Qed.

Lemma preserves_files_resolve command : preserves files_are (resolve_command command).
Proof.
  assert (∀ path, preserves files_are (runnable path)) as Hr.
  { intros path. unfold runnable. evolve_with ltac:(apply preserves_files_exists). }
  unfold resolve_command. simpl search_roots.
  evolve_with ltac:(first [apply Hr | apply preserves_files_exists]).
Qed.
End files.

(** C12. An application is trusted only when its path is directly below [/sys/apps]
    and its source is the content of the file bundled with the system under that very
    path: nothing on the persistent storage, whatever its name or path, runs with
    trust, and no bundled file runs under another one's name.  (A name that is no
    file name, [.] or [..], stands for the bundled file at the normalised path, if
    the table has one.)  The loaded source never exceeds 1 MiB. *)
Theorem trusted_is_bundled command a path source md a' :
  load_app command a = (Ok (path, source, md), a') →
  len source ≤ SOURCE_LIMIT ∧ app_source_path (identity md) = path ∧
  (app_trusted (identity md) = true →
   ∃ name f, path = "/sys/apps/" ++ name ∧ slash ∉ name
             ∧ f ∈ afos_files a ∧ normalize_path "/" path = Ok (ef_path f)
             ∧ (component name → ef_path f = path) ∧ ef_data f = source).
Proof.
  unfold load_app. intros H. apply bind_ok_inv in H as (q&a1&Hq&H).
  pose proof (preserves_run _ _ _ _ _ (preserves_files_resolve (afos_files a) command)
    eq_refl Hq) as Hfs.
  apply bind_ok_inv in H as (src&a2&Hs&H). case_bool_decide as Hl; [done|].
  apply bind_ok_inv in H as (md'&a3&Hmd&H). apply lift_ok_inv in Hmd as [Hmd ->].
  apply mret_ok_inv in H as [[= -> -> ->] ->].
  split; [lia|]. unfold parse_metadata in Hmd.
  apply res_bind_ok in Hmd as (stem&_&Hmd). apply res_bind_ok in Hmd as ([[id api] caps]&_&Hmd).
  simplify_eq/=. split; [done|]. intros Ht.
  apply zoom_ok_inv in Hs as (s1&Hs&->). apply zoom_ok_inv in Hs as (v1&Hs&->).
  pose proof (read_trusted _ _ _ _ Ht Hs) as (f&Hin&Hn&Hf).
  unfold is_trusted_path in Ht. destruct (strip_prefix _ q) as [name|] eqn:E; [|done].
  apply strip_prefix_Some in E. apply negb_true_iff, bool_decide_eq_false in Ht.
  exists name, f. split_and!; [done..|by rewrite <-Hfs|done| |done].
  intros Hname. rewrite normalize_canonical_id in Hn; [by injection Hn|].
  rewrite E. exists ["sys"; "apps"; name]. split; [|done].
  do 2 (constructor; [by_eval|]). by constructor.
Qed.

(** A bundled command cannot be shadowed: when [/sys/apps] bundles the file a
    plain command name stands for and a runtime runs it, the name resolves to it,
    without a platform call, whatever [/apps] holds. *)
Theorem bundled_not_shadowed command a f :
  component command → let path := command_path "/sys/apps" command in
  system_file (afos_files a) path = Some f → registry_supports (afos_runtimes a) path = true →
  resolve_command command a = (Ok path, a) ∧ is_trusted_path path = true.
Proof.
  intros Hc path Hf Hs. assert (∃ name, path = "/sys/apps/" ++ name ∧ component name)
    as (name&Hp&Hn).
  { subst path. unfold command_path. destruct (contains dot command).
    - by exists command.
    - exists (command ++ ".rhai"). split; [done|].
      destruct Hc as (?&?&?&?&?&?). split_and!.
      1-3: intros Hx; apply (f_equal length) in Hx; rewrite length_app in Hx;
        destruct command; simpl in *; lia || done.
      all: intros Hx; apply elem_of_app in Hx as [?|Hx]; [done|]; revert Hx; by_eval. }
  assert (canonical path) as Hcan.
  { exists ["sys"; "apps"; name]. rewrite Hp. split; [|done].
    constructor; [by_eval|]. constructor; [by_eval|]. by constructor. }
  split.
  - unfold resolve_command, contains. rewrite (bool_decide_false (slash ∈ command))
      by apply Hc.
    cbn [search_roots]. rewrite bind_run. fold path.
    assert (runnable path a = (Ok true, a)) as ->; [|done].
    unfold runnable. rewrite bind_run. unfold afos_vfs, afos_on_system, on_sys_vfs, zoom.
    unfold vfs_exists at 1. rewrite normalize_canonical_id, bind_lift_ok by done.
    assert (is_path_prefix "/sys" path = true) as Hpre.
    { apply is_path_prefix_spec. rewrite Hp. right. by exists ("apps/" ++ name). }
    assert (bool_decide (is_Some (system_file (vfs_system_files (sys_vfs (afos_system a)))
              path)) = true) as Hsome.
    { apply bool_decide_eq_true. unfold afos_files in Hf. rewrite Hf. by eexists. }
    destruct (_ || _) in |- *; unfold mret, M_ret; rewrite ?Hpre; unfold gets;
      rewrite ?Hsome; destruct a as [[[]?]??]; cbn; by rewrite <-Hs.
  - rewrite Hp. unfold is_trusted_path. rewrite strip_prefix_app. unfold contains.
    rewrite bool_decide_false; [done|]. apply Hn.
Qed.
End trust.

(** ** Exit status *)
Definition plain_char (c : Z) : Prop :=
  c ≠ c_backslash ∧ c ≠ c_single ∧ c ≠ c_double ∧ is_whitespace c = false.

Lemma split_plain out cur w :
  Forall plain_char w →
  foldl split_step (mk_split out cur None false) w
    = mk_split out (cur ++ utf8_encode w) None false.
Proof.
  intros Hw. revert cur. induction Hw as [|c w (?&?&?&Hws) Hw IH]; intros cur;
    cbn [foldl]; [by rewrite app_nil_r|].
  assert (split_step (mk_split out cur None false) c = mk_split out (push cur c) None false)
    as ->.
  { unfold split_step. rewrite !bool_decide_false by done. cbn [orb]. by rewrite Hws. }
  rewrite IH. unfold push. by rewrite <-app_assoc.
Qed.

Definition plain_byte (b : byte) : Prop := b2z b < 128 ∧ plain_char (b2z b).
#[export] Instance plain_byte_dec b : Decision (plain_byte b).
Proof. unfold plain_byte, plain_char. apply _. Defined.

Lemma split_two_words u w :
  u ≠ "" → w ≠ "" → Forall plain_byte u → Forall plain_byte w →
  split_command_line (u ++ " " ++ w) = Ok [u; w].
Proof.
  intros Hu Hw Hpu Hpw.
  assert (∀ s, Forall plain_byte s → Forall (λ b, b2z b < 128) s
            ∧ Forall plain_char (b2z <$> s)) as Hp.
  { intros s Hs. rewrite Forall_fmap. split; (eapply Forall_impl; [exact Hs|]); by intros ? []. }
  destruct (Hp u Hpu) as [Hau Hcu], (Hp w Hpw) as [Haw Hcw].
  assert (∀ s, Forall (λ b, b2z b < 128) s → utf8_encode (b2z <$> s) = s) as Henc.
  { intros s Hs%utf8_decode_ascii. by apply utf8_encode_decode in Hs as [? _]. }
  unfold split_command_line, chars. rewrite utf8_decode_ascii by
    (apply Forall_app_2; [done|]; by constructor).
  cbn [from_option id]. rewrite fmap_app, foldl_app, split_plain, app_nil_l, Henc by done.
  change (b2z <$> " " ++ w) with (32 :: (b2z <$> w)). cbn [foldl].
  rewrite split_space, split_plain, app_nil_l, Henc by done.
  unfold split_finish. cbn. by rewrite bool_decide_false.
Qed.

Lemma digit_plain b : is_ascii_digit b = true → plain_byte b.
Proof.
  unfold is_ascii_digit. intros H%bool_decide_eq_true. split; [lia|].
  unfold plain_char, c_backslash, c_single, c_double, is_whitespace.
  split_and!; [lia..|]. rewrite !bool_decide_false by lia. done.
Qed.

Lemma dec_plain n : dec n ≠ "" ∧ Forall plain_byte (dec n).
Proof.
  assert (∀ z, 0 ≤ z → dec_unsigned z ≠ "" ∧ Forall plain_byte (dec_unsigned z)) as Hu.
  { intros z Hz. destruct (dec_unsigned_value z Hz) as (?&Hd&_). split; [done|].
    eapply Forall_impl; [exact Hd|]. apply digit_plain. }
  unfold dec. case_bool_decide.
  - destruct (Hu (- n)) as [_ ?]; [lia|]. split; [done|]. constructor; [by_eval|done].
  - apply Hu. lia.
Qed.

(** [exit n] ends the shell with exactly the status [n], for every 32-bit
    integer, negative ones included, and changes nothing. *)
Theorem exit_status {P} `{PP : !Platform P} `{AR : !Argon2} (a : Afos P) n :
  -2147483648 ≤ n ≤ 2147483647 →
  run_command ("exit " ++ dec n) a = (Ok (Exit n), a).
Proof.
  intros Hn. destruct (dec_plain n) as [Hne Hp].
  unfold run_command. change ("exit " ++ dec n) with ("exit" ++ " " ++ dec n).
  rewrite split_two_words, bind_lift_ok by (done || by_eval).
  rewrite (bool_decide_false ("exit" = "cd")), (bool_decide_true ("exit" = "exit")) by done.
  cbn [head]. unfold parse_i32. rewrite parse_int_dec by done. done.
Qed.

(** ** The verifier survives every command that is not meant to change it *)
Section shell_verifier.
Context {P : Type} `{PP : !Platform P} `{RP : !ReliablePlatform P} `{AR : !Argon2}.
Implicit Types a : Afos P.

Definition holds_verifier (d : option (list byte)) (p : P) : Prop :=
  plat_ok p ∧ stored p verifier_rel = d.
Definition shell_holds (d : option (list byte)) (a : Afos P) : Prop :=
  holds_verifier d (into_platform (afos_system a)).

Lemma holds_files {A} d (m : M P Error A) :
  (∀ p r p', plat_ok p → m p = (r, p') → plat_ok p' ∧ ∀ k, stored p' k = stored p k) →
  preserves (holds_verifier d) m.
Proof.
  apply preserves_files; [by intros p [??]|]. intros p p' [_ <-] ? Hk. by split.
Qed.

Lemma shell_holds_platform {A} d (m : M P Error A) :
  preserves (holds_verifier d) m → preserves (shell_holds d) (afos_platform m).
Proof.
  intros Hm. apply (preserves_zoom _ (sys_inv (holds_verifier d))); [done..|].
  by apply preserves_on_platform.
Qed.

Lemma shell_holds_lookup d path :
  preserves (shell_holds d) (afos_vfs (vfs_exists path))
  ∧ preserves (shell_holds d) (afos_vfs (vfs_read_text path))
  ∧ preserves (shell_holds d) (afos_vfs (vfs_list path)).
Proof.
  destruct (preserves_vfs_lookup (holds_verifier d) path) as (?&?&?).
  - intros rel Hm. apply holds_files. eauto using law_exists_keeps.
  - intros rel Hm. apply preserves_read_law; [done|by intros p [??]].
  - intros rel Hm. apply holds_files. eauto using law_list.
  - split_and!; (apply (preserves_zoom _ (sys_inv (holds_verifier d))); [done..|];
      by apply preserves_on_sys_vfs).
Qed.

Lemma shell_holds_load d command : preserves (shell_holds d) (load_app command).
Proof.
  unfold load_app, resolve_command, runnable. simpl search_roots. unfold runnable.
  evolve_with ltac:(first [apply (shell_holds_lookup d)]).
Qed.

(** What an application must not be able to do. *)
Definition harmless (app : AppIdentity) : Prop :=
  plain_id (app_id app) ∧ app_id app ≠ ".." ∧ declares app (FsWrite "/user") = false
  ∧ declares app (FsWrite "/user/config") = false.

Lemma run_app_holds d path source md args :
  harmless (identity md) →
  preserves (λ a, canonical (afos_cwd a) ∧ shell_holds d a) (run_app path source md args).
Proof.
  intros (Hid&Hdots&Hu&Hc) a [Hcwd Ha]. unfold run_app.
  pose proof (verifier_app_contract (identity md) Hdots Hu Hc d) as HI.
  assert (preserves (session_inv (identity md) (afos_cwd a) (λ _, holds_verifier d))
            (run_session (afos_runtimes a) path source)) as Hp.
  { unfold run_session, registry_execute. evolve_with ltac:(idtac; match goal with
      | |- preserves _ (run_prog _) =>
          apply run_prog_preserves; intros T o; by apply preserves_api_exec_inv
      | |- preserves _ (ses_platform _) =>
          intros s Hs; eapply session_at_inv, preserves_ses_platform;
            [apply holds_files; eauto using law_console_write|exact Hs]
      end). }
  specialize (Hp (session_new (afos_system a) (identity md)
    (app_id (identity md) :: args) (afos_cwd a)) ltac:(by split_and!)).
  destruct (run_session _ _ _ _) as [r s'].
  by destruct Hp as (_&_&_&_&?).
Qed.

Lemma execute_app_holds d command args a :
  canonical (afos_cwd a) → shell_holds d a →
  (∀ path source md a1,
     load_app command a = (Ok (path, source, md), a1) → harmless (identity md)) →
  shell_holds d ((code ← execute_app command args; mret (Continue code)) a).2.
Proof.
  intros Hcwd Ha Hload.
  assert (shell_holds d (execute_app command args a).2) as Hexec.
  { unfold execute_app. rewrite bind_run.
    pose proof (shell_holds_load d command a Ha) as H1.
    pose proof (preserves_load_app (afos_runtimes a) command a (conj Hcwd eq_refl))
      as [Hcwd1 _].
    destruct (load_app command a) as [[[[path source] md]|e|] a1] eqn:E; [|done..].
    by apply run_app_holds; [eapply Hload|]. }
  rewrite bind_run. by destruct (execute_app command args a) as [[]].
Qed.

(** On a reliable platform, a command other than [passwd] and [setup] leaves the
    stored password verifier as it is, however it ends, unless the application it
    loads is named [..] or declares write access to [/user] or
    [/user/config]. *)
Theorem command_keeps_verifier line a r a' :
  canonical (afos_cwd a) → plat_ok (into_platform (afos_system a)) →
  (∀ word args, split_command_line line = Ok (word :: args) →
     word ≠ "passwd" ∧ word ≠ "setup") →
  (∀ words command path source md a1,
     split_command_line line = Ok words → command ∈ words →
     load_app command a = (Ok (path, source, md), a1) → harmless (identity md)) →
  run_command line a = (r, a') →
  stored (into_platform (afos_system a')) verifier_rel
    = stored (into_platform (afos_system a)) verifier_rel.
Proof.
  intros Hcwd Hok Hline Hload Hrun.
  set (d := stored (into_platform (afos_system a)) verifier_rel).
  assert (shell_holds d a) as Ha by done.
  assert (shell_holds d (run_command line a).2) as H; [|rewrite Hrun in H; apply H].
  assert (∀ A (m : M (Afos P) Error A), preserves (shell_holds d) m →
            shell_holds d (m a).2) as Hkeep by (intros A m Hm; by apply Hm).
  unfold run_command.
  destruct (split_command_line line) as [[|word args]|e|] eqn:Hs; [done| |done..].
  rewrite bind_lift_ok. destruct (Hline _ _ eq_refl) as [Hpw Hsu].
  destruct (bool_decide (word = "cd")).
  { apply Hkeep. evolve_with ltac:(first [apply (shell_holds_lookup d) | by intros b Hb]). }
  destruct (bool_decide (word = "exit")); [apply Hkeep; evolve_with fail|].
  destruct (bool_decide (word = "clear")).
  { apply Hkeep. evolve_with ltac:(apply shell_holds_platform, holds_files).
    eauto using law_console_clear. }
  rewrite (bool_decide_false (word = "passwd")), (bool_decide_false (word = "setup"))
    by done.
  cbn [orb]. destruct (bool_decide (word = "run")).
  - destruct args as [|path args]; [done|]. apply execute_app_holds; [done..|].
    intros q src md a1. apply (Hload _ _ _ _ _ _ eq_refl). right. by left.
  - apply execute_app_holds; [done..|].
    intros q src md a1. apply (Hload _ _ _ _ _ _ eq_refl). by left.
Qed.
End shell_verifier.

(** ** The interactive loop *)
Definition afos_set_platform {P} (p : P) (a : Afos P) : Afos P :=
  mk_afos (set_platform p (afos_system a)) (afos_runtimes a) (afos_cwd a).

(** Any command that fails, for instance a name that resolves to nothing or a
    script that raises an error, ends the interactive loop with that error: the loop
    does not go on with the next line. *)
Theorem command_error_ends_shell {P} `{PP : !Platform P} `{AR : !Argon2}
    (a a' : Afos P) p1 line e fuel :
  console_read_line ("AFOS:" ++ afos_cwd a ++ "$ ") false (into_platform (afos_system a))
    = (Ok line, p1) →
  run_command line (afos_set_platform p1 a) = (Err e, a') →
  shell_loop (S fuel) a = (Err e, a').
Proof.
  intros Hl Hr. cbn [shell_loop]. rewrite bind_run.
  change (gets afos_cwd a) with (Ok (E := Error) (afos_cwd a), a). cbv beta iota.
  rewrite bind_run. unfold afos_platform, afos_on_system, zoom.
  rewrite (on_platform_run _ _ _ _ Hl). rewrite bind_run.
  change (mk_afos _ _ _) with (afos_set_platform p1 a). by rewrite Hr.
Qed.

(** ** Concrete runs *)
#[local] Existing Instance example_argon2.

Definition quiet_runtime : AppRuntime :=
  {| rt_id := "rhai"; rt_extension := "rhai"; rt_execute _ := AppDone (Ok 0) |}.

Definition example_shell (input : list str) : Afos MockPlatform :=
  mk_afos (system_with_vfs (vfs_with_system_files
    (mock_set_input (λ _, input) (vfs_platform example_vfs))
    [{| ef_path := "/sys/apps/ls.rhai"; ef_data := "print(1);" |}]))
    [quiet_runtime] "/user".

Lemma trusted_is_bundled_witness :
  ∃ md a', load_app "ls" (example_shell [])
    = (Ok ("/sys/apps/ls.rhai", "print(1);", md), a')
    ∧ app_trusted (identity md) = true
    ∧ ∃ name f, "/sys/apps/ls.rhai" = "/sys/apps/" ++ name ∧ slash ∉ name
        ∧ f ∈ afos_files (example_shell [])
        ∧ normalize_path "/" "/sys/apps/ls.rhai" = Ok (ef_path f)
        ∧ (component name → ef_path f = "/sys/apps/ls.rhai") ∧ ef_data f = "print(1);".
Proof.
  destruct (load_app "ls" (example_shell [])) as [r a'] eqn:E.
  assert (∃ md, r = Ok ("/sys/apps/ls.rhai", "print(1);", md)
            ∧ app_trusted (identity md) = true) as (md&->&Ht).
  { replace r with (load_app "ls" (example_shell [])).1 by (by rewrite E).
    eexists. split; [vm_compute; reflexivity|done]. }
  exists md, a'. split_and!; [done..|].
  by apply (trusted_is_bundled "ls" (example_shell []) "/sys/apps/ls.rhai" "print(1);" md a' E).
Defined.

Lemma bundled_not_shadowed_witness :
  component "ls" ∧
  registry_supports (afos_runtimes (example_shell [])) "/sys/apps/ls.rhai" = true ∧
  resolve_command "ls" (example_shell []) = (Ok "/sys/apps/ls.rhai", example_shell []).
Proof.
  split_and!; [by_eval|by_vm|].
  apply (bundled_not_shadowed "ls" (example_shell [])
    {| ef_path := "/sys/apps/ls.rhai"; ef_data := "print(1);" |}); [by_eval|by_vm|by_vm].
Defined.

Lemma exit_status_witness :
  -2147483648 ≤ -7 ≤ 2147483647 ∧
  run_command ("exit " ++ dec (-7)) (example_shell []) = (Ok (Exit (-7)), example_shell []).
Proof. split; [lia|]. apply (exit_status (example_shell []) (-7)). lia. Defined.

Lemma command_keeps_verifier_witness :
  let a := example_shell [] in
  plat_ok (into_platform (afos_system a)) ∧ split_command_line "ls" = Ok ["ls"] ∧
  stored (into_platform (afos_system (run_command "ls" a).2)) verifier_rel
    = stored (into_platform (afos_system a)) verifier_rel.
Proof.
  intros a. assert (split_command_line "ls" = Ok ["ls"]) as Hs by by_vm.
  assert (plat_ok (into_platform (afos_system a))) as Hok by (apply (example_system_stored [])).
  split_and!; [done..|].
  apply (command_keeps_verifier "ls" a (run_command "ls" a).1); [by_eval|done|..].
  - intros word args Hw. rewrite Hs in Hw. by injection Hw as <- <-.
  - intros words command path source md a1 Hw Hc Hl. rewrite Hs in Hw.
    injection Hw as <-. apply list_elem_of_singleton in Hc as ->.
    assert ((load_app "ls" a).1 = Ok (path, source, md)) as H1 by (by rewrite Hl).
    vm_compute in H1. injection H1 as _ _ <-. split_and!; [by_eval|done|by_vm|by_vm].
  - by destruct (run_command "ls" a).
Defined.

Lemma command_error_ends_shell_witness :
  let a := example_shell ["nosuch"; "exit 3"] in
  let a1 := afos_set_platform
    (mock_set_input (λ _, ["exit 3"]) (into_platform (afos_system a))) a in
  (run_command "nosuch" a1).1 = Err (NotFound "nosuch") ∧
  shell_loop 10 a = (Err (NotFound "nosuch"), (run_command "nosuch" a1).2).
Proof.
  intros a a1. split; [by_vm|].
  apply (command_error_ends_shell a (run_command "nosuch" a1).2
    (mock_set_input (λ _, ["exit 3"]) (into_platform (afos_system a))) "nosuch"); by_vm.
Defined.
Lemma shell_keeps_cwd_witness :
  let a := afos_new mock_default in
  canonical (afos_cwd a) ∧ canonical (afos_cwd (run_command "cd /sys/../" a).2).
Proof.
  intros a. assert (canonical (afos_cwd a)) as Hc by by_eval.
  split; [done|].
  apply (shell_keeps_cwd (AR := example_argon2) registry_new a "cd /sys/../" 0
    shell_config_default Hc eq_refl).
Defined.

