(* ===== verification/Storage.v ===== *)
(** * The snapshot store ([crates/afos-storage/src/lib.rs])

    The binary format of a file tree, the two-slot store on a block device and its
    recovery.  The theorems show that a tree survives encoding and decoding, that a
    saved tree is what reopening finds, that an interrupted save loses neither the
    old nor the new tree, and that no content of a device makes opening panic. *)
From S2P Require Import Prelude RustStr.

Definition BLOCK_SIZE : Z := 512.
Definition MAGIC : list byte := "AFOSFS01".
Definition FORMAT_VERSION : Z := 1.
Definition HEADER_SIZE : Z := BLOCK_SIZE.
Definition MAX_PATH_LEN : Z := 4096.
Definition MAX_ENTRY_COUNT : Z := 100000.

Inductive StorageError : Type :=
| Device (message : str)
| DeviceTooSmall
| SnapshotTooLarge
| CorruptSnapshot
| UnsupportedVersion (version : Z).

#[export] Instance StorageError_eq_dec : EqDecision StorageError.
Proof. solve_decision. Defined.

(** [impl Display for StorageError]. *)
Definition storage_error_to_string (e : StorageError) : str :=
  match e with
  | Device message => "block device: " ++ message
  | DeviceTooSmall => "block device is too small"
  | SnapshotTooLarge => "filesystem snapshot is too large"
  | CorruptSnapshot => "filesystem snapshot is corrupt"
  | UnsupportedVersion version => "unsupported filesystem version " ++ dec version
  end.

(** A method that fills a buffer takes it and returns it changed. *)
Class BlockDevice (D : Type) : Type := {
  block_count : D → Z;
  read_blocks : Z → list byte → M D StorageError (list byte);
  write_blocks : Z → list byte → M D StorageError ();
  flush : M D StorageError ()
}.

Record FileTree := mk_tree {
  files : gmap str (list byte);
  directories : gset str }.

#[export] Instance FileTree_eq_dec : EqDecision FileTree.
Proof. solve_decision. Defined.

Definition tree_default : FileTree := mk_tree ∅ ∅.

(** ** Encoding: the output vector is the state *)
Definition extend (bytes : list byte) : M (list byte) StorageError () :=
  modify (λ output, output ++ bytes).

Definition write_count (count : Z) : M (list byte) StorageError () :=
  if bool_decide (MAX_ENTRY_COUNT < count) then throw SnapshotTooLarge
  else
    count ← lift (ok_or SnapshotTooLarge (try_from u32_max count));
    extend (to_le_bytes 4 count).

Definition write_string (value : str) : M (list byte) StorageError () :=
  if bool_decide (MAX_PATH_LEN < len value) then throw SnapshotTooLarge
  else
    length ← lift (ok_or SnapshotTooLarge (try_from u32_max (len value)));
    extend (to_le_bytes 4 length);;
    extend value.

Definition write_file (entry : str * list byte) : M (list byte) StorageError () :=
  write_string entry.1;;
  length ← lift (ok_or SnapshotTooLarge (try_from u64_max (len entry.2)));
  extend (to_le_bytes 8 length);;
  extend entry.2.

Definition write_tree (tree : FileTree) : M (list byte) StorageError () :=
  write_count (Z.of_nat (size (directories tree)));;
  for_each write_string (btree_set_iter (directories tree));;
  write_count (Z.of_nat (size (files tree)));;
  for_each write_file (btree_iter (files tree)).

Definition encode_tree (tree : FileTree) : res StorageError (list byte) :=
  match write_tree tree [] with
  | (Ok _, output) => Ok output
  | (Err e, _) => Err e
  | (Panic, _) => Panic
  end.

(** ** Decoding: the cursor is the state *)
Section decode.
Context (input : list byte).
Notation Cur := (M Z StorageError).

(** [take]: [input.get(cursor..end)], then move the cursor. *)
Definition cur_take (length : Z) : Cur (list byte) :=
  λ cursor,
    let end_ := cursor + length in
    if bool_decide (usize_max < end_) then (Err CorruptSnapshot, cursor)
    else if bool_decide (len input < end_) then (Err CorruptSnapshot, cursor)
    else (Ok (take (Z.to_nat length) (drop (Z.to_nat cursor) input)), end_).

Definition take_u32 : Cur Z := bytes ← cur_take 4; mret (from_le_bytes bytes).
Definition take_u64 : Cur Z := bytes ← cur_take 8; mret (from_le_bytes bytes).

Definition read_u32 (offset : Z) : res StorageError Z := (take_u32 offset).1.
Definition read_u64 (offset : Z) : res StorageError Z := (take_u64 offset).1.

Definition read_count : Cur Z :=
  count ← take_u32;
  count ← lift (ok_or CorruptSnapshot (try_from usize_max count));
  if bool_decide (MAX_ENTRY_COUNT < count) then throw CorruptSnapshot else mret count.

Definition read_string : Cur str :=
  length ← take_u32;
  length ← lift (ok_or CorruptSnapshot (try_from usize_max length));
  if bool_decide (MAX_PATH_LEN < length) then throw CorruptSnapshot
  else
    bytes ← cur_take length;
    lift (ok_or CorruptSnapshot (from_utf8 bytes)).

Fixpoint read_directories (count : nat) (ds : gset str) : Cur (gset str) :=
  match count with
  | O => mret ds
  | S count' =>
      path ← read_string;
      read_directories count' ({[path]} ∪ ds)
  end.

Definition read_file : Cur (str * list byte) :=
  path ← read_string;
  length ← take_u64;
  length ← lift (ok_or CorruptSnapshot (try_from usize_max length));
  data ← cur_take length;
  mret (path, data).

Fixpoint read_files (count : nat) (fs : gmap str (list byte)) :
    Cur (gmap str (list byte)) :=
  match count with
  | O => mret fs
  | S count' =>
      entry ← read_file;
      read_files count' (<[entry.1 := entry.2]> fs)
  end.

Definition read_tree : Cur FileTree :=
  directory_count ← read_count;
  ds ← read_directories (Z.to_nat directory_count) ∅;
  file_count ← read_count;
  fs ← read_files (Z.to_nat file_count) ∅;
  cursor ← gets id;
  if negb (bool_decide (cursor = len input)) then throw CorruptSnapshot
  else mret (mk_tree fs ds).

Definition decode_tree : res StorageError FileTree := (read_tree 0).1.
End decode.

(** FNV-1a. *)
Definition checksum (bytes : list byte) : Z :=
  foldl (λ hash b, wrap64 (Z.lxor hash (b2z b) * 1099511628211)) 14695981039346656037 bytes.

(** ** Headers *)
Definition encode_header (generation payload_len payload_checksum : Z) : list byte :=
  let header := replicate (Z.to_nat HEADER_SIZE) x00 in
  let header := splice header 0 MAGIC in
  let header := splice header 8 (to_le_bytes 4 FORMAT_VERSION) in
  let header := splice header 16 (to_le_bytes 8 generation) in
  let header := splice header 24 (to_le_bytes 8 payload_len) in
  splice header 32 (to_le_bytes 8 payload_checksum).

Record DecodedSnapshot := mk_snapshot { snap_generation : Z; snap_tree : FileTree }.

(** [vec![0; blocks * BLOCK_SIZE]]: the product and the allocation are checked. *)
Definition block_buffer {St} (blocks : Z) : M St StorageError (list byte) :=
  if bool_decide (9223372036854775807 < blocks * BLOCK_SIZE) then lift Panic
  else mret (replicate (Z.to_nat (blocks * BLOCK_SIZE)) x00).

(** [u64] arithmetic: a result out of range is a panic. *)
Definition arith_u64 {St} (z : Z) : M St StorageError Z :=
  if bool_decide (0 ≤ z ≤ u64_max) then mret z else lift Panic.

(** [&bytes[..n]]: a range past the end is a panic. *)
Definition slice_to {St} (n : Z) (bytes : list byte) : M St StorageError (list byte) :=
  if bool_decide (len bytes < n) then lift Panic else mret (take (Z.to_nat n) bytes).

(** [bytes[..data.len()].copy_from_slice(data)]. *)
Definition copy_to_front {St} (bytes data : list byte) : M St StorageError (list byte) :=
  if bool_decide (len bytes < len data) then lift Panic else mret (splice bytes 0 data).

(** The ranges of the header are constants within its [[u8; HEADER_SIZE]]. *)
Section store.
Context {D : Type} `{!BlockDevice D}.

Definition read_slot (slot slot_blocks : Z) :
    M D StorageError (option DecodedSnapshot) :=
  slot_start ← arith_u64 (slot * slot_blocks);
  header ← read_blocks slot_start (replicate (Z.to_nat HEADER_SIZE) x00);
  if forallb (λ b, bool_decide (b = x00)) header then mret None
  else if negb (bool_decide (take (length MAGIC) header = MAGIC)) then mret None
  else
    version ← lift (read_u32 header 8);
    if negb (bool_decide (version = FORMAT_VERSION)) then throw (UnsupportedVersion version)
    else
      generation ← lift (read_u64 header 16);
      payload_len ← lift (read_u64 header 24);
      payload_len ← lift (ok_or CorruptSnapshot (try_from usize_max payload_len));
      expected_checksum ← lift (read_u64 header 32);
      let payload_blocks := div_ceil payload_len BLOCK_SIZE in
      blocks_left ← arith_u64 (slot_blocks - 1);
      available_blocks ← lift (ok_or CorruptSnapshot (try_from usize_max blocks_left));
      if bool_decide (available_blocks < payload_blocks) then mret None
      else
        padded ← block_buffer payload_blocks;
        padded ← (if negb (bool_decide (padded = [])) then
                    first ← arith_u64 (slot_start + 1); read_blocks first padded
                  else mret padded);
        payload ← slice_to payload_len padded;
        if negb (bool_decide (checksum payload = expected_checksum)) then mret None
        else
          tree ← lift (decode_tree payload);
          mret (Some (mk_snapshot generation tree)).

Record SnapshotStore := mk_store {
  st_device : D;
  st_slot_blocks : Z;
  st_active_slot : option Z;
  st_generation : Z }.

(** Which of the two slots is the current one. *)
Definition select_slot (first second : option DecodedSnapshot) :
    option (Z * DecodedSnapshot) :=
  match first, second with
  | Some left_, Some right_ =>
      if bool_decide (snap_generation left_ < snap_generation right_)
      then Some (1, right_) else Some (0, left_)
  | Some snapshot, None => Some (0, snapshot)
  | None, Some snapshot => Some (1, snapshot)
  | None, None => None
  end.

Definition store_open (device : D) : res StorageError (SnapshotStore * option FileTree) :=
  let slot_blocks := block_count device / 2 in
  if bool_decide (slot_blocks < 2) then Err DeviceTooSmall
  else
    match (first ← read_slot 0 slot_blocks;
           second ← read_slot 1 slot_blocks;
           mret (select_slot first second)) device with
    | (Ok (Some (slot, snapshot)), device) =>
        Ok (mk_store device slot_blocks (Some slot) (snap_generation snapshot),
            Some (snap_tree snapshot))
    | (Ok None, device) => Ok (mk_store device slot_blocks None 0, None)
    | (Err e, _) => Err e
    | (Panic, _) => Panic
    end.

Definition on_device {A} (m : M D StorageError A) : M SnapshotStore StorageError A :=
  zoom st_device (λ d s, mk_store d (st_slot_blocks s) (st_active_slot s) (st_generation s)) m.

Definition save (tree : FileTree) : M SnapshotStore StorageError () :=
  payload ← lift (encode_tree tree);
  let payload_blocks := div_ceil (len payload) BLOCK_SIZE in
  self ← gets id;
  blocks_left ← arith_u64 (st_slot_blocks self - 1);
  available_blocks ← lift (ok_or SnapshotTooLarge (try_from usize_max blocks_left));
  if bool_decide (available_blocks < payload_blocks) then throw SnapshotTooLarge
  else
    target_slot ← (match st_active_slot self with
                   | Some slot => arith_u64 (1 - slot)
                   | None => mret 0
                   end);
    slot_start ← arith_u64 (target_slot * st_slot_blocks self);
    buffer ← block_buffer payload_blocks;
    padded ← copy_to_front buffer payload;
    (if negb (bool_decide (padded = [])) then
       first ← arith_u64 (slot_start + 1); on_device (write_blocks first padded)
     else mret ());;
    on_device flush;;
    let generation := saturating_add64 (st_generation self) 1 in
    let header := encode_header generation (len payload) (checksum payload) in
    on_device (write_blocks slot_start header);;
    on_device flush;;
    modify (λ s, mk_store (st_device s) (st_slot_blocks s) (Some target_slot) generation).
End store.
Arguments SnapshotStore : clear implicits.

(** ** The in-memory device of the crate's tests *)
Definition MemoryDevice : Type := list byte.
Definition memory_new (blocks : nat) : MemoryDevice :=
  replicate (blocks * Z.to_nat BLOCK_SIZE) x00.

#[export] Instance MemoryDevice_BlockDevice : BlockDevice MemoryDevice := {|
  block_count d := len d / BLOCK_SIZE;
  read_blocks first output := λ d,
    let start := first * BLOCK_SIZE in
    if bool_decide (len d < start + len output) then (Panic, d)
    else (Ok (take (length output) (drop (Z.to_nat start) d)), d);
  write_blocks first data := λ d,
    let start := first * BLOCK_SIZE in
    if bool_decide (len d < start + len data) then (Panic, d)
    else (Ok (), splice d (Z.to_nat start) data);
  flush := mret () |}.

Definition example_tree (text : str) : FileTree :=
  mk_tree {["user/saves/test" := text]} {["user/saves"]}.

Example reopen_test :
  match store_open (memory_new 64) with
  | Ok (st, None) =>
      match (save (example_tree "first");; save (example_tree "second")) st with
      | (Ok _, st) => match store_open (st_device st) with
                      | Ok (_, t) => t | _ => None end
      | _ => None
      end
  | _ => None
  end = Some (example_tree "second").
Proof. by_vm. Qed.

(** ** The format *)
Definition string_bytes (value : str) : list byte := to_le_bytes 4 (len value) ++ value.
Definition file_bytes (entry : str * list byte) : list byte :=
  string_bytes entry.1 ++ to_le_bytes 8 (len entry.2) ++ entry.2.
Definition tree_bytes (tree : FileTree) : list byte :=
  to_le_bytes 4 (Z.of_nat (size (directories tree)))
  ++ concat (string_bytes <$> btree_set_iter (directories tree))
  ++ to_le_bytes 4 (Z.of_nat (size (files tree)))
  ++ concat (file_bytes <$> btree_iter (files tree)).

(** The limits of the format. *)
Definition path_fits (value : str) : Prop := len value ≤ MAX_PATH_LEN.
Definition tree_fits (tree : FileTree) : Prop :=
  Z.of_nat (size (directories tree)) ≤ MAX_ENTRY_COUNT
  ∧ Forall path_fits (btree_set_iter (directories tree))
  ∧ Z.of_nat (size (files tree)) ≤ MAX_ENTRY_COUNT
  ∧ Forall (λ e : str * list byte, path_fits e.1 ∧ len e.2 ≤ u64_max) (btree_iter (files tree)).

(** What every Rust value satisfies: a [String] is UTF-8. *)
Definition tree_utf8 (tree : FileTree) : Prop :=
  (∀ path, path ∈ directories tree → valid_utf8 path)
  ∧ (∀ path, is_Some (files tree !! path) → valid_utf8 path).

Lemma extend_ok bytes out u out' :
  extend bytes out = (Ok u, out') → out' = out ++ bytes.
Proof. by intros [= _ <-]. Qed.

Lemma write_count_ok count out u out' :
  0 ≤ count → write_count count out = (Ok u, out') →
  out' = out ++ to_le_bytes 4 count ∧ count ≤ MAX_ENTRY_COUNT.
Proof.
  unfold write_count. intros Hc H. case_bool_decide as Hm; [done|]. inv_run.
  apply extend_ok in H as ->. unfold try_from in *.
  case_bool_decide; simplify_eq/=. split; [done|lia].
Qed.

Lemma write_string_ok value out u out' :
  write_string value out = (Ok u, out') →
  out' = out ++ string_bytes value ∧ path_fits value.
Proof.
  unfold write_string, path_fits. intros H. case_bool_decide as Hm; [done|]. inv_run.
  apply extend_ok in H as ->. match goal with H : extend _ _ = _ |- _ => apply extend_ok in H as -> end.
  unfold try_from in *. case_bool_decide; simplify_eq/=.
  split; [by unfold string_bytes; rewrite <-app_assoc|lia].
Qed.

Lemma write_file_ok e out u out' :
  write_file e out = (Ok u, out') →
  out' = out ++ file_bytes e ∧ path_fits e.1 ∧ len e.2 ≤ u64_max.
Proof.
  unfold write_file. intros H. inv_run. apply extend_ok in H as ->.
  match goal with H : extend _ _ = _ |- _ => apply extend_ok in H as -> end.
  match goal with H : write_string _ _ = _ |- _ => apply write_string_ok in H as [-> ?] end.
  unfold try_from in *. case_bool_decide; simplify_eq/=.
  split_and!; [by unfold file_bytes; rewrite <-!app_assoc|done|lia].
Qed.

Lemma for_each_emit {X} (f : X → M (list byte) StorageError ()) (g : X → list byte)
    (Q : X → Prop) l out u out' :
  (∀ x o v o', f x o = (Ok v, o') → o' = o ++ g x ∧ Q x) →
  for_each f l out = (Ok u, out') → out' = out ++ concat (g <$> l) ∧ Forall Q l.
Proof.
  intros Hf. revert out. induction l as [|x l IH]; intros out H; cbn [for_each] in H.
  - apply mret_ok_inv in H as [_ ->]. by rewrite app_nil_r.
  - apply bind_ok_inv in H as ([]&o1&H1&H). apply Hf in H1 as [-> ?].
    apply IH in H as [-> ?]. split; [by rewrite fmap_cons; simpl; rewrite app_assoc|].
    by constructor.
Qed.

Lemma encode_tree_ok tree payload :
  encode_tree tree = Ok payload → payload = tree_bytes tree ∧ tree_fits tree.
Proof.
  unfold encode_tree. destruct (write_tree tree []) as [[[]|e|] out] eqn:H; [|done..].
  intros [= <-]. unfold write_tree in H.
  apply bind_ok_inv in H as ([]&o1&H1&H). apply write_count_ok in H1 as [-> ?]; [|lia].
  apply bind_ok_inv in H as ([]&o2&H2&H).
  apply (for_each_emit _ string_bytes path_fits) in H2 as [-> ?]; [|apply write_string_ok].
  apply bind_ok_inv in H as ([]&o3&H3&H). apply write_count_ok in H3 as [-> ?]; [|lia].
  apply (for_each_emit _ file_bytes (λ e, path_fits e.1 ∧ len e.2 ≤ u64_max)) in H
    as [-> ?]; [|apply write_file_ok].
  split; [|done]. unfold tree_bytes. by rewrite <-!app_assoc.
Qed.

(** ** Parsers: what they consume and return *)
Section parses.
Context (input : list byte) (Hsize : len input ≤ usize_max).

Definition parses {A} (m : M Z StorageError A) (bytes : list byte) (a : A) : Prop :=
  ∀ pre post, input = pre ++ bytes ++ post → m (len pre) = (Ok a, len (pre ++ bytes)).

Lemma parses_ret {A} (a : A) : parses (mret a) [] a.
Proof. intros pre post _. by rewrite app_nil_r. Qed.

Lemma parses_bind {A B} (m : M Z StorageError A) (k : A → M Z StorageError B) b1 b2 a b :
  parses m b1 a → parses (k a) b2 b → parses (m ≫= k) (b1 ++ b2) b.
Proof.
  intros Hm Hk pre post H. rewrite bind_run, (Hm pre (b2 ++ post)).
  - rewrite (Hk (pre ++ b1) post) by (by rewrite H, <-!app_assoc).
    by rewrite <-app_assoc.
  - by rewrite H, <-app_assoc.
Qed.

(** The same for a parser that must reach the end of the input. *)
Definition parses_end {A} (m : M Z StorageError A) (bytes : list byte) (a : A) : Prop :=
  ∀ pre, input = pre ++ bytes → (m (len pre)).1 = Ok a.

Lemma parses_bind_end {A B} (m : M Z StorageError A) (k : A → M Z StorageError B)
    b1 b2 a b :
  parses m b1 a → parses_end (k a) b2 b → parses_end (m ≫= k) (b1 ++ b2) b.
Proof.
  intros Hm Hk pre H. rewrite bind_run, (Hm pre b2) by done.
  apply Hk. by rewrite H, <-app_assoc.
Qed.

Lemma parses_lift {A B} (r : res StorageError A) (k : A → M Z StorageError B) bytes a b :
  r = Ok a → parses (k a) bytes b → parses (lift r ≫= k) bytes b.
Proof. intros -> Hk pre post H. rewrite bind_lift_ok. by apply Hk with post. Qed.

Lemma parses_take bytes : parses (cur_take input (len bytes)) bytes bytes.
Proof.
  intros pre post H. unfold cur_take.
  assert (len input = len pre + len bytes + len post) by (rewrite H, !len_app; lia).
  pose proof (len_nonneg post).
  rewrite !bool_decide_false by lia. rewrite len_app. do 2 f_equal.
  unfold len. rewrite !Nat2Z.id, H, drop_app_length. apply take_app_length.
Qed.

Lemma parses_u32 z : 0 ≤ z ≤ u32_max → parses (take_u32 input) (to_le_bytes 4 z) z.
Proof.
  intros Hz. unfold take_u32. rewrite <-(app_nil_r (to_le_bytes 4 z)).
  eapply parses_bind; [|].
  - replace 4 with (len (to_le_bytes 4 z)) by (unfold len; by rewrite length_to_le_bytes).
    apply parses_take.
  - rewrite from_to_le_bytes by (unfold u32_max in Hz; simpl; lia). apply parses_ret.
Qed.

Lemma parses_u64 z : is_u64 z → parses (take_u64 input) (to_le_bytes 8 z) z.
Proof.
  intros Hz. unfold take_u64. rewrite <-(app_nil_r (to_le_bytes 8 z)).
  eapply parses_bind; [|].
  - replace 8 with (len (to_le_bytes 8 z)) by (unfold len; by rewrite length_to_le_bytes).
    apply parses_take.
  - rewrite from_to_le_bytes by (unfold is_u64, u64_max in Hz; simpl; lia). apply parses_ret.
Qed.


Lemma parses_count z :
  0 ≤ z ≤ MAX_ENTRY_COUNT → parses (read_count input) (to_le_bytes 4 z) z.
Proof.
  intros Hz. unfold MAX_ENTRY_COUNT in Hz. unfold read_count.
  rewrite <-(app_nil_r (to_le_bytes 4 z)).
  eapply parses_bind; [apply parses_u32; unfold u32_max; lia|].
  eapply parses_lift; [by rewrite try_from_ok by (unfold usize_max, u64_max; lia)|].
  rewrite bool_decide_false by (unfold MAX_ENTRY_COUNT; lia). apply parses_ret.
Qed.

Lemma parses_string s :
  path_fits s → valid_utf8 s → parses (read_string input) (string_bytes s) s.
Proof.
  unfold path_fits, MAX_PATH_LEN. intros Hl Hu. pose proof (len_nonneg s).
  unfold read_string, string_bytes.
  eapply parses_bind; [apply parses_u32; unfold u32_max; lia|].
  eapply parses_lift; [by rewrite try_from_ok by (unfold usize_max, u64_max; lia)|].
  rewrite bool_decide_false by (unfold MAX_PATH_LEN; lia).
  rewrite <-(app_nil_r s) at 2. eapply parses_bind; [apply parses_take|].
  intros pre post H'. unfold lift. rewrite from_utf8_valid by done. by rewrite app_nil_r.
Qed.

Lemma parses_directories l ds :
  Forall path_fits l → Forall (λ s, valid_utf8 s) l →
  parses (read_directories input (length l) ds) (concat (string_bytes <$> l))
    (list_to_set l ∪ ds).
Proof.
  intros Hf. revert ds. induction Hf as [|s l Hs Hf IH]; intros ds Hu.
  - cbn. replace (∅ ∪ ds) with ds by (apply set_eq; intros x; rewrite elem_of_union, elem_of_empty; tauto).
    apply parses_ret.
  - apply Forall_cons in Hu as [??]. rewrite fmap_cons. cbn [concat length read_directories].
    eapply parses_bind; [by apply parses_string|].
    replace (list_to_set (s :: l) ∪ ds) with (list_to_set l ∪ ({[s]} ∪ ds) : gset str).
    + by apply IH.
    + rewrite list_to_set_cons. apply set_eq. intros x. rewrite !elem_of_union. tauto.
Qed.

Lemma parses_file e :
  path_fits e.1 → valid_utf8 e.1 → len e.2 ≤ u64_max →
  parses (read_file input) (file_bytes e) e.
Proof.
  intros Hp Hu Hl. pose proof (len_nonneg e.2). unfold read_file, file_bytes.
  eapply parses_bind; [by apply parses_string|].
  eapply parses_bind; [by apply parses_u64|].
  eapply parses_lift; [by rewrite try_from_ok by (unfold usize_max; lia)|].
  rewrite <-(app_nil_r e.2) at 2. eapply parses_bind; [apply parses_take|].
  rewrite <-surjective_pairing. apply parses_ret.
Qed.

Lemma parses_files l fs :
  Forall (λ e : str * list byte, path_fits e.1 ∧ len e.2 ≤ u64_max) l →
  Forall (λ e : str * list byte, valid_utf8 e.1) l →
  parses (read_files input (length l) fs) (concat (file_bytes <$> l))
    (foldl (λ m e, <[e.1 := e.2]> m) fs l).
Proof.
  intros Hf. revert fs. induction Hf as [|e l [??] Hf IH]; intros fs Hu; [apply parses_ret|].
  apply Forall_cons in Hu as [??]. rewrite fmap_cons. cbn [concat length read_files foldl].
  eapply parses_bind; [by apply parses_file|]. by apply IH.
Qed.
End parses.

Lemma foldl_insert_map {V} (l : list (str * V)) (m : gmap str V) :
  foldl (λ m e, <[e.1 := e.2]> m) m l = list_to_map (reverse l) ∪ m.
Proof.
  revert m. induction l as [|[k v] l IH]; intros m; simpl.
  - by rewrite left_id_L by apply _.
  - rewrite IH, reverse_cons, list_to_map_app. cbn. rewrite <-(assoc_L (∪)). f_equal.
    by rewrite insert_empty, insert_union_singleton_l.
Qed.

Lemma foldl_insert_btree {V} (m : gmap str V) :
  foldl (λ m e, <[e.1 := e.2]> m) ∅ (btree_iter m) = m.
Proof.
  rewrite foldl_insert_map, (right_id_L ∅ (∪)).
  rewrite <-(list_to_map_proper (btree_iter m)).
  - apply list_to_map_btree_iter.
  - apply btree_iter_nodup.
  - symmetry. apply reverse_Permutation.
Qed.

Lemma decode_tree_bytes tree :
  tree_utf8 tree → tree_fits tree → len (tree_bytes tree) ≤ usize_max →
  decode_tree (tree_bytes tree) = Ok tree.
Proof.
  intros [Hud Huf] (Hdc&Hdf&Hfc&Hff) Hsize. unfold decode_tree.
  assert (parses_end (tree_bytes tree) (read_tree (tree_bytes tree)) (tree_bytes tree) tree)
    as Hp; [|by apply (Hp [])].
  unfold read_tree. unfold tree_bytes at 7.
  eapply parses_bind_end; [apply parses_count; [exact Hsize|lia]|].
  eapply parses_bind_end.
  { rewrite Nat2Z.id, <-(length_btree_set_iter (directories tree)).
    apply parses_directories; [exact Hsize|done|].
    apply Forall_forall. intros s Hs%elem_of_btree_set_iter. by apply Hud. }
  eapply parses_bind_end; [apply parses_count; [exact Hsize|lia]|].
  rewrite <-(app_nil_r (concat (file_bytes <$> _))). eapply parses_bind_end.
  { rewrite Nat2Z.id, <-(length_btree_iter (files tree)).
    apply parses_files; [exact Hsize|done|].
    apply Forall_forall. intros [k d] Hs%elem_of_btree_iter. apply Huf. by eexists. }
  intros pre Hpre. rewrite app_nil_r in Hpre. rewrite bind_run. cbn [gets fst].
  unfold gets. rewrite bool_decide_true by (by rewrite Hpre). cbn.
  rewrite foldl_insert_btree. f_equal. destruct tree as [fs ds]. f_equal. simpl.
  apply set_eq. intros x. rewrite elem_of_union, elem_of_list_to_set, elem_of_btree_set_iter.
  rewrite elem_of_empty. tauto.
Qed.

(** C13. A tree that encodes decodes to itself: every path and every byte of every file
    survives, for trees whose paths are UTF-8 (as Rust strings are) and whose encoding
    fits in memory. *)
Theorem tree_roundtrip tree payload :
  tree_utf8 tree → len payload ≤ usize_max →
  encode_tree tree = Ok payload → decode_tree payload = Ok tree.
Proof.
  intros Hu Hl [-> Hf]%encode_tree_ok. by apply decode_tree_bytes.
Qed.

Lemma tree_roundtrip_witness :
  let payload := tree_bytes (example_tree "text") in
  tree_utf8 (example_tree "text") ∧ encode_tree (example_tree "text") = Ok payload ∧
  decode_tree payload = Ok (example_tree "text").
Proof.
  intros payload. assert (tree_utf8 (example_tree "text")) as Hu.
  { split; simpl.
    - intros path ->%elem_of_singleton. by vm_compute.
    - intros path [d [<- _]%lookup_singleton_Some]. by vm_compute. }
  split_and!; [done|by_vm|]. apply (tree_roundtrip (example_tree "text") payload);
    [done|by vm_compute|by_vm].
Defined.

(** ** Decoding never panics *)
Lemma ok_or_no_panic {E A} (e : E) (o : option A) : ok_or e o ≠ Panic.
Proof. by destruct o. Qed.

Definition total {St A} (m : M St StorageError A) : Prop := ∀ c, (m c).1 ≠ Panic.

Lemma total_bind {St A B} (m : M St StorageError A) (k : A → M St StorageError B) :
  total m → (∀ a, total (k a)) → total (m ≫= k).
Proof.
  intros Hm Hk c. rewrite bind_run. specialize (Hm c).
  destruct (m c) as [[a|e|] c']; [apply Hk|done..].
Qed.

Lemma total_for_each {St X} (f : X → M St StorageError ()) l :
  (∀ x, total (f x)) → total (for_each f l).
Proof.
  intros Hf. induction l as [|x l IH]; [by intros c|].
  apply total_bind; [apply Hf|intros; apply IH].
Qed.

Lemma encode_tree_no_panic tree : encode_tree tree ≠ Panic.
Proof.
  assert (∀ n, total (write_count n)) as Hc.
  { intros n. unfold write_count. case_bool_decide; [by intros c|].
    apply total_bind; [intros c; apply ok_or_no_panic|by intros a c]. }
  assert (∀ s, total (write_string s)) as Hs.
  { intros s. unfold write_string. case_bool_decide; [by intros c|].
    apply total_bind; [intros c; apply ok_or_no_panic|intros a].
    by apply total_bind; intros. }
  assert (total (write_tree tree)) as Ht.
  { unfold write_tree. repeat (apply total_bind; [apply Hc || by apply total_for_each|intros ?]).
    apply total_for_each. intros e. unfold write_file.
    apply total_bind; [apply Hs|intros ?].
    apply total_bind; [intros c; apply ok_or_no_panic|intros ?].
    by apply total_bind; intros. }
  unfold encode_tree. specialize (Ht []). by destruct (write_tree tree []) as [[]].
Qed.

Section total.
Context (input : list byte).
Lemma total_take n : total (cur_take input n).
Proof. intros c. unfold cur_take. by repeat case_bool_decide. Qed.

Ltac total := repeat first
  [ apply total_bind; [|intros ?] | apply total_take | by intros c
  | intros c; apply ok_or_no_panic | case_bool_decide ].

Lemma total_string : total (read_string input).
Proof. unfold read_string, take_u32. total. Qed.
Lemma total_count : total (read_count input).
Proof. unfold read_count, take_u32. total. Qed.
Lemma total_directories n ds : total (read_directories input n ds).
Proof.
  revert ds. induction n as [|n IH]; intros ds; [by intros c|].
  apply total_bind; [apply total_string|intros; apply IH].
Qed.
Lemma total_files n fs : total (read_files input n fs).
Proof.
  revert fs. induction n as [|n IH]; intros fs; [by intros c|].
  apply total_bind; [|intros; apply IH].
  unfold read_file. apply total_bind; [apply total_string|intros ?].
  unfold take_u64. total.
Qed.

Lemma decode_tree_no_panic : decode_tree input ≠ Panic.
Proof.
  unfold decode_tree.
  assert (total (read_tree input)) as Ht; [|apply Ht]. unfold read_tree.
  apply total_bind; [apply total_count|intros ?].
  apply total_bind; [apply total_directories|intros ?].
  apply total_bind; [apply total_count|intros ?].
  apply total_bind; [apply total_files|intros ?]. total.
Qed.
End total.

(** ** What a slot holds *)
Definition slot_bytes (c : list byte) (slot slot_blocks : Z) : list byte :=
  take (Z.to_nat (slot_blocks * BLOCK_SIZE))
    (drop (Z.to_nat (slot * slot_blocks * BLOCK_SIZE)) c).

(** The snapshot in the bytes of a slot, [None] when there is none that checks. *)
Definition parse_slot (slot_blocks : Z) (bytes : list byte) :
    res StorageError (option DecodedSnapshot) :=
  let header := take (Z.to_nat HEADER_SIZE) bytes in
  if forallb (λ b, bool_decide (b = x00)) header then Ok None
  else if negb (bool_decide (take (length MAGIC) header = MAGIC)) then Ok None
  else
    version ← read_u32 header 8;
    if negb (bool_decide (version = FORMAT_VERSION)) then Err (UnsupportedVersion version)
    else
      generation ← read_u64 header 16;
      payload_len ← read_u64 header 24;
      expected ← read_u64 header 32;
      if bool_decide (slot_blocks - 1 < div_ceil payload_len BLOCK_SIZE) then Ok None
      else
        let payload := take (Z.to_nat payload_len) (drop (Z.to_nat HEADER_SIZE) bytes) in
        if negb (bool_decide (checksum payload = expected)) then Ok None
        else tree ← decode_tree payload; Ok (Some (mk_snapshot generation tree)).

(** Buffers of whole blocks, as every device accepts. *)
Definition whole_blocks (buffer : list byte) : Prop :=
  buffer ≠ [] ∧ len buffer mod BLOCK_SIZE = 0.

(** A block device that keeps what is written: reads return the content, a write
    changes the written blocks only (all of them when it succeeds, any bytes of them
    when it fails, but a single block never partly), a flush changes nothing. *)
Class ReliableDevice (D : Type) `{!BlockDevice D} : Type := {
  dev_ok : D → Prop;
  content : D → list byte;
  law_count d : dev_ok d →
    0 ≤ block_count d ∧ len (content d) = block_count d * BLOCK_SIZE;
  law_block_read d first out :
    dev_ok d → 0 ≤ first → whole_blocks out → first * BLOCK_SIZE + len out ≤ len (content d) →
    ∃ d', read_blocks first out d
            = (Ok (take (length out) (drop (Z.to_nat (first * BLOCK_SIZE)) (content d))), d')
          ∧ dev_ok d' ∧ content d' = content d;
  law_block_write d first data r d' :
    dev_ok d → 0 ≤ first → whole_blocks data → first * BLOCK_SIZE + len data ≤ len (content d) →
    write_blocks first data d = (r, d') →
    dev_ok d' ∧ r ≠ Panic ∧
    (r = Ok () → content d' = splice (content d) (Z.to_nat (first * BLOCK_SIZE)) data) ∧
    ∃ torn, length torn = length data
            ∧ content d' = splice (content d) (Z.to_nat (first * BLOCK_SIZE)) torn;
  (** One block is written as a whole or not at all. *)
  law_sector d first data r d' :
    dev_ok d → 0 ≤ first → len data = BLOCK_SIZE →
    first * BLOCK_SIZE + len data ≤ len (content d) →
    write_blocks first data d = (r, d') →
    content d' = content d ∨
    content d' = splice (content d) (Z.to_nat (first * BLOCK_SIZE)) data;
  law_flush d r d' :
    dev_ok d → flush d = (r, d') → dev_ok d' ∧ r ≠ Panic ∧ content d' = content d }.

#[export] Program Instance MemoryDevice_Reliable : ReliableDevice MemoryDevice := {|
  dev_ok d := len d mod BLOCK_SIZE = 0;
  content d := d |}.
Next Obligation.
  intros d Hd. simpl. pose proof (len_nonneg d). unfold BLOCK_SIZE in *.
  pose proof (Z.div_mod (len d) 512). split; [apply Z.div_pos; lia|lia].
Qed.
Next Obligation.
  intros d first out Hd Hf _ Hl. exists d. simpl in *. by rewrite bool_decide_false by lia.
Qed.
Next Obligation.
  intros d first data r d' Hd Hf _ Hl. simpl in *. rewrite bool_decide_false by lia.
  intros [= <- <-]. split_and!; [|done..|by exists data].
  unfold len in *. rewrite length_splice; [done|]. unfold BLOCK_SIZE in *. lia.
Qed.
Next Obligation.
  intros d first data r d' Hd Hf _ Hl. simpl in *. rewrite bool_decide_false by lia.
  intros [= <- <-]. by right.
Qed.
Next Obligation. by intros d r d' Hd [= <- <-]. Qed.

Lemma read_u32_no_panic h o : read_u32 h o ≠ Panic.
Proof. apply (total_bind (cur_take h 4)); [apply total_take|by intros a c]. Qed.
Lemma read_u64_range h o z : read_u64 h o = Ok z → is_u64 z.
Proof.
  unfold read_u64, take_u64, cur_take. rewrite bind_run.
  case_bool_decide; [done|]. case_bool_decide; [done|]. cbn. intros [= <-].
  pose proof (from_le_bytes_range (take (Z.to_nat 8) (drop (Z.to_nat o) h))) as Hr.
  rewrite length_take in Hr. unfold is_u64, u64_max.
  assert (256 ^ Z.of_nat (Z.to_nat 8 `min` length (drop (Z.to_nat o) h)) ≤ 256 ^ 8)
    by (apply Z.pow_le_mono_r; lia). simpl in *. lia.
Qed.

(** ** Reading a slot *)
Lemma take_take_drop {A} (l : list A) n k off :
  (n ≤ k)%nat → take n (drop off l) = take n (take k (drop off l)).
Proof. intros. rewrite take_take. f_equal. lia. Qed.

Lemma drop_slot {A} (l : list A) n k off m :
  (n + m ≤ k)%nat → take n (drop (off + m) l) = take n (drop m (take k (drop off l))).
Proof.
  intros. rewrite skipn_firstn_comm, take_take, drop_drop. f_equal. lia.
Qed.

(** Buffers of the device: memory can hold a slot. *)
Definition slot_fits (slot_blocks : Z) : Prop :=
  2 ≤ slot_blocks ∧ slot_blocks * BLOCK_SIZE ≤ 9223372036854775807.

Lemma arith_bind {St A} z (k : Z → M St StorageError A) s :
  0 ≤ z ≤ u64_max → (arith_u64 z ≫= k) s = k z s.
Proof. intros. unfold arith_u64. by rewrite bool_decide_true. Qed.

Lemma slice_bind {St A} n bytes (k : list byte → M St StorageError A) s :
  n ≤ len bytes → (slice_to n bytes ≫= k) s = k (take (Z.to_nat n) bytes) s.
Proof. intros. unfold slice_to. by rewrite bool_decide_false by lia. Qed.

Lemma copy_bind {St A} bytes data (k : list byte → M St StorageError A) s :
  len data ≤ len bytes → (copy_to_front bytes data ≫= k) s = k (splice bytes 0 data) s.
Proof. intros. unfold copy_to_front. by rewrite bool_decide_false by lia. Qed.

(** A guarded address in front of a device call that may be skipped. *)
Lemma arith_if {St A} (b : bool) z (k : Z → M St StorageError A) m s :
  0 ≤ z ≤ u64_max → (if b then arith_u64 z ≫= k else m) s = (if b then k z else m) s.
Proof. intros. destruct b; [by apply arith_bind|done]. Qed.

Section reading.
Context {D : Type} `{BD : !BlockDevice D} `{RD : !ReliableDevice D}.

Lemma buffer_ok {St} blocks (s : St) :
  blocks * BLOCK_SIZE ≤ 9223372036854775807 →
  block_buffer blocks s = (Ok (replicate (Z.to_nat (blocks * BLOCK_SIZE)) x00), s).
Proof. intros H. unfold block_buffer. by rewrite bool_decide_false by lia. Qed.

(** The payload part: an empty buffer is not read. *)
Lemma read_payload d first n :
  dev_ok d → 0 ≤ first → 0 ≤ n → n mod BLOCK_SIZE = 0 → first * BLOCK_SIZE + n ≤ len (content d) →
  let padded := replicate (Z.to_nat n) x00 in
  ∃ d', (if negb (bool_decide (padded = [])) then read_blocks first padded else mret padded) d
          = (Ok (take (Z.to_nat n) (drop (Z.to_nat (first * BLOCK_SIZE)) (content d))), d')
        ∧ dev_ok d' ∧ content d' = content d.
Proof.
  intros Hok Hf Hn Hm Hl padded. case_bool_decide as Hp; cbn [negb].
  - assert (Z.to_nat n = 0%nat) as -> by (subst padded; by destruct (Z.to_nat n)).
    exists d. rewrite Hp. done.
  - assert (len padded = n) as Hpl
      by (subst padded; unfold len; rewrite length_replicate; lia).
    destruct (law_block_read d first padded) as (d'&Hr&?&?); [done..| | |].
    + by split; [|rewrite Hpl].
    + by rewrite Hpl.
    + exists d'. rewrite Hr. subst padded. by rewrite length_replicate.
Qed.

(** The blocks read after the header hold the payload of the slot. *)
Lemma read_slot_payload d slot slot_blocks plen :
  dev_ok d → 0 ≤ slot → 0 ≤ plen → slot_fits slot_blocks →
  (slot + 1) * slot_blocks * BLOCK_SIZE ≤ len (content d) →
  div_ceil plen BLOCK_SIZE ≤ slot_blocks - 1 →
  let padded := replicate (Z.to_nat (div_ceil plen BLOCK_SIZE * BLOCK_SIZE)) x00 in
  ∃ d' b, (if negb (bool_decide (padded = []))
           then read_blocks (slot * slot_blocks + 1) padded else mret padded) d = (Ok b, d')
    ∧ dev_ok d' ∧ content d' = content d ∧ plen ≤ len b
    ∧ take (Z.to_nat plen) b
      = take (Z.to_nat plen) (drop 512 (slot_bytes (content d) slot slot_blocks)).
Proof.
  intros Hok Hs Hp [Hsb Hmem] Hl Hav.
  pose proof (div_ceil_bound plen BLOCK_SIZE eq_refl) as Hceil.
  pose proof (div_ceil_nonneg plen BLOCK_SIZE ltac:(lia) eq_refl) as Hceil0.
  destruct (read_payload d (slot * slot_blocks + 1) (div_ceil plen BLOCK_SIZE * BLOCK_SIZE))
    as (d2&Hr2&Hok2&Hc2);
    [done|lia|unfold BLOCK_SIZE in *; lia|by apply Z.mod_mul|unfold BLOCK_SIZE in *; lia|].
  exists d2. eexists. split_and!; [exact Hr2|done..| |].
  { unfold len. rewrite length_take, length_drop. rewrite Nat.min_l; [lia|].
    unfold len, BLOCK_SIZE in *. lia. }
  rewrite take_take, Nat.min_l by (unfold BLOCK_SIZE in *; lia). unfold slot_bytes.
  replace (Z.to_nat ((slot * slot_blocks + 1) * BLOCK_SIZE))
    with (Z.to_nat (slot * slot_blocks * BLOCK_SIZE) + 512)%nat by (unfold BLOCK_SIZE in *; lia).
  apply drop_slot. unfold BLOCK_SIZE in *. lia.
Qed.

Lemma read_slot_parse d slot slot_blocks :
  dev_ok d → 0 ≤ slot ≤ 1 → slot_fits slot_blocks →
  (slot + 1) * slot_blocks * BLOCK_SIZE ≤ len (content d) →
  ∃ d', read_slot slot slot_blocks d
          = (parse_slot slot_blocks (slot_bytes (content d) slot slot_blocks), d')
        ∧ dev_ok d' ∧ content d' = content d.
Proof.
  intros Hok Hs [Hsb Hmem] Hl. unfold read_slot, parse_slot, slot_bytes.
  unfold HEADER_SIZE. change (Z.to_nat BLOCK_SIZE) with 512%nat.
  set (off := Z.to_nat (slot * slot_blocks * BLOCK_SIZE)).
  set (size := Z.to_nat (slot_blocks * BLOCK_SIZE)).
  assert (512 ≤ size)%nat as Hsize by (unfold size, BLOCK_SIZE in *; lia).
  assert (0 ≤ slot * slot_blocks ∧ slot * slot_blocks + 1 ≤ u64_max) as [Hss Hss1]
    by (unfold u64_max, BLOCK_SIZE in *; nia).
  rewrite arith_bind by lia.
  destruct (law_block_read d (slot * slot_blocks) (replicate 512 x00)) as (d1&Hr&Hok1&Hc1).
  { done. } { lia. } { done. } { unfold len at 1. rewrite length_replicate. unfold BLOCK_SIZE in *. lia. }
  rewrite length_replicate in Hr. fold off in Hr.
  rewrite (take_take_drop _ 512 size) in Hr by done.
  rewrite bind_run, Hr. set (header := take 512 (take size (drop off (content d)))) in *.
  destruct (forallb _ header); [by exists d1|].
  destruct (negb (bool_decide (take (length MAGIC) header = MAGIC))); [by exists d1|].
  destruct (read_u32 header 8) as [version|e|]; [|by exists d1..].
  rewrite bind_lift_ok. cbn [mbind res_bind].
  destruct (negb (bool_decide (version = FORMAT_VERSION))); [by exists d1|].
  destruct (read_u64 header 16) as [generation|e|]; [|by exists d1..].
  rewrite bind_lift_ok. cbn [mbind res_bind].
  destruct (read_u64 header 24) as [plen|e|] eqn:Hplen; [|by exists d1..].
  apply read_u64_range in Hplen. unfold is_u64 in Hplen.
  rewrite bind_lift_ok, (try_from_ok usize_max plen) by (unfold usize_max; lia). cbn [ok_or].
  rewrite bind_lift_ok. cbn [mbind res_bind].
  destruct (read_u64 header 32) as [expected|e|]; [|by exists d1..].
  rewrite bind_lift_ok. cbn [mbind res_bind].
  rewrite arith_bind by (unfold u64_max, BLOCK_SIZE in *; lia).
  rewrite try_from_ok by (unfold usize_max, u64_max, BLOCK_SIZE in *; lia). cbn [ok_or].
  rewrite bind_lift_ok. case_bool_decide as Hav; [by exists d1|].
  assert (div_ceil plen BLOCK_SIZE * BLOCK_SIZE ≤ (slot_blocks - 1) * BLOCK_SIZE)
    by (unfold BLOCK_SIZE in *; lia).
  rewrite bind_run, buffer_ok by (unfold BLOCK_SIZE in *; lia).
  destruct (read_slot_payload d1 slot slot_blocks plen) as (d2&b&Hr2&Hok2&Hc2&Hbl&Hb);
    [done|lia|lia|done|by rewrite Hc1|lia|].
  rewrite bind_run, arith_if, Hr2, slice_bind, Hb, Hc1 by lia. unfold slot_bytes. fold off size.
  destruct (negb (bool_decide (checksum _ = expected)));
    [exists d2; split_and!; [done..|congruence]|].
  destruct (decode_tree _) as [tree|e|]; exists d2; (split_and!; [done..|congruence]).
Qed.

(** Opening, as a function of the content. *)
Definition view (c : list byte) (slot_blocks : Z) :
    res StorageError (option (Z * DecodedSnapshot)) :=
  first ← parse_slot slot_blocks (slot_bytes c 0 slot_blocks);
  second ← parse_slot slot_blocks (slot_bytes c 1 slot_blocks);
  Ok (select_slot first second).

Lemma open_view d :
  dev_ok d → let slot_blocks := block_count d / 2 in slot_fits slot_blocks →
  ∃ d', dev_ok d' ∧ content d' = content d ∧
    store_open d =
      match view (content d) slot_blocks with
      | Ok (Some (slot, snap)) =>
          Ok (mk_store d' slot_blocks (Some slot) (snap_generation snap),
              Some (snap_tree snap))
      | Ok None => Ok (mk_store d' slot_blocks None 0, None)
      | Err e => Err e
      | Panic => Panic
      end.
Proof.
  intros Hok sb Hfit. destruct (law_count d Hok) as [Hn Hlen].
  assert (2 * sb ≤ block_count d) as Hsb
    by (subst sb; pose proof (Z.div_mod (block_count d) 2); pose proof
        (Z.mod_pos_bound (block_count d) 2); lia).
  unfold store_open. fold sb. rewrite bool_decide_false by (destruct Hfit; lia).
  destruct (read_slot_parse d 0 sb) as (d1&Hr1&Hok1&Hc1);
    [done|lia|done| |]; [rewrite Hlen; unfold BLOCK_SIZE; lia|].
  destruct (read_slot_parse d1 1 sb) as (d2&Hr2&Hok2&Hc2);
    [done|lia|done| |]; [rewrite Hc1, Hlen; unfold BLOCK_SIZE; lia|].
  rewrite bind_run, Hr1. unfold view.
  destruct (parse_slot sb (slot_bytes (content d) 0 sb)) as [first|e|]; [|by exists d..].
  rewrite bind_run, Hr2, Hc1. cbn [mbind res_bind].
  destruct (parse_slot sb (slot_bytes (content d) 1 sb)) as [second|e|]; [|by exists d..].
  exists d2. split_and!; [done|congruence|]. cbn.
  by destruct (select_slot first second) as [[??]|].
Qed.
End reading.

(** ** Headers: written and read back *)
Lemma encode_header_eq g l k :
  encode_header g l k =
    MAGIC ++ to_le_bytes 4 FORMAT_VERSION ++ replicate 4 x00 ++ to_le_bytes 8 g
    ++ to_le_bytes 8 l ++ to_le_bytes 8 k ++ replicate 472 x00.
Proof. reflexivity. Qed.

Lemma length_encode_header g l k : length (encode_header g l k) = 512%nat.
Proof. reflexivity. Qed.

Lemma checksum_range bytes : is_u64 (checksum bytes).
Proof.
  unfold checksum. assert (∀ h, is_u64 h → is_u64 (foldl (λ hash b,
    wrap64 (Z.lxor hash (b2z b) * 1099511628211)) h bytes)) as Hf.
  { induction bytes as [|b bs IH]; intros h Hh; [done|]. apply IH.
    unfold is_u64, wrap64, u64_max. pose proof (Z.mod_pos_bound
      (Z.lxor h (b2z b) * 1099511628211) (2 ^ 64) eq_refl). lia. }
  apply Hf. unfold is_u64, u64_max. lia.
Qed.

Section headers.
Context (g l k : Z) (Hg : is_u64 g) (Hl : is_u64 l) (Hk : is_u64 k).
Notation h := (encode_header g l k).

Lemma read_field_u64 pre z post :
  is_u64 z → h = pre ++ to_le_bytes 8 z ++ post → read_u64 h (len pre) = Ok z.
Proof.
  intros Hz Hh. unfold read_u64. rewrite (parses_u64 h) with (z := z) (post := post); [done|..]; try done.
Qed.

Lemma header_fields :
  take (length MAGIC) h = MAGIC ∧ read_u32 h 8 = Ok FORMAT_VERSION
  ∧ read_u64 h 16 = Ok g ∧ read_u64 h 24 = Ok l ∧ read_u64 h 32 = Ok k.
Proof.
  split_and!; [reflexivity|by vm_compute|..].
  - by apply (read_field_u64 (MAGIC ++ to_le_bytes 4 FORMAT_VERSION ++ replicate 4 x00) g
      (to_le_bytes 8 l ++ to_le_bytes 8 k ++ replicate 472 x00)).
  - by apply (read_field_u64 (MAGIC ++ to_le_bytes 4 FORMAT_VERSION ++ replicate 4 x00
      ++ to_le_bytes 8 g) l (to_le_bytes 8 k ++ replicate 472 x00)).
  - by apply (read_field_u64 (MAGIC ++ to_le_bytes 4 FORMAT_VERSION ++ replicate 4 x00
      ++ to_le_bytes 8 g ++ to_le_bytes 8 l) k (replicate 472 x00)).
Qed.
End headers.

Lemma parse_written slot_blocks g payload rest tree :
  is_u64 g → is_u64 (len payload) → decode_tree payload = Ok tree →
  div_ceil (len payload) BLOCK_SIZE ≤ slot_blocks - 1 →
  parse_slot slot_blocks (encode_header g (len payload) (checksum payload) ++ payload ++ rest)
    = Ok (Some (mk_snapshot g tree)).
Proof.
  intros Hg Hl Hd Hs. unfold parse_slot, HEADER_SIZE.
  rewrite take_app_exact by (by rewrite length_encode_header).
  rewrite drop_app_exact by (by rewrite length_encode_header).
  destruct (header_fields g (len payload) (checksum payload)) as (Hm&Hv&Hgen&Hlen&Hck);
    [done..|apply checksum_range|].
  assert (forallb (λ b, bool_decide (b = x00))
            (encode_header g (len payload) (checksum payload)) = false) as -> by reflexivity.
  rewrite Hm, Hv, Hgen, Hlen, Hck.
  rewrite (bool_decide_true (MAGIC = MAGIC)) by done. cbn [negb mbind res_bind].
  rewrite (bool_decide_true (FORMAT_VERSION = _)) by done. cbn [negb mbind res_bind].
  rewrite bool_decide_false by lia.
  rewrite take_app_exact by (unfold len; lia).
  rewrite bool_decide_true, Hd by done. done.
Qed.

(** ** Writing a slot *)
Section writing.
Context (c : list byte) (slot_blocks : Z) (Hfit : slot_fits slot_blocks).
Context (Hlen : 2 * slot_blocks * BLOCK_SIZE ≤ len c).

Lemma slot_bytes_splice_other slot other off data :
  0 ≤ slot ≤ 1 → other = 1 - slot →
  slot * slot_blocks * BLOCK_SIZE ≤ off →
  off + len data ≤ (slot + 1) * slot_blocks * BLOCK_SIZE →
  slot_bytes (splice c (Z.to_nat off) data) other slot_blocks = slot_bytes c other slot_blocks.
Proof.
  destruct Hfit as [Hsb _]. intros Hs -> Ho Hd. unfold slot_bytes, len, BLOCK_SIZE in *.
  assert (slot = 0 ∨ slot = 1) as [->| ->] by lia.
  - apply splice_read_after; lia.
  - apply splice_read_before; lia.
Qed.

(** Payload and header in place: the slot starts with them. *)
Lemma slot_bytes_written slot header payload :
  0 ≤ slot ≤ 1 → length header = 512%nat →
  512 + len payload ≤ slot_blocks * BLOCK_SIZE →
  ∃ rest, slot_bytes
    (splice (splice c (Z.to_nat ((slot * slot_blocks + 1) * BLOCK_SIZE)) payload)
       (Z.to_nat (slot * slot_blocks * BLOCK_SIZE)) header) slot slot_blocks
    = header ++ payload ++ rest.
Proof.
  destruct Hfit as [Hsb _]. intros Hs Hh Hp. unfold slot_bytes.
  set (off := Z.to_nat (slot * slot_blocks * BLOCK_SIZE)).
  replace (Z.to_nat ((slot * slot_blocks + 1) * BLOCK_SIZE)) with (off + 512)%nat
    by (unfold off, BLOCK_SIZE; lia).
  assert (off + 512 + length payload ≤ length c)%nat as Hin.
  { unfold off, len, BLOCK_SIZE in *.
    assert (slot = 0 ∨ slot = 1) as [->| ->] by lia; lia. }
  set (c1 := splice c (off + 512) payload).
  assert (length c1 = length c) as Hc1 by (apply length_splice; lia).
  assert (drop off (splice c1 off header) = header ++ payload ++ drop (off + 512 + length payload) c)
    as ->.
  { unfold splice at 1. rewrite drop_app_exact by (rewrite length_take; lia). f_equal.
    rewrite Hh. unfold c1, splice. rewrite drop_app_exact by (rewrite length_take; lia). done. }
  exists (take (Z.to_nat (slot_blocks * BLOCK_SIZE) - 512 - length payload)
            (drop (off + 512 + length payload) c)).
  assert (512 + length payload ≤ Z.to_nat (slot_blocks * BLOCK_SIZE))%nat
    by (unfold len, BLOCK_SIZE in *; lia).
  rewrite take_app_ge by lia. f_equal. rewrite Hh.
  rewrite take_app_ge by lia. done.
Qed.
End writing.

(** ** Saving *)
Section saving.
Context {D : Type} `{BD : !BlockDevice D} `{RD : !ReliableDevice D}.
Implicit Types (st : SnapshotStore D) (t : option FileTree).

(** [current st t]: the store is what opening its device gives, and [t] is the
    tree it holds. *)
Record current st t : Prop := {
  cur_dev : dev_ok (st_device st);
  cur_blocks : st_slot_blocks st = block_count (st_device st) / 2;
  cur_fits : slot_fits (st_slot_blocks st);
  cur_view : ∃ o, view (content (st_device st)) (st_slot_blocks st) = Ok o
    ∧ st_active_slot st = fst <$> o
    ∧ st_generation st = from_option (λ x, snap_generation x.2) 0 o
    ∧ t = (λ x, snap_tree x.2) <$> o }.

Definition target_slot st : Z :=
  match st_active_slot st with Some slot => 1 - slot | None => 0 end.

(** What saving needs of a store, whatever its slots hold. *)
Record store_safe st : Prop := {
  safe_dev : dev_ok (st_device st);
  safe_blocks : st_slot_blocks st = block_count (st_device st) / 2;
  safe_fits : slot_fits (st_slot_blocks st);
  safe_target : 0 ≤ target_slot st ≤ 1 }.

Lemma safe_size st :
  store_safe st → 2 * st_slot_blocks st * BLOCK_SIZE ≤ len (content (st_device st)).
Proof.
  intros [Hdev Hsb _ _]. destruct (law_count _ Hdev) as [? ->]. rewrite Hsb.
  pose proof (Z.div_mod (block_count (st_device st)) 2).
  pose proof (Z.mod_pos_bound (block_count (st_device st)) 2). unfold BLOCK_SIZE. lia.
Qed.

Definition padding (payload : list byte) : list byte :=
  splice (replicate (Z.to_nat (div_ceil (len payload) BLOCK_SIZE * BLOCK_SIZE)) x00) 0 payload.

(** The content when both writes of a save are done. *)
Definition written_content st (payload : list byte) : list byte :=
  splice (splice (content (st_device st))
    (Z.to_nat ((target_slot st * st_slot_blocks st + 1) * BLOCK_SIZE)) (padding payload))
    (Z.to_nat (target_slot st * st_slot_blocks st * BLOCK_SIZE))
    (encode_header (saturating_add64 (st_generation st) 1) (len payload) (checksum payload)).

(** Contents in the course of a save: nothing written, the payload partly or
    wholly written, the header written too. *)
Inductive saving_content st (payload : list byte) : list byte → Prop :=
| saving_untouched : saving_content st payload (content (st_device st))
| saving_torn torn :
    length torn = length (padding payload) →
    saving_content st payload
      (splice (content (st_device st))
         (Z.to_nat ((target_slot st * st_slot_blocks st + 1) * BLOCK_SIZE)) torn)
| saving_done : saving_content st payload (written_content st payload).

Lemma padding_eq payload :
  ∃ zeros, padding payload = payload ++ zeros ∧
    len (padding payload) = div_ceil (len payload) BLOCK_SIZE * BLOCK_SIZE.
Proof.
  pose proof (div_ceil_bound (len payload) BLOCK_SIZE eq_refl).
  assert (len (padding payload) = div_ceil (len payload) BLOCK_SIZE * BLOCK_SIZE) as Hl.
  { unfold padding, len at 1. rewrite length_splice; rewrite length_replicate;
      pose proof (len_nonneg payload); unfold len in *; lia. }
  eexists. split; [|exact Hl]. unfold padding, splice. rewrite take_0. done.
Qed.

Lemma write_payload d first padded r d' :
  dev_ok d → 0 ≤ first → len padded mod BLOCK_SIZE = 0 → first * BLOCK_SIZE + len padded ≤ len (content d) →
  (if negb (bool_decide (padded = [])) then write_blocks first padded else mret ()) d = (r, d') →
  dev_ok d' ∧ r ≠ Panic ∧
  (r = Ok () → content d' = splice (content d) (Z.to_nat (first * BLOCK_SIZE)) padded) ∧
  ∃ torn, length torn = length padded
          ∧ content d' = splice (content d) (Z.to_nat (first * BLOCK_SIZE)) torn.
Proof.
  intros Hok Hf Hm Hl. case_bool_decide as Hp; cbn [negb].
  - intros [= <- <-]. subst padded.
    assert (content d = splice (content d) (Z.to_nat (first * BLOCK_SIZE)) []) as Hc.
    { unfold splice. simpl. by rewrite Nat.add_0_r, take_drop. }
    split_and!; [done..|by exists []].
  - by apply law_block_write.
Qed.

Definition set_device (d : D) st : SnapshotStore D :=
  mk_store d (st_slot_blocks st) (st_active_slot st) (st_generation st).

Lemma on_device_run {A} (m : M D StorageError A) st :
  on_device m st = let '(r, d) := m (st_device st) in (r, set_device d st).
Proof. done. Qed.

Lemma on_device_if (b : bool) (m : M D StorageError ()) st :
  (if b then on_device m else mret ()) st = on_device (if b then m else mret ()) st.
Proof. destruct b; [done|]. by destruct st. Qed.

Lemma on_device_seq {A} (m n : M D StorageError ()) (k : M (SnapshotStore D) StorageError A) st :
  (on_device m;; on_device n;; k) st = (on_device (m;; n);; k) st.
Proof.
  unfold on_device, zoom. rewrite !bind_run.
  destruct (m (st_device st)) as [[[]| |] d]; [|done..]. rewrite ?bind_run. simpl.
  by destruct (n d) as [[[]| |] d'].
Qed.

(** The payload is written and flushed. *)
Lemma write_flush_payload d first padded r d' :
  dev_ok d → 0 ≤ first → len padded mod BLOCK_SIZE = 0 → first * BLOCK_SIZE + len padded ≤ len (content d) →
  ((if negb (bool_decide (padded = [])) then write_blocks first padded else mret ());; flush) d
    = (r, d') →
  dev_ok d' ∧ r ≠ Panic ∧
  (r = Ok () → content d' = splice (content d) (Z.to_nat (first * BLOCK_SIZE)) padded) ∧
  ∃ torn, length torn = length padded
          ∧ content d' = splice (content d) (Z.to_nat (first * BLOCK_SIZE)) torn.
Proof.
  intros Hok Hf Hm Hl. rewrite bind_run.
  destruct ((if negb (bool_decide (padded = [])) then write_blocks first padded else mret ()) d)
    as [r1 d1] eqn:Hw.
  apply write_payload in Hw as (Hok1&Hnp1&Hc1&torn&Htl&Htorn); [|done..].
  destruct r1 as [[]|e|]; [| |done].
  - intros (?&?&Hc)%law_flush; [|done]. rewrite Hc. split_and!; [done..|by intros; apply Hc1|].
    by exists torn.
  - intros [= <- <-]. split_and!; [done..|by exists torn].
Qed.

(** The header block is written and flushed. *)
Lemma write_flush_header d first header r d' :
  dev_ok d → 0 ≤ first → len header = BLOCK_SIZE →
  first * BLOCK_SIZE + len header ≤ len (content d) →
  (write_blocks first header;; flush) d = (r, d') →
  let c' := splice (content d) (Z.to_nat (first * BLOCK_SIZE)) header in
  dev_ok d' ∧ r ≠ Panic ∧ (r = Ok () → content d' = c') ∧
  (content d' = content d ∨ content d' = c').
Proof.
  intros Hok Hf Hh Hl. rewrite bind_run.
  destruct (write_blocks first header d) as [r1 d1] eqn:Hw.
  pose proof (law_sector _ _ _ _ _ Hok Hf Hh Hl Hw) as Hsec.
  apply law_block_write in Hw as (Hok1&Hnp1&Hc1&_);
    [|done|done|split; [by destruct header|by rewrite Hh]|done].
  destruct r1 as [[]|e|]; [| |done].
  - intros (?&?&Hc)%law_flush; [|done]. rewrite Hc. by split_and!; [..|intros; apply Hc1|].
  - intros [= <- <-]. by split_and!.
Qed.

Section target.
Context st (Hsafe : store_safe st).

(** The outcomes of a save. *)
Inductive save_result tree : res StorageError () → SnapshotStore D → Prop :=
| save_refused e : save_result tree (Err e) st
| save_failed e payload d' :
    encode_tree tree = Ok payload →
    div_ceil (len payload) BLOCK_SIZE ≤ st_slot_blocks st - 1 →
    dev_ok d' → saving_content st payload (content d') →
    save_result tree (Err e) (set_device d' st)
| save_succeeded payload d' :
    encode_tree tree = Ok payload →
    div_ceil (len payload) BLOCK_SIZE ≤ st_slot_blocks st - 1 →
    dev_ok d' → content d' = written_content st payload →
    save_result tree (Ok ())
      (mk_store d' (st_slot_blocks st) (Some (target_slot st))
         (saturating_add64 (st_generation st) 1)).

Lemma target_bind {A} (k : Z → M (SnapshotStore D) StorageError A) s :
  ((match st_active_slot st with Some slot => arith_u64 (1 - slot) | None => mret 0 end)
     ≫= k) s = k (target_slot st) s.
Proof.
  pose proof (safe_target st Hsafe) as Ht. unfold target_slot in *.
  destruct (st_active_slot st); [|done]. apply arith_bind. unfold u64_max. lia.
Qed.

Lemma save_run tree r st' : save tree st = (r, st') → save_result tree r st'.
Proof.
  pose proof (safe_size st Hsafe) as Hsize. destruct Hsafe as [Hdev _ [Hsb Hmem] H01].
  unfold save.
  destruct (encode_tree tree) as [payload|e|] eqn:Henc;
    [|intros [= <- <-]; constructor|by apply encode_tree_no_panic in Henc].
  rewrite bind_lift_ok, bind_run. cbv beta iota zeta delta [gets id].
  rewrite arith_bind by (unfold u64_max, BLOCK_SIZE in *; lia).
  rewrite try_from_ok by (unfold usize_max, u64_max, BLOCK_SIZE in *; lia).
  cbn [ok_or]. rewrite bind_lift_ok.
  case_bool_decide as Hav; [intros [= <- <-]; constructor|].
  assert (div_ceil (len payload) BLOCK_SIZE ≤ st_slot_blocks st - 1) as Hav' by lia.
  pose proof (len_nonneg payload). destruct (padding_eq payload) as (zeros&Hpad&Hplen).
  pose proof (div_ceil_nonneg (len payload) BLOCK_SIZE ltac:(lia) eq_refl).
  rewrite target_bind, arith_bind by (unfold u64_max, BLOCK_SIZE in *; nia).
  rewrite bind_run, buffer_ok by (unfold BLOCK_SIZE in *; nia).
  rewrite copy_bind.
  2: { unfold len at 2. rewrite length_replicate.
       pose proof (div_ceil_bound (len payload) BLOCK_SIZE eq_refl). lia. }
  fold (padding payload).
  assert (0 ≤ target_slot st * st_slot_blocks st ∧
          target_slot st * st_slot_blocks st + 1 ≤ u64_max) as [_ Hf2]
    by (unfold u64_max, BLOCK_SIZE in *; nia).
  assert (0 ≤ target_slot st * st_slot_blocks st ∧
          (target_slot st * st_slot_blocks st + st_slot_blocks st) * BLOCK_SIZE
            ≤ len (content (st_device st))) as [Hf0 Hf1]
    by (unfold BLOCK_SIZE in *; nia).
  rewrite bind_run, arith_if by lia.
  rewrite on_device_if, <-(bind_run (on_device _)), on_device_seq, bind_run, on_device_run.
  destruct (mbind (M:=M D StorageError) (λ _ : (), flush) _ (st_device st)) as [r1 d1] eqn:Hw1.
  apply write_flush_payload in Hw1 as (Hok1&Hnp1&Hc1&torn&Htl&Htorn);
    [|done|lia|rewrite Hplen; by apply Z.mod_mul|rewrite Hplen; unfold BLOCK_SIZE in *; nia].
  assert (saving_content st payload (content d1)) as Hs1
    by (rewrite Htorn; by apply saving_torn).
  destruct r1 as [[]|e|]; [specialize (Hc1 eq_refl)| |done].
  2:{ intros [= <- <-]. by eapply save_failed. }
  set (header := encode_header _ _ _). assert (len header = BLOCK_SIZE) as Hhl by done.
  rewrite on_device_seq, bind_run, on_device_run.
  change (st_device (set_device d1 st)) with d1.
  destruct (mbind (M:=M D StorageError) (λ _ : (), flush) _ d1) as [r2 d2] eqn:Hw2.
  apply write_flush_header in Hw2 as (Hok2&Hnp2&Hc2&Hcs); [|done..|].
  2:{ rewrite Hhl, Hc1. unfold len in *. rewrite length_splice; unfold BLOCK_SIZE in *; nia. }
  rewrite Hc1 in Hc2, Hcs.
  destruct r2 as [[]|e|]; [specialize (Hc2 eq_refl)| |done]; intros [= <- <-].
  - by apply (save_succeeded _ payload).
  - eapply save_failed; [done..|].
    destruct Hcs as [->| ->]; [rewrite <-Hc1; exact Hs1|apply saving_done].
Qed.
End target.
End saving.

(** ** Reopening *)
Lemma parse_slot_generation slot_blocks b snap :
  parse_slot slot_blocks b = Ok (Some snap) → is_u64 (snap_generation snap).
Proof.
  unfold parse_slot. intros H. repeat case_match; simplify_eq/=; try done.
  apply res_bind_ok in H as (v&_&H).
  destruct (negb (bool_decide (v = FORMAT_VERSION))); [done|].
  apply res_bind_ok in H as (g&Hg&H). apply res_bind_ok in H as (n&_&H).
  apply res_bind_ok in H as (k&_&H). repeat case_match; simplify_eq/=; try done.
  apply res_bind_ok in H as (t&_&H). simplify_eq/=. by eapply read_u64_range.
Qed.

(** The payload a slot's header points to. *)
Definition slot_payload (b : list byte) (n : Z) : list byte :=
  take (Z.to_nat n) (drop (Z.to_nat HEADER_SIZE) b).

(** A payload that was changed under an old header still has the old checksum. *)
Definition collision (b b' : list byte) : Prop :=
  ∃ n k, read_u64 (take (Z.to_nat HEADER_SIZE) b) 24 = Ok n
    ∧ read_u64 (take (Z.to_nat HEADER_SIZE) b) 32 = Ok k
    ∧ slot_payload b' n ≠ slot_payload b n ∧ checksum (slot_payload b' n) = k.

(** Damage below the header: unchanged, dropped, or a collision. *)
Lemma parse_torn slot_blocks b b' :
  take (Z.to_nat HEADER_SIZE) b' = take (Z.to_nat HEADER_SIZE) b →
  parse_slot slot_blocks b' = parse_slot slot_blocks b
  ∨ parse_slot slot_blocks b' = Ok None ∨ collision b b'.
Proof.
  intros Hh. unfold parse_slot. rewrite Hh. set (h := take (Z.to_nat HEADER_SIZE) b).
  destruct (forallb _ h); [by left|]. destruct (negb (bool_decide (take _ h = _))); [by left|].
  destruct (read_u32 h 8) as [v|e|]; [|by left..]. cbn [mbind res_bind].
  destruct (negb (bool_decide (v = _))); [by left|].
  destruct (read_u64 h 16) as [g|e|]; [|by left..]. cbn [mbind res_bind].
  destruct (read_u64 h 24) as [n|e|] eqn:Hn; [|by left..]. cbn [mbind res_bind].
  destruct (read_u64 h 32) as [k|e|] eqn:Hk; [|by left..]. cbn [mbind res_bind].
  case_bool_decide; [by left|]. fold (slot_payload b' n). fold (slot_payload b n).
  destruct (decide (slot_payload b' n = slot_payload b n)) as [->|Hne]; [by left|].
  destruct (decide (checksum (slot_payload b' n) = k)) as [Heq|Hck].
  - right. right. by exists n, k.
  - right. left. by rewrite (bool_decide_false (checksum (slot_payload b' n) = k)).
Qed.

Section reopening.
Context {D : Type} `{BD : !BlockDevice D} `{RD : !ReliableDevice D}.
Implicit Types (st : SnapshotStore D) (t : option FileTree).

(** What [current] says about the two slots: the active one holds the tree, the
    other one nothing newer. *)
Inductive slots_hold st : option FileTree → Prop :=
| slots_empty :
    st_active_slot st = None → st_generation st = 0 →
    parse_slot (st_slot_blocks st) (slot_bytes (content (st_device st)) 0 (st_slot_blocks st))
      = Ok None →
    parse_slot (st_slot_blocks st) (slot_bytes (content (st_device st)) 1 (st_slot_blocks st))
      = Ok None →
    slots_hold st None
| slots_active slot snap other :
    0 ≤ slot ≤ 1 → st_active_slot st = Some slot →
    st_generation st = snap_generation snap →
    parse_slot (st_slot_blocks st)
      (slot_bytes (content (st_device st)) slot (st_slot_blocks st)) = Ok (Some snap) →
    parse_slot (st_slot_blocks st)
      (slot_bytes (content (st_device st)) (1 - slot) (st_slot_blocks st)) = Ok other →
    select_slot (if decide (slot = 0) then Some snap else other)
      (if decide (slot = 0) then other else Some snap) = Some (slot, snap) →
    slots_hold st (Some (snap_tree snap)).

Lemma current_slots st t : current st t → slots_hold st t.
Proof.
  intros [_ _ _ (o&Hv&Ha&Hg&->)]. unfold view in Hv.
  apply res_bind_ok in Hv as (first&H0&Hv). apply res_bind_ok in Hv as (second&H1&Hv).
  injection Hv as Hsel. destruct o as [[slot snap]|].
  - assert (slot = 0 ∧ first = Some snap ∨ slot = 1 ∧ second = Some snap)
      as [[-> ->]|[-> ->]].
    { unfold select_slot in Hsel. repeat case_match; simplify_eq/=; auto. }
    + by apply (slots_active st 0 snap second); [lia|..].
    + by apply (slots_active st 1 snap first); [lia|..].
  - unfold select_slot in Hsel.
    assert (first = None ∧ second = None) as [-> ->]
      by (repeat case_match; simplify_eq/=; auto).
    apply slots_empty; [exact Ha|exact Hg|exact H0|exact H1].
Qed.

Lemma slots_target st t : slots_hold st t → 0 ≤ target_slot st ≤ 1.
Proof. intros [Ha _ _ _|slot ?? Hs Ha _ _ _ _]; unfold target_slot; rewrite Ha; lia. Qed.

Lemma view_slots c sb slot x y :
  0 ≤ slot ≤ 1 → parse_slot sb (slot_bytes c slot sb) = Ok x →
  parse_slot sb (slot_bytes c (1 - slot) sb) = Ok y →
  view c sb = Ok (select_slot (if decide (slot = 0) then x else y)
                              (if decide (slot = 0) then y else x)).
Proof.
  intros Hs Hx Hy. unfold view. assert (slot = 0 ∨ slot = 1) as [->| ->] by lia.
  - change (1 - 0) with 1 in Hy. by rewrite Hx, Hy.
  - change (1 - 1) with 0 in Hy. by rewrite Hx, Hy.
Qed.

Lemma current_safe st t : current st t → store_safe st.
Proof.
  intros Hc. split; [apply Hc..|]. by eapply slots_target, current_slots.
Qed.

Section geometry.
Context st (Hsafe : store_safe st) (payload : list byte).
Context (Hblocks : div_ceil (len payload) BLOCK_SIZE ≤ st_slot_blocks st - 1).
Notation c := (content (st_device st)).
Notation sb := (st_slot_blocks st).
Notation tgt := (target_slot st).

Lemma payload_room (torn : list byte) :
  length torn = length (padding payload) →
  len torn = div_ceil (len payload) BLOCK_SIZE * BLOCK_SIZE
  ∧ 512 + len torn ≤ sb * BLOCK_SIZE.
Proof.
  destruct (padding_eq payload) as (_&_&Hl). intros Ht. unfold len in *.
  rewrite Ht. split; [done|]. unfold BLOCK_SIZE in *. lia.
Qed.

Lemma other_after_payload torn :
  length torn = length (padding payload) →
  slot_bytes (splice c (Z.to_nat ((tgt * sb + 1) * BLOCK_SIZE)) torn) (1 - tgt) sb
    = slot_bytes c (1 - tgt) sb.
Proof.
  intros Ht. destruct (payload_room torn Ht) as [? Hr].
  pose proof (safe_target st Hsafe).
  apply slot_bytes_splice_other with tgt; [apply Hsafe|by apply safe_size|done..| |];
    unfold BLOCK_SIZE in *; lia.
Qed.

Lemma length_after_payload torn :
  length torn = length (padding payload) →
  len (splice c (Z.to_nat ((tgt * sb + 1) * BLOCK_SIZE)) torn) = len c.
Proof.
  intros Ht. destruct (payload_room torn Ht) as [_ Hr].
  pose proof (safe_target st Hsafe).
  pose proof (safe_size st Hsafe). destruct (safe_fits st Hsafe) as [? _].
  unfold len in *. rewrite length_splice; [done|].
  unfold BLOCK_SIZE in *. assert (tgt = 0 ∨ tgt = 1) as [->| ->] by lia; lia.
Qed.

Lemma other_after_write :
  slot_bytes (written_content st payload) (1 - tgt) sb = slot_bytes c (1 - tgt) sb.
Proof.
  pose proof (safe_target st Hsafe).
  pose proof (safe_size st Hsafe). destruct (safe_fits st Hsafe) as [Hsb Hm].
  unfold written_content. rewrite <-(other_after_payload (padding payload)) by done.
  apply slot_bytes_splice_other with tgt;
    [by split|by rewrite length_after_payload|done|done|unfold BLOCK_SIZE in *; lia|].
  unfold len. rewrite length_encode_header. unfold BLOCK_SIZE in *. lia.
Qed.

Lemma target_after_write tree :
  decode_tree payload = Ok tree → is_u64 (saturating_add64 (st_generation st) 1) →
  parse_slot sb (slot_bytes (written_content st payload) tgt sb)
    = Ok (Some (mk_snapshot (saturating_add64 (st_generation st) 1) tree)).
Proof.
  intros Hd Hg. pose proof (safe_target st Hsafe).
  pose proof (safe_size st Hsafe). destruct (safe_fits st Hsafe) as [Hsb Hm].
  destruct (padding_eq payload) as (zeros&Hpad&_).
  destruct (payload_room (padding payload) eq_refl) as [_ Hroom].
  destruct (slot_bytes_written c sb (conj Hsb Hm) ltac:(done) tgt
    (encode_header (saturating_add64 (st_generation st) 1) (len payload) (checksum payload))
    (padding payload)) as (rest&Hr); [done|done|done|].
  unfold written_content. rewrite Hr, Hpad, <-app_assoc.
  apply parse_written; [done| |done|done].
  pose proof (div_ceil_bound (len payload) BLOCK_SIZE eq_refl).
  pose proof (len_nonneg payload). unfold is_u64, u64_max, BLOCK_SIZE in *. lia.
Qed.

Lemma header_after_payload torn :
  length torn = length (padding payload) →
  take (Z.to_nat HEADER_SIZE)
    (slot_bytes (splice c (Z.to_nat ((tgt * sb + 1) * BLOCK_SIZE)) torn) tgt sb)
  = take (Z.to_nat HEADER_SIZE) (slot_bytes c tgt sb).
Proof.
  intros Ht. destruct (payload_room torn Ht) as [_ Hr].
  pose proof (safe_target st Hsafe).
  pose proof (safe_size st Hsafe). destruct (safe_fits st Hsafe) as [Hsb Hm].
  unfold slot_bytes, HEADER_SIZE. rewrite !take_take.
  rewrite !Nat.min_l by (unfold BLOCK_SIZE in *; lia).
  apply splice_read_before; unfold len, BLOCK_SIZE in *;
    assert (tgt = 0 ∨ tgt = 1) as [Ht01|Ht01] by lia; rewrite Ht01; lia.
Qed.

Lemma saving_content_len c' : saving_content st payload c' → len c' = len c.
Proof.
  intros [|torn Ht|]; [done|by apply length_after_payload|].
  unfold written_content.
  pose proof (length_after_payload (padding payload) eq_refl) as Hl.
  unfold len in Hl |- *. rewrite length_splice; [lia|]. rewrite length_encode_header.
  pose proof (safe_target st Hsafe). pose proof (safe_size st Hsafe).
  destruct (safe_fits st Hsafe) as [? _]. unfold len, BLOCK_SIZE in *.
  assert (tgt = 0 ∨ tgt = 1) as [Ht|Ht] by lia; rewrite Ht in *; lia.
Qed.
End geometry.

Section writes.
Context st t (Hcur : current st t) (payload : list byte).
Context (Hblocks : div_ceil (len payload) BLOCK_SIZE ≤ st_slot_blocks st - 1).
Notation c := (content (st_device st)).
Notation sb := (st_slot_blocks st).
Notation tgt := (target_slot st).

(** The two selections. *)
Lemma view_written tree :
  decode_tree payload = Ok tree → st_generation st < u64_max →
  view (written_content st payload) sb
    = Ok (Some (tgt, mk_snapshot (saturating_add64 (st_generation st) 1) tree)).
Proof.
  intros Hd Hmax. pose proof (current_slots st t Hcur) as Hs.
  pose proof (slots_target st t Hs) as H01.
  assert (0 ≤ st_generation st) as Hg0.
  { destruct Hs as [_ -> _ _|slot snap other _ _ -> Hp _ _]; [done|].
    apply parse_slot_generation in Hp. apply Hp. }
  assert (saturating_add64 (st_generation st) 1 = st_generation st + 1) as Hsat
    by (unfold saturating_add64; lia).
  pose proof (target_after_write st (current_safe st t Hcur) payload Hblocks tree Hd ltac:(unfold is_u64; lia)) as Hw.
  pose proof (other_after_write st (current_safe st t Hcur) payload Hblocks) as Ho. rewrite Hsat in *.
  set (new := mk_snapshot (st_generation st + 1) tree) in *.
  destruct Hs as [Ha Hg Hp0 Hp1|slot snap other Hslot Ha Hg Hp Hq Hsel].
  - assert (tgt = 0) as Htgt by (unfold target_slot; by rewrite Ha). rewrite Htgt in *.
    rewrite (view_slots _ _ 0 (Some new) None); [reflexivity|lia|exact Hw|by rewrite Ho].
  - assert (tgt = 1 - slot) as Htgt by (unfold target_slot; by rewrite Ha).
    rewrite Htgt in *. replace (1 - (1 - slot)) with slot in Ho by lia.
    rewrite (view_slots _ _ (1 - slot) (Some new) (Some snap)); [|lia|exact Hw|].
    2:{ replace (1 - (1 - slot)) with slot by lia. rewrite Ho. exact Hp. }
    assert (slot = 0 ∨ slot = 1) as [->| ->] by lia.
    + rewrite !decide_False by lia. unfold select_slot.
      by rewrite bool_decide_true by (rewrite <-Hg; simpl; lia).
    + rewrite !decide_True by lia. unfold select_slot.
      by rewrite bool_decide_false by (rewrite <-Hg; simpl; lia).
Qed.

Lemma view_torn torn :
  length torn = length (padding payload) →
  let c' := splice c (Z.to_nat ((tgt * sb + 1) * BLOCK_SIZE)) torn in
  view c' sb = view c sb ∨ collision (slot_bytes c tgt sb) (slot_bytes c' tgt sb).
Proof.
  intros Ht c'. pose proof (current_slots st t Hcur) as Hs.
  pose proof (other_after_payload st (current_safe st t Hcur) payload Hblocks torn Ht) as Ho. fold c' in Ho.
  destruct (parse_torn sb _ _ (header_after_payload st (current_safe st t Hcur) payload Hblocks torn Ht)) as [Hp|[Hp|?]];
    [| |by right]; fold c' in Hp; left.
  - pose proof (slots_target st t Hs). unfold view.
    assert (tgt = 0 ∨ tgt = 1) as [Htgt|Htgt] by lia; rewrite Htgt in *.
    + change (1 - 0) with 1 in Ho. by rewrite Hp, Ho.
    + change (1 - 1) with 0 in Ho. by rewrite Hp, Ho.
  - destruct Hs as [Ha Hg Hp0 Hp1|slot snap other Hslot Ha Hg Hpa Hq Hsel].
    + assert (tgt = 0) as Htgt by (unfold target_slot; by rewrite Ha). rewrite Htgt in *.
      rewrite (view_slots c' _ 0 None None); [|lia|exact Hp|rewrite Ho; exact Hp1].
      rewrite (view_slots c _ 0 None None); [reflexivity|lia|exact Hp0|exact Hp1].
    + assert (tgt = 1 - slot) as Htgt by (unfold target_slot; by rewrite Ha).
      rewrite Htgt in *. replace (1 - (1 - slot)) with slot in Ho by lia.
      rewrite (view_slots c _ slot (Some snap) other); [|lia|exact Hpa|exact Hq].
      rewrite (view_slots c' _ slot (Some snap) None); [|lia|by rewrite Ho|exact Hp].
      rewrite Hsel. assert (slot = 0 ∨ slot = 1) as [->| ->] by lia; reflexivity.
Qed.
End writes.
End reopening.

Section store_theorems.
Context {D : Type} `{BD : !BlockDevice D} `{RD : !ReliableDevice D}.
Implicit Types (st : SnapshotStore D) (t : option FileTree).

Lemma same_blocks (d d' : D) :
  dev_ok d → dev_ok d' → len (content d') = len (content d) → block_count d' = block_count d.
Proof.
  intros [_ H1]%law_count [_ H2]%law_count Hl. rewrite H1, H2 in Hl.
  unfold BLOCK_SIZE in Hl. lia.
Qed.

Lemma view_open (d : D) o :
  dev_ok d → slot_fits (block_count d / 2) → view (content d) (block_count d / 2) = Ok o →
  ∃ st, store_open d = Ok (st, (λ x, snap_tree x.2) <$> o)
    ∧ current st ((λ x, snap_tree x.2) <$> o) ∧ content (st_device st) = content d
    ∧ st_active_slot st = fst <$> o
    ∧ st_generation st = from_option (λ x, snap_generation x.2) 0 o.
Proof.
  intros Hok Hfit Hv. destruct (open_view d Hok Hfit) as (d'&Hok'&Hc&->). rewrite Hv.
  assert (block_count d' = block_count d) as Hb by (apply same_blocks; congruence).
  destruct o as [[slot snap]|]; (eexists; split; [done|]; split; [|done]).
  all: split; simpl; [done|by rewrite Hb|done|]; rewrite Hc, Hv; by eexists.
Qed.

Lemma open_current (d : D) st t :
  dev_ok d → slot_fits (block_count d / 2) → store_open d = Ok (st, t) → current st t.
Proof.
  intros Hok Hfit H. destruct (view (content d) (block_count d / 2)) as [o|e|] eqn:Hv.
  - destruct (view_open d o Hok Hfit Hv) as (st'&H'&?&_). rewrite H in H'.
    by injection H' as -> ->.
  - destruct (open_view d Hok Hfit) as (d'&_&_&Ho). rewrite Hv, H in Ho. done.
  - destruct (open_view d Hok Hfit) as (d'&_&_&Ho). rewrite Hv, H in Ho. done.
Qed.

Lemma current_reopen st t :
  current st t → ∃ st', store_open (st_device st) = Ok (st', t) ∧ current st' t
    ∧ content (st_device st') = content (st_device st)
    ∧ st_active_slot st' = st_active_slot st ∧ st_generation st' = st_generation st.
Proof.
  intros [Hok Hb Hfit (o&Hv&Ha&Hg&->)]. rewrite Hb in Hfit, Hv.
  destruct (view_open (st_device st) o Hok Hfit Hv) as (st'&?&?&?&?&?).
  exists st'. split_and!; congruence.
Qed.

Lemma saved_payload tree payload sb :
  tree_utf8 tree → slot_fits sb → encode_tree tree = Ok payload →
  div_ceil (len payload) BLOCK_SIZE ≤ sb - 1 → decode_tree payload = Ok tree.
Proof.
  intros Hu [_ Hm] He Hb. apply encode_tree_ok in He as [-> Hf].
  apply decode_tree_bytes; [done..|].
  pose proof (div_ceil_bound (len (tree_bytes tree)) BLOCK_SIZE eq_refl).
  unfold usize_max, u64_max, BLOCK_SIZE in *. lia.
Qed.

Lemma save_cases st t tree r st' :
  current st t → save tree st = (r, st') → save_result st tree r st'.
Proof. intros Hcur. apply save_run. by eapply current_safe. Qed.

(** Whatever a save does, the store can be used again. *)
Lemma save_safe st tree r st' :
  store_safe st → save tree st = (r, st') → r ≠ Panic ∧ store_safe st'.
Proof.
  intros Hs H. apply save_run in H; [|done].
  assert (∀ d' payload, dev_ok d' → saving_content st payload (content d') →
    div_ceil (len payload) BLOCK_SIZE ≤ st_slot_blocks st - 1 →
    st_slot_blocks st = block_count d' / 2) as Hb.
  { intros d' payload Hok Hc Hp. rewrite (same_blocks (st_device st) d');
      [apply Hs|apply Hs|done|]. by eapply saving_content_len. }
  inversion H as [|e payload d' He Hp Hok Hc|payload d' He Hp Hok Hc]; subst;
    (split; [done|]); [done|..].
  - split; [done|by eapply Hb|apply Hs|apply Hs].
  - pose proof (safe_target st Hs). split; [done| |apply Hs|cbn; lia].
    cbn. eapply Hb; [done| |exact Hp]. rewrite Hc. constructor.
Qed.

Lemma written_current st t tree payload d' :
  current st t → tree_utf8 tree → st_generation st < u64_max →
  encode_tree tree = Ok payload →
  div_ceil (len payload) BLOCK_SIZE ≤ st_slot_blocks st - 1 →
  dev_ok d' → content d' = written_content st payload →
  current (mk_store d' (st_slot_blocks st) (Some (target_slot st))
             (saturating_add64 (st_generation st) 1)) (Some tree).
Proof.
  intros Hcur Hu Hg He Hb Hok Hc.
  assert (decode_tree payload = Ok tree) as Hd
    by (eapply saved_payload; [done|apply Hcur|done..]).
  assert (block_count d' = block_count (st_device st)) as Hbc.
  { apply same_blocks; [apply Hcur|done|]. rewrite Hc.
    eapply saving_content_len; [by eapply current_safe|exact Hb|constructor]. }
  split; cbn; [done|rewrite Hbc; apply Hcur|apply Hcur|].
  rewrite Hc, (view_written st t Hcur payload Hb tree Hd Hg). by eexists.
Qed.

(** A device whose content selects the same snapshot. *)
Lemma current_view st t d' :
  current st t → dev_ok d' → len (content d') = len (content (st_device st)) →
  view (content d') (st_slot_blocks st) = view (content (st_device st)) (st_slot_blocks st) →
  current (set_device d' st) t.
Proof.
  intros Hcur Hok Hl Hv. pose proof (same_blocks _ _ (cur_dev _ _ Hcur) Hok Hl) as Hb.
  destruct Hcur as [? Hsb ? Hview]. split; cbn; [done|by rewrite Hb|done|].
  by rewrite Hv.
Qed.

(** C14. The store is a variable that holds a tree across power cycles: what opening
    returns is what the store currently holds; reopening a device gives back the
    tree, the slot and the generation; a save that succeeds makes the saved tree the
    current one.  (The generation counter must not be at its maximum.) *)
Theorem store_refines_variable :
  (∀ (d : D) st t, dev_ok d → slot_fits (block_count d / 2) →
     store_open d = Ok (st, t) → current st t)
  ∧ (∀ st t, current st t → ∃ st', store_open (st_device st) = Ok (st', t)
       ∧ content (st_device st') = content (st_device st)
       ∧ st_active_slot st' = st_active_slot st ∧ st_generation st' = st_generation st)
  ∧ (∀ st t tree st', current st t → tree_utf8 tree → st_generation st < u64_max →
       save tree st = (Ok (), st') → current st' (Some tree)).
Proof.
  split_and!.
  - apply open_current.
  - intros st t Hc. destruct (current_reopen st t Hc) as (st'&?&?&?&?&?). by exists st'.
  - intros st t tree st' Hc Hu Hg H. apply (save_cases st t) in H; [|done].
    inversion H; subst. by eapply written_current.
Qed.

(** C15. Saving is atomic: when a save fails, at whatever write or flush and whatever
    part of the payload it left behind, or when power is lost there, reopening the
    device finds the old tree or the new one.  The only way out is a payload torn
    over an old one whose 64-bit checksum it happens to keep. *)
Theorem save_is_atomic st t tree e st' :
  current st t → tree_utf8 tree → st_generation st < u64_max →
  save tree st = (Err e, st') →
  (∃ st2 t2, store_open (st_device st') = Ok (st2, t2) ∧ (t2 = t ∨ t2 = Some tree))
  ∨ collision (slot_bytes (content (st_device st)) (target_slot st) (st_slot_blocks st))
      (slot_bytes (content (st_device st')) (target_slot st) (st_slot_blocks st)).
Proof.
  intros Hcur Hu Hg H. apply (save_cases st t) in H; [|done].
  assert (∀ st1 t1, current st1 t1 → (t1 = t ∨ t1 = Some tree) →
    ∃ st2 t2, store_open (st_device st1) = Ok (st2, t2) ∧ (t2 = t ∨ t2 = Some tree)) as Hre.
  { intros st1 t1 Hc1 Ht1. destruct (current_reopen st1 t1 Hc1) as (st2&?&_). by exists st2, t1. }
  inversion H as [|e1 payload d' He Hb Hok Hs|]; subst; [left; eauto|].
  change (st_device (set_device d' st)) with d'. inversion Hs as [Hc|torn Hlen Hc|Hc].
  - left. apply (Hre (set_device d' st) t); [|by left]. apply current_view; [done..|by rewrite <-Hc|by rewrite <-Hc].
  - destruct (view_torn st t Hcur payload Hb torn Hlen) as [Hv|?]; [|by right].
    left. apply (Hre (set_device d' st) t); [|by left].
    apply current_view; [done..| |by rewrite <-Hc].
    by rewrite <-Hc, (length_after_payload st (current_safe st t Hcur) payload Hb torn Hlen).
  - left. eapply (Hre (mk_store d' _ _ _) (Some tree)); [|by right].
    by eapply written_current.
Qed.

Lemma parse_slot_no_panic sb b : parse_slot sb b ≠ Panic.
Proof.
  assert (∀ h o, read_u64 h o ≠ Panic) as Hu.
  { intros h o. apply (total_bind (cur_take h 8)); [apply total_take|by intros a c]. }
  unfold parse_slot. set (h := take (Z.to_nat HEADER_SIZE) b).
  pose proof (read_u32_no_panic h 8). pose proof (Hu h 16).
  pose proof (Hu h 24). pose proof (Hu h 32).
  destruct (forallb _ h); [done|]. destruct (negb _); [done|].
  destruct (read_u32 h 8) as [v|e|]; [|done..]. cbn [mbind res_bind].
  destruct (negb _); [done|].
  destruct (read_u64 h 16) as [g|e|]; [|done..]. cbn [mbind res_bind].
  destruct (read_u64 h 24) as [n|e|]; [|done..]. cbn [mbind res_bind].
  destruct (read_u64 h 32) as [k|e|]; [|done..]. cbn [mbind res_bind].
  case_bool_decide; [done|]. destruct (negb _); [done|].
  pose proof (decode_tree_no_panic (take (Z.to_nat n) (drop (Z.to_nat HEADER_SIZE) b))).
  by destruct (decode_tree _).
Qed.

Lemma view_no_panic c sb : view c sb ≠ Panic.
Proof.
  unfold view. pose proof (parse_slot_no_panic sb (slot_bytes c 0 sb)).
  pose proof (parse_slot_no_panic sb (slot_bytes c 1 sb)).
  destruct (parse_slot _ (slot_bytes _ 0 _)); [|done..]. cbn [mbind res_bind].
  by destruct (parse_slot _ (slot_bytes _ 1 _)).
Qed.

(** C16. Whatever bytes a device holds, opening it returns a store or an error and
    never panics: no length, count or checksum field can send the parser out of
    bounds; and neither does saving to an open store.  The panics that are ruled out
    are those of the code: every slice and copy whose range is computed and every
    [u64] sum, difference and product of the slot arithmetic.  A slot of the device
    must fit into memory (at most [isize::MAX] bytes), and a device call that the
    laws of a reliable device cover does not panic itself. *)
Theorem store_never_panics (d : D) st t tree :
  (dev_ok d → block_count d / 2 * BLOCK_SIZE ≤ 9223372036854775807 → store_open d ≠ Panic)
  ∧ (current st t → (save tree st).1 ≠ Panic).
Proof.
  split.
  - intros Hok Hfit. destruct (decide (block_count d / 2 < 2)) as [Hsmall|Hbig].
    { unfold store_open. by rewrite bool_decide_true. }
    destruct (open_view d Hok) as (d'&_&_&->); [split; lia|].
    pose proof (view_no_panic (content d) (block_count d / 2)).
    by destruct (view _ _) as [[[]|]| |].
  - intros Hcur. destruct (save tree st) as [r st'] eqn:E.
    apply (save_cases st t) in E; [|done]. by inversion E.
Qed.
End store_theorems.

(** ** Concrete runs *)
Definition example_store : SnapshotStore MemoryDevice :=
  mk_store (memory_new 16) 8 None 0.
Definition example_saved : SnapshotStore MemoryDevice :=
  (save (example_tree "first") example_store).2.

Lemma example_utf8 text : tree_utf8 (example_tree text).
Proof.
  split; simpl.
  - intros path ->%elem_of_singleton. by vm_compute.
  - intros path [d [<- _]%lookup_singleton_Some]. by vm_compute.
Qed.

Lemma example_fits : slot_fits 8.
Proof. split; by vm_compute. Qed.

Lemma example_current : current example_store None.
Proof. apply (open_current (memory_new 16)); [by vm_compute|exact example_fits|by_vm]. Qed.

Lemma store_refines_variable_witness :
  current example_store None ∧
  save (example_tree "first") example_store = (Ok (), example_saved) ∧
  current example_saved (Some (example_tree "first")).
Proof.
  split_and!; [exact example_current|by_vm|].
  apply (proj2 (proj2 (store_refines_variable (D := MemoryDevice))) example_store None);
    [exact example_current|apply example_utf8|by vm_compute|by_vm].
Defined.

Lemma store_never_panics_witness :
  store_open (memory_new 16) ≠ Panic ∧
  current example_store None ∧ (save (example_tree "x") example_store).1 ≠ Panic.
Proof.
  destruct (store_never_panics (memory_new 16) example_store None (example_tree "x"))
    as [Hopen Hsave].
  split_and!; [apply Hopen; by vm_compute|exact example_current|].
  apply Hsave. exact example_current.
Defined.

(** A device on which every write fails. *)
Definition FailingDevice : Type := list byte.
#[local] Instance FailingDevice_BlockDevice : BlockDevice FailingDevice := {|
  block_count d := len d / BLOCK_SIZE;
  read_blocks first output := λ d,
    let start := first * BLOCK_SIZE in
    if bool_decide (len d < start + len output) then (Panic, d)
    else (Ok (take (length output) (drop (Z.to_nat start) d)), d);
  write_blocks first data := λ d, (Err (Device "power"), d);
  flush := mret () |}.
#[local] Program Instance FailingDevice_Reliable : ReliableDevice FailingDevice := {|
  dev_ok d := len d mod BLOCK_SIZE = 0;
  content d := d |}.
Next Obligation.
  intros d Hd. simpl. pose proof (len_nonneg d). unfold BLOCK_SIZE in *.
  pose proof (Z.div_mod (len d) 512). split; [apply Z.div_pos; lia|lia].
Qed.
Next Obligation.
  intros d first out Hd Hf _ Hl. exists d. simpl in *. by rewrite bool_decide_false by lia.
Qed.
Next Obligation.
  intros d first data r d' Hd Hf _ Hl [= <- <-]. split_and!; [done..|].
  exists (take (length data) (drop (Z.to_nat (first * BLOCK_SIZE)) d)).
  unfold len, BLOCK_SIZE in *. split.
  - rewrite length_take, length_drop. lia.
  - unfold splice. rewrite length_take, length_drop, Nat.min_l by lia.
    rewrite <-drop_drop, take_drop, take_drop. done.
Qed.
Next Obligation. intros d first data r d' Hd Hf _ Hl [= <- <-]. by left. Qed.
Next Obligation. by intros d r d' Hd [= <- <-]. Qed.

Lemma save_is_atomic_witness :
  let st := mk_store (D := FailingDevice) (memory_new 16) 8 None 0 in
  current st None ∧ save (example_tree "first") st = (Err (Device "power"), st) ∧
  ((∃ st2 t2, store_open (st_device st) = Ok (st2, t2)
      ∧ (t2 = None ∨ t2 = Some (example_tree "first")))
   ∨ collision (slot_bytes (content (st_device st)) (target_slot st) (st_slot_blocks st))
       (slot_bytes (content (st_device st)) (target_slot st) (st_slot_blocks st))).
Proof.
  intros st. assert (current st None) as Hc.
  { apply (open_current (D := FailingDevice) (memory_new 16)); [by vm_compute|exact example_fits|by_vm]. }
  split_and!; [done|by_vm|].
  apply (save_is_atomic (D := FailingDevice) st None (example_tree "first") (Device "power"));
    [done|apply example_utf8|by vm_compute|by_vm].
Defined.

