(* ===== verification/BareMetal.v ===== *)
(** * The bare-metal platform ([platforms/bare-metal/src/platform.rs])

    The in-memory file tree with its snapshot store: every change is made in memory,
    saved, and rolled back in memory when the save fails.  Console, counter, entropy
    and network are the [Hardware] class, the interface this file needs from them.
    The theorems show that the tree stays well formed, what each storage operation
    does to it, that it is what the store would restore, and that the platform keeps
    the contract the core relies on. *)
From S2P Require Import Prelude RustStr Api Mock Vfs Contract Storage.

Record InitialFile := { if_path : str; if_data : list byte }.

(** Everything but storage: the console, the time counter, the entropy device and
    the processor's random instruction, and the network stack, whose operations are
    given the start counter and its frequency for their deadlines. *)
Class Hardware (H : Type) : Type := {
  hw_architecture : str;
  hw_console_write : str → M H Error ();
  hw_console_read_line : str → bool → M H Error str;
  hw_console_clear : M H Error ();
  hw_poll_cancel : H → bool * H;
  hw_counter : H → Z * H;
  hw_entropy : list byte → H → option (res str (list byte) * H);
  hw_random : list byte → H → option (list byte) * H;
  hw_net_status : Z → Z → M H Error NetStatus;
  hw_net_connect : Z → Z → str → Z → M H Error Z;
  hw_net_send : Z → Z → Z → list byte → M H Error Z;
  hw_net_recv : Z → Z → Z → list byte → M H Error (Z * list byte);
  hw_net_close : Z → Z → Z → M H Error ()
}.

Definition parent (path : str) : str :=
  match rsplit_once slash path with Some (parent, _) => parent | None => "" end.

Definition direct_child (path prefix : str) : option str :=
  remainder ← strip_prefix prefix path;
  if bool_decide (remainder = "") || contains slash remainder then None else Some remainder.

Definition rebased (path from to : str) : str := to ++ default "" (strip_prefix from path).

Definition storage_error (error : StorageError) : Error :=
  Io ("persistent storage: " ++ storage_error_to_string error).

Section platform.
Context {D : Type} `{!BlockDevice D} {H : Type} `{!Hardware H}.

Record BareMetalPlatform := mk_bm {
  bm_hw : H;
  bm_tree : FileTree;
  bm_persistence : option (SnapshotStore D);
  bm_started : Z;
  bm_frequency : Z }.
Notation Bm := (M BareMetalPlatform Error).

Definition set_hw (h : H) (p : BareMetalPlatform) : BareMetalPlatform :=
  mk_bm h (bm_tree p) (bm_persistence p) (bm_started p) (bm_frequency p).
Definition set_tree (t : FileTree) (p : BareMetalPlatform) : BareMetalPlatform :=
  mk_bm (bm_hw p) t (bm_persistence p) (bm_started p) (bm_frequency p).
Definition set_store (s : option (SnapshotStore D)) (p : BareMetalPlatform) :
    BareMetalPlatform :=
  mk_bm (bm_hw p) (bm_tree p) s (bm_started p) (bm_frequency p).

Definition tree_update (f : FileTree → FileTree) : Bm () :=
  modify (λ p, set_tree (f (bm_tree p)) p).
Definition insert_dir (path : str) (t : FileTree) : FileTree :=
  mk_tree (files t) ({[path]} ∪ directories t).
Definition insert_file (path : str) (data : list byte) (t : FileTree) : FileTree :=
  mk_tree (<[path := data]> (files t)) (directories t).

(** The loop over the components, [current] being the path built so far. *)
Fixpoint add_parents_loop (current : str) (components : list str) : Bm () :=
  match components with
  | [] => mret ()
  | component :: rest =>
      let current := (if bool_decide (current = "") then "" else current ++ "/")
                       ++ component in
      p ← gets id;
      if bool_decide (is_Some (files (bm_tree p) !! current))
      then throw (NotDirectory current)
      else
        tree_update (insert_dir current);;
        add_parents_loop current rest
  end.

Definition add_parents (path : str) : Bm () :=
  add_parents_loop "" (filter (λ part, part ≠ "") (split slash path)).

Definition tree_exists (t : FileTree) (path : str) : bool :=
  bool_decide (is_Some (files t !! path)) || bool_decide (path ∈ directories t).

Definition persist : Bm () :=
  λ p, match bm_persistence p with
       | None => (Ok (), p)
       | Some store =>
           let '(r, store) := save (bm_tree p) store in
           (map_err storage_error r, set_store (Some store) p)
       end.

Definition commit (previous : FileTree) : Bm () :=
  λ p, match persist p with
       | (Err error, p) => (Err error, set_tree previous p)
       | (r, p) => (r, p)
       end.

Definition bm_storage_read (path : str) : Bm (list byte) :=
  reads (λ p,
    if bool_decide (path ∈ directories (bm_tree p)) then Err (IsDirectory path)
    else ok_or (NotFound path) (files (bm_tree p) !! path)).

Definition bm_storage_write (path : str) (data : list byte) : Bm () :=
  p ← gets id;
  if bool_decide (path ∈ directories (bm_tree p)) then throw (IsDirectory path)
  else
    let previous := bm_tree p in
    add_parents (parent path);;
    tree_update (insert_file path data);;
    commit previous.

Definition list_step_dir (prefix : str) (entries : gmap str StorageEntry)
    (directory : str) : gmap str StorageEntry :=
  match direct_child directory prefix with
  | Some name => <[name := {| se_name := name; se_is_dir := true; se_len := 0 |}]> entries
  | None => entries
  end.
Definition list_step_file (prefix : str) (entries : gmap str StorageEntry)
    (file : str * list byte) : gmap str StorageEntry :=
  match direct_child file.1 prefix with
  | Some name =>
      <[name := {| se_name := name; se_is_dir := false;
                   se_len := default u64_max (try_from u64_max (len file.2)) |}]> entries
  | None => entries
  end.

Definition bm_storage_list (path : str) : Bm (list StorageEntry) :=
  reads (λ p,
    let t := bm_tree p in
    if negb (bool_decide (path ∈ directories t)) then
      if bool_decide (is_Some (files t !! path)) then Err (NotDirectory path)
      else Err (NotFound path)
    else
      let prefix := if bool_decide (path = "") then "" else path ++ "/" in
      let entries := foldl (list_step_dir prefix) ∅ (btree_set_iter (directories t)) in
      Ok (btree_values (foldl (list_step_file prefix) entries (btree_iter (files t))))).

Definition bm_storage_create_dir_all (path : str) : Bm () :=
  previous ← gets bm_tree;
  add_parents path;;
  commit previous.

(** [retain] on the files and the directories below [path]. *)
Definition remove_subtree (path : str) (t : FileTree) : FileTree :=
  let prefix := path ++ "/" in
  mk_tree (filter (λ kv, starts_with prefix kv.1 = false) (files t))
          (filter (λ name, name ≠ path ∧ starts_with prefix name = false) (directories t)).

Definition bm_storage_remove (path : str) : Bm () :=
  previous ← gets bm_tree;
  if bool_decide (is_Some (files previous !! path)) then
    tree_update (λ t, mk_tree (delete path (files t)) (directories t));;
    commit previous
  else if negb (bool_decide (path ∈ directories previous)) then throw (NotFound path)
  else
    tree_update (remove_subtree path);;
    commit previous.

Definition moved_directories (from : str) (t : FileTree) : list str :=
  filter (λ path, path = from ∨ starts_with (from ++ "/") path = true)
    (btree_set_iter (directories t)).
Definition moved_files (from : str) (t : FileTree) : list (str * list byte) :=
  filter (λ kv, starts_with (from ++ "/") kv.1 = true) (btree_iter (files t)).

(** The two loops that move a directory. *)
Definition move_subtree (from to : str) (t : FileTree) : FileTree :=
  mk_tree
    (foldl (λ fs kv, <[rebased kv.1 from to := kv.2]> (delete kv.1 fs)) (files t)
       (moved_files from t))
    (foldl (λ ds path, {[rebased path from to]} ∪ ds ∖ {[path]}) (directories t)
       (moved_directories from t)).

Definition bm_storage_rename (from to : str) : Bm () :=
  if bool_decide (from = to) then mret ()
  else
    previous ← gets bm_tree;
    if tree_exists previous to then throw (AlreadyExists to)
    else if match strip_prefix from to with
            | Some suffix => starts_with "/" suffix
            | None => false
            end
    then throw InvalidPath
    else
      add_parents (parent to);;
      p ← gets id;
      match files (bm_tree p) !! from with
      | Some data =>
          tree_update (λ t, insert_file to data (mk_tree (delete from (files t)) (directories t)));;
          commit previous
      | None =>
          if negb (bool_decide (from ∈ directories (bm_tree p))) then throw (NotFound from)
          else
            tree_update (move_subtree from to);;
            commit previous
      end.

Definition bm_storage_exists (path : str) : Bm bool :=
  gets (λ p, tree_exists (bm_tree p) path).

(** [add_parents] and [insert] for every initial file. *)
Definition install_file (file : InitialFile) : Bm () :=
  add_parents (parent (if_path file));;
  tree_update (insert_file (if_path file) (if_data file)).

(** [new]: restore the tree from the device if there is one, install the initial
    files when it is empty. *)
Definition bm_new (hw : H) (counter_frequency : Z) (initial_files : list InitialFile)
    (block : option D) : res Error BareMetalPlatform :=
  '(persistence, restored) ←
    match block with
    | Some device =>
        '(store, restored) ← map_err storage_error (store_open device);
        Ok (Some store, restored)
    | None => Ok (None, None)
    end;
  let '(started, hw) := hw_counter hw in
  let platform := mk_bm hw (default tree_default restored) persistence started
                    counter_frequency in
  if bool_decide (files (bm_tree platform) = ∅) && bool_decide (directories (bm_tree platform) = ∅)
  then
    match (for_each install_file initial_files;; persist) platform with
    | (Ok _, platform) => Ok platform
    | (Err e, _) => Err e
    | (Panic, _) => Panic
    end
  else Ok platform.

Definition on_hw {A} (m : M H Error A) : Bm A := zoom bm_hw set_hw m.
Definition pure_hw {A} (f : H → A * H) : M H Error A := λ h, let '(a, h) := f h in (Ok a, h).

Definition bm_monotonic_millis : Bm Z :=
  p ← gets id;
  counter ← on_hw (pure_hw hw_counter);
  if bool_decide (bm_frequency p = 0) then lift Panic
  else mret (saturating_mul64 (saturating_sub counter (bm_started p)) 1000 / bm_frequency p).

Definition bm_fill_random (output : list byte) : Bm (list byte) :=
  on_hw (λ h, match hw_entropy output h with
              | Some (r, h) => (map_err Io r, h)
              | None =>
                  match hw_random output h with
                  | (Some bytes, h) => (Ok bytes, h)
                  | (None, h) => (Err (Unsupported
                      "no cryptographically secure entropy device is available"), h)
                  end
              end).

(** A network call gets the start counter and the frequency. *)
Definition on_net {A} (m : Z → Z → M H Error A) : Bm A :=
  p ← gets id;
  on_hw (m (bm_started p) (bm_frequency p)).

#[export] Instance BareMetal_Platform : Platform BareMetalPlatform := {|
  console_write text := on_hw (hw_console_write text);
  console_read_line prompt secret := on_hw (hw_console_read_line prompt secret);
  console_clear := on_hw hw_console_clear;
  storage_read := bm_storage_read;
  storage_write := bm_storage_write;
  storage_list := bm_storage_list;
  storage_create_dir_all := bm_storage_create_dir_all;
  storage_remove := bm_storage_remove;
  storage_rename := bm_storage_rename;
  storage_exists := bm_storage_exists;
  monotonic_millis := bm_monotonic_millis;
  fill_random := bm_fill_random;
  system_info _ := {| si_name := "AFOS"; si_version := "0.2.0";
                      si_platform := "Limine bare metal"; si_architecture := hw_architecture |};
  poll_cancel p := let '(b, h) := hw_poll_cancel (bm_hw p) in (b, set_hw h p);
  net_status := on_net hw_net_status;
  net_connect host port := on_net (λ s f, hw_net_connect s f host port);
  net_send handle data := on_net (λ s f, hw_net_send s f handle data);
  net_recv handle out := on_net (λ s f, hw_net_recv s f handle out);
  net_close handle := on_net (λ s f, hw_net_close s f handle) |}.
End platform.
Arguments BareMetalPlatform : clear implicits.

(** ** Well-formed trees *)
Definition in_tree (t : FileTree) (p : str) : Prop :=
  p ∈ directories t ∨ is_Some (files t !! p).

(** The parent of everything in the tree is a directory of it, and no path is both a
    file and a directory. *)
Record tree_wf (t : FileTree) : Prop := {
  wf_parent p : in_tree t p → p ≠ "" ∧ (parent p = "" ∨ parent p ∈ directories t);
  wf_disjoint p : p ∈ directories t → files t !! p = None }.

Lemma parent_child p c : slash ∉ c → parent (p ++ slash :: c) = p.
Proof. intros Hc. unfold parent. by rewrite rsplit_once_app. Qed.

Lemma parent_top c : slash ∉ c → parent c = "".
Proof. intros Hc%rsplit_once_None. unfold parent. by rewrite Hc. Qed.

(** The parent of something below [q] is [q] or below it. *)
Lemma parent_below q r :
  parent (q ++ slash :: r) = q ∨ ∃ r', parent (q ++ slash :: r) = q ++ slash :: r'
    ∧ (length r' < length r)%nat.
Proof.
  destruct (rsplit_once slash r) as [[l m]|] eqn:E.
  - apply rsplit_once_Some in E as [-> Hm]. right. exists l. split.
    + replace (q ++ slash :: l ++ slash :: m) with ((q ++ slash :: l) ++ slash :: m)
        by by rewrite <-app_assoc.
      by apply parent_child.
    + rewrite length_app. simpl. lia.
  - apply rsplit_once_None in E. left. by apply parent_child.
Qed.

Lemma wf_below t q r :
  tree_wf t → q ≠ "" → in_tree t (q ++ slash :: r) → q ∈ directories t.
Proof.
  intros Hwf Hq. remember (length r) as n eqn:Hn. revert r Hn.
  induction (lt_wf n) as [n _ IH]. intros r -> Hin.
  destruct (wf_parent t Hwf _ Hin) as [_ Hp].
  destruct (parent_below q r) as [Hpar|(r'&Hpar&Hlt)]; rewrite Hpar in Hp.
  - by destruct Hp as [->|].
  - destruct Hp as [Hp|Hp]; [by destruct q|].
    eapply (IH (length r')); [done|reflexivity|by left].
Qed.

Lemma wf_under t q p :
  tree_wf t → q ≠ "" → in_tree t p → under q p → q = p ∨ q ∈ directories t.
Proof. intros Hwf Hq Hin [->|[r ->]]; [by left|]. right. by eapply wf_below. Qed.

(** ** Clean paths *)
Definition clean (path : str) : Prop := ∃ cs, Forall component cs ∧ path = join "/" cs.

Lemma clean_pieces cs :
  Forall component cs → filter (λ part, part ≠ "") (split slash (join "/" cs)) = cs.
Proof.
  intros Hcs. destruct cs as [|c cs]; [done|].
  change "/" with [slash]. rewrite split_join; [|done|by apply components_slash].
  by apply filter_components.
Qed.

Lemma mount_clean rel : mount_path rel → clean rel ∧ rel ≠ "".
Proof.
  intros [Hu (cs&Hcs&H)]. injection H as ->. split; [by exists cs|].
  intros Hx. rewrite Hx in Hu. by destruct Hu as [[|[??]]|[|[??]]].
Qed.

Lemma clean_parent path : clean path → clean (parent path).
Proof.
  intros (cs&Hcs&->). destruct cs as [|c cs' _] using rev_ind; [by exists []|].
  rewrite Forall_app, Forall_singleton in Hcs. destruct Hcs as [Hcs Hc].
  exists cs'. split; [done|]. destruct cs' as [|c' cs'].
  { change (parent c = ""). apply parent_top. by apply component_slash. }
  rewrite join_app by done. change (join "/" [c]) with c.
  apply parent_child. by apply component_slash.
Qed.

(** The ancestors [add_parents] visits. *)
Definition chain_end (cur : str) (cs : list str) : str :=
  match cs with
  | [] => cur
  | _ => (if bool_decide (cur = "") then "" else cur ++ "/") ++ join "/" cs
  end.

Lemma chain_end_cons cur c cs :
  c ≠ "" →
  chain_end cur (c :: cs) = chain_end ((if bool_decide (cur = "") then "" else cur ++ "/") ++ c) cs.
Proof.
  intros Hc. destruct cs as [|d cs]; [done|]. unfold chain_end.
  rewrite (bool_decide_false ((_ ++ c) = "")) by (intros [_ ?]%app_nil; done).
  rewrite join_cons by done. by rewrite <-!app_assoc.
Qed.

Lemma parent_chain_under cur cs q :
  Forall (λ c, c ≠ "") cs → q ∈ parent_chain cur cs → q ≠ "" ∧ under q (chain_end cur cs).
Proof.
  intros Hcs. revert cur. induction Hcs as [|c cs Hc Hcs IH]; intros cur Hq;
    cbn [parent_chain] in Hq; [by apply elem_of_nil in Hq|].
  set (cur' := (if bool_decide (cur = "") then "" else cur ++ "/") ++ c) in *.
  assert (cur' ≠ "") as Hne by (intros [_ ?]%app_nil; done).
  rewrite chain_end_cons by done. fold cur'.
  apply elem_of_cons in Hq as [->|Hq]; [|by apply IH]. split; [done|].
  unfold chain_end. destruct cs; [by left|]. rewrite bool_decide_false by done.
  right. eexists. by rewrite <-app_assoc.
Qed.

Lemma chain_end_in cur cs :
  Forall (λ c, c ≠ "") cs → cs ≠ [] → chain_end cur cs ∈ parent_chain cur cs.
Proof.
  intros Hcs. revert cur. induction Hcs as [|c cs Hc Hcs IH]; intros cur Hne; [done|].
  cbn [parent_chain]. rewrite chain_end_cons by done.
  destruct cs as [|d cs]; [by left|]. right. by apply IH.
Qed.

Lemma parent_chain_below cur cs q :
  cur ≠ "" → Forall (λ c, c ≠ "") cs → q ∈ parent_chain cur cs → ∃ r, q = cur ++ slash :: r.
Proof.
  intros Hcur Hcs. revert cur Hcur. induction Hcs as [|c cs Hc Hcs IH]; intros cur Hcur Hq;
    cbn [parent_chain] in Hq; [by apply elem_of_nil in Hq|].
  rewrite bool_decide_false in Hq by done. rewrite <-app_assoc in Hq.
  apply elem_of_cons in Hq as [->|Hq]; [by exists c|].
  apply IH in Hq as [r ->]; [|by destruct cur]. eexists. by rewrite <-app_assoc.
Qed.

Lemma insert_dir_id t path : path ∈ directories t → insert_dir path t = t.
Proof.
  intros Hp. destruct t as [fs ds]. unfold insert_dir. simpl in *. f_equal.
  apply set_eq. intros x. rewrite elem_of_union, elem_of_singleton. naive_solver.
Qed.

Lemma insert_dir_wf t cur c :
  tree_wf t → (cur = "" ∨ cur ∈ directories t) → c ≠ "" → slash ∉ c →
  let new := (if bool_decide (cur = "") then "" else cur ++ "/") ++ c in
  files t !! new = None → tree_wf (insert_dir new t).
Proof.
  intros Hwf Hcur Hc Hs new Hf. split.
  - intros p Hin. unfold insert_dir; simpl.
    assert (p = new ∨ in_tree t p) as [->|Hp].
    { destruct Hin as [Hin|Hin]; simpl in Hin; [|by right; right].
      apply elem_of_union in Hin as [->%elem_of_singleton|?]; [by left|by right; left]. }
    + split; [intros [_ ?]%app_nil; done|]. subst new.
      case_bool_decide as Hcur0; [left; by apply parent_top|].
      rewrite <-app_assoc. change ("/" ++ c) with (slash :: c). rewrite parent_child by done.
      right. destruct Hcur; [done|]. by apply elem_of_union_r.
    + destruct (wf_parent t Hwf p Hp) as [? [?|?]]; split; auto.
      right. by apply elem_of_union_r.
  - intros p. simpl. intros [->%elem_of_singleton|?]%elem_of_union; [done|].
    by apply wf_disjoint.
Qed.

(** ** Changes that keep a tree well formed *)
Lemma under_starts path q :
  under path q ↔ q = path ∨ starts_with (path ++ "/") q = true.
Proof.
  split; [|intros [->|?]; [by left|by apply under_dir]].
  intros [->|[r ->]]; [by left|right]. apply starts_with_spec. exists r. by rewrite <-app_assoc.
Qed.

Lemma insert_file_wf t path data :
  tree_wf t → path ≠ "" → path ∉ directories t →
  parent path = "" ∨ parent path ∈ directories t → tree_wf (insert_file path data t).
Proof.
  intros Hwf Hne Hnd Hp. split.
  - intros q Hq. assert (q = path ∨ in_tree t q) as [->|Hin]; [|done|by apply (wf_parent t)].
    destruct Hq as [?|[d Hd]]; [by right; left|]. simpl in Hd.
    apply lookup_insert_Some in Hd as [[-> _]|[_ ?]]; [by left|]. right. right. by eexists.
  - intros q Hq. simpl in *. rewrite lookup_insert_ne by (intros ->; done).
    by apply wf_disjoint.
Qed.

Lemma delete_file_wf t path :
  tree_wf t → tree_wf (mk_tree (delete path (files t)) (directories t)).
Proof.
  intros Hwf. split.
  - intros q Hq. apply (wf_parent t Hwf). destruct Hq as [?|[d Hd]]; [by left|right].
    simpl in Hd. apply lookup_delete_Some in Hd as [_ ?]. by eexists.
  - intros q Hq. simpl. apply lookup_delete_None. right. by apply wf_disjoint.
Qed.

(** [retain]: the directory and everything below it goes, the rest stays. *)
Lemma remove_subtree_dirs t path q :
  q ∈ directories (remove_subtree path t) ↔ q ∈ directories t ∧ ¬ under path q.
Proof.
  unfold remove_subtree. simpl. rewrite elem_of_filter, under_starts.
  destruct (starts_with (path ++ "/") q); naive_solver.
Qed.

Lemma remove_subtree_files t path q :
  files t !! path = None →
  files (remove_subtree path t) !! q = if decide (under path q) then None else files t !! q.
Proof.
  intros Hp. unfold remove_subtree. simpl. rewrite map_lookup_filter.
  case_decide as Hu; rewrite under_starts in Hu.
  - destruct Hu as [->|Hs]; [by rewrite Hp|]. destruct (files t !! q); [|done]. simpl.
    by rewrite option_guard_False by (rewrite Hs; done).
  - destruct (files t !! q); [|done]. simpl. rewrite option_guard_True; [done|].
    destruct (starts_with (path ++ "/") q); naive_solver.
Qed.

Lemma under_parent path q :
  path ≠ "" → parent q ≠ "" → under path (parent q) → under path q.
Proof.
  intros Hne Hp Hu. eapply under_trans; [exact Hu|]. unfold parent in *.
  destruct (rsplit_once slash q) as [[l m]|] eqn:E; [|done].
  apply rsplit_once_Some in E as [-> _]. right. by exists m.
Qed.

Lemma remove_subtree_wf t path :
  tree_wf t → path ∈ directories t → tree_wf (remove_subtree path t).
Proof.
  intros Hwf Hin. pose proof (wf_disjoint t Hwf path Hin) as Hnf.
  destruct (wf_parent t Hwf path) as [Hne _]; [by left|].
  assert (∀ q, in_tree (remove_subtree path t) q → in_tree t q ∧ ¬ under path q) as Hsub.
  { intros q [[??]%remove_subtree_dirs|Hf]; [by split; [left|]|].
    rewrite remove_subtree_files in Hf by done. case_decide; [by destruct Hf|].
    by split; [right|]. }
  split.
  - intros q [Hq Hu]%Hsub. destruct (wf_parent t Hwf q Hq) as [? [?|Hp]]; [auto|].
    split; [done|]. destruct (decide (parent q = "")); [by left|]. right.
    apply remove_subtree_dirs. split; [done|]. intros ?. by apply Hu, under_parent.
  - intros q [Hq Hu]%remove_subtree_dirs. rewrite remove_subtree_files by done.
    rewrite decide_False by done. by apply wf_disjoint.
Qed.

(** ** Moving a directory *)
Section fold_move.
Context {V : Type} (g : str → str).

Lemma fold_move_map (l : list (str * V)) (m : gmap str V) :
  NoDup l.*1 → (∀ x y, x ∈ l.*1 → y ∈ l.*1 → g x = g y → x = y) →
  (∀ x y, x ∈ l.*1 → y ∈ l.*1 → g x ≠ y) →
  let m' := foldl (λ fs kv, <[g kv.1 := kv.2]> (delete kv.1 fs)) m l in
  (∀ x v, (x, v) ∈ l → m' !! g x = Some v)
  ∧ (∀ x, x ∈ l.*1 → m' !! x = None)
  ∧ (∀ k, k ∉ l.*1 → k ∉ g <$> l.*1 → m' !! k = m !! k).
Proof.
  revert m. induction l as [|[x0 v0] l IH]; intros m Hnd Hinj Hdis m'.
  { split_and!; [intros ?? []%elem_of_nil|intros ? []%elem_of_nil|done]. }
  rewrite fmap_cons in *. cbn [fst] in *. apply NoDup_cons in Hnd as [Hx0 Hnd].
  destruct (IH (<[g x0 := v0]> (delete x0 m))) as (H1&H2&H3).
  { done. } { intros x y ??. apply Hinj; by right. } { intros x y ??. apply Hdis; by right. }
  fold m' in H1, H2, H3.
  assert (g x0 ∉ l.*1) as Hg1 by (intros ?; apply (Hdis x0 (g x0)); [by left|by right|done]).
  assert (g x0 ∉ g <$> l.*1) as Hg2.
  { intros (y&Hy&Hin)%list_elem_of_fmap. apply Hinj in Hy as ->; [done|by left|by right]. }
  assert (x0 ∉ g <$> l.*1) as Hg3.
  { intros (y&Hy&Hin)%list_elem_of_fmap. apply (Hdis y x0); [by right|by left|done]. }
  split_and!.
  - intros x v [[= -> ->]|Hin]%elem_of_cons; [|by apply H1].
    by rewrite H3, lookup_insert_eq.
  - intros x [->|Hin]%elem_of_cons; [|by apply H2]. rewrite H3 by done.
    rewrite lookup_insert_ne by (apply Hdis; by left). apply lookup_delete_eq.
  - intros k Hk1 Hk2. apply not_elem_of_cons in Hk1 as [??], Hk2 as [??].
    rewrite H3, lookup_insert_ne, lookup_delete_ne by done. done.
Qed.

Lemma fold_move_set (l : list str) (s : gset str) :
  NoDup l → (∀ x y, x ∈ l → y ∈ l → g x ≠ y) →
  ∀ k, k ∈ foldl (λ ds path, {[g path]} ∪ ds ∖ {[path]}) s l ↔
       k ∈ g <$> l ∨ (k ∈ s ∧ k ∉ l).
Proof.
  intros Hnd. revert s. induction Hnd as [|x0 l Hx0 Hnd IH]; intros s Hdis k; cbn [foldl].
  { rewrite fmap_nil. split; [intros ?; right; split; [done|apply not_elem_of_nil]|].
    by intros [[]%elem_of_nil|[??]]. }
  rewrite IH by (intros ????; apply Hdis; by right). rewrite fmap_cons.
  rewrite elem_of_union, elem_of_singleton, elem_of_difference, elem_of_singleton.
  rewrite !elem_of_cons. split.
  - intros [?|[[->|[??]] ?]]; [by left; right|by left; left|].
    right. split; [done|]. intros [?|?]; done.
  - intros [[->|?]|[? Hn]]; [|by left|].
    + right. split; [by left|]. intros ?. apply (Hdis x0 (g x0)); [by left|by right|done].
    + right. split; [right; split; [done|]; intros ->; apply Hn; by left|].
      intros ?. apply Hn. by right.
Qed.
End fold_move.

(** What is appended to a path to get a path at or below it. *)
Definition tail_path (s : str) : Prop := s = "" ∨ ∃ r, s = slash :: r.

Lemma under_tail p q : under p q ↔ ∃ s, tail_path s ∧ q = p ++ s.
Proof.
  split.
  - intros [->|[r ->]]; [exists ""|exists (slash :: r)]; split; try (by left);
      [by rewrite app_nil_r|by right; exists r|done].
  - intros (s&[->|[r ->]]&->); [left; by rewrite app_nil_r|right; by exists r].
Qed.

(** Two ancestors of one path are comparable. *)
Lemma under_linear k p q : under p k → under q k → under q p ∨ under p q.
Proof.
  intros (s&Hs&->)%under_tail (s'&Hs'&H)%under_tail.
  apply app_eq_app in H as (l&[[-> ->]|[-> ->]]).
  - left. apply under_tail. exists l. split; [|done]. destruct l as [|b l]; [by left|].
    destruct Hs' as [|[r [= -> ?]]]; [done|]. right. by exists l.
  - right. apply under_tail. exists l. split; [|done]. destruct l as [|b l]; [by left|].
    destruct Hs as [|[r [= -> ?]]]; [done|]. right. by exists l.
Qed.

(** The parent of a path below [q], as a path at or below [q]. *)
Lemma parent_tail r :
  ∃ s, tail_path s ∧ ∀ q, parent (q ++ slash :: r) = q ++ s.
Proof.
  destruct (rsplit_once slash r) as [[l m]|] eqn:E.
  - apply rsplit_once_Some in E as [-> Hm]. exists (slash :: l). split; [right; by exists l|].
    intros q. replace (q ++ slash :: l ++ slash :: m) with ((q ++ slash :: l) ++ slash :: m)
      by by rewrite <-app_assoc.
    by apply parent_child.
  - apply rsplit_once_None in E. exists "". split; [by left|]. intros q.
    rewrite app_nil_r. by apply parent_child.
Qed.

(** [moved t t' from to]: [t'] is [t] with the subtree at [from] moved to [to]. *)
Record moved (from to : str) (t t' : FileTree) : Prop := {
  moved_files_to s : tail_path s → files t' !! (to ++ s) = files t !! (from ++ s);
  moved_dirs_to s : tail_path s → to ++ s ∈ directories t' ↔ from ++ s ∈ directories t;
  moved_from k : under from k → files t' !! k = None ∧ k ∉ directories t';
  moved_rest k : ¬ under from k → ¬ under to k →
    files t' !! k = files t !! k ∧ (k ∈ directories t' ↔ k ∈ directories t) }.

Section move.
Context (t : FileTree) (from to : str).
Context (Hwf : tree_wf t) (Hfrom : from ∈ directories t) (Hto : to ≠ "").
Context (Hnest : ¬ under from to) (Hfree : ∀ q, in_tree t q → ¬ under to q).

Lemma rebased_tail s : rebased (from ++ s) from to = to ++ s.
Proof. unfold rebased. by rewrite strip_prefix_app. Qed.

Lemma elem_moved_dirs q :
  q ∈ moved_directories from t ↔ q ∈ directories t ∧ under from q.
Proof.
  unfold moved_directories.
  rewrite list_elem_of_filter, elem_of_btree_set_iter, under_starts. tauto.
Qed.

Lemma elem_moved_files q d :
  (q, d) ∈ moved_files from t ↔ files t !! q = Some d ∧ under from q.
Proof.
  unfold moved_files. rewrite list_elem_of_filter, elem_of_btree_iter, under_starts. simpl.
  split; [intros [??]; split; auto|]. intros [Hq [->|?]]; [|done].
  by rewrite (wf_disjoint t Hwf from Hfrom) in Hq.
Qed.

Lemma elem_moved_keys q :
  q ∈ (moved_files from t).*1 ↔ is_Some (files t !! q) ∧ under from q.
Proof.
  rewrite list_elem_of_fmap. split.
  - intros ([k d]&->&[Hk ?]%elem_moved_files). split; [by eexists|done].
  - intros [[d Hd] Hu]. exists (q, d). split; [done|]. by apply elem_moved_files.
Qed.

Lemma rebased_inj x y :
  under from x → under from y → rebased x from to = rebased y from to → x = y.
Proof.
  intros (s&_&->)%under_tail (s'&_&->)%under_tail. rewrite !rebased_tail.
  by intros ->%app_inv_head.
Qed.

Lemma rebased_fresh x y : under from x → in_tree t y → rebased x from to ≠ y.
Proof.
  intros (s&Hs&->)%under_tail Hy <-. apply (Hfree _ Hy). apply under_tail.
  exists s. by rewrite rebased_tail.
Qed.

Lemma to_rebased x : under from x → ¬ under to (rebased x from to) → False.
Proof.
  intros (s&Hs&->)%under_tail Hn. apply Hn. rewrite rebased_tail. apply under_tail.
  by exists s.
Qed.

(** Nothing lies below both. *)
Lemma not_both k : under from k → under to k → False.
Proof.
  intros Hf Ht.
  assert (under to from ∨ under from to) as [Hc|Hc].
  { clear Hwf Hfrom Hto Hnest Hfree. by apply (under_linear k). }
  - apply (Hfree from); [by left|done].
  - done.
Qed.

Lemma from_not_rebased x : under from x → under from (rebased x from to) → False.
Proof.
  intros Hx Hr. apply (not_both _ Hr). apply under_tail in Hx as (s&Hs&->).
  rewrite rebased_tail. apply under_tail. by exists s.
Qed.

Lemma moved_files_nodup : NoDup (moved_files from t).*1.
Proof.
  apply NoDup_fmap_2_strong.
  - intros [k v] [k' v'] [H1 _]%elem_moved_files [H2 _]%elem_moved_files ?.
    simplify_eq/=. congruence.
  - apply NoDup_filter. eapply NoDup_fmap_1, btree_iter_nodup.
Qed.

Lemma tail_under pre s : tail_path s → under pre (pre ++ s).
Proof. intros Hs. apply under_tail. by exists s. Qed.

(** The files after the move, by key. *)
Lemma move_subtree_files :
  let fs := files (move_subtree from to t) in
  (∀ x d, files t !! x = Some d → under from x → fs !! rebased x from to = Some d) ∧
  (∀ k, under from k → fs !! k = None) ∧
  (∀ k, ¬ under from k →
     (∀ x, is_Some (files t !! x) → under from x → k ≠ rebased x from to) →
     fs !! k = files t !! k).
Proof.
  intros fs.
  destruct (fold_move_map (λ x, rebased x from to) (moved_files from t) (files t))
    as (H1&H2&H3).
  { exact moved_files_nodup. }
  { intros x y [_ ?]%elem_moved_keys [_ ?]%elem_moved_keys. by apply rebased_inj. }
  { intros x y [_ ?]%elem_moved_keys [? _]%elem_moved_keys. apply rebased_fresh; [done|by right]. }
  assert (∀ k, (∀ x, is_Some (files t !! x) → under from x → k ≠ rebased x from to) →
            k ∉ (λ x, rebased x from to) <$> (moved_files from t).*1) as Hk.
  { intros k Hk (x&->&[??]%elem_moved_keys)%list_elem_of_fmap. by eapply Hk. }
  split_and!.
  - intros x d Hx Hu. by apply H1, elem_moved_files.
  - intros k Hu. destruct (decide (is_Some (files t !! k))) as [Hin|Hin].
    + by apply H2, elem_moved_keys.
    + unfold fs, move_subtree. simpl. rewrite H3;
        [by apply eq_None_not_Some|by intros [? _]%elem_moved_keys|].
      apply Hk. intros x _ Hx ->. by eapply from_not_rebased.
  - intros k Hu Hne. apply H3; [by intros [_ ?]%elem_moved_keys|by apply Hk].
Qed.

(** The directories after the move. *)
Lemma move_subtree_directories k :
  k ∈ directories (move_subtree from to t) ↔
    (∃ x, k = rebased x from to ∧ x ∈ directories t ∧ under from x)
    ∨ (k ∈ directories t ∧ ¬ under from k).
Proof.
  unfold move_subtree. simpl. rewrite (fold_move_set (λ x, rebased x from to)).
  - rewrite list_elem_of_fmap. setoid_rewrite elem_moved_dirs.
    split; (intros [?|[? Hn]]; [by left|right]; split; [done|]; tauto).
  - apply NoDup_filter, btree_set_iter_nodup.
  - intros x y [_ ?]%elem_moved_dirs [? _]%elem_moved_dirs.
    apply rebased_fresh; [done|by left].
Qed.

Lemma move_subtree_moved : moved from to t (move_subtree from to t).
Proof.
  destruct move_subtree_files as (Hmv&Hgone&Hkeep).
  assert (∀ s, tail_path s → ¬ in_tree t (to ++ s)) as Hfs
    by (intros s Hs Hin; apply (Hfree _ Hin), tail_under, Hs).
  split.
  - intros s Hs. destruct (files t !! (from ++ s)) as [d|] eqn:E.
    + rewrite <-rebased_tail. by apply Hmv; [|apply tail_under].
    + rewrite Hkeep.
      * apply eq_None_not_Some. intros Hin. apply (Hfs s Hs). by right.
      * intros Hu. by eapply not_both, tail_under.
      * intros x Hin (s'&_&->)%under_tail Hx. rewrite rebased_tail in Hx.
        apply app_inv_head in Hx as <-. rewrite E in Hin. by destruct Hin.
  - intros s Hs. rewrite move_subtree_directories. split.
    + intros [(x&Hx&Hin&(s'&_&->)%under_tail)|[Hin _]].
      * rewrite rebased_tail in Hx. by apply app_inv_head in Hx as ->.
      * exfalso. apply (Hfs s Hs). by left.
    + intros Hin. left. exists (from ++ s). rewrite rebased_tail.
      split_and!; [done..|by apply tail_under].
  - intros k Hu. split; [by apply Hgone|]. rewrite move_subtree_directories.
    intros [(x&->&_&Hx)|[_ ?]]; [by eapply from_not_rebased|done].
  - intros k Hf Ht. split.
    + apply Hkeep; [done|]. intros x _ Hx ->. by eapply to_rebased in Hx.
    + rewrite move_subtree_directories. split; [|by right].
      intros [(x&->&_&Hx)|[? _]]; [by eapply to_rebased in Hx|done].
Qed.

Lemma moved_wf t' :
  moved from to t t' → parent to = "" ∨ parent to ∈ directories t → tree_wf t'.
Proof.
  intros Hm Hpt. destruct (wf_parent t Hwf from) as [Hfne _]; [by left|].
  assert (∀ k, in_tree t' k → (∃ s, tail_path s ∧ k = to ++ s ∧ in_tree t (from ++ s))
            ∨ (¬ under from k ∧ ¬ under to k ∧ in_tree t k)) as Hcase.
  { intros k Hin. destruct (decide (under from k)) as [Hf|Hf].
    { destruct (moved_from _ _ _ _ Hm k Hf) as [Hn Hnd].
      destruct Hin as [?|Hin]; [done|]. rewrite Hn in Hin. by destruct Hin. }
    destruct (decide (under to k)) as [(s&Hs&->)%under_tail|Ht].
    - left. exists s. split_and!; [done..|]. unfold in_tree in *.
      by rewrite (moved_files_to _ _ _ _ Hm), (moved_dirs_to _ _ _ _ Hm) in Hin.
    - right. split_and!; [done..|]. unfold in_tree in *.
      destruct (moved_rest _ _ _ _ Hm k Hf Ht) as [H1 H2]. by rewrite H1, H2 in Hin. }
  assert (∀ q, q ∈ directories t → ¬ under from q → q ∈ directories t') as Hkeep.
  { intros q Hq Hf. apply (moved_rest _ _ _ _ Hm q); [done|apply Hfree; by left|done]. }
  split.
  - intros k [(s&Hs&->&Hin)|(Hf&Ht&Hin)]%Hcase.
    + split; [by destruct to|]. destruct Hs as [->|[r ->]].
      * rewrite app_nil_r. destruct Hpt as [?|Hpt]; [by left|].
        destruct (decide (parent to = "")); [by left|]. right. apply Hkeep; [done|].
        intros ?. by apply Hnest, under_parent.
      * destruct (parent_tail r) as (s'&Hs'&Hpar). rewrite Hpar. right.
        apply (moved_dirs_to _ _ _ _ Hm); [done|].
        destruct (wf_parent t Hwf _ Hin) as [_ Hp]. rewrite Hpar in Hp.
        destruct Hp as [[? _]%app_nil|?]; done.
    + destruct (wf_parent t Hwf k Hin) as [? [?|Hp]]; [by split; [|left]|].
      split; [done|]. destruct (decide (parent k = "")); [by left|]. right.
      apply Hkeep; [done|]. intros ?. by apply Hf, under_parent.
  - intros k Hk. destruct (Hcase k) as [(s&Hs&->&_)|(Hf&Ht&_)]; [by left|..].
    + rewrite (moved_files_to _ _ _ _ Hm) by done. apply (wf_disjoint t Hwf).
      by apply (moved_dirs_to _ _ _ _ Hm).
    + destruct (moved_rest _ _ _ _ Hm k Hf Ht) as [-> ?]. apply (wf_disjoint t Hwf). tauto.
Qed.
End move.

Section tree_ops.
Context {D : Type} `{BD : !BlockDevice D} {H : Type} `{HW : !Hardware H}.
Notation P := (BareMetalPlatform D H).
Implicit Types p : P.

(** What [add_parents] leaves: the same files, more directories, all of them
    ancestors of [path]; on success [path] itself is a directory, and it fails only
    on an ancestor that is a file, with nothing changed. *)
Definition parents_added (path : str) (t : FileTree) (r : res Error ()) (t' : FileTree) : Prop :=
  files t' = files t ∧ directories t ⊆ directories t' ∧ tree_wf t' ∧ r ≠ Panic ∧
  (∀ q, q ∈ directories t' → q ∈ directories t ∨ (q ≠ "" ∧ under q path)) ∧
  (r = Ok () → path = "" ∨ path ∈ directories t') ∧
  (∀ e, r = Err e → t' = t ∧ ∃ f, e = NotDirectory f ∧ is_Some (files t !! f)
                                  ∧ under f path).

Lemma add_parents_loop_spec cur cs p r p' :
  tree_wf (bm_tree p) → (cur = "" ∨ cur ∈ directories (bm_tree p)) →
  Forall (λ c, c ≠ "" ∧ slash ∉ c) cs →
  add_parents_loop cur cs p = (r, p') →
  p' = set_tree (bm_tree p') p ∧ parents_added (chain_end cur cs) (bm_tree p) r (bm_tree p')
  ∧ (∀ f, r = Err (NotDirectory f) → f ∈ parent_chain cur cs).
Proof.
  intros Hwf Hcur Hcs. revert cur p Hwf Hcur.
  induction Hcs as [|c cs [Hc Hs] Hcs IH]; intros cur p Hwf Hcur Hrun.
  { injection Hrun as <- <-. split; [by destruct p|]. split; [|done]. split_and!; auto; done. }
  assert (Forall (λ c, c ≠ "") (c :: cs)) as Hne.
  { constructor; [done|]. eapply Forall_impl; [exact Hcs|]. by intros ? [??]. }
  cbn [add_parents_loop] in Hrun.
  set (new := (if bool_decide (cur = "") then "" else cur ++ "/") ++ c) in *.
  assert (new ∈ parent_chain cur (c :: cs)) as Hnew by (by left).
  pose proof (parent_chain_under cur (c :: cs) new Hne Hnew) as [Hn0 Hu].
  rewrite bind_run in Hrun. cbv beta iota delta [gets id] in Hrun.
  case_bool_decide as Hf.
  { injection Hrun as <- <-. split; [by destruct p|]. split; [|by intros f [= <-]].
    split_and!; auto; [done|]. intros e [= <-]. split; [done|]. by exists new. }
  rewrite bind_run in Hrun. cbv beta iota delta [tree_update modify] in Hrun.
  apply eq_None_not_Some in Hf.
  pose proof (insert_dir_wf (bm_tree p) cur c Hwf Hcur Hc Hs Hf) as Hwf'. fold new in Hwf'.
  apply IH in Hrun as (Hp'&(Hfl&Hsub&Hwf2&Hnp&Hall&Hok&Herr)&Hch);
    [|done|right; apply elem_of_union_l, elem_of_singleton; done].
  cbn in Hfl, Hsub, Hall, Herr. rewrite chain_end_cons in * by done. fold new in Hu |- *.
  split; [by rewrite Hp'; destruct p|]. split.
  - split_and!; [done| |done|done| |done|].
    + intros q Hq. apply Hsub. by apply elem_of_union_r.
    + intros q Hq. apply Hall in Hq as [[->%elem_of_singleton|?]%elem_of_union|?]; auto.
    + intros e He. destruct (Herr e He) as [Ht (f&->&Hfs&Hfu)]. split; [|by exists f].
      rewrite Ht. apply insert_dir_id.
      apply Forall_cons in Hne as [_ Hne].
      destruct (parent_chain_below new cs f Hn0 Hne (Hch f He)) as [r0 ->].
      eapply wf_below; [exact Hwf|exact Hn0|by right].
  - intros f He. right. by apply Hch.
Qed.

Lemma add_parents_spec path p r p' :
  clean path → tree_wf (bm_tree p) → add_parents path p = (r, p') →
  p' = set_tree (bm_tree p') p ∧ parents_added path (bm_tree p) r (bm_tree p').
Proof.
  intros (cs&Hcs&->) Hwf Hrun. unfold add_parents in Hrun.
  rewrite clean_pieces in Hrun by done.
  apply add_parents_loop_spec in Hrun as (Hp'&Ha&_); [|done|by left|].
  - split; [done|]. by destruct cs.
  - eapply Forall_impl; [exact Hcs|]. intros c (?&_&_&?&_). done.
Qed.
End tree_ops.

Lemma length_parent path : path ≠ "" → (length (parent path) < length path)%nat.
Proof.
  intros Hne. unfold parent. destruct (rsplit_once slash path) as [[l m]|] eqn:E.
  - apply rsplit_once_Some in E as [-> _]. rewrite length_app. simpl. lia.
  - destruct path; [done|]. simpl. lia.
Qed.

Lemma under_length q p : under q p → (length q ≤ length p)%nat.
Proof. intros (s&_&->)%under_tail. rewrite length_app. lia. Qed.

(** Making the parents of a free path keeps it free. *)
Lemma parents_added_free path t r t1 :
  tree_wf t → path ≠ "" → ¬ in_tree t path → parents_added (parent path) t r t1 →
  ∀ q, in_tree t1 q → ¬ under path q.
Proof.
  intros Hwf Hne Hfree (Hf&_&_&_&Hall&_) q Hin Hu.
  assert (in_tree t q) as Hq.
  { destruct Hin as [Hin|Hin]; [|right; by rewrite <-Hf].
    apply Hall in Hin as [?|[_ Hq]]; [by left|]. exfalso.
    apply under_length in Hq, Hu. pose proof (length_parent path Hne). lia. }
  destruct (wf_under t path q Hwf Hne Hq Hu) as [->|?]; [done|]. apply Hfree. by left.
Qed.

Lemma move_file_moved t from to data :
  tree_wf t → files t !! from = Some data → ¬ under from to →
  (∀ q, in_tree t q → ¬ under to q) →
  moved from to t (insert_file to data (mk_tree (delete from (files t)) (directories t))).
Proof.
  intros Hwf Hf Hnest Hfree.
  assert (∀ s, tail_path s → s ≠ "" → ¬ in_tree t (from ++ s)) as Hleaf.
  { intros s [->|[r ->]] Hne Hin; [done|].
    destruct (wf_parent t Hwf from) as [Hfne _]; [right; by eexists|].
    pose proof (wf_below t from r Hwf Hfne Hin) as Hd.
    by rewrite (wf_disjoint t Hwf from Hd) in Hf. }
  assert (∀ s, tail_path s → ¬ in_tree t (to ++ s)) as Hto.
  { intros s Hs Hin. apply (Hfree _ Hin). apply under_tail. by exists s. }
  assert (∀ k, ¬ in_tree t k → files t !! k = None ∧ k ∉ directories t) as Hnone.
  { intros k Hk. unfold in_tree in Hk. split; [|tauto]. apply eq_None_not_Some. tauto. }
  assert (from ∉ directories t) as Hfd by (intros ?%(wf_disjoint t Hwf); congruence).
  assert (from ≠ to) as Hft by (intros ->; apply Hnest, under_refl).
  split; simpl.
  - intros s Hs. destruct (decide (s = "")) as [->|Hne].
    { by rewrite !app_nil_r, lookup_insert_eq. }
    destruct (Hnone _ (Hleaf s Hs Hne)) as [-> _]. destruct (Hnone _ (Hto s Hs)) as [Hn _].
    rewrite lookup_insert_ne by (intros Hx; apply Hne; rewrite <-(app_nil_r to) in Hx at 1;
      by apply app_inv_head in Hx).
    apply lookup_delete_None. by right.
  - intros s Hs. destruct (Hnone _ (Hto s Hs)) as [_ ?]. split; [done|]. intros Hin. exfalso.
    destruct (decide (s = "")) as [->|Hne]; [by rewrite app_nil_r in Hin|].
    apply (Hleaf s Hs Hne). by left.
  - intros k (s&Hs&->)%under_tail.
    assert (from ++ s ≠ to) by (intros Hx; apply Hnest, under_tail; by exists s).
    destruct (decide (s = "")) as [->|Hne].
    { rewrite app_nil_r in *. rewrite lookup_insert_ne by done. by rewrite lookup_delete_eq. }
    destruct (Hnone _ (Hleaf s Hs Hne)) as [Hn ?]. split; [|done].
    rewrite lookup_insert_ne by done. apply lookup_delete_None. by right.
  - intros k Hkf Hkt. split; [|done].
    rewrite lookup_insert_ne, lookup_delete_ne; [done|intros ->..]; [apply Hkf|apply Hkt];
      apply under_refl.
Qed.

Section platform_ops.
Context {D : Type} `{BD : !BlockDevice D} `{RD : !ReliableDevice D}.
Context {H : Type} `{HW : !Hardware H}.
Notation P := (BareMetalPlatform D H).
Implicit Types p : P.

Definition store_usable (s : option (SnapshotStore D)) : Prop :=
  match s with Some st => store_safe st | None => True end.

(** The platform's invariant. *)
Record bm_ok p : Prop := {
  ok_tree : tree_wf (bm_tree p);
  ok_frequency : 0 < bm_frequency p;
  ok_store : store_usable (bm_persistence p) }.

(** A storage call changes the tree and the store only. *)
Definition storage_only p p' : Prop :=
  p' = mk_bm (bm_hw p) (bm_tree p') (bm_persistence p') (bm_started p) (bm_frequency p).

Lemma storage_only_refl p : storage_only p p.
Proof. by destruct p. Qed.

Lemma storage_only_trans p p1 p2 : storage_only p p1 → storage_only p1 p2 → storage_only p p2.
Proof.
  unfold storage_only. destruct p, p1, p2. simpl. intros [= -> -> ->] [= -> -> ->]. done.
Qed.

Lemma set_tree_over t1 t pa p : pa = set_tree t p → set_tree t1 pa = set_tree t1 p.
Proof. by intros ->. Qed.

(** [commit]: saved and kept, or not saved and rolled back. *)
Lemma commit_spec previous p r p' :
  store_usable (bm_persistence p) → commit previous p = (r, p') →
  storage_only p p' ∧ store_usable (bm_persistence p') ∧ r ≠ Panic ∧
  bm_tree p' = (match r with Ok _ => bm_tree p | _ => previous end).
Proof.
  intros Hs. unfold commit, persist. destruct p as [hw t st started freq]. simpl in *.
  destruct st as [st|]; [|intros [= <- <-]; done].
  destruct (save t st) as [r1 st1] eqn:E. apply save_safe in E as [Hnp Hs1]; [|done].
  destruct r1 as [[]|e|]; simpl; intros [= <- <-]; done.
Qed.

(** The shape of every storage operation that changes the tree to [t1] first. *)
Lemma update_commit_spec p1 p t1 previous r p' :
  p1 = set_tree t1 p → tree_wf t1 → bm_ok p → tree_wf previous →
  commit previous p1 = (r, p') →
  bm_ok p' ∧ storage_only p p' ∧ r ≠ Panic ∧
  bm_tree p' = (match r with Ok _ => t1 | _ => previous end).
Proof.
  intros -> Hwf Hok Hprev Hrun. destruct Hok as [Ht Hf Hs].
  apply commit_spec in Hrun as (Ho&Hs'&Hnp&Htr); [|by destruct p]. simpl in Htr.
  unfold storage_only in *. split_and!; [|by rewrite Ho; destruct p|done|done].
  split; [|by rewrite Ho|done]. rewrite Htr. by destruct r.
Qed.

Lemma write_spec path data p r p' :
  bm_ok p → clean path → path ≠ "" → bm_storage_write path data p = (r, p') →
  bm_ok p' ∧ storage_only p p' ∧ r ≠ Panic ∧
  match r with
  | Ok _ => path ∉ directories (bm_tree p) ∧
      ∃ t1, parents_added (parent path) (bm_tree p) (Ok ()) t1
            ∧ bm_tree p' = insert_file path data t1
  | _ => bm_tree p' = bm_tree p
  end.
Proof.
  intros Hok Hc Hne Hrun. unfold bm_storage_write in Hrun. rewrite bind_run in Hrun.
  cbv beta iota zeta delta [gets id] in Hrun. case_bool_decide as Hd.
  { injection Hrun as <- <-. split_and!; [done|apply storage_only_refl|done..]. }
  rewrite bind_run in Hrun. destruct (add_parents (parent path) p) as [ra pa] eqn:Ha.
  apply add_parents_spec in Ha as [Hpa Hadd]; [|by apply clean_parent|apply Hok].
  pose proof Hadd as (Hfl&Hsub&Hwf1&Hnp&Hall&Hokp&Herr).
  destruct ra as [[]|e|]; [| |done].
  2:{ injection Hrun as <- <-. destruct (Herr e eq_refl) as [Ht _].
      rewrite Hpa, Ht. split_and!; [by destruct p|by destruct p|done..]. }
  rewrite bind_run in Hrun. cbv beta iota delta [tree_update modify] in Hrun.
  assert (path ∉ directories (bm_tree pa)) as Hnd.
  { intros [?|[_ Hq]]%Hall; [done|]. apply under_length in Hq.
    pose proof (length_parent path Hne). lia. }
  eapply (update_commit_spec _ p) in Hrun as (?&?&?&Htr).
  - split_and!; [done..|]. destruct r; [|done..]. split; [done|]. by exists (bm_tree pa).
  - by eapply set_tree_over.
  - apply insert_file_wf; [done..|]. by apply Hokp.
  - done.
  - apply Hok.
Qed.

Lemma create_spec path p r p' :
  bm_ok p → clean path → bm_storage_create_dir_all path p = (r, p') →
  bm_ok p' ∧ storage_only p p' ∧ r ≠ Panic ∧
  match r with
  | Ok _ => parents_added path (bm_tree p) (Ok ()) (bm_tree p')
  | _ => bm_tree p' = bm_tree p
  end.
Proof.
  intros Hok Hc Hrun. unfold bm_storage_create_dir_all in Hrun. rewrite bind_run in Hrun.
  cbv beta iota zeta delta [gets] in Hrun.
  rewrite bind_run in Hrun. destruct (add_parents path p) as [ra pa] eqn:Ha.
  apply add_parents_spec in Ha as [Hpa Hadd]; [|done|apply Hok].
  pose proof Hadd as (Hfl&Hsub&Hwf1&Hnp&Hall&Hokp&Herr).
  destruct ra as [[]|e|]; [| |done].
  2:{ injection Hrun as <- <-. destruct (Herr e eq_refl) as [Ht _].
      rewrite Hpa, Ht. split_and!; [by destruct p|by destruct p|done..]. }
  eapply update_commit_spec in Hrun as (?&?&?&Htr); [|exact Hpa|done|done|apply Hok].
  split_and!; [done..|]. rewrite Htr. by destruct r.
Qed.

Lemma remove_spec path p r p' :
  bm_ok p → bm_storage_remove path p = (r, p') →
  bm_ok p' ∧ storage_only p p' ∧ r ≠ Panic ∧
  match r with
  | Ok _ =>
      (is_Some (files (bm_tree p) !! path) ∧
       bm_tree p' = mk_tree (delete path (files (bm_tree p))) (directories (bm_tree p)))
      ∨ (path ∈ directories (bm_tree p) ∧ bm_tree p' = remove_subtree path (bm_tree p))
  | _ => bm_tree p' = bm_tree p
  end.
Proof.
  intros Hok Hrun. unfold bm_storage_remove in Hrun. rewrite bind_run in Hrun.
  cbv beta iota zeta delta [gets] in Hrun. case_bool_decide as Hf.
  { rewrite bind_run in Hrun. cbv beta iota delta [tree_update modify] in Hrun.
    eapply update_commit_spec in Hrun as (?&?&?&Htr);
      [|reflexivity|apply delete_file_wf; apply Hok|done|apply Hok].
    split_and!; [done..|]. destruct r; [by left|done..]. }
  case_bool_decide as Hd; cbn [negb] in Hrun.
  2:{ injection Hrun as <- <-. split_and!; [done|apply storage_only_refl|done..]. }
  rewrite bind_run in Hrun. cbv beta iota delta [tree_update modify] in Hrun.
  eapply update_commit_spec in Hrun as (?&?&?&Htr);
    [|reflexivity|apply remove_subtree_wf; [apply Hok|done]|done|apply Hok].
  split_and!; [done..|]. destruct r; [by right|done..].
Qed.

(** What a rename leaves behind, by its result. *)
Definition rename_post (from to : str) p (r : res Error ()) p' : Prop :=
  bm_ok p' ∧ storage_only p p' ∧ r ≠ Panic ∧
  match r with
  | Ok _ =>
      (from = to ∧ bm_tree p' = bm_tree p)
      ∨ (¬ in_tree (bm_tree p) to ∧ ¬ under from to ∧
         ∃ t1, parents_added (parent to) (bm_tree p) (Ok ()) t1 ∧ moved from to t1 (bm_tree p'))
  | Err e =>
      bm_tree p' = bm_tree p
      ∨ (e = NotFound from ∧ parents_added (parent to) (bm_tree p) (Ok ()) (bm_tree p'))
  | Panic => False
  end.

Lemma rename_post_same from to p e : bm_ok p → rename_post from to p (Err e) p.
Proof. intros Hok. split_and!; [done|apply storage_only_refl|done|by left]. Qed.

(** The moved tree is committed. *)
Lemma move_commit_spec from to p t1 t2 r p' :
  bm_ok p → ¬ in_tree (bm_tree p) to → ¬ under from to →
  parents_added (parent to) (bm_tree p) (Ok ()) t1 → moved from to t1 t2 → tree_wf t2 →
  commit (bm_tree p) (set_tree t2 p) = (r, p') → rename_post from to p r p'.
Proof.
  intros Hok Hnt Hnest Hadd Hm Hwf Hrun.
  eapply (update_commit_spec _ p) in Hrun as (?&?&?&Htr); [|done..|apply Hok].
  split_and!; [done..|]. destruct r as [[]|e|]; [right|by left|done].
  split_and!; [done..|]. exists t1. split; [done|]. by rewrite Htr.
Qed.

Lemma rename_spec from to p r p' :
  bm_ok p → clean to → to ≠ "" → bm_storage_rename from to p = (r, p') →
  rename_post from to p r p'.
Proof.
  intros Hok Hc Hne Hrun. unfold bm_storage_rename in Hrun.
  case_bool_decide as Heq.
  { injection Hrun as <- <-. split_and!; [done|apply storage_only_refl|done|by left]. }
  rewrite bind_run in Hrun. cbv beta iota zeta delta [gets] in Hrun.
  destruct (tree_exists (bm_tree p) to) eqn:Hex;
    [injection Hrun as <- <-; by apply rename_post_same|].
  destruct (match strip_prefix from to with Some s => starts_with "/" s | None => false end)
    eqn:Hpre; [injection Hrun as <- <-; by apply rename_post_same|].
  assert (¬ in_tree (bm_tree p) to) as Hnt.
  { unfold tree_exists in Hex. apply orb_false_elim in Hex
      as [?%bool_decide_eq_false ?%bool_decide_eq_false]. by intros [?|?]. }
  assert (¬ under from to) as Hnest.
  { intros [?|Hx%suffix_slash_spec]; [done|]. by rewrite Hpre in Hx. }
  rewrite bind_run in Hrun. destruct (add_parents (parent to) p) as [ra pa] eqn:Ha.
  apply add_parents_spec in Ha as [Hpa Hadd]; [|by apply clean_parent|apply Hok].
  pose proof Hadd as (Hfl&Hsub&Hwf1&Hnp&Hall&Hokp&Herr).
  destruct ra as [[]|e|]; [| |done].
  2:{ injection Hrun as <- <-. destruct (Herr e eq_refl) as [Ht _].
      rewrite Hpa, Ht. destruct p; by apply rename_post_same. }
  pose proof (parents_added_free to _ _ _ (ok_tree p Hok) Hne Hnt Hadd) as Hfree.
  rewrite bind_run in Hrun. cbv beta iota zeta delta [gets id] in Hrun.
  destruct (files (bm_tree pa) !! from) as [data|] eqn:Hfrom.
  - rewrite bind_run in Hrun. cbv beta iota delta [tree_update modify] in Hrun.
    rewrite (set_tree_over _ _ _ _ Hpa) in Hrun.
    eapply move_commit_spec in Hrun; [done..|by apply move_file_moved|].
    apply insert_file_wf; [by apply delete_file_wf|done| |by apply Hokp].
    simpl. intros ?. apply (Hfree to); [by left|apply under_refl].
  - case_bool_decide as Hd; cbn [negb] in Hrun.
    2:{ injection Hrun as <- <-. rewrite Hpa. split_and!; [|by destruct p|done|by right; split].
        split; [done|apply Hok|apply Hok]. }
    rewrite bind_run in Hrun. cbv beta iota delta [tree_update modify] in Hrun.
    rewrite (set_tree_over _ _ _ _ Hpa) in Hrun.
    pose proof (move_subtree_moved (bm_tree pa) from to Hwf1 Hd Hnest Hfree) as Hm.
    eapply move_commit_spec in Hrun; [done..|exact Hm|].
    by eapply moved_wf; [..|exact Hm|apply Hokp].
Qed.

(** ** The storage methods *)
Inductive bm_op : Type :=
| BmRead (path : str)
| BmWrite (path : str) (data : list byte)
| BmList (path : str)
| BmCreateDirAll (path : str)
| BmRemove (path : str)
| BmRename (from to : str)
| BmExists (path : str).

Definition bm_exec (o : bm_op) : M P Error () :=
  match o with
  | BmRead path => storage_read path ;; mret ()
  | BmWrite path data => storage_write path data
  | BmList path => storage_list path ;; mret ()
  | BmCreateDirAll path => storage_create_dir_all path
  | BmRemove path => storage_remove path
  | BmRename from to => storage_rename from to
  | BmExists path => storage_exists path ;; mret ()
  end.

(** The paths of an operation, as the file system passes them. *)
Definition bm_paths (o : bm_op) : list str :=
  match o with
  | BmRead path | BmWrite path _ | BmList path | BmCreateDirAll path | BmRemove path
  | BmExists path => [path]
  | BmRename from to => [from; to]
  end.

Lemma reads_keeps {A} (f : P → res Error A) p r p' :
  bm_ok p → f p ≠ Panic → (reads f;; mret ()) p = (r, p') →
  bm_ok p' ∧ storage_only p p' ∧ r ≠ Panic.
Proof.
  intros Hok Hf. unfold reads. rewrite bind_run. intros Hrun.
  assert (p' = p ∧ r ≠ Panic) as [-> ?] by (destruct (f p); [|..]; by injection Hrun as <- <-).
  split_and!; [done|apply storage_only_refl|done].
Qed.

Lemma bm_exec_ok o p r p' :
  bm_ok p → Forall mount_path (bm_paths o) → bm_exec o p = (r, p') →
  bm_ok p' ∧ storage_only p p' ∧ r ≠ Panic.
Proof.
  intros Hok Hm Hrun. destruct o as [path|path data|path|path|path|from to|path];
    cbn [bm_exec bm_paths] in *; apply Forall_cons in Hm as [[Hc Hne]%mount_clean Hm].
  - apply (reads_keeps _ p) in Hrun; [done..|]. cbv beta.
    destruct (bool_decide _); [done|]. by destruct (files (bm_tree p) !! path).
  - by destruct (write_spec _ _ _ _ _ Hok Hc Hne Hrun) as (?&?&?&_).
  - apply (reads_keeps _ p) in Hrun; [done..|]. cbv beta zeta.
    destruct (negb _); [by destruct (bool_decide _)|done].
  - by destruct (create_spec _ _ _ _ Hok Hc Hrun) as (?&?&?&_).
  - by destruct (remove_spec _ _ _ _ Hok Hrun) as (?&?&?&_).
  - apply Forall_cons in Hm as [[Hc' Hne']%mount_clean _].
    by destruct (rename_spec _ _ _ _ _ Hok Hc' Hne' Hrun) as (?&?&?&_).
  - by apply (reads_keeps (λ p, Ok (tree_exists (bm_tree p) path)) p) in Hrun.
Qed.

(** C17. The tree stays well formed: after any storage operation on mount paths, and
    so after any sequence of them, whether it succeeds, is refused or the device
    fails, every file and directory still lies in a directory of the tree and no
    path is both; nothing but the tree and the store changes, and no operation
    panics. *)
Theorem storage_keeps_tree (ops : list bm_op) p :
  bm_ok p → Forall (λ o, Forall mount_path (bm_paths o)) ops →
  let p' := foldl (λ p o, (bm_exec o p).2) p ops in
  bm_ok p' ∧ storage_only p p'
  ∧ ∀ o, Forall mount_path (bm_paths o) → (bm_exec o p').1 ≠ Panic.
Proof.
  intros Hok Hops. revert p Hok. induction Hops as [|o ops Ho Hops IH]; intros p Hok.
  - cbn [foldl]. split_and!; [done|apply storage_only_refl|]. intros o Ho.
    destruct (bm_exec o p) as [r p'] eqn:E. by destruct (bm_exec_ok o p r p' Hok Ho E) as (_&_&?).
  - simpl. destruct (bm_exec o p) as [r p1] eqn:E. simpl.
    destruct (bm_exec_ok o p r p1 Hok Ho E) as (Hok1&H1&_).
    destruct (IH p1 Hok1) as (?&H2&?). split_and!; [done|by eapply storage_only_trans|done].
Qed.

(** Writing is all or nothing: a write that succeeds makes the content readable
    under its path, keeps every other file and every directory, and adds no
    directory but ancestors of the path; a write that fails, for whatever reason,
    leaves the tree exactly as it was. *)
Theorem write_all_or_nothing rel data p r p' :
  bm_ok p → mount_path rel → storage_write rel data p = (r, p') →
  match r with
  | Ok _ =>
      storage_read rel p' = (Ok data, p')
      ∧ (∀ k, k ≠ rel → files (bm_tree p') !! k = files (bm_tree p) !! k)
      ∧ directories (bm_tree p) ⊆ directories (bm_tree p')
      ∧ ∀ q, q ∈ directories (bm_tree p') → q ∈ directories (bm_tree p) ∨ under q (parent rel)
  | _ => bm_tree p' = bm_tree p
  end.
Proof.
  intros Hok [Hc Hne]%mount_clean Hrun.
  destruct (write_spec rel data p r p' Hok Hc Hne Hrun) as (Hok'&_&_&Hr).
  destruct r as [[]|e|]; [|done..].
  destruct Hr as (Hnd&t1&(Hfl&Hsub&_&_&Hall&_)&Ht). split_and!.
  - cbn. unfold bm_storage_read, reads.
    assert (files (bm_tree p') !! rel = Some data) as Hrel
      by (rewrite Ht; simpl; by rewrite lookup_insert_eq).
    rewrite bool_decide_false, Hrel; [done|].
    intros ?%(wf_disjoint _ (ok_tree _ Hok')). congruence.
  - intros k Hk. rewrite Ht. simpl. by rewrite lookup_insert_ne, Hfl.
  - by rewrite Ht.
  - intros q. rewrite Ht. simpl. intros [?|[_ ?]]%Hall; auto.
Qed.

(** C18. A rename that succeeds moves the whole subtree: what was at or below [from]
    is at the same place below [to], nothing is left at [from], and every other file
    and directory stays (up to new ancestors of [to]). *)
Theorem rename_moves_subtree from to p p' :
  bm_ok p → mount_path from → mount_path to → from ≠ to →
  storage_rename from to p = (Ok (), p') →
  let t := bm_tree p in let t' := bm_tree p' in
  (∀ s, tail_path s → files t' !! (to ++ s) = files t !! (from ++ s))
  ∧ (∀ s, tail_path s → from ++ s ∈ directories t → to ++ s ∈ directories t')
  ∧ (∀ k, under from k → files t' !! k = None ∧ k ∉ directories t')
  ∧ (∀ k, ¬ under from k → ¬ under to k →
       files t' !! k = files t !! k ∧ (k ∈ directories t → k ∈ directories t')
       ∧ (k ∈ directories t' → k ∈ directories t ∨ under k (parent to))).
Proof.
  intros Hok _ [Hc Hne]%mount_clean Hft Hrun t t'.
  destruct (rename_spec from to p (Ok ()) p' Hok Hc Hne Hrun) as (_&_&_&[[? _]|Hr]); [done|].
  destruct Hr as (_&_&t1&(Hfl&Hsub&_&_&Hall&_)&[Hf Hd Hfrom Hrest]).
  fold t in Hfl, Hsub, Hall. fold t' in Hf, Hd, Hfrom, Hrest. split_and!.
  - intros s Hs. by rewrite Hf, Hfl.
  - intros s Hs Hin. by apply Hd, Hsub.
  - done.
  - intros k Hkf Hkt. destruct (Hrest k Hkf Hkt) as [Hk1 Hk2]. rewrite Hk1, Hfl.
    split_and!; [done|intros ?; by apply Hk2, Hsub|].
    intros [?|[_ ?]]%Hk2%Hall; auto.
Qed.

(** ** Persistence *)

(** A rename whose source does not exist fails, but the parents of the target have
    been created by then and stay: the tree in memory has directories that the store
    was never asked to save. *)
Theorem failed_rename_leaves_directories p from to :
  bm_ok p → mount_path to → from ≠ to → ¬ in_tree (bm_tree p) from →
  ¬ in_tree (bm_tree p) to → ¬ under from to →
  (∀ f, under f (parent to) → files (bm_tree p) !! f = None) →
  ∃ p', storage_rename from to p = (Err (NotFound from), p')
    ∧ (parent to = "" ∨ parent to ∈ directories (bm_tree p'))
    ∧ bm_persistence p' = bm_persistence p.
Proof.
  intros Hok [Hc Hne]%mount_clean Hft Hfrom Hto Hnest Hfiles. cbn.
  unfold bm_storage_rename. rewrite bool_decide_false by done. rewrite bind_run.
  cbv beta iota zeta delta [gets]. unfold in_tree in *.
  assert (tree_exists (bm_tree p) to = false) as ->.
  { unfold tree_exists. by rewrite !bool_decide_false by tauto. }
  destruct (match strip_prefix from to with Some s => starts_with "/" s | None => false end)
    eqn:E.
  { exfalso. apply Hnest. right. by apply suffix_slash_spec. }
  rewrite bind_run. destruct (add_parents (parent to) p) as [ra pa] eqn:Ha.
  apply add_parents_spec in Ha as [Hpa (Hfl&_&_&Hnp&Hall&Hokp&Herr)];
    [|by apply clean_parent|apply Hok].
  destruct ra as [[]|e|]; [| |done].
  2:{ destruct (Herr e eq_refl) as [_ (f&_&[d Hd]&Hu)]. by rewrite (Hfiles f Hu) in Hd. }
  rewrite bind_run. unfold id. rewrite Hfl.
  destruct (files (bm_tree p) !! from) eqn:Hf; [exfalso; apply Hfrom; right; by eexists|].
  rewrite bool_decide_false.
  - exists pa. split_and!; [done|by apply Hokp|by rewrite Hpa].
  - intros [?|[Hf0 Hu]]%Hall; [by apply Hfrom; left|]. apply Hnest.
    eapply under_trans; [exact Hu|]. unfold parent in *.
    destruct (rsplit_once slash to) as [[l m]|] eqn:Hr.
    + apply rsplit_once_Some in Hr as [-> _]. right. by exists m.
    + by destruct Hu as [<-|[r Hr']]; [|destruct from].
Qed.

(** The operations that save the tree. *)
Definition changes (o : bm_op) : Prop :=
  match o with
  | BmWrite _ _ | BmCreateDirAll _ | BmRemove _ => True
  | BmRename from to => from ≠ to
  | _ => False
  end.

Lemma changes_commit o p p' :
  bm_ok p → Forall mount_path (bm_paths o) → changes o → bm_exec o p = (Ok (), p') →
  ∃ previous p1, bm_persistence p1 = bm_persistence p ∧ commit previous p1 = (Ok (), p').
Proof.
  intros Hok Hm Ho Hrun.
  assert (∀ path pa, clean path → add_parents path p = (Ok (), pa) →
            bm_persistence pa = bm_persistence p) as Hadd.
  { intros path pa Hc Ha. apply add_parents_spec in Ha as [-> _]; [done..|apply Hok]. }
  destruct o as [|path data| |path|path|from to|]; try done;
    cbn [bm_exec bm_paths] in *; apply Forall_cons in Hm as [[Hc _]%mount_clean Hm].
  - apply bind_ok_inv in Hrun as (q&p0&[-> ->]%gets_ok_inv&Hrun).
    case_bool_decide; [done|]. apply bind_ok_inv in Hrun as ([]&pa&Ha&Hrun).
    apply Hadd in Ha; [|by apply clean_parent].
    apply bind_ok_inv in Hrun as ([]&pb&->%modify_ok_inv&Hrun).
    eexists _, _. split; [|exact Hrun]. done.
  - apply bind_ok_inv in Hrun as (q&p0&[-> ->]%gets_ok_inv&Hrun).
    apply bind_ok_inv in Hrun as ([]&pa&Ha&Hrun). apply Hadd in Ha; [|done].
    eexists _, _. split; [|exact Hrun]. done.
  - apply bind_ok_inv in Hrun as (q&p0&[-> ->]%gets_ok_inv&Hrun).
    case_bool_decide; [|case_bool_decide; [|done]]; cbn [negb] in Hrun;
      apply bind_ok_inv in Hrun as ([]&pb&->%modify_ok_inv&Hrun);
      eexists _, _; (split; [|exact Hrun]); done.
  - apply Forall_cons in Hm as [[Hc' _]%mount_clean _].
    unfold storage_rename in Hrun. cbn in Hrun. unfold bm_storage_rename in Hrun.
    rewrite bool_decide_false in Hrun by done.
    apply bind_ok_inv in Hrun as (q&p0&[-> ->]%gets_ok_inv&Hrun).
    destruct (tree_exists _ _); [done|].
    destruct (match strip_prefix from to with Some s => starts_with "/" s | None => false end);
      [done|].
    apply bind_ok_inv in Hrun as ([]&pa&Ha&Hrun). apply Hadd in Ha; [|by apply clean_parent].
    apply bind_ok_inv in Hrun as (q&p0&[-> ->]%gets_ok_inv&Hrun). unfold id in Hrun.
    destruct (files (bm_tree pa) !! from); [|case_bool_decide; [|done]];
      cbn [negb] in Hrun; apply bind_ok_inv in Hrun as ([]&pb&->%modify_ok_inv&Hrun);
      eexists _, _; (split; [|exact Hrun]); done.
Qed.

Lemma commit_current previous p p' st t :
  bm_persistence p = Some st → current st t → st_generation st < u64_max →
  tree_utf8 (bm_tree p') → commit previous p = (Ok (), p') →
  ∃ st', bm_persistence p' = Some st' ∧ current st' (Some (bm_tree p')).
Proof.
  intros Hp Hcur Hg Hu. unfold commit, persist. rewrite Hp.
  destruct (save (bm_tree p) st) as [[[]|e|] st'] eqn:E; simpl; [|done..].
  intros [= <-]. exists st'. split; [done|].
  apply (save_cases st t) in E; [|done]. inversion E; subst. simpl in *.
  by eapply written_current.
Qed.

(** C19. What succeeded survives a reboot: after a storage operation that reported
    success, the store holds the new tree, and a platform started from the device
    has exactly that tree, whatever initial files it is given, as long as the tree
    is not empty.  (A stored tree without any file or directory, which a removal of
    the last one leaves, counts as a new disk: the start installs the initial files
    again, [emptied_disk_is_new].  The generation counter must not be at its
    maximum and the names must be UTF-8, which [String]s are.) *)
Theorem success_survives_reboot o p p' st t :
  bm_ok p → Forall mount_path (bm_paths o) → changes o →
  bm_persistence p = Some st → current st t → st_generation st < u64_max →
  bm_exec o p = (Ok (), p') → tree_utf8 (bm_tree p') →
  ∃ st', bm_persistence p' = Some st' ∧ current st' (Some (bm_tree p')) ∧
    (bm_tree p' ≠ tree_default →
     ∀ hw freq initial, ∃ p2,
       bm_new hw freq initial (Some (st_device st')) = Ok p2 ∧ bm_tree p2 = bm_tree p').
Proof.
  intros Hok Hm Ho Hp Hcur Hg Hrun Hu.
  destruct (changes_commit o p p' Hok Hm Ho Hrun) as (prev&p1&Hp1&Hc).
  rewrite <-Hp1 in Hp. destruct (commit_current prev p1 p' st t Hp Hcur Hg Hu Hc)
    as (st'&Hst'&Hcur'). exists st'. split_and!; [done..|]. intros Hne hw freq initial.
  destruct (current_reopen st' _ Hcur') as (st2&Hopen&_).
  unfold bm_new. rewrite Hopen. cbn [map_err mbind res_bind].
  destruct (hw_counter hw) as [started hw']. cbn [bm_tree default from_option id].
  assert (bool_decide (files (bm_tree p') = ∅) && bool_decide (directories (bm_tree p') = ∅)
          = false) as ->; [|by eexists].
  apply not_true_iff_false. intros [?%bool_decide_eq_true ?%bool_decide_eq_true]%andb_true_iff.
  apply Hne. destruct (bm_tree p'). by simplify_eq/=.
Qed.
End platform_ops.
