(* ===== verification/BareMetalContract.v ===== *)
(** * The bare-metal platform keeps the core's contract

    [ReliablePlatform] for [BareMetalPlatform] on a reliable device and hardware, so
    the guarantees of the core hold on it; a small concrete machine; and the
    consequences of the storage code the core does not intend. *)
From S2P Require Import Prelude RustStr Api Mock Vfs Contract Security App System Storage BareMetal.

(** The counter does not run below zero, and random bytes fill the buffer. *)
Class ReliableHardware (H : Type) `{!Hardware H} : Prop := {
  law_counter h : 0 ≤ (hw_counter h).1;
  law_entropy out h bytes h' : hw_entropy out h = Some (Ok bytes, h') → length bytes = length out;
  law_hw_random out h bytes h' : hw_random out h = (Some bytes, h') → length bytes = length out }.

Section contract.
Context {D : Type} `{BD : !BlockDevice D} `{RD : !ReliableDevice D}.
Context {H : Type} `{HW : !Hardware H} `{RH : !ReliableHardware H}.
Notation P := (BareMetalPlatform D H).
Implicit Types p : P.

Lemma on_hw_keeps {A} (m : M H Error A) p r p' :
  bm_ok p → on_hw m p = (r, p') → bm_ok p' ∧ bm_tree p' = bm_tree p.
Proof.
  intros [Ht Hf Hs]. unfold on_hw, zoom. destruct (m (bm_hw p)). intros [= <- <-].
  by split; [split|].
Qed.

Lemma on_net_keeps {A} (m : Z → Z → M H Error A) p r p' :
  bm_ok p → on_net m p = (r, p') → bm_ok p' ∧ bm_tree p' = bm_tree p.
Proof. unfold on_net. rewrite bind_run. apply on_hw_keeps. Qed.

Lemma tree_stored p p' :
  bm_ok p' ∧ bm_tree p' = bm_tree p →
  bm_ok p' ∧ ∀ k, files (bm_tree p') !! k = files (bm_tree p) !! k.
Proof. by intros [? ->]. Qed.

Lemma bm_clock p :
  bm_ok p → ∃ t p', bm_monotonic_millis p = (Ok t, p') ∧ is_u64 t ∧ bm_ok p'
    ∧ ∀ k, files (bm_tree p') !! k = files (bm_tree p) !! k.
Proof.
  intros Hok. unfold bm_monotonic_millis. rewrite bind_run.
  cbv beta iota delta [gets id]. rewrite bind_run.
  destruct (on_hw (pure_hw hw_counter) p) as [r p1] eqn:E.
  pose proof (on_hw_keeps _ _ _ _ Hok E) as Hk.
  unfold on_hw, zoom, pure_hw in E. pose proof (law_counter (bm_hw p)) as Hc.
  destruct (hw_counter (bm_hw p)) as [c h']. simpl in Hc. injection E as <- <-.
  pose proof (ok_frequency p Hok). rewrite bool_decide_false by lia.
  eexists _, _. split; [done|]. split; [|by apply tree_stored].
  unfold saturating_mul64, saturating_sub, is_u64.
  set (x := Z.min (Z.max (c - bm_started p) 0 * 1000) u64_max).
  assert (0 ≤ x ≤ u64_max) by (unfold x, u64_max; lia).
  split; [apply Z.div_pos; lia|]. apply Z.div_le_upper_bound; [lia|]. nia.
Qed.

#[export] Program Instance BareMetal_Reliable : ReliablePlatform P := {|
  plat_ok := bm_ok;
  stored p rel := files (bm_tree p) !! rel |}.
Next Obligation.
  intros p rel d Hok _ Hd. cbn. unfold bm_storage_read, reads.
  rewrite bool_decide_false, Hd; [done|]. intros ?%(wf_disjoint _ (ok_tree _ Hok)). congruence.
Qed.
Next Obligation.
  intros p rel Hok _ Hd. cbn. unfold bm_storage_read, reads. rewrite Hd.
  case_bool_decide; by eexists.
Qed.
Next Obligation.
  intros p rel Hok _ Hs. cbn. unfold bm_storage_exists, gets, tree_exists.
  by rewrite (bool_decide_true (is_Some _)).
Qed.
Next Obligation.
  intros p rel d p' Hok [Hc Hne]%mount_clean Hrun.
  destruct (write_spec rel d p _ p' Hok Hc Hne Hrun) as (?&_&_&_&t1&(Hfl&_)&Ht).
  rewrite Ht. simpl. split_and!; [done|by rewrite lookup_insert_eq|].
  intros k Hk. by rewrite lookup_insert_ne, Hfl.
Qed.
Next Obligation.
  intros p rel d e p' Hok [Hc Hne]%mount_clean Hrun.
  destruct (write_spec rel d p _ p' Hok Hc Hne Hrun) as (?&_&_&Ht). by rewrite Ht.
Qed.
Next Obligation.
  intros p rel d Hok [Hc Hne]%mount_clean. destruct (storage_write rel d p) as [r p'] eqn:E.
  by destruct (write_spec rel d p _ p' Hok Hc Hne E) as (_&_&?&_).
Qed.
Next Obligation.
  intros p rel r p' Hok [Hc _]%mount_clean Hrun.
  destruct (create_spec rel p r p' Hok Hc Hrun) as (?&_&?&Ht). split; [done|].
  destruct r; [|by rewrite Ht..]. destruct Ht as (Hfl&_). by rewrite Hfl.
Qed.
Next Obligation.
  intros p rel r p' Hok _ [= <- <-]. done.
Qed.
Next Obligation. by intros p rel r p' Hok _ [= <- <-]. Qed.
Next Obligation.
  intros p rel r p' Hok Hm Hrun.
  destruct (remove_spec rel p r p' Hok Hrun) as (?&_&_&Ht). split; [done|]. intros k Hk.
  destruct r; [|by rewrite Ht..]. destruct Ht as [[_ ->]|[Hd ->]].
  - cbn [files]. rewrite lookup_delete_ne; [done|]. intros ->. apply Hk, under_refl.
  - rewrite remove_subtree_files by (by apply (wf_disjoint _ (ok_tree _ Hok))).
    by rewrite decide_False.
Qed.
Next Obligation.
  intros p from to r p' Hok _ [Hc Hne]%mount_clean Hrun.
  destruct (rename_spec from to p r p' Hok Hc Hne Hrun) as (?&_&?&Ht). split; [done|].
  intros k Hf Hk. destruct r as [|e|]; [| |done].
  - destruct Ht as [[_ ->]|(_&_&t1&(Hfl&_)&Hm)]; [done|].
    destruct (moved_rest _ _ _ _ Hm k Hf Hk) as [-> _]. by rewrite Hfl.
  - destruct Ht as [->|[_ (Hfl&_)]]; [done|]. by rewrite Hfl.
Qed.
Next Obligation. intros p Hok. by apply bm_clock. Qed.
Next Obligation.
  intros p buf b p' Hok Hrun. cbn in Hrun. unfold bm_fill_random, on_hw, zoom in Hrun.
  destruct (hw_entropy buf (bm_hw p)) as [[[bytes|e|] h]|] eqn:E; simplify_eq/=.
  - by eapply law_entropy.
  - destruct (hw_random buf (bm_hw p)) as [[bytes|] h] eqn:E2; simplify_eq/=.
    by eapply law_hw_random.
Qed.
Next Obligation.
  intros p buf r p' Hok Hrun. cbn in Hrun. unfold bm_fill_random in Hrun.
  apply tree_stored. by eapply on_hw_keeps.
Qed.
Next Obligation.
  intros p text r p' Hok Hrun. apply tree_stored, (on_hw_keeps (hw_console_write text) _ _ _ Hok Hrun).
Qed.
Next Obligation.
  intros p prompt secret r p' Hok Hrun. apply tree_stored, (on_hw_keeps (hw_console_read_line prompt secret) _ _ _ Hok Hrun).
Qed.
Next Obligation.
  intros p r p' Hok Hrun. apply tree_stored, (on_hw_keeps hw_console_clear _ _ _ Hok Hrun).
Qed.
Next Obligation.
  intros p [Ht Hf Hs]. cbn. by destruct (hw_poll_cancel (bm_hw p)).
Qed.
Next Obligation.
  intros p r p' Hok Hrun. apply tree_stored, (on_net_keeps hw_net_status _ _ _ Hok Hrun).
Qed.
Next Obligation.
  intros p host port r p' Hok Hrun. apply tree_stored, (on_net_keeps (λ s f, hw_net_connect s f host port) _ _ _ Hok Hrun).
Qed.
Next Obligation.
  intros p handle data r p' Hok Hrun. apply tree_stored, (on_net_keeps (λ s f, hw_net_send s f handle data) _ _ _ Hok Hrun).
Qed.
Next Obligation.
  intros p handle out r p' Hok Hrun. apply tree_stored, (on_net_keeps (λ s f, hw_net_recv s f handle out) _ _ _ Hok Hrun).
Qed.
Next Obligation.
  intros p handle r p' Hok Hrun. apply tree_stored, (on_net_keeps (λ s f, hw_net_close s f handle) _ _ _ Hok Hrun).
Qed.
End contract.

(** ** A rename that fails half way *)

(** ** A small machine *)
Record Sim := mk_sim { sim_input : list str; sim_time : Z }.

#[local] Instance Sim_Hardware : Hardware Sim := {|
  hw_architecture := "x86_64";
  hw_console_write _ := mret ();
  hw_console_read_line _ _ := λ h,
    match sim_input h with
    | [] => (Ok "", h)
    | line :: rest => (Ok line, mk_sim rest (sim_time h))
    end;
  hw_console_clear := mret ();
  hw_poll_cancel h := (false, h);
  hw_counter h := (Z.max 0 (sim_time h), h);
  hw_entropy _ _ := None;
  hw_random out h := (Some (mock_random 0 out), h);
  hw_net_status _ _ := throw (Unsupported "no network device is available");
  hw_net_connect _ _ _ _ := throw (Unsupported "no network device is available");
  hw_net_send _ _ _ _ := throw (Unsupported "no network device is available");
  hw_net_recv _ _ _ _ := throw (Unsupported "no network device is available");
  hw_net_close _ _ _ := throw (Unsupported "no network device is available") |}.

#[local] Instance Sim_Reliable : ReliableHardware Sim.
Proof.
  split.
  - intros h. simpl. lia.
  - done.
  - intros out h bytes h' [= <- <-]. apply length_mock_random.
Qed.

#[local] Existing Instance example_argon2.

Notation SimPlatform := (BareMetalPlatform MemoryDevice Sim).

(** A machine after first-run setup with password [pw], without a disk. *)
Definition sim_platform (input : list str) : SimPlatform :=
  mk_bm (mk_sim input 0) tree_default None 0 1000.

Definition sim_system (input : list str) : System SimPlatform :=
  let s := (initialize true (system_new (sim_platform ["y"; "pw"; "pw"]))).2 in
  set_platform (set_hw (mk_sim input 0) (into_platform s)) s.

Definition sim_app : AppIdentity :=
  {| app_id := "mover"; app_source_path := "/apps/mover.rhai"; app_trusted := false;
     app_api_version := 1; app_capabilities := [FsRead "/user"; FsWrite "/user"] |}.

Definition sim_session : AppSession SimPlatform :=
  session_new (sim_system ["y"; "pw"; "y"; "pw"; "y"]) sim_app [] "/user".

(** An untrusted application that may write below [/user] can have the security
    file moved: the prompts name only [/user/config] and [/user/shown], the rename of
    the directory is granted, the verifier is then read back from [/user/shown], and
    the system has no password any more.  Reading or writing the file itself is
    refused throughout. *)
Theorem rename_exposes_verifier :
  let read := api_exec (OpReadText "/user/config/security") sim_session in
  let s1 := (api_exec (OpRename "/user/config" "/user/shown") sim_session).2 in
  read.1 = Err (PermissionDenied "security configuration is not exposed to applications")
  ∧ (api_exec (OpRename "/user/config" "/user/shown") sim_session).1 = Ok ()
  ∧ (api_exec (OpReadText "/user/shown/security") s1).1
    = ok_or InvalidPath (stored (into_platform (ses_system sim_session)) verifier_rel)
  ∧ is_Some (stored (into_platform (ses_system sim_session)) verifier_rel)
  ∧ (on_security has_password (ses_system sim_session)).1 = Ok true
  ∧ (on_security has_password (ses_system s1)).1 = Ok false.
Proof.
  split_and!; [by_vm..| |by_vm|by_vm]. by_eval.
Qed.

(** ** Concrete runs *)
Definition sim_tree : FileTree :=
  mk_tree {["user/a/f" := "data"]} {["user"; "user/a"]}.

Definition sim_disk : SnapshotStore MemoryDevice :=
  (save sim_tree (mk_store (memory_new 16) 8 None 0)).2.

Definition sim_machine : SimPlatform := mk_bm (mk_sim [] 0) sim_tree (Some sim_disk) 0 1000.

Lemma sim_tree_wf : tree_wf sim_tree.
Proof.
  split.
  - intros p [Hd|[d Hd]]; simpl in *.
    + assert (p = "user" ∨ p = "user/a") as [->| ->].
      { apply elem_of_union in Hd as [Hd|Hd]; apply elem_of_singleton in Hd; auto. }
      { split; [done|]. by left. }
      { split; [done|]. right. by_eval. }
    + apply lookup_singleton_Some in Hd as [<- _]. split; [done|]. right. by_eval.
  - intros p Hd. simpl in *. apply lookup_singleton_None. intros <-.
    apply elem_of_union in Hd as [Hd|Hd]; by apply elem_of_singleton in Hd.
Qed.

Lemma sim_disk_current : current sim_disk (Some sim_tree).
Proof. apply (open_current (st_device sim_disk)); [by vm_compute|exact example_fits|by_vm]. Qed.

Lemma sim_machine_ok : bm_ok sim_machine.
Proof.
  split; [exact sim_tree_wf|by vm_compute|].
  eapply current_safe, sim_disk_current.
Qed.

Lemma storage_keeps_tree_witness :
  let ops := [BmWrite "user/b/g" "x"; BmRename "user/a" "user/c/d"; BmRemove "user/b"] in
  bm_ok sim_machine ∧ Forall (λ o, Forall mount_path (bm_paths o)) ops ∧
  bm_ok (foldl (λ p o, (bm_exec o p).2) sim_machine ops).
Proof.
  intros ops. assert (Forall (λ o, Forall mount_path (bm_paths o)) ops) by by_eval.
  split_and!; [exact sim_machine_ok|done|].
  by apply (storage_keeps_tree ops sim_machine); [exact sim_machine_ok|].
Defined.

Lemma write_all_or_nothing_witness :
  bm_ok sim_machine ∧ mount_path "user/b/g" ∧
  let p' := (storage_write "user/b/g" "x" sim_machine).2 in
  storage_write "user/b/g" "x" sim_machine = (Ok (), p') ∧
  storage_read "user/b/g" p' = (Ok "x", p').
Proof.
  assert (mount_path "user/b/g") as Hm by by_eval.
  split_and!; [exact sim_machine_ok|done|]. intros p'.
  assert (storage_write "user/b/g" "x" sim_machine = (Ok (), p')) as Hw.
  { rewrite (surjective_pairing (storage_write _ _ _)). apply (f_equal (λ r, (r, p'))). by_vm. }
  split; [done|].
  apply (write_all_or_nothing "user/b/g" "x" sim_machine (Ok ()) p');
    [exact sim_machine_ok|done|done].
Defined.

Lemma rename_moves_subtree_witness :
  bm_ok sim_machine ∧
  let p' := (storage_rename "user/a" "user/c/d" sim_machine).2 in
  storage_rename "user/a" "user/c/d" sim_machine = (Ok (), p') ∧
  files (bm_tree p') !! ("user/c/d" ++ "/f") = files (bm_tree sim_machine) !! ("user/a" ++ "/f").
Proof.
  split; [exact sim_machine_ok|]. intros p'.
  assert (storage_rename "user/a" "user/c/d" sim_machine = (Ok (), p')) as Hw.
  { rewrite (surjective_pairing (storage_rename _ _ _)). apply (f_equal (λ r, (r, p'))). by_vm. }
  split; [done|].
  apply (rename_moves_subtree "user/a" "user/c/d" sim_machine p' sim_machine_ok);
    [by_eval|by_eval|done|done|right; by eexists].
Defined.

Lemma failed_rename_leaves_directories_witness :
  ¬ in_tree (bm_tree sim_machine) "user/none" ∧ "user/c" ∉ directories (bm_tree sim_machine) ∧
  ∃ p', storage_rename "user/none" "user/c/d" sim_machine = (Err (NotFound "user/none"), p')
    ∧ (parent "user/c/d" = "" ∨ parent "user/c/d" ∈ directories (bm_tree p'))
    ∧ bm_persistence p' = bm_persistence sim_machine.
Proof.
  assert (∀ k, k ∉ ["user"; "user/a"; "user/a/f"] → ¬ in_tree (bm_tree sim_machine) k) as Hn.
  { intros k Hk [Hd|[d Hd]]; apply Hk; simpl in Hd.
    - apply elem_of_union in Hd as [Hd|Hd]; apply elem_of_singleton in Hd as ->; by_eval.
    - apply lookup_singleton_Some in Hd as [<- _]. by_eval. }
  split_and!; [apply Hn; by_eval|by_eval|].
  apply (failed_rename_leaves_directories sim_machine "user/none" "user/c/d");
    [exact sim_machine_ok|by_eval|done|apply Hn; by_eval|apply Hn; by_eval|by_eval|].
  intros f Hf. simpl. apply lookup_singleton_None. intros <-.
  revert Hf. by_eval.
Defined.

Lemma success_survives_reboot_witness :
  let p' := (storage_write "user/b/g" "x" sim_machine).2 in
  bm_ok sim_machine ∧ current sim_disk (Some sim_tree) ∧
  bm_exec (BmWrite "user/b/g" "x") sim_machine = (Ok (), p') ∧
  bm_tree p' ≠ tree_default ∧
  ∃ st', bm_persistence p' = Some st' ∧ current st' (Some (bm_tree p')) ∧
    (bm_tree p' ≠ tree_default →
     ∀ hw freq initial, ∃ p2,
       bm_new hw freq initial (Some (st_device st')) = Ok p2 ∧ bm_tree p2 = bm_tree p').
Proof.
  intros p'. assert (bm_exec (BmWrite "user/b/g" "x") sim_machine = (Ok (), p')) as Hw.
  { rewrite (surjective_pairing (bm_exec _ _)). apply (f_equal (λ r, (r, p'))). by_vm. }
  split_and!; [exact sim_machine_ok|exact sim_disk_current|exact Hw|by_eval|].
  assert (bm_tree p' = mk_tree (<["user/b/g" := "x"]> {["user/a/f" := "data"]})
            {["user"; "user/a"; "user/b"]}) as Ht by by_vm.
  apply (success_survives_reboot (BmWrite "user/b/g" "x") sim_machine p' sim_disk
    (Some sim_tree)); [exact sim_machine_ok|by_eval|done|done|exact sim_disk_current
    |by vm_compute|exact Hw|].
  rewrite Ht. split; simpl.
  - intros q Hq. apply elem_of_union in Hq as [Hq|Hq];
      [apply elem_of_union in Hq as [Hq|Hq]|]; apply elem_of_singleton in Hq as ->; by vm_compute.
  - intros q [d Hd]. apply lookup_insert_Some in Hd as [[<- _]|[_ [<- _]%lookup_singleton_Some]];
      by vm_compute.
Defined.

(** A removal that succeeds may leave an empty tree; the next start takes that disk
    for a new one and installs the initial files. *)
Example emptied_disk_is_new :
  let p' := (bm_exec (BmRemove "user") sim_machine).2 in
  (bm_exec (BmRemove "user") sim_machine).1 = Ok () ∧ bm_tree p' = tree_default ∧
  match bm_persistence p' with
  | Some st => match bm_new (mk_sim [] 0) 1000 [{| if_path := "apps/a"; if_data := "boot" |}]
                       (Some (st_device st)) with
               | Ok p2 => files (bm_tree p2) !! ("apps/a" : str)
               | _ => None
               end
  | None => None
  end = Some ("boot" : str).
Proof. split_and!; by_vm. Qed.
