(* ===== verification/Arch.v ===== *)
(** * The architecture layer (platforms/bare-metal/src/arch.rs)

    The processor's instructions (port input and output, the time counter, the random
    instruction, device registers and page-table memory) are type classes; the code
    above them is modelled: the serial ports, the PS/2 keyboard, the random fill with
    its retries and, on AArch64, the page-table walk that maps the UART, with its loads and
    stores at virtual addresses.

    A busy-wait loop gets fuel, the number of polls it is given; [hang] is the outcome
    of a wait that is not over by then. *)
From S2P Require Import Prelude RustStr Api.

(** ** x86_64 *)
Class PortIo (H : Type) : Type := {
  inb : Z → H → Z * H;
  outb : Z → Z → H → H;
  rdtsc : H → (Z * Z) * H;
  cpuid1_ecx : H → Z;
  (** The value and the carry flag. *)
  rdrand : H → (Z * bool) * H }.

Record ArchIo := mk_arch { arch_shift : bool; arch_caps_lock : bool }.

Definition arch_new : ArchIo := mk_arch false false.

Definition letter_of (scan : Z) : option byte :=
  match scan with
  | 0x1e => Some "a"%byte | 0x30 => Some "b"%byte | 0x2e => Some "c"%byte
  | 0x20 => Some "d"%byte | 0x12 => Some "e"%byte | 0x21 => Some "f"%byte
  | 0x22 => Some "g"%byte | 0x23 => Some "h"%byte | 0x17 => Some "i"%byte
  | 0x24 => Some "j"%byte | 0x25 => Some "k"%byte | 0x26 => Some "l"%byte
  | 0x32 => Some "m"%byte | 0x31 => Some "n"%byte | 0x18 => Some "o"%byte
  | 0x19 => Some "p"%byte | 0x10 => Some "q"%byte | 0x13 => Some "r"%byte
  | 0x1f => Some "s"%byte | 0x14 => Some "t"%byte | 0x16 => Some "u"%byte
  | 0x2f => Some "v"%byte | 0x11 => Some "w"%byte | 0x2d => Some "x"%byte
  | 0x15 => Some "y"%byte | 0x2c => Some "z"%byte
  | _ => None
  end.

Definition symbol_of (scan : Z) (shift : bool) : option byte :=
  match scan, shift with
  | 0x02, false => Some "1"%byte | 0x03, false => Some "2"%byte
  | 0x04, false => Some "3"%byte | 0x05, false => Some "4"%byte
  | 0x06, false => Some "5"%byte | 0x07, false => Some "6"%byte
  | 0x08, false => Some "7"%byte | 0x09, false => Some "8"%byte
  | 0x0a, false => Some "9"%byte | 0x0b, false => Some "0"%byte
  | 0x02, true => Some "!"%byte | 0x03, true => Some "@"%byte
  | 0x04, true => Some "#"%byte | 0x05, true => Some "$"%byte
  | 0x06, true => Some "%"%byte | 0x07, true => Some "^"%byte
  | 0x08, true => Some "&"%byte | 0x09, true => Some "*"%byte
  | 0x0a, true => Some "("%byte | 0x0b, true => Some ")"%byte
  | 0x0c, false => Some "-"%byte | 0x0c, true => Some "_"%byte
  | 0x0d, false => Some "="%byte | 0x0d, true => Some "+"%byte
  | 0x1a, false => Some "["%byte | 0x1a, true => Some "{"%byte
  | 0x1b, false => Some "]"%byte | 0x1b, true => Some "}"%byte
  | 0x27, false => Some ";"%byte | 0x27, true => Some ":"%byte
  | 0x28, false => Some "'"%byte | 0x28, true => Some x22
  | 0x29, false => Some "`"%byte | 0x29, true => Some "~"%byte
  | 0x2b, false => Some "\"%byte | 0x2b, true => Some "|"%byte
  | 0x33, false => Some ","%byte | 0x33, true => Some "<"%byte
  | 0x34, false => Some "."%byte | 0x34, true => Some ">"%byte
  | 0x35, false => Some "/"%byte | 0x35, true => Some "?"%byte
  | 0x39, _ => Some " "%byte
  | 0x1c, _ => Some x0a
  | 0x0e, _ => Some x08
  | 0x0f, _ => Some x09
  | _, _ => None
  end.

Definition map_scan_code (scan : Z) (shift caps : bool) : option byte :=
  match letter_of scan with
  | Some byte => Some (if xorb shift caps then to_ascii_uppercase byte else byte)
  | None => symbol_of scan shift
  end.

(** The match of [keyboard_read] on the scan code. *)
Definition key_event (a : ArchIo) (scan : Z) : option byte * ArchIo :=
  match scan with
  | 0x2a | 0x36 => (None, mk_arch true (arch_caps_lock a))
  | 0xaa | 0xb6 => (None, mk_arch false (arch_caps_lock a))
  | 0x3a => (None, mk_arch (arch_shift a) (negb (arch_caps_lock a)))
  | _ => if negb (bool_decide (Z.land scan 0x80 = 0)) then (None, a)
         else (map_scan_code scan (arch_shift a) (arch_caps_lock a), a)
  end.

Section x86.
Context {H : Type} `{PIO : !PortIo H}.

(** [ArchIo]'s methods work on the driver state and the machine. *)
Definition keyboard_read (s : ArchIo * H) : option byte * (ArchIo * H) :=
  let '(a, h) := s in
  let '(status, h) := inb 0x64 h in
  if bool_decide (Z.land status 1 = 0) then (None, (a, h))
  else
    let '(scan, h) := inb 0x60 h in
    let '(r, a) := key_event a scan in
    (r, (a, h)).

Definition serial_read (h : H) : option byte * H :=
  let '(status, h) := inb (0x3f8 + 5) h in
  if bool_decide (Z.land status 1 = 0) then (None, h)
  else let '(b, h) := inb 0x3f8 h in (Some (z2b b), h).

Definition poll_byte (s : ArchIo * H) : option byte * (ArchIo * H) :=
  let '(a, h) := s in
  let '(r, h) := serial_read h in
  match r with
  | Some byte => (Some byte, (a, h))
  | None => keyboard_read (a, h)
  end.

Fixpoint write_byte (fuel : nat) (byte : byte) : M H Error () :=
  match fuel with
  | O => hang
  | S fuel =>
      status ← effect (inb (0x3f8 + 5));
      if bool_decide (Z.land status 0x20 = 0) then write_byte fuel byte
      else modify (outb 0x3f8 (b2z byte))
  end.

Definition emergency_write (fuel : nat) (text : str) : M H Error () :=
  for_each (write_byte fuel) text.

Definition initialize_com1 (h : H) : H :=
  foldl (λ h '(port, value), outb port value h) h
    [(0x3f8 + 1, 0x00); (0x3f8 + 3, 0x80); (0x3f8, 0x01); (0x3f8 + 1, 0x00);
     (0x3f8 + 3, 0x03); (0x3f8 + 2, 0xc7); (0x3f8 + 4, 0x0b)].

Definition counter (h : H) : Z * H :=
  let '((low, high), h) := rdtsc h in (Z.lor (Z.shiftl high 32) low, h).

(** At most ten attempts per chunk. *)
Fixpoint rdrand_retry (attempts : nat) (h : H) : option Z * H :=
  match attempts with
  | O => (None, h)
  | S attempts =>
      let '((value, ready), h) := rdrand h in
      if (ready : bool) then (Some value, h) else rdrand_retry attempts h
  end.

(** The bytes written so far, and the chunks of at most eight bytes still to fill. *)
Fixpoint fill_chunks (fuel : nat) (rest : nat) (h : H) : option (list byte) * H :=
  match fuel, rest with
  | _, O | O, _ => (Some [], h)
  | S fuel, _ =>
      match rdrand_retry 10 h with
      | (None, h) => (None, h)
      | (Some value, h) =>
          let n := Nat.min 8 rest in
          match fill_chunks fuel (rest - n) h with
          | (Some bytes, h) => (Some (take n (to_le_bytes 8 value) ++ bytes), h)
          | (None, h) => (None, h)
          end
      end
  end.

(** [fill_hardware_random]: whether it succeeded, and the buffer. *)
Definition fill_hardware_random (output : list byte) (h : H) : (bool * list byte) * H :=
  if bool_decide (Z.land (cpuid1_ecx h) (Z.shiftl 1 30) = 0) then ((false, output), h)
  else
    match fill_chunks (length output) (length output) h with
    | (Some bytes, h) => ((true, bytes), h)
    | (None, h) => ((false, replicate (length output) x00), h)
    end.
End x86.

(** ** AArch64: the PL011 and its page

    Physical memory holds 64-bit words at byte addresses; what was never written is
    zero.  The code reaches it through virtual addresses: [phys] is where a load or
    store of the kernel goes, under the mappings the boot loader left.  The direct map
    has physical address [a] at [hhdm + a], and the kernel image, with its static page
    tables at [tables_virtual], is mapped from [executable_virtual] on. *)
Record Translation := mk_translation {
  tr_memory : gmap Z Z;
  tr_ttbr1 : Z;
  tr_mair : Z }.

Definition word_at (m : gmap Z Z) (address : Z) : Z := default 0 (m !! address).

Definition UART_PHYSICAL : Z := 0x09000000.
Definition UART_VIRTUAL : Z := 0xfffffffd09000000.
Definition address_mask : Z := 0x0000fffffffff000.

Definition table_index (shift : Z) : Z := Z.land (Z.shiftr UART_VIRTUAL shift) 0x1ff.

Section mapping.
Context (phys : Z → Z).

Definition load_word (va : Z) (m : gmap Z Z) : Z := word_at m (phys va).
Definition store_word (va value : Z) (m : gmap Z Z) : gmap Z Z := <[phys va := value]> m.

(** [write_bytes] of zero over one page. *)
Definition zero_page (page : Z) (m : gmap Z Z) : gmap Z Z :=
  foldl (λ m i, store_word (page + Z.of_nat i * 8) 0 m) m (seq 0 512).

(** The loop over the three upper levels: the table reached so far and the memory. *)
Fixpoint walk_tables (hhdm reserved tables_virtual : Z) (level : nat) (shifts : list Z)
    (current_table : Z) (m : gmap Z Z) : Z * gmap Z Z :=
  match shifts with
  | [] => (current_table, m)
  | shift :: shifts =>
      let table := saturating_add64 hhdm current_table in
      let entry := table + table_index shift * 8 in
      let descriptor := load_word entry m in
      if bool_decide (Z.land descriptor 0x3 = 0x3)
      then walk_tables hhdm reserved tables_virtual (S level) shifts
             (Z.land descriptor address_mask) m
      else
        let next_physical := reserved + Z.of_nat level * 4096 in
        let m := zero_page (tables_virtual + Z.of_nat level * 4096) m in
        let m := store_word entry (Z.lor next_physical 0x3) m in
        walk_tables hhdm reserved tables_virtual (S level) shifts next_physical m
  end.

Definition device_descriptor : Z :=
  Z.lor (Z.lor (Z.lor (Z.lor (Z.lor (Z.lor UART_PHYSICAL 0x3) (Z.shiftl 2 2))
    (Z.shiftl 0x2 8)) (Z.shiftl 1 10)) (Z.shiftl 1 53)) (Z.shiftl 1 54).

Definition map_device_page (hhdm executable_physical executable_virtual tables_virtual : Z)
    (t : Translation) : bool * Translation :=
  if bool_decide (hhdm = 0) then (false, t)
  else if bool_decide (tables_virtual < executable_virtual) then (false, t)
  else
    let reserved := saturating_add64 executable_physical (tables_virtual - executable_virtual) in
    let '(table, m) :=
      walk_tables hhdm reserved tables_virtual 0 [39; 30; 21]
        (Z.land (tr_ttbr1 t) address_mask) (tr_memory t) in
    let m := store_word (saturating_add64 hhdm table + table_index 12 * 8) device_descriptor m in
    (true, mk_translation m (tr_ttbr1 t) (Z.land (tr_mair t) (Z.lnot (Z.shiftl 0xff 16)))).
End mapping.

(** The registers of the PL011, by base address and offset. *)
Class Pl011 (H : Type) : Type := {
  read_register : Z → Z → H → Z * H;
  write_register : Z → Z → Z → H → H }.

Definition pl011_base (hhdm : Z) (mapped : bool) : Z :=
  if mapped then UART_VIRTUAL else saturating_add64 hhdm UART_PHYSICAL.

Definition initialize_pl011 {H} `{!Pl011 H} (phys : Z → Z) (hhdm tables_virtual : Z)
    (executable_address : option (Z * Z)) (t : Translation) (h : H) : Z * Translation * H :=
  let '(mapped, t) :=
    match executable_address with
    | Some (physical, virtual_address) =>
        map_device_page phys hhdm physical virtual_address tables_virtual t
    | None => (false, t)
    end in
  let base := pl011_base hhdm mapped in
  (base, t,
   foldl (λ h '(offset, value), write_register base offset value h) h
     [(0x30, 0); (0x24, 13); (0x28, 1); (0x2c, 0x70); (0x38, 0x7ff); (0x30, 0x301)]).

Fixpoint pl011_write_byte {H} `{!Pl011 H} (fuel : nat) (base : Z) (byte : byte) : M H Error () :=
  if bool_decide (base = 0) then mret ()
  else
    match fuel with
    | O => hang
    | S fuel =>
        flags ← effect (read_register base 0x18);
        if negb (bool_decide (Z.land flags (Z.shiftl 1 5) = 0)) then pl011_write_byte fuel base byte
        else modify (write_register base 0 (b2z byte))
    end.

Definition pl011_serial_read {H} `{!Pl011 H} (base : Z) (h : H) : option byte * H :=
  if bool_decide (base = 0) then (None, h)
  else
    let '(flags, h) := read_register base 0x18 h in
    if negb (bool_decide (Z.land flags (Z.shiftl 1 4) = 0)) then (None, h)
    else let '(data, h) := read_register base 0 h in (head (to_le_bytes 4 data), h).

(** ** The keyboard *)
Fixpoint keys (a : ArchIo) (scans : list Z) : list byte * ArchIo :=
  match scans with
  | [] => ([], a)
  | scan :: scans =>
      let '(r, a) := key_event a scan in
      let '(bs, a) := keys a scans in
      (option_list r ++ bs, a)
  end.

(** The US layout, row by row as on the keyboard: the scan code (set 1) of the row's
    first key, and what its keys type without and with shift.  Backspace, tab, enter
    and the space bar are rows of their own. *)
Definition us_rows : list (Z * str * str) :=
  [ (0x02, "1234567890-=", "!@#$%^&*()_+");
    (0x0e, [x08], [x08]); (0x0f, [x09], [x09]);
    (0x10, "qwertyuiop[]", "QWERTYUIOP{}"); (0x1c, [x0a], [x0a]);
    (0x1e, "asdfghjkl;'`", "ASDFGHJKL:" ++ [x22] ++ "~");
    (0x2b, "\zxcvbnm,./", "|ZXCVBNM<>?"); (0x39, " ", " ") ].

Fixpoint row_keys (scan : Z) (shift : bool) (row : str) : list (Z * bool * byte) :=
  match row with
  | [] => []
  | b :: row => (scan, shift, b) :: row_keys (scan + 1) shift row
  end.

(** Every key of the layout with the byte it types, by the state of shift. *)
Definition us_keys : list (Z * bool * byte) :=
  flat_map (λ '(scan, plain, shifted), row_keys scan false plain ++ row_keys scan true shifted)
    us_rows.

(** The key (with or without shift) that types a byte. *)
Definition key_for (b : byte) : option (Z * bool) :=
  fst <$> List.find (λ k, bool_decide (k.2 = b)) us_keys.

(** Press and release, with shift held where it is needed. *)
Definition type_key (b : byte) : list Z :=
  match key_for b with
  | Some (scan, false) => [scan; scan + 0x80]
  | Some (scan, true) => [0x2a; scan; scan + 0x80; 0xaa]
  | None => []
  end.

Definition typable (b : byte) : bool :=
  bool_decide (32 ≤ b2z b ≤ 126) || bool_decide (b2z b ∈ [8; 9; 10]).

Definition swap_case (b : byte) : byte :=
  if is_ascii_lowercase b then to_ascii_uppercase b else to_ascii_lowercase b.

Lemma keys_app a s1 s2 :
  keys a (s1 ++ s2) =
    let '(b1, a1) := keys a s1 in let '(b2, a2) := keys a1 s2 in (b1 ++ b2, a2).
Proof.
  revert a. induction s1 as [|scan s1 IH]; intros a; cbn [keys app].
  - by destruct (keys a s2).
  - destruct (key_event a scan) as [r a1]. rewrite IH.
    destruct (keys a1 s1) as [b1 a2]. destruct (keys a2 s2) as [b2 a3].
    by rewrite (assoc_L (++)).
Qed.

Lemma type_key_ok caps b :
  typable b = true →
  keys (mk_arch false caps) (type_key b)
    = ([if caps : bool then swap_case b else b], mk_arch false caps).
Proof. destruct caps, b; intros H; (discriminate H || (vm_compute; reflexivity)). Qed.

Lemma key_event_not_escape a scan : (key_event a scan).1 ≠ Some x1b.
Proof.
  unfold key_event, map_scan_code, letter_of, symbol_of. destruct a as [shift caps].
  repeat case_match; simplify_eq/=; try done; destruct caps; done.
Qed.

(** A key types exactly what the layout says. *)
Lemma key_event_us scan shift b :
  (key_event (mk_arch shift false) scan).1 = Some b ↔ (scan, shift, b) ∈ us_keys.
Proof.
  split.
  - unfold key_event, map_scan_code, letter_of, symbol_of. cbn [arch_shift arch_caps_lock].
    destruct shift; intros H; repeat case_match; simplify_eq/=; first [done|by_eval].
  - intros Hin. assert (Forall (λ k, (key_event (mk_arch k.1.2 false) k.1.1).1 = Some k.2) us_keys)
      as Hall by by_eval.
    by apply (proj1 (Forall_forall _ _) Hall) in Hin.
Qed.



(** ** The page tables

    [translate] is the hardware's walk: three levels of table descriptors and a page
    descriptor. *)
Definition index_of (va shift : Z) : Z := Z.land (Z.shiftr va shift) 0x1ff.

Fixpoint descend (m : gmap Z Z) (va : Z) (shifts : list Z) (table : Z) : option Z :=
  match shifts with
  | [] => Some table
  | shift :: shifts =>
      let d := word_at m (table + index_of va shift * 8) in
      if bool_decide (Z.land d 0x3 = 0x3) then descend m va shifts (Z.land d address_mask)
      else None
  end.

Definition translate (t : Translation) (va : Z) : option Z :=
  match descend (tr_memory t) va [39; 30; 21] (Z.land (tr_ttbr1 t) address_mask) with
  | Some table =>
      let d := word_at (tr_memory t) (table + index_of va 12 * 8) in
      if bool_decide (Z.land d 0x3 = 0x3)
      then Some (Z.lor (Z.land d address_mask) (Z.land va 0xfff)) else None
  | None => None
  end.

Lemma word_at_insert m a b w :
  word_at (<[b := w]> m) a = if decide (a = b) then w else word_at m a.
Proof.
  unfold word_at. case_decide; subst; [by rewrite lookup_insert_eq|by rewrite lookup_insert_ne].
Qed.

(** The same walk on physical addresses: what the code does when its loads and stores
    reach the tables. *)
Definition clear_page (page : Z) (m : gmap Z Z) : gmap Z Z :=
  foldl (λ m i, <[page + Z.of_nat i * 8 := 0]> m) m (seq 0 512).

Fixpoint link_tables (reserved : Z) (level : nat) (shifts : list Z)
    (table : Z) (m : gmap Z Z) : Z * gmap Z Z :=
  match shifts with
  | [] => (table, m)
  | shift :: shifts =>
      let entry := table + table_index shift * 8 in
      let d := word_at m entry in
      if bool_decide (Z.land d 0x3 = 0x3)
      then link_tables reserved (S level) shifts (Z.land d address_mask) m
      else
        let next := reserved + Z.of_nat level * 4096 in
        link_tables reserved (S level) shifts next
          (<[entry := Z.lor next 0x3]> (clear_page next m))
  end.

(** The first entry on the walk of [va] that is no table descriptor. *)
Fixpoint missing_entry (m : gmap Z Z) (va : Z) (shifts : list Z) (table : Z) : option Z :=
  match shifts with
  | [] => None
  | shift :: shifts =>
      let entry := table + index_of va shift * 8 in
      let d := word_at m entry in
      if bool_decide (Z.land d 0x3 = 0x3)
      then missing_entry m va shifts (Z.land d address_mask) else Some entry
  end.

Lemma word_at_clear_page page m a :
  word_at (clear_page page m) a
  = if bool_decide (page ≤ a < page + 4096 ∧ (a - page) mod 8 = 0) then 0 else word_at m a.
Proof.
  unfold clear_page. assert (∀ n, word_at (foldl (λ m i, <[page + Z.of_nat i * 8 := 0]> m) m (seq 0 n)) a
    = if bool_decide (page ≤ a < page + Z.of_nat n * 8 ∧ (a - page) mod 8 = 0) then 0
      else word_at m a) as Hn.
  { induction n as [|n IH]; [by rewrite bool_decide_false by lia|].
    rewrite seq_S, foldl_app. cbn [foldl]. rewrite word_at_insert, IH, Nat.add_0_l.
    destruct (decide (a = page + Z.of_nat n * 8)) as [->|Hne].
    - rewrite bool_decide_true; [done|]. split; [lia|].
      replace (page + Z.of_nat n * 8 - page) with (Z.of_nat n * 8) by lia. apply Z.mod_mul. lia.
    - apply (f_equal (λ b : bool, if b then 0 else word_at m a)), bool_decide_ext.
      split; intros [??]; (split; [|done]); [lia|].
      pose proof (Z.div_mod (a - page) 8). lia. }
  apply (Hn 512%nat).
Qed.

(** Page-aligned 48-bit addresses survive in a descriptor. *)
Lemma address_mask_eq : address_mask = Z.shiftl (Z.ones 36) 12.
Proof. reflexivity. Qed.

Lemma land_mask n : Z.land n address_mask = n / 4096 mod 2 ^ 36 * 4096.
Proof.
  rewrite <-Z.land_ones, address_mask_eq by lia.
  change 4096 with (2 ^ 12). rewrite <-Z.shiftr_div_pow2, <-Z.shiftl_mul_pow2 by lia.
  apply Z.bits_inj'. intros i Hi. rewrite Z.land_spec, !Z.shiftl_spec by lia.
  destruct (decide (i < 12)).
  - rewrite (Z.testbit_neg_r _ (i - 12)), (Z.testbit_neg_r (Z.land _ _)) by lia. apply andb_false_r.
  - rewrite Z.land_spec, Z.shiftr_spec by lia. by replace (i - 12 + 12) with i by lia.
Qed.

Lemma land_mask_bounds n : 0 ≤ Z.land n address_mask ∧ Z.land n address_mask mod 4096 = 0.
Proof.
  rewrite land_mask. pose proof (Z.mod_pos_bound (n / 4096) (2 ^ 36) eq_refl).
  split; [lia|]. apply Z.mod_mul. lia.
Qed.

Lemma table_descriptor n :
  0 ≤ n < 2 ^ 48 → n mod 4096 = 0 →
  Z.land (Z.lor n 0x3) 0x3 = 0x3 ∧ Z.land (Z.lor n 0x3) address_mask = n.
Proof.
  intros Hn Ha. assert (Z.lor n 3 = n + 3) as ->.
  { assert (Z.land n 3 = 0) as Hl.
    { change 3 with (Z.ones 2). rewrite Z.land_ones by lia. change (2 ^ 2) with 4.
      pose proof (Z.div_mod n 4096). replace n with (n / 4096 * 1024 * 4) by lia.
      apply Z.mod_mul. lia. }
    pose proof (Z.add_lor_land n 3). lia. }
  split.
  - change 3 with (Z.ones 2) at 2. rewrite Z.land_ones by lia. change (2 ^ 2) with 4.
    pose proof (Z.div_mod n 4096). replace (n + 3) with (3 + n / 4096 * 1024 * 4) by lia.
    by rewrite Z.mod_add by lia.
  - rewrite land_mask. pose proof (Z.div_mod n 4096).
    replace ((n + 3) / 4096) with (n / 4096).
    + rewrite Z.mod_small; [lia|]. split; [apply Z.div_pos; lia|apply Z.div_lt_upper_bound; lia].
    + apply Z.div_unique with 3; lia.
Qed.

Section page_tables.
Context (reserved limit : Z) (Hres : 0 ≤ reserved) (Hend : reserved + 3 * 4096 ≤ limit)
  (Hlimit : limit ≤ 2 ^ 48) (Halign : reserved mod 4096 = 0).

Definition reserved_page (level : nat) (a : Z) : Prop :=
  reserved + Z.of_nat level * 4096 ≤ a < reserved + 3 * 4096.

(** The tables in use on the way are below [limit], and none of them is one of the
    reserved pages still to be handed out. *)
Fixpoint clear_path (level : nat) (shifts : list Z) (table : Z) (m : gmap Z Z) : Prop :=
  ¬ reserved_page level table ∧ table + 4096 ≤ limit ∧
  match shifts with
  | [] => True
  | shift :: shifts =>
      let d := word_at m (table + table_index shift * 8) in
      Z.land d 0x3 = 0x3 → clear_path (S level) shifts (Z.land d address_mask) m
  end.

Lemma entry_page table i :
  table mod 4096 = 0 → 0 ≤ i < 512 → (table + i * 8) mod 4096 = i * 8.
Proof.
  intros Ht Hi. pose proof (Z.div_mod table 4096).
  replace (table + i * 8) with (i * 8 + table / 4096 * 4096) by lia.
  rewrite Z.mod_add by lia. apply Z.mod_small. lia.
Qed.

Lemma index_range va shift : 0 ≤ index_of va shift < 512.
Proof.
  unfold index_of. change 0x1ff with (Z.ones 9). rewrite Z.land_ones by lia.
  apply Z.mod_pos_bound. lia.
Qed.

Lemma aligned_page level table i :
  table mod 4096 = 0 → 0 ≤ i < 512 → ¬ reserved_page level table →
  ¬ reserved_page level (table + i * 8).
Proof.
  unfold reserved_page. intros Ht Hi Hn Hin. apply Hn.
  pose proof (Z.div_mod table 4096). pose proof (Z.div_mod reserved 4096). lia.
Qed.

(** A reserved page that was just cleared and linked has no live entry. *)
Lemma fresh_entry level s entry w m :
  (level < 3)%nat → ¬ reserved_page level entry →
  let next := reserved + Z.of_nat level * 4096 in
  word_at (<[entry := w]> (clear_page next m)) (next + table_index s * 8) = 0
  ∧ reserved_page level (next + table_index s * 8).
Proof.
  intros Hlev Hentry next.
  pose proof (index_range UART_VIRTUAL s) as Hi.
  change (index_of UART_VIRTUAL s) with (table_index s) in Hi.
  assert (reserved_page level (next + table_index s * 8)) as Hin
    by (unfold reserved_page, next; lia).
  split; [|done]. rewrite word_at_insert, decide_False by congruence.
  rewrite word_at_clear_page, bool_decide_true; [done|]. split; [lia|].
  replace (next + table_index s * 8 - next) with (table_index s * 8) by lia.
  apply Z.mod_mul. lia.
Qed.

Lemma fresh_table_clear level shifts entry w m :
  (level < 3)%nat → ¬ reserved_page level entry →
  let next := reserved + Z.of_nat level * 4096 in
  clear_path (S level) shifts next (<[entry := w]> (clear_page next m)).
Proof.
  intros Hlev Hentry next.
  destruct shifts as [|s shifts]; cbn [clear_path];
    (split; [unfold reserved_page, next; lia|]); (split; [unfold next; lia|]); [done|].
  destruct (fresh_entry level s entry w m Hlev Hentry) as [Hz _]. fold next in Hz.
  by rewrite Hz.
Qed.

Lemma fresh_table_missing level shifts entry w m a :
  (level < 3)%nat → ¬ reserved_page level entry →
  let next := reserved + Z.of_nat level * 4096 in
  missing_entry (<[entry := w]> (clear_page next m)) UART_VIRTUAL shifts next = Some a →
  reserved_page level a.
Proof.
  intros Hlev Hentry next. destruct shifts as [|s shifts]; cbn [missing_entry]; [done|].
  change (index_of UART_VIRTUAL s) with (table_index s).
  destruct (fresh_entry level s entry w m Hlev Hentry) as [Hz Hin]. fold next in Hz, Hin.
  rewrite Hz. rewrite bool_decide_false by done. by intros [= <-].
Qed.

(** The words a walk leaves alone. *)
Definition untouched (level : nat) (shifts : list Z) (a : Z) : Prop :=
  ¬ reserved_page level a ∧ ∀ s, s ∈ shifts → a mod 4096 ≠ table_index s * 8.

Lemma link_tables_spec shifts : ∀ level table m t' m',
  (level + length shifts ≤ 3)%nat → NoDup (table_index <$> shifts) →
  0 ≤ table → table mod 4096 = 0 → clear_path level shifts table m →
  link_tables reserved level shifts table m = (t', m') →
  descend m' UART_VIRTUAL shifts table = Some t'
  ∧ 0 ≤ t' ∧ t' mod 4096 = 0
  ∧ (∀ a, untouched level shifts a → word_at m' a = word_at m a)
  ∧ (∀ a, ¬ reserved_page level a → missing_entry m UART_VIRTUAL shifts table ≠ Some a →
       word_at m' a = word_at m a).
Proof.
  induction shifts as [|s shifts IH]; intros level table m t' m' Hlen Hnd H0 Ha Hclear Hw;
    cbn [link_tables descend missing_entry] in *.
  { injection Hw as <- <-. by split_and!. }
  apply NoDup_cons in Hnd as [Hnin Hnd]. destruct Hclear as (Hpage&_&Hclear).
  change (index_of UART_VIRTUAL s) with (table_index s).
  pose proof (index_range UART_VIRTUAL s) as Hidx. change (index_of UART_VIRTUAL s) with (table_index s) in Hidx.
  set (entry := table + table_index s * 8) in *.
  assert (¬ reserved_page level entry) as Hentry by by apply aligned_page.
  assert (∀ a, ¬ reserved_page level a → ¬ reserved_page (S level) a) as Hmono
    by (unfold reserved_page; lia).
  assert (untouched (S level) shifts entry) as Hent.
  { split; [auto|]. intros s' Hs'. unfold entry. rewrite entry_page by done. intros He.
    apply Hnin. apply list_elem_of_fmap. exists s'. split; [lia|done]. }
  case_bool_decide as Hd.
  - destruct (land_mask_bounds (word_at m entry)) as [Hp Hm].
    destruct (IH (S level) _ m t' m' ltac:(simpl in *; lia) Hnd Hp Hm (Hclear Hd) Hw)
      as (H1&?&?&Hfr&Hlive).
    rewrite (Hfr entry Hent), bool_decide_true by done.
    split_and!; [done..| |intros; apply Hlive; auto].
    intros a [Hna Has]. apply Hfr. split; [auto|]. intros s' ?. apply Has. by right.
  - set (next := reserved + Z.of_nat level * 4096) in *.
    set (m1 := <[entry := Z.lor next 3]> (clear_page next m)) in *.
    assert (next mod 4096 = 0) as Hna by (unfold next; rewrite Z.mod_add by lia; done).
    assert (0 ≤ next < 2 ^ 48) as Hnb by (unfold next; simpl in *; lia).
    assert (∀ a, ¬ reserved_page level a → a ≠ entry → word_at m1 a = word_at m a) as Hm1.
    { intros a Hr Hne. unfold m1. rewrite word_at_insert, decide_False by done.
      rewrite word_at_clear_page, bool_decide_false; [done|]. unfold reserved_page in Hr.
      simpl in Hlen. unfold next. lia. }
    destruct (IH (S level) next m1 t' m' ltac:(simpl in *; lia) Hnd ltac:(lia) Hna)
      as (H1&?&?&Hfr&Hlive); [|done|].
    { apply fresh_table_clear; [simpl in Hlen; lia|done]. }
    destruct (table_descriptor next Hnb Hna) as [Hd3 Hdm].
    assert (word_at m' entry = Z.lor next 3) as He.
    { rewrite (Hfr entry Hent). unfold m1. by rewrite word_at_insert, decide_True. }
    rewrite He, bool_decide_true, Hdm by done. split_and!; [done..| |].
    + intros a [Hr Has]. rewrite Hfr.
      * apply Hm1; [done|]. intros ->. apply (Has s); [left|]. unfold entry. by apply entry_page.
      * split; [auto|]. intros s' ?. apply Has. by right.
    + intros a Hr Hmiss. rewrite <-(Hm1 a Hr) by congruence. apply Hlive; [auto|].
      intros Hin. by apply fresh_table_missing in Hin; [|simpl in Hlen; lia|].
Qed.
End page_tables.

Lemma descend_agree m m' va shifts table :
  (∀ a, a mod 4096 ∈ (λ s, index_of va s * 8) <$> shifts → word_at m' a = word_at m a) →
  0 ≤ table → table mod 4096 = 0 →
  descend m' va shifts table = descend m va shifts table.
Proof.
  revert table. induction shifts as [|s shifts IH]; intros table Hag H0 Ha; cbn [descend]; [done|].
  rewrite Hag.
  - case_bool_decide; [|done]. destruct (land_mask_bounds (word_at m (table + index_of va s * 8))).
    apply IH; [|done..]. intros a Hin. apply Hag. by right.
  - rewrite entry_page by (done || apply index_range). left.
Qed.

(** The boot loader's mappings, as Limine documents them: the direct map has the
    physical address [a] at [hhdm + a], for all memory below [limit], and the image's
    pages, the static tables among them, follow each other in physical memory as they do
    in virtual memory. *)
Record boot_mappings (phys : Z → Z) (hhdm limit reserved tables_virtual : Z) : Prop := {
  map_limit : limit ≤ 2 ^ 48;
  map_range : 0 ≤ hhdm ∧ hhdm + limit ≤ 2 ^ 64;
  map_direct a : 0 ≤ a < limit → phys (hhdm + a) = a;
  map_image i : 0 ≤ i < 3 * 4096 → phys (tables_virtual + i) = reserved + i }.

Section mapped.
Context (phys : Z → Z) (hhdm limit reserved tables_virtual : Z).
Context (Hmap : boot_mappings phys hhdm limit reserved tables_virtual).
Context (Hres : 0 ≤ reserved) (Hend : reserved + 3 * 4096 ≤ limit).
Context (Halign : reserved mod 4096 = 0).

Lemma direct_entry table i :
  0 ≤ table → table + 4096 ≤ limit → 0 ≤ i < 512 →
  phys (saturating_add64 hhdm table + i * 8) = table + i * 8.
Proof.
  destruct Hmap as [Hl Hr Hd _]. intros Ht Ht' Hi. unfold saturating_add64, u64_max in *.
  rewrite Z.min_l, <-Z.add_assoc by lia. apply Hd. lia.
Qed.

Lemma zero_page_clears level m :
  (level < 3)%nat →
  zero_page phys (tables_virtual + Z.of_nat level * 4096) m
  = clear_page (reserved + Z.of_nat level * 4096) m.
Proof.
  intros Hl. unfold zero_page, clear_page.
  assert (Forall (λ i, (i < 512)%nat) (seq 0 512)) as Hall
    by (apply Forall_seq; intros; lia).
  revert m. induction Hall as [|i rest Hi Hall IH]; intros m; cbn [foldl]; [done|].
  rewrite IH. f_equal. unfold store_word.
  rewrite <-!Z.add_assoc, (map_image _ _ _ _ _ Hmap) by lia. done.
Qed.

Lemma walk_tables_links shifts : ∀ level table m,
  (level + length shifts ≤ 3)%nat → 0 ≤ table → table mod 4096 = 0 →
  clear_path reserved limit level shifts table m →
  walk_tables phys hhdm reserved tables_virtual level shifts table m
    = link_tables reserved level shifts table m
  ∧ (link_tables reserved level shifts table m).1 + 4096 ≤ limit.
Proof.
  induction shifts as [|s shifts IH]; intros level table m Hl Ht Ha Hclear;
    cbn [walk_tables link_tables length] in *; destruct Hclear as (Hpage&Htop&Hclear); [done|].
  pose proof (index_range UART_VIRTUAL s) as Hi.
  change (index_of UART_VIRTUAL s) with (table_index s) in Hi.
  unfold load_word. rewrite direct_entry by done. case_bool_decide as Hd.
  - destruct (land_mask_bounds (word_at m (table + table_index s * 8))).
    apply IH; [lia|done..|by apply Hclear].
  - unfold store_word. rewrite direct_entry, zero_page_clears by (done || lia).
    apply IH; [lia|lia|by rewrite Z.mod_add by lia|].
    apply fresh_table_clear; [done..|lia|by apply aligned_page].
Qed.
End mapped.

(** The attribute [AttrIdx] 2 of the memory attributes. *)
Definition attribute_2 (mair : Z) : Z := Z.land (Z.shiftr mair 16) 0xff.

Lemma mair_device mair : attribute_2 (Z.land mair (Z.lnot (Z.shiftl 0xff 16))) = 0.
Proof.
  unfold attribute_2. apply Z.bits_inj'. intros i Hi.
  rewrite Z.land_spec, Z.shiftr_spec, Z.land_spec, Z.lnot_spec, Z.shiftl_spec, Z.bits_0 by lia.
  replace (i + 16 - 16) with i by lia. by destruct (Z.testbit 0xff i); rewrite ?andb_false_r.
Qed.


(** Limine's mappings: memory below 16 TiB from [0xffff000000000000] on, and the image at
    the end of the address space. *)
Definition example_phys (va : Z) : Z :=
  if bool_decide (0xffffffff80000000 ≤ va) then va - 0xffffffff80000000 + 0x40000000
  else va - 0xffff000000000000.

Lemma example_mappings :
  boot_mappings example_phys 0xffff000000000000 (2 ^ 44) 0x40001000 0xffffffff80001000.
Proof.
  split; [lia|lia|intros a Ha|intros i Hi]; unfold example_phys.
  - rewrite bool_decide_false; lia.
  - rewrite bool_decide_true; lia.
Qed.


(** ** The serial port

    A live UART: its transmitter becomes ready after fewer than [uart_bound] polls of
    the line status, polling transmits nothing, and a byte written to the data port is
    sent. *)
Class LiveUart (H : Type) `{!PortIo H} : Type := {
  uart_sent : H → list byte;
  uart_wait : H → nat;
  uart_bound : nat;
  law_uart_wait h : (uart_wait h < uart_bound)%nat;
  law_uart_poll h :
    let '(status, h') := inb (0x3f8 + 5) h in
    uart_sent h' = uart_sent h ∧
    (Z.land status 0x20 = 0 → (uart_wait h' < uart_wait h)%nat);
  law_uart_send b h : uart_sent (outb 0x3f8 b h) = uart_sent h ++ [z2b b] }.

Section uart.
Context {H : Type} `{PIO : !PortIo H} `{LU : !LiveUart H}.

Lemma write_byte_sends fuel b h :
  (uart_wait h < fuel)%nat →
  ∃ h', write_byte fuel b h = (Ok (), h') ∧ uart_sent h' = uart_sent h ++ [b].
Proof.
  revert h. induction fuel as [|fuel IH]; intros h Hf; [lia|]. cbn [write_byte].
  rewrite bind_run. unfold effect. pose proof (law_uart_poll h) as Hp.
  destruct (inb (0x3f8 + 5) h) as [status h1]. destruct Hp as [Hs Hw].
  case_bool_decide as Hr.
  - destruct (IH h1) as (h'&->&Hsent); [specialize (Hw Hr); lia|].
    exists h'. by rewrite Hsent, Hs.
  - eexists. split; [done|]. by rewrite law_uart_send, z2b_b2z, Hs.
Qed.

(** Output gets out: on a live UART every text is transmitted, completely and in
    order, and the call returns; each byte waits fewer than [uart_bound] polls. *)
Lemma emergency_write_sends fuel text h :
  (uart_bound ≤ fuel)%nat →
  ∃ h', emergency_write fuel text h = (Ok (), h') ∧ uart_sent h' = uart_sent h ++ text.
Proof.
  intros Hf. unfold emergency_write. revert h.
  induction text as [|b text IH]; intros h; cbn [for_each].
  - exists h. by rewrite (right_id_L [] (++)).
  - destruct (write_byte_sends fuel b h) as (h1&Hw&Hs1); [pose proof (law_uart_wait h); lia|].
    rewrite bind_run, Hw. destruct (IH h1) as (h'&->&Hs2). exists h'. split; [done|].
    by rewrite Hs2, Hs1, <-(assoc_L (++)).
Qed.
End uart.

(** ** Hardware random bytes *)
Section random.
Context {H : Type} `{PIO : !PortIo H}.

Lemma fill_chunks_length fuel rest (h : H) bytes h' :
  (rest ≤ fuel)%nat → fill_chunks fuel rest h = (Some bytes, h') → length bytes = rest.
Proof.
  revert rest h bytes h'. induction fuel as [|fuel IH]; intros rest h bytes h' Hf Hrun;
    cbn [fill_chunks] in Hrun.
  { destruct rest; [|lia]. by injection Hrun as <- <-. }
  destruct rest as [|rest]; [by injection Hrun as <- <-|].
  destruct (rdrand_retry 10 h) as [[v|] h1]; [|done].
  destruct (fill_chunks fuel _ h1) as [[bs|] h2] eqn:E; [|done].
  assert (bytes = take (Nat.min 8 (S rest)) (to_le_bytes 8 v) ++ bs) as -> by congruence.
  apply IH in E; [|lia]. rewrite length_app, length_take, length_to_le_bytes, E. lia.
Qed.

(** Success fills the buffer; a processor that runs dry leaves no partial output. *)
Lemma fill_hardware_random_spec output (h : H) ok bytes h' :
  fill_hardware_random output h = ((ok, bytes), h') →
  length bytes = length output
  ∧ (ok = false → Z.land (cpuid1_ecx h) (Z.shiftl 1 30) ≠ 0 →
     bytes = replicate (length output) x00).
Proof.
  unfold fill_hardware_random. case_bool_decide as Hc; [by intros [= <- <- <-]|].
  destruct (fill_chunks _ _ h) as [[bs|] h1] eqn:E; intros [= <- <- <-].
  - split; [by eapply fill_chunks_length|done].
  - by rewrite length_replicate.
Qed.
End random.

(** ** A concrete machine

    Serial input, scan codes, transmitted bytes, a transmitter that is busy for one poll
    after each byte, a counter and a queue of random words. *)
Record SimPorts := mk_ports {
  sp_input : list Z;
  sp_keys : list Z;
  sp_sent : list byte;
  sp_busy : bool;
  sp_time : Z;
  sp_random : list (Z * bool) }.

#[export] Instance SimPorts_PortIo : PortIo SimPorts := {|
  inb port h :=
    let '(mk_ports input keys sent busy time random) := h in
    if decide (port = 0x3f8 + 5)
    then (Z.lor (if input then 0 else 1) (if busy then 0 else 0x20),
          mk_ports input keys sent false time random)
    else if decide (port = 0x3f8)
    then (default 0 (head input), mk_ports (tail input) keys sent busy time random)
    else if decide (port = 0x64) then (if keys then 0 else 1, h)
    else if decide (port = 0x60)
    then (default 0 (head keys), mk_ports input (tail keys) sent busy time random)
    else (0, h);
  outb port value h :=
    let '(mk_ports input keys sent busy time random) := h in
    if decide (port = 0x3f8) then mk_ports input keys (sent ++ [z2b value]) true time random
    else h;
  rdtsc h :=
    let '(mk_ports input keys sent busy time random) := h in
    ((time mod 2 ^ 32, time / 2 ^ 32 mod 2 ^ 32), mk_ports input keys sent busy (time + 1) random);
  cpuid1_ecx _ := Z.shiftl 1 30;
  rdrand h :=
    let '(mk_ports input keys sent busy time random) := h in
    (default (0, false) (head random), mk_ports input keys sent busy time (tail random)) |}.

#[export] Program Instance SimPorts_Live : LiveUart SimPorts := {|
  uart_sent := sp_sent;
  uart_wait h := if sp_busy h then 1%nat else 0%nat;
  uart_bound := 2 |}.
Next Obligation. intros h. cbn. destruct (sp_busy h); repeat constructor. Qed.
Next Obligation.
  intros [input keys sent busy time random]. cbn. split; [done|].
  destruct input, busy; intros Hz; vm_compute in Hz; (discriminate Hz || (cbn; lia)).
Qed.
Next Obligation. by intros b []. Qed.

Definition sim_ports : SimPorts := mk_ports [] [] [] true 0 [].
