(* ===== verification/Console.v ===== *)
(** * The console (platforms/bare-metal/src/console.rs)

    Text goes to the serial port and, glyph by glyph, to the framebuffer; lines are
    edited from the bytes the serial port and the keyboard deliver.  The framebuffer is
    the list of bytes the boot loader mapped: an access outside it is [Panic] (in the
    program, a write through a raw pointer to memory it does not own).  The font crate
    is the class [Font].  What a line is, and what of it is shown, is specified apart from
    the code ([survivors], [transcript]) and proved of [con_read_line]. *)
From S2P Require Import Prelude RustStr Api Arch.

Definition FONT_HEIGHT : Z := 16.
Definition LINE_HEIGHT : Z := FONT_HEIGHT + 2.

Record Glyph := { glyph_width : Z; glyph_raster : list (list byte) }.

(** [get_raster] at the regular weight and size 16. *)
Class Font : Type := { get_raster : Z → option Glyph }.

(** The framebuffer as the boot protocol describes it. *)
Record Framebuffer := {
  lfb_bpp : Z; lfb_width : Z; lfb_height : Z; lfb_pitch : Z;
  lfb_red_shift : Z; lfb_green_shift : Z; lfb_blue_shift : Z;
  lfb_memory : list byte }.

Record FramebufferConsole := mk_fb {
  fb_memory : list byte;
  fb_width : Z; fb_height : Z; fb_pitch : Z;
  fb_red_shift : Z; fb_green_shift : Z; fb_blue_shift : Z;
  fb_cursor_x : Z; fb_cursor_y : Z }.

Definition set_cursor (x y : Z) (f : FramebufferConsole) : FramebufferConsole :=
  mk_fb (fb_memory f) (fb_width f) (fb_height f) (fb_pitch f)
    (fb_red_shift f) (fb_green_shift f) (fb_blue_shift f) x y.
Definition set_memory (m : list byte) (f : FramebufferConsole) : FramebufferConsole :=
  mk_fb m (fb_width f) (fb_height f) (fb_pitch f)
    (fb_red_shift f) (fb_green_shift f) (fb_blue_shift f) (fb_cursor_x f) (fb_cursor_y f).

(** Reading and writing through the raw pointer. *)
Definition peek (offset length : Z) : M FramebufferConsole Error (list byte) := λ f,
  if bool_decide (0 ≤ offset ∧ 0 ≤ length ∧ offset + length ≤ len (fb_memory f))
  then (Ok (take (Z.to_nat length) (drop (Z.to_nat offset) (fb_memory f))), f) else (Panic, f).
Definition poke (offset : Z) (data : list byte) : M FramebufferConsole Error () := λ f,
  if bool_decide (0 ≤ offset ∧ offset + len data ≤ len (fb_memory f))
  then (Ok (), set_memory (splice (fb_memory f) (Z.to_nat offset) data) f) else (Panic, f).

(** [usize] subtraction. *)
Definition usize_sub {E} (a b : Z) : res E Z := if bool_decide (a < b) then Panic else Ok (a - b).

Definition ensure_visible : M FramebufferConsole Error () :=
  f ← gets id;
  if bool_decide (fb_cursor_y f + LINE_HEIGHT ≤ fb_height f) then mret ()
  else
    rows ← lift (usize_sub (fb_height f) LINE_HEIGHT);
    let bytes_to_move := rows * fb_pitch f in
    moved ← peek (LINE_HEIGHT * fb_pitch f) bytes_to_move;
    poke 0 moved;;
    poke bytes_to_move (replicate (Z.to_nat (LINE_HEIGHT * fb_pitch f)) x00);;
    modify (λ f, set_cursor (fb_cursor_x f) rows f).

Definition fb_clear : M FramebufferConsole Error () :=
  f ← gets id;
  poke 0 (replicate (Z.to_nat (fb_height f * fb_pitch f)) x00);;
  modify (set_cursor 0 0).

(** [u32 << u8]: the bits shifted out are lost, a shift by 32 or more overflows. *)
Definition shl32 {E} (a s : Z) : res E Z :=
  if bool_decide (32 ≤ s) then Panic else Ok (Z.shiftl a s mod 2 ^ 32).

Definition pixel_color (f : FramebufferConsole) (intensity : byte) : res Error Z :=
  red ← shl32 (b2z intensity) (fb_red_shift f);
  green ← shl32 (b2z intensity) (fb_green_shift f);
  blue ← shl32 (b2z intensity) (fb_blue_shift f);
  Ok (Z.lor (Z.lor red green) blue).

Definition write_pixel (x y color : Z) : M FramebufferConsole Error () :=
  f ← gets id;
  if bool_decide (fb_width f ≤ x) || bool_decide (fb_height f ≤ y) then mret ()
  else poke (y * fb_pitch f + x * 4) (to_le_bytes 4 color).

(** The pixels of a glyph with their coordinates inside it, row by row. *)
Definition enumerate {A} (l : list A) : list (Z * A) :=
  imap (λ i x, (Z.of_nat i, x)) l.

Definition is_control (c : Z) : bool :=
  bool_decide (0 ≤ c < 32) || bool_decide (127 ≤ c < 160).

Definition newline : M FramebufferConsole Error () :=
  modify (λ f, set_cursor 0 (fb_cursor_y f + LINE_HEIGHT) f);;
  ensure_visible.

Definition put_char `{!Font} (character : Z) : M FramebufferConsole Error () :=
  if bool_decide (character = 10) then newline
  else if bool_decide (character = 13) then modify (λ f, set_cursor 0 (fb_cursor_y f) f)
  else if bool_decide (character = 8)
  then modify (λ f, set_cursor (saturating_sub (fb_cursor_x f) 9) (fb_cursor_y f) f)
  else if is_control character then mret ()
  else
    match (match get_raster character with
           | Some g => Some g
           | None => get_raster (b2z "?"%byte)
           end) with
    | None => mret ()
    | Some glyph =>
        f ← gets id;
        (if bool_decide (fb_width f ≤ fb_cursor_x f + glyph_width glyph + 1) then newline
         else mret ());;
        for_each (λ '(y, row),
          for_each (λ '(x, intensity),
            f ← gets id;
            color ← lift (pixel_color f intensity);
            write_pixel (fb_cursor_x f + x) (fb_cursor_y f + y) color)
            (enumerate row))
          (enumerate (glyph_raster glyph));;
        modify (λ f, set_cursor (fb_cursor_x f + (glyph_width glyph + 1)) (fb_cursor_y f) f)
    end.

Definition fb_write `{!Font} (text : str) : M FramebufferConsole Error () :=
  for_each put_char (chars text).

(** [new]: the outer [None] is no usable framebuffer. *)
Definition fb_new (framebuffer : Framebuffer) : option (res Error FramebufferConsole) :=
  if negb (bool_decide (lfb_bpp framebuffer = 32)) || bool_decide (lfb_width framebuffer < 80)
     || bool_decide (lfb_height framebuffer < LINE_HEIGHT)
  then None
  else
    width ← try_from usize_max (lfb_width framebuffer);
    height ← try_from usize_max (lfb_height framebuffer);
    pitch ← try_from usize_max (lfb_pitch framebuffer);
    let console := mk_fb (lfb_memory framebuffer) width height pitch
      (lfb_red_shift framebuffer) (lfb_green_shift framebuffer) (lfb_blue_shift framebuffer) 0 0 in
    Some (match fb_clear console with
          | (Ok _, console) => Ok console
          | (Err e, _) => Err e
          | (Panic, _) => Panic
          end).

(** ** The console *)
Record Console := mk_console {
  con_arch : ArchIo;
  con_framebuffer : option FramebufferConsole }.

Definition con_new (framebuffer : option Framebuffer) : res Error Console :=
  match framebuffer ≫= fb_new with
  | None => Ok (mk_console arch_new None)
  | Some r => f ← r; Ok (mk_console arch_new (Some f))
  end.

Section console.
Context {H : Type} `{PIO : !PortIo H} `{FT : !Font}.
(** Polls a busy-wait on the serial port is given. *)
Context (spin : nat).
Notation Con := (M (Console * H) Error).

Definition con_framebuffer_do (m : M FramebufferConsole Error ()) : Con () := λ '(c, h),
  match con_framebuffer c with
  | None => (Ok (), (c, h))
  | Some f => let '(r, f) := m f in (r, (mk_console (con_arch c) (Some f), h))
  end.

Definition con_serial (m : M H Error ()) : Con () := λ '(c, h),
  let '(r, h) := m h in (r, (c, h)).

Definition con_write (text : str) : Con () :=
  con_serial (for_each (write_byte spin) text);;
  con_framebuffer_do (fb_write text).

Definition con_poll_byte (s : Console * H) : option byte * (Console * H) :=
  let '(c, h) := s in
  let '(r, (a, h)) := poll_byte (con_arch c, h) in
  (r, (mk_console a (con_framebuffer c), h)).

Definition is_ascii_graphic (b : byte) : bool := bool_decide (33 ≤ b2z b ≤ 126).

(** One byte of input other than a line end: the line afterwards and the text echoed. *)
Definition edit_key (secret : bool) (line : str) (byte : byte) : str * option str :=
  if bool_decide (byte = x08) || bool_decide (byte = x7f) then
    (removelast line, if line then None else Some [x08; " "%byte; x08])
  else if bool_decide (byte = x09) then (line ++ " ", Some (if secret then "*" else " "))
  else if is_ascii_graphic byte || bool_decide (byte = " "%byte)
  then (line ++ [byte], Some (if secret then "*" else [byte]))
  else (line, None).

Definition is_line_end (byte : byte) : bool := bool_decide (byte = x0d) || bool_decide (byte = x0a).

Fixpoint read_loop (fuel : nat) (secret : bool) (line : str) : Con str :=
  match fuel with
  | O => hang
  | S fuel =>
      polled ← effect con_poll_byte;
      match polled with
      | None => read_loop fuel secret line
      | Some byte =>
          if is_line_end byte then con_write [nl];; mret line
          else
            let '(line, echo) := edit_key secret line byte in
            (match echo with Some text => con_write text | None => mret () end);;
            read_loop fuel secret line
      end
  end.

Definition con_read_line (fuel : nat) (prompt : str) (secret : bool) : Con str :=
  con_write prompt;;
  read_loop fuel secret [].

Definition con_clear : Con () :=
  con_write ([x1b] ++ "[2J" ++ [x1b] ++ "[H");;
  con_framebuffer_do fb_clear.

Definition con_poll_cancel (s : Console * H) : bool * (Console * H) :=
  let '(r, s) := con_poll_byte s in (bool_decide (r = Some x1b), s).
End console.

(** ** Drawing stays inside the framebuffer *)
Record fb_ok (f : FramebufferConsole) : Prop := {
  ok_memory : len (fb_memory f) = fb_height f * fb_pitch f;
  ok_pitch : 4 * fb_width f ≤ fb_pitch f;
  ok_width : 0 ≤ fb_width f;
  ok_height : LINE_HEIGHT ≤ fb_height f;
  ok_shifts : fb_red_shift f < 32 ∧ fb_green_shift f < 32 ∧ fb_blue_shift f < 32;
  ok_x : 0 ≤ fb_cursor_x f;
  ok_y : 0 ≤ fb_cursor_y f ∧ fb_cursor_y f + LINE_HEIGHT ≤ fb_height f }.

Lemma set_cursor_ok x y f :
  fb_ok f → 0 ≤ x → 0 ≤ y → y + LINE_HEIGHT ≤ fb_height f → fb_ok (set_cursor x y f).
Proof. intros [] ???. by split. Qed.

Lemma poke_run offset data f :
  0 ≤ offset → offset + len data ≤ len (fb_memory f) →
  poke offset data f = (Ok (), set_memory (splice (fb_memory f) (Z.to_nat offset) data) f).
Proof. intros. unfold poke. by rewrite bool_decide_true. Qed.

Lemma len_splice {A} (l : list A) offset data :
  0 ≤ offset → offset + len data ≤ len l → len (splice l (Z.to_nat offset) data) = len l.
Proof. intros. unfold len in *. rewrite length_splice; lia. Qed.

Lemma set_memory_ok m f : fb_ok f → len m = len (fb_memory f) → fb_ok (set_memory m f).
Proof. intros [] Hm. split; try done. simpl. by rewrite Hm. Qed.

(** The scroll moves the picture up by one line and blanks the last one. *)
Lemma scroll_run f x y :
  fb_ok f → fb_height f < y + LINE_HEIGHT →
  ∃ f', ensure_visible (set_cursor x y f) = (Ok (), f')
    ∧ f' = set_cursor x (fb_height f - LINE_HEIGHT) (set_memory
        (drop (Z.to_nat (LINE_HEIGHT * fb_pitch f)) (fb_memory f)
           ++ replicate (Z.to_nat (LINE_HEIGHT * fb_pitch f)) x00) f).
Proof.
  intros [Hm Hp Hw Hh _ _ _] Hy. unfold ensure_visible. rewrite bind_run.
  cbv beta iota delta [gets id]. 
  change (fb_height (set_cursor x y f)) with (fb_height f).
  change (fb_pitch (set_cursor x y f)) with (fb_pitch f).
  change (fb_cursor_y (set_cursor x y f)) with y.
  rewrite bool_decide_false by lia. unfold usize_sub. rewrite bool_decide_false by lia.
  rewrite bind_lift_ok, bind_run.
  set (p := fb_pitch f) in *. set (h := fb_height f) in *. set (m := fb_memory f) in *.
  assert (len m = LINE_HEIGHT * p + (h - LINE_HEIGHT) * p) as Hlen by lia.
  assert (0 ≤ LINE_HEIGHT * p) by (unfold LINE_HEIGHT, FONT_HEIGHT in *; lia).
  assert (0 ≤ (h - LINE_HEIGHT) * p) by nia.
  unfold peek at 1. change (fb_memory (set_cursor x y f)) with m.
  rewrite bool_decide_true by lia.
  assert (take (Z.to_nat ((h - LINE_HEIGHT) * p)) (drop (Z.to_nat (LINE_HEIGHT * p)) m)
          = drop (Z.to_nat (LINE_HEIGHT * p)) m) as ->.
  { apply take_ge. rewrite length_drop. unfold len in Hlen. lia. }
  assert (len (drop (Z.to_nat (LINE_HEIGHT * p)) m) = (h - LINE_HEIGHT) * p) as Hd.
  { unfold len in *. rewrite length_drop. lia. }
  rewrite bind_run, poke_run by (change (fb_memory (set_cursor x y f)) with m; lia).
  change (fb_memory (set_cursor x y f)) with m.
  rewrite bind_run, poke_run; [|lia|].
  2:{ simpl fb_memory. rewrite len_splice by lia. unfold len at 1. rewrite length_replicate. lia. }
  eexists. split; [done|]. unfold set_memory, set_cursor. simpl. f_equal.
  unfold splice. simpl. rewrite take_app_exact by (unfold len in Hd; lia).
  rewrite (drop_ge (_ ++ _)); [by rewrite (right_id_L [] (++))|].
  rewrite !length_app, !length_drop, length_replicate. unfold len in *. lia.
Qed.

Lemma ensure_visible_ok f x y :
  fb_ok f → 0 ≤ x → 0 ≤ y →
  ∃ f', ensure_visible (set_cursor x y f) = (Ok (), f') ∧ fb_ok f'.
Proof.
  intros Hok Hx Hy. destruct (decide (y + LINE_HEIGHT ≤ fb_height f)) as [Hv|Hv].
  - unfold ensure_visible. rewrite bind_run. cbv beta iota delta [gets id]. simpl.
    rewrite bool_decide_true by done. eexists. split; [done|]. by apply set_cursor_ok.
  - destruct (scroll_run f x y Hok) as (f'&->&->); [lia|]. eexists. split; [done|].
    assert (len (drop (Z.to_nat (LINE_HEIGHT * fb_pitch f)) (fb_memory f)
      ++ replicate (Z.to_nat (LINE_HEIGHT * fb_pitch f)) x00) = len (fb_memory f)) as Hl.
    { destruct Hok as [Hm Hp Hw Hh _ _ _]. unfold len in *.
      rewrite length_app, length_drop, length_replicate. nia. }
    pose proof (set_memory_ok _ _ Hok Hl) as Hok'. pose proof (ok_height f Hok).
    apply set_cursor_ok; [done..|lia|simpl; lia].
Qed.

Lemma newline_ok : returns fb_ok newline.
Proof.
  intros f Hok. unfold newline. rewrite bind_run. cbv beta iota delta [modify].
  destruct (ensure_visible_ok f 0 (fb_cursor_y f + LINE_HEIGHT) Hok) as (f'&->&?);
    [lia|destruct (ok_y f Hok); unfold LINE_HEIGHT, FONT_HEIGHT; lia|by exists (), f'].
Qed.

Lemma pixel_color_ok f b : fb_ok f → ∃ c, pixel_color f b = Ok c.
Proof.
  intros Hok. destruct (ok_shifts f Hok) as (?&?&?). unfold pixel_color, shl32.
  rewrite !bool_decide_false by lia. by eexists.
Qed.

Lemma write_pixel_ok f x y color :
  fb_ok f → 0 ≤ x → 0 ≤ y → ∃ f', write_pixel x y color f = (Ok (), f') ∧ fb_ok f'.
Proof.
  intros Hok Hx Hy. unfold write_pixel. rewrite bind_run. cbv beta iota delta [gets id].
  case_bool_decide; [by exists f|]. case_bool_decide; [by exists f|]. cbn [orb].
  destruct Hok as [Hm Hp Hw Hh Hs Hcx Hcy] eqn:E.
  assert (y * fb_pitch f + x * 4 + len (to_le_bytes 4 color) ≤ len (fb_memory f)) as Hb.
  { unfold len at 1. rewrite length_to_le_bytes, Hm.
    assert ((y + 1) * fb_pitch f ≤ fb_height f * fb_pitch f) by nia. lia. }
  rewrite poke_run by (done || nia). eexists. split; [done|].
  apply set_memory_ok; [done|]. apply len_splice; [nia|done].
Qed.

Lemma enumerate_nonneg {A} (l : list A) i x : (i, x) ∈ enumerate l → 0 ≤ i.
Proof.
  unfold enumerate. intros Hin. apply list_elem_of_lookup in Hin as [k Hk].
  rewrite list_lookup_imap in Hk. destruct (l !! k); simplify_eq/=. lia.
Qed.

Lemma put_char_ok `{!Font} c :
  (∀ c g, get_raster c = Some g → 0 ≤ glyph_width g) → returns fb_ok (put_char c).
Proof.
  intros Hfont. unfold put_char.
  case_bool_decide; [apply newline_ok|]. case_bool_decide.
  { apply returns_modify. intros f Hok. destruct (ok_y f Hok). by apply set_cursor_ok. }
  case_bool_decide.
  { apply returns_modify. intros f Hok. destruct (ok_y f Hok).
    apply set_cursor_ok; [done|unfold saturating_sub; lia|done..]. }
  destruct (is_control c); [apply returns_ret|].
  assert (∀ g, match get_raster c with Some g => Some g | None => get_raster (b2z "?"%byte) end
               = Some g → 0 ≤ glyph_width g) as Hg.
  { intros g. destruct (get_raster c) eqn:E; [intros [= <-]|]; eauto. }
  destruct (match get_raster c with Some g => Some g | None => get_raster (b2z "?"%byte) end)
    as [g|]; [|apply returns_ret]. specialize (Hg g eq_refl).
  apply returns_bind; [apply returns_gets|]. intros f0.
  apply returns_bind; [case_bool_decide; [apply newline_ok|apply returns_ret]|]. intros _.
  apply returns_bind.
  - apply returns_for_each. intros [y row] Hy%enumerate_nonneg.
    apply returns_for_each. intros [x b] Hx%enumerate_nonneg.
    apply returns_gets_bind. intros f Hok. destruct (pixel_color_ok f b Hok) as [color Hc].
    unfold id. rewrite Hc, bind_lift_ok. destruct (ok_y f Hok). pose proof (ok_x f Hok).
    destruct (write_pixel_ok f (fb_cursor_x f + x) (fb_cursor_y f + y) color Hok)
      as (f'&->&?); [lia..|by exists (), f'].
  - intros _. apply returns_modify. intros f Hok. destruct (ok_y f Hok). pose proof (ok_x f Hok).
    apply set_cursor_ok; [done|lia|done..].
Qed.

(** What the boot protocol promises of a framebuffer. *)
Definition lfb_ok (l : Framebuffer) : Prop :=
  len (lfb_memory l) = lfb_height l * lfb_pitch l ∧ 4 * lfb_width l ≤ lfb_pitch l
  ∧ lfb_red_shift l < 32 ∧ lfb_green_shift l < 32 ∧ lfb_blue_shift l < 32.

Lemma fb_new_ok l r : lfb_ok l → fb_new l = Some r → ∃ f, r = Ok f ∧ fb_ok f.
Proof.
  intros (Hm&Hp&Hr&Hg&Hb). unfold fb_new. case_bool_decide; [|done].
  case_bool_decide as Hw; [done|]. case_bool_decide as Hh; [done|]. cbn [negb orb].
  destruct (try_from usize_max (lfb_width l)) as [w|] eqn:E1; [|done]. apply try_from_Some in E1 as [-> ?].
  destruct (try_from usize_max (lfb_height l)) as [h|] eqn:E2; [|done]. apply try_from_Some in E2 as [-> ?].
  destruct (try_from usize_max (lfb_pitch l)) as [p|] eqn:E3; [|done]. apply try_from_Some in E3 as [-> ?].
  cbn [mbind option_bind].
  unfold fb_clear. rewrite bind_run. cbv beta iota delta [gets id]. cbn [fb_height fb_pitch].
  assert (len (replicate (Z.to_nat (lfb_height l * lfb_pitch l)) x00) = len (lfb_memory l)) as Hl.
  { unfold len in *. rewrite length_replicate. lia. }
  rewrite bind_run, poke_run by (simpl; lia). intros [= <-]. eexists. split; [done|].
  split; simpl; [|lia|lia|lia|done|lia|unfold LINE_HEIGHT, FONT_HEIGHT in *; lia].
  change 0%nat with (Z.to_nat 0). by rewrite len_splice by (simpl; lia).
Qed.

(** C22. A framebuffer as the boot protocol promises it gives a console, and from then on
    no text, whatever characters it has and however wide the glyphs, makes it touch a
    byte outside the framebuffer; the cursor line stays fully visible.  A line feed on
    the last line moves the picture up by one line and blanks the line it frees. *)
Theorem drawing_in_bounds `{!Font} :
  (∀ c g, get_raster c = Some g → 0 ≤ glyph_width g) →
  (∀ l r, lfb_ok l → fb_new l = Some r → ∃ f, r = Ok f ∧ fb_ok f)
  ∧ (∀ text f, fb_ok f → ∃ f', fb_write text f = (Ok (), f') ∧ fb_ok f')
  ∧ ∀ f, fb_ok f → fb_height f < fb_cursor_y f + LINE_HEIGHT + LINE_HEIGHT →
      let gap := Z.to_nat (LINE_HEIGHT * fb_pitch f) in
      put_char 10 f = (Ok (), set_cursor 0 (fb_height f - LINE_HEIGHT)
        (set_memory (drop gap (fb_memory f) ++ replicate gap x00) f)).
Proof.
  intros Hfont. split_and!.
  - apply fb_new_ok.
  - intros text f Hok.
    destruct (returns_for_each fb_ok put_char (chars text)) with (s := f) as ([]&f'&Hr&?);
      [|done|by exists f']. intros c _. by apply put_char_ok.
  - intros f Hok Hy gap. unfold put_char, newline. rewrite bool_decide_true by done.
    rewrite bind_run. cbv beta iota delta [modify].
    by destruct (scroll_run f 0 (fb_cursor_y f + LINE_HEIGHT) Hok) as (f'&->&->).
Qed.

(** ** Line editing

    What the keys mean, by the value of the byte that arrives. *)
Inductive key := KEnd | KErase | KChar (c : byte) | KOther.

#[export] Instance key_eq_dec : EqDecision key.
Proof. solve_decision. Defined.

Definition key_of (b : byte) : key :=
  let v := b2z b in
  if decide (v = 10 ∨ v = 13) then KEnd
  else if decide (v = 8 ∨ v = 127) then KErase
  else if decide (v = 9) then KChar " "%byte
  else if decide (32 ≤ v ≤ 126) then KChar b
  else KOther.

(** The line that keys spell, from the last key to the first: a character stays unless
    an erasing key after it is still waiting for one. *)
Fixpoint survivors (erased : nat) (bs : list byte) : list byte :=
  match bs with
  | [] => []
  | b :: bs =>
      match key_of b with
      | KChar c => match erased with
                   | O => c :: survivors O bs
                   | S erased => survivors erased bs
                   end
      | KErase => survivors (S erased) bs
      | _ => survivors erased bs
      end
  end.

Definition spelled (bs : list byte) : str := rev (survivors 0 (rev bs)).

(** What is written while the keys are typed on a line of [n] characters: a character
    is drawn (a star for a secret), an erasing key wipes one character, if there is one. *)
Fixpoint echoes (secret : bool) (n : nat) (bs : list byte) : list str :=
  match bs with
  | [] => []
  | b :: bs =>
      match key_of b, n with
      | KChar c, _ => (if secret then "*" else [c]) :: echoes secret (S n) bs
      | KErase, S n => [x08; " "%byte; x08] :: echoes secret n bs
      | _, _ => echoes secret n bs
      end
  end.

Definition transcript (prompt : str) (secret : bool) (bs : list byte) : list str :=
  prompt :: echoes secret 0 bs ++ [[nl]].

(** The picture after a text was written. *)
Definition drawn `{!Font} (f : option FramebufferConsole) (text : str) :
    option FramebufferConsole := (λ f, (fb_write text f).2) <$> f.

(** Input that arrives: [key_input] are the bytes the serial port and the keyboard will
    deliver, in order; while one is outstanding it comes after at most [key_wait] polls
    (key releases and shift keys are polls without a byte); sending does not lose any. *)
Class KeyInput (H : Type) `{!PortIo H} `{!LiveUart H} : Type := {
  key_input : ArchIo → H → list byte;
  key_wait : ArchIo → H → nat;
  law_key_poll a h :
    match poll_byte (a, h) with
    | (Some b, (a', h')) => key_input a h = b :: key_input a' h'
    | (None, (a', h')) =>
        key_input a' h' = key_input a h
        ∧ (key_input a h ≠ [] → (key_wait a' h' < key_wait a h)%nat)
    end;
  law_key_quiet a h : uart_sent (poll_byte (a, h)).2.2 = uart_sent h;
  law_key_status a h : key_input a (inb (0x3f8 + 5) h).2 = key_input a h;
  law_key_send a b h : key_input a (outb 0x3f8 b h) = key_input a h }.

(** One key, as the loop handles it. *)
Definition press (line : str) (b : byte) : str :=
  match key_of b with KChar c => line ++ [c] | KErase => removelast line | _ => line end.

Lemma edit_key_press secret line b :
  key_of b ≠ KEnd →
  edit_key secret line b =
    (press line b,
     match key_of b with
     | KChar c => Some (if secret then "*" else [c])
     | KErase => if line then None else Some [x08; " "%byte; x08]
     | _ => None
     end).
Proof. destruct b; intros Hb; (reflexivity || by destruct Hb). Qed.

Lemma is_line_end_key b : is_line_end b = bool_decide (key_of b = KEnd).
Proof. by destruct b. Qed.

Lemma survivors_tail bs : ∀ n, survivors (S n) bs = tail (survivors n bs).
Proof.
  induction bs as [|b bs IH]; intros n; simpl; [done|].
  destruct (key_of b); [apply IH..| |apply IH]. destruct n; [done|apply IH].
Qed.

Lemma length_removelast {A} (l : list A) : length (removelast l) = pred (length l).
Proof. rewrite removelast_firstn_len, length_take. lia. Qed.

Lemma removelast_rev {A} (l : list A) : removelast (rev l) = rev (tail l).
Proof. destruct l as [|x l]; simpl; [done|]. by rewrite removelast_last. Qed.

Lemma press_spelled bs : foldl press [] bs = spelled bs.
Proof.
  unfold spelled. induction bs as [|b bs IH] using rev_ind; [done|].
  rewrite foldl_app, rev_unit. simpl. rewrite IH. unfold press.
  destruct (key_of b); simpl; [done| |done..]. by rewrite survivors_tail, removelast_rev.
Qed.

Section editing.
Context {H : Type} `{PIO : !PortIo H} `{LU : !LiveUart H} `{KI : !KeyInput H} `{FT : !Font}.
Context (Hfont : ∀ c g, get_raster c = Some g → 0 ≤ glyph_width g).
Context (spin : nat) (Hspin : (uart_bound ≤ spin)%nat).
Implicit Types (c : Console) (h : H).

Definition con_ok c : Prop :=
  match con_framebuffer c with Some f => fb_ok f | None => True end.

Definition pending (s : Console * H) : list byte := key_input (con_arch s.1) s.2.

(** [s'] is [s] after [texts] were written. *)
Definition wrote (texts : list str) (s s' : Console * H) : Prop :=
  con_ok s'.1 ∧ uart_sent s'.2 = uart_sent s.2 ++ concat texts
  ∧ con_framebuffer s'.1 = foldl drawn (con_framebuffer s.1) texts.

Lemma wrote_trans texts1 texts2 s1 s2 s3 :
  wrote texts1 s1 s2 → wrote texts2 s2 s3 → wrote (texts1 ++ texts2) s1 s3.
Proof.
  intros (_&Hs1&Hf1) (?&Hs2&Hf2). split; [done|].
  by rewrite concat_app, foldl_app, (assoc_L (++)), <-Hs1, <-Hf1.
Qed.

Lemma write_byte_input fuel b a : ∀ h r h',
  write_byte fuel b h = (r, h') → key_input a h' = key_input a h.
Proof.
  induction fuel as [|fuel IH]; intros h r h'; cbn [write_byte]; [by intros [= _ <-]|].
  rewrite bind_run. unfold effect. pose proof (law_key_status a h) as Hs.
  destruct (inb (0x3f8 + 5) h) as [status h1]. cbn [snd] in Hs. case_bool_decide.
  - intros Hr. by rewrite (IH _ _ _ Hr).
  - intros [= _ <-]. by rewrite law_key_send.
Qed.

Lemma emergency_write_input fuel text a : ∀ h r h',
  emergency_write fuel text h = (r, h') → key_input a h' = key_input a h.
Proof.
  unfold emergency_write. induction text as [|b text IH]; intros h r h'; cbn [for_each];
    [by intros [= _ <-]|].
  rewrite bind_run. destruct (write_byte fuel b h) as [[[]|e|] h1] eqn:E;
    apply (write_byte_input _ _ a) in E; [|by intros [= _ <-]..].
  intros Hr. by rewrite (IH _ _ _ Hr).
Qed.

Lemma con_write_run text s :
  con_ok s.1 →
  ∃ s', con_write spin text s = (Ok (), s') ∧ wrote [text] s s' ∧ pending s' = pending s.
Proof.
  destruct s as [c h]. intros Hok.
  destruct (emergency_write_sends spin text h Hspin) as (h'&Hw&Hsent).
  pose proof (emergency_write_input _ _ (con_arch c) _ _ _ Hw) as Hin.
  unfold con_write. rewrite bind_run. unfold con_serial at 1.
  change (for_each (write_byte spin) text) with (emergency_write spin text). rewrite Hw.
  unfold con_framebuffer_do, con_ok, wrote in *. cbn [fst snd] in *.
  destruct (con_framebuffer c) as [f|] eqn:Hf.
  - destruct (returns_for_each fb_ok put_char (chars text)) with (s := f) as ([]&f'&Hr&Hf');
      [intros ? _; by apply put_char_ok|done|].
    fold (fb_write text) in Hr. rewrite Hr. eexists. split; [done|]. cbn.
    by rewrite Hr, app_nil_r.
  - eexists. split; [done|]. cbn. rewrite app_nil_r. unfold con_ok. by rewrite Hf.
Qed.

(** The next key comes after some polls. *)
Lemma wait_key b more : ∀ k s, (key_wait (con_arch s.1) s.2 ≤ k)%nat →
  con_ok s.1 → pending s = b :: more →
  ∃ n s1, wrote [] s s1 ∧ pending s1 = more ∧ ∀ fuel secret line,
    read_loop spin (n + S fuel) secret line s =
      (if is_line_end b then con_write spin [nl];; mret line
       else let '(line, echo) := edit_key secret line b in
            (match echo with Some text => con_write spin text | None => mret () end);;
            read_loop spin fuel secret line) s1.
Proof.
  induction k as [k IH] using lt_wf_ind. intros [c h] Hk Hok Hp. cbn [fst snd] in *.
  pose proof (law_key_poll (con_arch c) h) as Hpoll.
  pose proof (law_key_quiet (con_arch c) h) as Hq.
  destruct (poll_byte (con_arch c, h)) as [[b'|] [a' h']] eqn:E; cbn [fst snd] in Hq.
  - unfold pending in Hp. cbn [fst snd] in Hp. rewrite Hp in Hpoll. injection Hpoll as <- Hmore.
    exists 0%nat, (mk_console a' (con_framebuffer c), h'). split_and!.
    + split_and!; [done|by rewrite app_nil_r|done].
    + done.
    + intros fuel secret line. cbn [read_loop Nat.add]. rewrite bind_run. unfold effect, con_poll_byte.
      by rewrite E.
  - destruct Hpoll as [Hsame Hlt]. unfold pending in Hp. cbn [fst snd] in Hp.
    destruct (IH (key_wait a' h')) with (s := (mk_console a' (con_framebuffer c), h'))
      as (n&s1&(Hok1&Hs1&Hf1)&Hp1&Hrun).
    { assert (key_input (con_arch c) h ≠ []) by (by rewrite Hp). specialize (Hlt H0). lia. }
    { done. } { done. } { unfold pending. cbn [fst snd con_arch]. by rewrite Hsame. }
    exists (S n), s1. split_and!; [|done|].
    + split_and!; [done| |done]. rewrite Hs1. cbn [snd]. by rewrite Hq.
    + intros fuel secret line. cbn [read_loop Nat.add]. rewrite bind_run.
      unfold effect, con_poll_byte. rewrite E. apply Hrun.
Qed.

(** The echo of a key, and the length of the line afterwards. *)
Lemma echoes_cons secret line b bs :
  key_of b ≠ KEnd →
  echoes secret (length line) (b :: bs)
  = option_list (edit_key secret line b).2 ++ echoes secret (length (press line b)) bs.
Proof.
  intros Hb. rewrite edit_key_press by done. cbn [echoes snd]. unfold press.
  destruct (key_of b) as [| |ch|]; [done| | |done].
  - destruct line as [|x line]; [done|]. cbn [length option_list app].
    by rewrite length_removelast.
  - cbn [option_list app]. by rewrite length_app, Nat.add_comm.
Qed.

Lemma echo_run secret line b s :
  con_ok s.1 →
  let echo := (edit_key secret line b).2 in
  ∃ s', (match echo with Some text => con_write spin text | None => mret () end) s = (Ok (), s')
    ∧ wrote (option_list echo) s s' ∧ pending s' = pending s.
Proof.
  intros Hok echo. destruct echo as [text|]; [by apply con_write_run|].
  exists s. split; [done|]. split; [|done]. unfold wrote. split_and!; [done|by rewrite app_nil_r|done].
Qed.

(** Typing up to the line end. *)
Lemma read_loop_run secret e rest bs : ∀ line s,
  con_ok s.1 → pending s = bs ++ e :: rest →
  Forall (λ b, key_of b ≠ KEnd) bs → key_of e = KEnd →
  ∃ n s', wrote (echoes secret (length line) bs ++ [[nl]]) s s' ∧ pending s' = rest
    ∧ ∀ fuel, (n ≤ fuel)%nat →
        read_loop spin fuel secret line s = (Ok (foldl press line bs), s').
Proof.
  induction bs as [|b bs IH]; intros line s Hok Hp Hbs He.
  - destruct (wait_key e rest _ s (le_n _) Hok Hp) as (n&s1&Hw1&Hp1&Hrun).
    destruct (con_write_run [nl] s1) as (s'&Hnl&Hw2&Hp2); [apply Hw1|].
    exists (n + 1)%nat, s'. split_and!; [by apply (wrote_trans [] _ s s1)|by rewrite Hp2|].
    intros fuel Hf. replace fuel with (n + S (fuel - n - 1))%nat by lia.
    rewrite Hrun, is_line_end_key, bool_decide_true, bind_run, Hnl by done. done.
  - apply Forall_cons in Hbs as [Hb Hbs].
    destruct (wait_key b (bs ++ e :: rest) _ s (le_n _) Hok Hp) as (n&s1&Hw1&Hp1&Hrun).
    destruct (echo_run secret line b s1) as (s2&Hecho&Hw2&Hp2); [apply Hw1|].
    destruct (IH (press line b) s2) as (m&s'&Hw3&Hp3&Hloop);
      [apply Hw2|by rewrite Hp2|done|done|].
    exists (n + S m)%nat, s'. split_and!; [|done|].
    + rewrite echoes_cons, <-(assoc_L (++)) by done.
      apply (wrote_trans [] _ s s1 s' Hw1). by apply (wrote_trans _ _ s1 s2).
    + intros fuel Hf. replace fuel with (n + S (fuel - n - 1))%nat by lia.
      rewrite Hrun, is_line_end_key, bool_decide_false by done.
      rewrite (surjective_pairing (edit_key secret line b)), bind_run, Hecho.
      rewrite edit_key_press by done. cbn [fst foldl]. apply Hloop. lia.
Qed.

(** Without a line end the loop never returns. *)
Lemma read_loop_open fuel secret : ∀ line s l s',
  con_ok s.1 → Forall (λ b, key_of b ≠ KEnd) (pending s) →
  read_loop spin fuel secret line s ≠ (Ok l, s').
Proof.
  induction fuel as [|fuel IH]; intros line [c h] l s' Hok Hopen; cbn [read_loop]; [done|].
  rewrite bind_run. unfold effect, con_poll_byte. unfold pending in Hopen. cbn [fst snd] in *.
  pose proof (law_key_poll (con_arch c) h) as Hpoll.
  destruct (poll_byte (con_arch c, h)) as [[b|] [a' h']].
  - rewrite Hpoll in Hopen. apply Forall_cons in Hopen as [Hb Hopen].
    rewrite is_line_end_key, bool_decide_false by done.
    destruct (echo_run secret line b (mk_console a' (con_framebuffer c), h'))
      as (s2&Hecho&Hw2&Hp2); [done|].
    rewrite (surjective_pairing (edit_key secret line b)), bind_run, Hecho.
    apply IH; [apply Hw2|]. by rewrite Hp2.
  - apply IH; [done|]. unfold pending. cbn [fst snd con_arch]. by rewrite (proj1 Hpoll).
Qed.

(** More polls do not change a line that was read. *)
Lemma read_loop_mono secret fuel fuel' : ∀ line s l s',
  (fuel ≤ fuel')%nat → read_loop spin fuel secret line s = (Ok l, s') →
  read_loop spin fuel' secret line s = (Ok l, s').
Proof.
  revert fuel'. induction fuel as [|fuel IH]; intros fuel' line s l s' Hf; cbn [read_loop]; [done|].
  destruct fuel' as [|fuel']; [lia|]. cbn [read_loop]. rewrite !bind_run. unfold effect.
  destruct (con_poll_byte s) as [[b|] s1]; [|apply IH; lia].
  destruct (is_line_end b); [done|]. destruct (edit_key secret line b) as [line1 echo].
  rewrite !bind_run.
  destruct ((match echo with Some text => con_write spin text | None => mret () end) s1)
    as [[[]|e|] s2]; [|done..]. apply IH. lia.
Qed.

Lemma con_read_line_run prompt secret s bs e rest :
  con_ok s.1 → pending s = bs ++ e :: rest →
  Forall (λ b, key_of b ≠ KEnd) bs → key_of e = KEnd →
  ∃ n s', wrote (transcript prompt secret bs) s s' ∧ pending s' = rest
    ∧ ∀ fuel, (n ≤ fuel)%nat → con_read_line spin fuel prompt secret s = (Ok (spelled bs), s').
Proof.
  intros Hok Hp Hbs He. destruct (con_write_run prompt s Hok) as (s0&Hw&Hw0&Hp0).
  destruct (read_loop_run secret e rest bs [] s0) as (n&s'&Hw1&Hp1&Hrun);
    [apply Hw0|by rewrite Hp0|done..|].
  exists n, s'. split_and!; [by apply (wrote_trans [prompt] _ s s0)|done|].
  intros fuel Hf. unfold con_read_line. rewrite bind_run, Hw, Hrun by done.
  by rewrite press_spelled.
Qed.

(** C23. Reading a line.  When keys [bs] without a line end and then a carriage return or
    a line feed arrive, enough polls return the line the keys spell (characters
    appended, tabs as blanks, the last character erased by backspace or delete, other
    bytes ignored), having consumed exactly these bytes and written exactly the prompt,
    the echo of each key and a newline, to the serial port and to the screen; and
    without a line end in the input it never returns.  (The serial port transmits, the
    framebuffer is one the console accepted.) *)
Theorem read_line_returns prompt secret s :
  con_ok s.1 →
  (∀ bs e rest, pending s = bs ++ e :: rest →
     Forall (λ b, key_of b ≠ KEnd) bs → key_of e = KEnd →
     ∃ n s', wrote (transcript prompt secret bs) s s' ∧ pending s' = rest
       ∧ ∀ fuel, (n ≤ fuel)%nat →
           con_read_line spin fuel prompt secret s = (Ok (spelled bs), s'))
  ∧ (Forall (λ b, key_of b ≠ KEnd) (pending s) →
     ∀ fuel line s', con_read_line spin fuel prompt secret s ≠ (Ok line, s')).
Proof.
  intros Hok. split; [intros; by eapply con_read_line_run|]. intros Hopen fuel line s'.
  destruct (con_write_run prompt s Hok) as (s0&Hw&Hw0&Hp0).
  unfold con_read_line. rewrite bind_run, Hw. apply read_loop_open; [apply Hw0|by rewrite Hp0].
Qed.

(** Keys that act alike, whatever character they stand for. *)
Definition same_kind (b1 b2 : byte) : Prop :=
  match key_of b1, key_of b2 with
  | KChar _, KChar _ | KErase, KErase | KOther, KOther => True
  | _, _ => False
  end.

Lemma same_kind_not_end bs1 bs2 :
  Forall2 same_kind bs1 bs2 →
  Forall (λ b, key_of b ≠ KEnd) bs1 ∧ Forall (λ b, key_of b ≠ KEnd) bs2.
Proof.
  induction 1 as [|b1 b2 bs1 bs2 Hk _ [??]]; [done|]. unfold same_kind in Hk.
  split; constructor; try done; by destruct (key_of b1), (key_of b2).
Qed.

Lemma echoes_same bs1 bs2 n :
  Forall2 same_kind bs1 bs2 → echoes true n bs1 = echoes true n bs2.
Proof.
  intros Hk. revert n. induction Hk as [|b1 b2 bs1 bs2 Hk _ IH]; intros n; cbn [echoes]; [done|].
  unfold same_kind in Hk. destruct (key_of b1), (key_of b2), n; try done; by rewrite IH.
Qed.

Lemma spelled_same bs1 bs2 :
  Forall2 same_kind bs1 bs2 → length (spelled bs1) = length (spelled bs2).
Proof.
  intros Hk. rewrite <-!press_spelled. generalize (eq_refl (length ([] : str))).
  generalize ([] : str) at 1 3. generalize ([] : str).
  induction Hk as [|b1 b2 bs1 bs2 Hk _ IH]; intros l2 l1 Hl; cbn [foldl]; [done|].
  apply IH. unfold same_kind, press in *.
  destruct (key_of b1), (key_of b2); try done; by rewrite ?length_app, ?length_removelast, Hl.
Qed.

(** C24. A secret line cannot be read off the screen or the serial line: two runs that
    read a secret line after the same prompt, from keys of the same kinds (a character,
    an erasing key, an ignored one) whatever the characters are, write the same text to
    the serial port and leave the same picture in the framebuffer; and the two lines
    have the same length. *)
Theorem secret_is_masked prompt s1 s2 bs1 bs2 e1 e2 rest1 rest2 fuel1 fuel2 line1 line2 s1' s2' :
  con_ok s1.1 → con_framebuffer s1.1 = con_framebuffer s2.1 →
  pending s1 = bs1 ++ e1 :: rest1 → pending s2 = bs2 ++ e2 :: rest2 →
  key_of e1 = KEnd → key_of e2 = KEnd → Forall2 same_kind bs1 bs2 →
  con_read_line spin fuel1 prompt true s1 = (Ok line1, s1') →
  con_read_line spin fuel2 prompt true s2 = (Ok line2, s2') →
  length line1 = length line2
  ∧ con_framebuffer s1'.1 = con_framebuffer s2'.1
  ∧ ∃ out, uart_sent s1'.2 = uart_sent s1.2 ++ out ∧ uart_sent s2'.2 = uart_sent s2.2 ++ out.
Proof.
  intros Hok1 Hfb Hp1 Hp2 He1 He2 Hk Hr1 Hr2.
  assert (con_ok s2.1) as Hok2 by (unfold con_ok in *; by rewrite <-Hfb).
  destruct (same_kind_not_end _ _ Hk) as [Hn1 Hn2].
  destruct (con_read_line_run prompt true s1 bs1 e1 rest1 Hok1 Hp1 Hn1 He1)
    as (n1&t1&(_&Hs1&Hf1)&_&Hrun1).
  destruct (con_read_line_run prompt true s2 bs2 e2 rest2 Hok2 Hp2 Hn2 He2)
    as (n2&t2&(_&Hs2&Hf2)&_&Hrun2).
  assert (∀ n fuel s line s', con_read_line spin fuel prompt true s = (Ok line, s') →
    con_read_line spin (Nat.max n fuel) prompt true s = (Ok line, s')) as Hmono.
  { intros n fuel s line s' Hr. unfold con_read_line in *.
    apply bind_ok_inv in Hr as ([]&s0&Hw&Hr). rewrite bind_run, Hw.
    eapply read_loop_mono; [|exact Hr]. lia. }
  apply (Hmono n1) in Hr1. apply (Hmono n2) in Hr2.
  rewrite Hrun1 in Hr1 by lia. rewrite Hrun2 in Hr2 by lia. simplify_eq.
  unfold transcript in *. rewrite (echoes_same bs1 bs2 0 Hk) in Hs1, Hf1.
  split_and!; [by apply spelled_same|by rewrite Hf1, Hf2, Hfb|]. eauto.
Qed.
End editing.

(** ** Concrete runs *)
#[local] Instance dot_font : Font := {|
  get_raster c := Some {| glyph_width := 8; glyph_raster := [[xff; x80]; [x00; z2b c]] |} |}.

Lemma drawing_in_bounds_witness :
  let l := {| lfb_bpp := 32; lfb_width := 80; lfb_height := 20; lfb_pitch := 320;
              lfb_red_shift := 16; lfb_green_shift := 8; lfb_blue_shift := 0;
              lfb_memory := replicate 6400 xff |} in
  lfb_ok l ∧ ∃ f f', fb_new l = Some (Ok f) ∧ fb_write "hi" f = (Ok (), f') ∧ fb_ok f'.
Proof.
  intros l. assert (lfb_ok l) as Hl by (by vm_compute). split; [exact Hl|].
  destruct drawing_in_bounds as (Hnew&Hwrite&_).
  { intros c g [= <-]. simpl. lia. }
  assert (is_Some (fb_new l)) as [r Hr] by by_eval.
  destruct (Hnew l r Hl Hr) as (f&->&Hok). destruct (Hwrite "hi" f Hok) as (f'&?&?).
  exists f, f'. split_and!; [exact Hr|assumption..].
Defined.

Lemma sim_poll_key a scan scans sent busy time random :
  poll_byte (a, mk_ports [] (scan :: scans) sent busy time random)
  = let '(r, a') := key_event a scan in (r, (a', mk_ports [] scans sent false time random)).
Proof. by destruct busy. Qed.

Lemma sim_poll_serial a i input scans sent busy time random :
  poll_byte (a, mk_ports (i :: input) scans sent busy time random)
  = (Some (z2b i), (a, mk_ports input scans sent false time random)).
Proof. by destruct busy. Qed.

Lemma sim_poll_none a sent busy time random :
  poll_byte (a, mk_ports [] [] sent busy time random)
  = (None, (a, mk_ports [] [] sent false time random)).
Proof. by destruct busy. Qed.

(** Input that has arrived: the serial line first, then the keys of the scan codes. *)
#[export] Program Instance SimPorts_KeyInput : KeyInput SimPorts := {|
  key_input a h := (z2b <$> sp_input h) ++ (keys a (sp_keys h)).1;
  key_wait a h := length (sp_keys h) |}.
Next Obligation.
  intros a [[|i input] scans sent busy time random]; [|by rewrite sim_poll_serial].
  destruct scans as [|scan scans]; [by rewrite sim_poll_none|].
  rewrite sim_poll_key. cbn [sp_input sp_keys fmap list_fmap app keys length].
  destruct (key_event a scan) as [[b|] a']; destruct (keys a' scans) as [bs a2] eqn:E;
    simpl; rewrite E; [done|]. split; [done|lia].
Qed.
Next Obligation.
  intros a [[|i input] scans sent busy time random]; [|by rewrite sim_poll_serial].
  destruct scans as [|scan scans]; [by rewrite sim_poll_none|].
  rewrite sim_poll_key. by destruct (key_event a scan).
Qed.
Next Obligation. by intros a []. Qed.
Next Obligation. by intros a b []. Qed.

(** A machine whose serial line delivers [input] and whose keyboard types [typed]. *)
Definition sim_console (input typed : str) : Console * SimPorts :=
  (mk_console arch_new None, mk_ports (b2z <$> input) (flat_map type_key typed) [] false 0 []).

Lemma sim_bound : (uart_bound (H := SimPorts) ≤ 2)%nat.
Proof. apply le_n. Qed.

Lemma dot_font_width c g : get_raster c = Some g → 0 ≤ glyph_width g.
Proof. intros [= <-]. simpl. lia. Qed.

Lemma read_line_returns_witness :
  let s := sim_console ("a" ++ [x7f; x7f]) ("b" ++ [x08] ++ "C" ++ [nl] ++ "x") in
  pending s = ("a" ++ [x7f; x7f] ++ "b" ++ [x08] ++ "C") ++ nl :: "x"
  ∧ ∃ n s', wrote (transcript "> " false ("a" ++ [x7f; x7f] ++ "b" ++ [x08] ++ "C")) s s'
      ∧ pending s' = "x"
      ∧ ∀ fuel, (n ≤ fuel)%nat → con_read_line 2 fuel "> " false s = (Ok ("C" : str), s').
Proof.
  intros s. assert (pending s = ("a" ++ [x7f; x7f] ++ "b" ++ [x08] ++ "C") ++ nl :: "x") as Hp
    by by_vm.
  split; [exact Hp|].
  apply (proj1 (read_line_returns dot_font_width 2 sim_bound "> " false s I)
    ("a" ++ [x7f; x7f] ++ "b" ++ [x08] ++ "C") nl "x" Hp); [by_eval|by_vm].
Defined.

Lemma secret_is_masked_witness :
  let s1 := sim_console ("pw" ++ [nl]) [] in let s2 := sim_console [] ("Xy" ++ [nl]) in
  let r1 := con_read_line 2 20 "> " true s1 in let r2 := con_read_line 2 20 "> " true s2 in
  r1.1 = Ok ("pw" : str) ∧ r2.1 = Ok ("Xy" : str) ∧
  length ("pw" : str) = length ("Xy" : str)
  ∧ con_framebuffer r1.2.1 = con_framebuffer r2.2.1
  ∧ ∃ out, uart_sent r1.2.2 = uart_sent s1.2 ++ out ∧ uart_sent r2.2.2 = uart_sent s2.2 ++ out.
Proof.
  intros s1 s2 r1 r2. assert (r1.1 = Ok ("pw" : str)) as H1 by by_vm.
  assert (r2.1 = Ok ("Xy" : str)) as H2 by by_vm.
  assert (con_read_line 2 20 "> " true s1 = (Ok ("pw" : str), r1.2)) as E1
    by (rewrite <-H1; apply surjective_pairing).
  assert (con_read_line 2 20 "> " true s2 = (Ok ("Xy" : str), r2.2)) as E2
    by (rewrite <-H2; apply surjective_pairing).
  split; [exact H1|]. split; [exact H2|].
  apply (secret_is_masked dot_font_width 2 sim_bound "> " s1 s2 "pw" "Xy" nl nl [] [] 20 20
           "pw" "Xy" r1.2 r2.2 I eq_refl);
    [by_vm|by_vm|by_vm|by_vm|repeat constructor|exact E1|exact E2].
Defined.
