(* ===== verification/Memory.v ===== *)
(** * Kernel memory and the VirtIO hardware layer (platforms/bare-metal/src/memory.rs)

    The three address globals, the translation between physical and virtual addresses,
    and the [Hal] the VirtIO driver crate calls: DMA pages, MMIO windows and bounce
    buffers.  Memory is a map from virtual addresses to bytes; the global allocator (a
    crate) is the class [Allocator]. *)
From S2P Require Import Prelude RustStr Api.

(** ** Bytes in memory *)
Definition load (address : Z) (n : nat) (m : gmap Z byte) : list byte :=
  (λ i, default x00 (m !! (address + Z.of_nat i))) <$> seq 0 n.
Definition store (address : Z) (data : list byte) (m : gmap Z byte) : gmap Z byte :=
  foldl (λ m '(i, b), <[address + i := b]> m) m (imap (λ i b, (Z.of_nat i, b)) data).

(** ** Address translation *)
Record Globals := mk_globals {
  hhdm_offset : Z;
  executable_physical : Z;
  executable_virtual : Z }.

Definition globals_zero : Globals := mk_globals 0 0 0.

Definition mem_initialize (hhdm : Z) (executable_address : option (Z * Z)) (g : Globals) : Globals :=
  match executable_address with
  | Some (physical, virtual_) => mk_globals hhdm physical virtual_
  | None => mk_globals hhdm (executable_physical g) (executable_virtual g)
  end.

Definition checked_add64 (a b : Z) : option Z := try_from u64_max (a + b).
Definition checked_sub64 (a b : Z) : option Z := try_from u64_max (a - b).

(** [NonNull::new]. *)
Definition non_null (a : Z) : option Z := if bool_decide (a = 0) then None else Some a.

Definition phys_to_virt (g : Globals) (address : Z) : option Z :=
  virtual_address ← checked_add64 address (hhdm_offset g);
  virtual_address ← try_from usize_max virtual_address;
  non_null virtual_address.

Definition virt_to_phys (g : Globals) (address : Z) : option Z :=
  if negb (bool_decide (executable_virtual g = 0))
     && bool_decide (executable_virtual g ≤ address)
  then
    offset ← checked_sub64 address (executable_virtual g);
    checked_add64 offset (executable_physical g)
  else checked_sub64 address (hhdm_offset g).

(** ** The hardware layer *)
Definition PAGE_SIZE : Z := 4096.
Definition isize_limit : Z := 9223372036854775807.

(** [Layout::from_size_align]: a power-of-two alignment and a size that still fits when
    it is rounded up. *)
Definition layout_ok (size align : Z) : bool :=
  bool_decide (0 < align ∧ align = 2 ^ Z.log2 align ∧ 0 ≤ size
               ∧ div_ceil size align * align ≤ isize_limit).

Definition checked_mul (a b : Z) : option Z := try_from usize_max (a * b).

Class Allocator (A : Type) : Type := {
  heap_alloc : Z → Z → A → option Z * A;
  heap_dealloc : Z → Z → Z → A → A }.

Inductive BufferDirection := DriverToDevice | DeviceToDriver | BothDirections.

Definition to_device (d : BufferDirection) : bool :=
  match d with DriverToDevice | BothDirections => true | DeviceToDriver => false end.
Definition from_device (d : BufferDirection) : bool :=
  match d with DeviceToDriver | BothDirections => true | DriverToDevice => false end.

Record Ram (A : Type) := mk_ram {
  ram_globals : Globals;
  ram_bytes : gmap Z byte;
  ram_heap : A }.
Arguments mk_ram {A}.
Arguments ram_globals {A}.
Arguments ram_bytes {A}.
Arguments ram_heap {A}.

Section hal.
Context {A : Type} `{AL : !Allocator A}.
Implicit Types r : Ram A.

Definition set_bytes (m : gmap Z byte) r : Ram A := mk_ram (ram_globals r) m (ram_heap r).
Definition set_heap (a : A) r : Ram A := mk_ram (ram_globals r) (ram_bytes r) a.

(** [alloc_zeroed] and [NonNull::new]. *)
Definition alloc_zeroed (size align : Z) r : option Z * Ram A :=
  let '(pointer, heap) := heap_alloc size align (ram_heap r) in
  let r := set_heap heap r in
  match pointer ≫= non_null with
  | Some p => (Some p, set_bytes (store p (replicate (Z.to_nat size) x00) (ram_bytes r)) r)
  | None => (None, r)
  end.

Definition dealloc (pointer size align : Z) r : Ram A :=
  set_heap (heap_dealloc pointer size align (ram_heap r)) r.

(** The physical address, and the virtual one; [None] is the dangling pointer. *)
Definition dma_alloc (pages : Z) r : (Z * option Z) * Ram A :=
  match checked_mul pages PAGE_SIZE with
  | None => ((0, None), r)
  | Some size =>
      if negb (layout_ok size PAGE_SIZE) then ((0, None), r)
      else
        let '(pointer, r) := alloc_zeroed size PAGE_SIZE r in
        match pointer with
        | None => ((0, None), r)
        | Some pointer =>
            match virt_to_phys (ram_globals r) pointer with
            | None => ((0, None), dealloc pointer size PAGE_SIZE r)
            | Some physical => ((physical, Some pointer), r)
            end
        end
  end.

Definition dma_dealloc (vaddr pages : Z) r : Z * Ram A :=
  match checked_mul pages PAGE_SIZE with
  | None => (-1, r)
  | Some size =>
      if negb (layout_ok size PAGE_SIZE) then (-1, r)
      else (0, dealloc vaddr size PAGE_SIZE r)
  end.

Definition mmio_phys_to_virt (paddr : Z) r : res Error Z :=
  match phys_to_virt (ram_globals r) paddr with Some p => Ok p | None => Panic end.

(** [share]: the buffer is at [address] and has [length] bytes. *)
Definition share (address length : Z) (direction : BufferDirection) : M (Ram A) Error Z :=
  (if layout_ok length 16 then mret () else lift Panic);;
  bounce ← (λ r, let '(p, r) := alloc_zeroed length 16 r in (Ok p, r));
  match bounce with
  | None => lift Panic
  | Some bounce =>
      (if to_device direction
       then modify (λ r, set_bytes (store bounce (load address (Z.to_nat length) (ram_bytes r))
                                      (ram_bytes r)) r)
       else mret ());;
      r ← gets id;
      lift (match virt_to_phys (ram_globals r) bounce with Some p => Ok p | None => Panic end)
  end.

Definition unshare (paddr address length : Z) (direction : BufferDirection) : M (Ram A) Error () :=
  r ← gets id;
  bounce ← lift (match phys_to_virt (ram_globals r) paddr with Some p => Ok p | None => Panic end);
  (if from_device direction
   then modify (λ r, set_bytes (store address (load bounce (Z.to_nat length) (ram_bytes r))
                                  (ram_bytes r)) r)
   else mret ());;
  (if layout_ok length 16 then mret () else lift Panic);;
  modify (dealloc bounce length 16).
End hal.

(** ** Memory lemmas *)
Lemma store_lookup address data m a :
  store address data m !! a
  = if decide (address ≤ a < address + len data)
    then data !! Z.to_nat (a - address) else m !! a.
Proof.
  unfold store. induction data as [|b data IH] using rev_ind.
  { rewrite decide_False; [done|]. unfold len. simpl. lia. }
  rewrite imap_app, foldl_app. cbn [imap foldl]. rewrite Nat.add_0_r.
  destruct (decide (a = address + Z.of_nat (length data))) as [->|Hne].
  - rewrite lookup_insert_eq, decide_True by (rewrite len_app; unfold len; simpl; lia).
    by rewrite lookup_app_r, list_lookup_singleton by lia;
      replace (_ - _)%nat with 0%nat by lia.
  - rewrite lookup_insert_ne, IH by done. rewrite len_app. change (len [b]) with 1.
    destruct (decide (address ≤ a < address + len data)) as [Hin|Hout].
    + rewrite decide_True by lia. rewrite lookup_app_l; [done|]. unfold len in *. lia.
    + rewrite decide_False; [done|]. unfold len in *. lia.
Qed.

Lemma load_length address n m : length (load address n m) = n.
Proof. unfold load. by rewrite length_fmap, length_seq. Qed.

Lemma load_lookup address n m i :
  (i < n)%nat → load address n m !! i = Some (default x00 (m !! (address + Z.of_nat i))).
Proof. intros Hi. unfold load. by rewrite list_lookup_fmap, lookup_seq_lt by done. Qed.

Lemma load_store_same address data m : load address (length data) (store address data m) = data.
Proof.
  apply list_eq_same_length with (length data); [done|apply load_length|].
  intros i x y Hi Hx Hy. rewrite load_lookup, store_lookup in Hx by done.
  rewrite decide_True in Hx by (unfold len; lia).
  replace (Z.to_nat (address + Z.of_nat i - address)) with i in Hx by lia.
  rewrite Hy in Hx. simpl in Hx. congruence.
Qed.

Lemma load_store_other address data m a n :
  a + Z.of_nat n ≤ address ∨ address + len data ≤ a →
  load a n (store address data m) = load a n m.
Proof.
  intros Hd. apply list_eq_same_length with n; [by rewrite load_length..|].
  intros i x y Hi Hx Hy. rewrite load_lookup in Hx, Hy by done.
  rewrite store_lookup, decide_False in Hx; [congruence|]. lia.
Qed.

(** ** Translation is a round trip *)

(** Addresses of the direct map below the kernel image. *)
Definition direct_mapped (g : Globals) (a : Z) : Prop :=
  0 < a ≤ u64_max ∧ 0 ≤ hhdm_offset g ≤ a
  ∧ (executable_virtual g = 0 ∨ a < executable_virtual g).

Lemma virt_phys g a :
  direct_mapped g a →
  virt_to_phys g a = Some (a - hhdm_offset g) ∧ phys_to_virt g (a - hhdm_offset g) = Some a.
Proof.
  intros (Ha&Hh&He). unfold virt_to_phys, phys_to_virt, checked_sub64, checked_add64, try_from,
    non_null. split.
  - assert (negb (bool_decide (executable_virtual g = 0))
            && bool_decide (executable_virtual g ≤ a) = false) as ->.
    { destruct He as [->|He]; [done|]. rewrite (bool_decide_false (_ ≤ _)) by lia.
      apply andb_false_r. }
    by rewrite bool_decide_true by lia.
  - replace (a - hhdm_offset g + hhdm_offset g) with a by lia.
    rewrite (bool_decide_true (0 ≤ a ≤ u64_max)) by lia. cbn [mbind option_bind].
    rewrite bool_decide_true by (unfold usize_max; lia). cbn [mbind option_bind].
    by rewrite bool_decide_false by lia.
Qed.

(** ** Bounce buffers

    What the layer relies on from the allocator: a new block overlaps no live one. *)
Class HeapOk (A : Type) `{!Allocator A} : Type := {
  heap_owned : A → Z → Prop;
  law_alloc size align a p a' :
    heap_alloc size align a = (Some p, a') →
    ∀ x, p ≤ x < p + size → ¬ heap_owned a x }.

Section bounce.
Context {A : Type} `{AL : !Allocator A} `{HO : !HeapOk A}.
Implicit Types r : Ram A.

Lemma layout_nonneg size align : layout_ok size align = true → 0 ≤ size.
Proof. unfold layout_ok. intros ?%bool_decide_eq_true_1. lia. Qed.

Lemma non_null_Some a b : non_null a = Some b → b = a.
Proof. unfold non_null. case_bool_decide; congruence. Qed.

Lemma alloc_zeroed_run size align r p r1 :
  alloc_zeroed size align r = (Some p, r1) →
  ∃ a', heap_alloc size align (ram_heap r) = (Some p, a')
    ∧ r1 = mk_ram (ram_globals r) (store p (replicate (Z.to_nat size) x00) (ram_bytes r)) a'.
Proof.
  unfold alloc_zeroed. destruct (heap_alloc size align (ram_heap r)) as [[q|] a'] eqn:E;
    cbn [mbind option_bind]; [|done].
  destruct (non_null q) as [q'|] eqn:Eq; [|done]. apply non_null_Some in Eq as ->.
  intros [= <- <-]. by exists a'.
Qed.

(** What [share] leaves in memory: only the bounce buffer is written. *)
Lemma share_run address length dir r paddr r1 :
  share address length dir r = (Ok paddr, r1) →
  layout_ok length 16 = true ∧
  ∃ bounce a', heap_alloc length 16 (ram_heap r) = (Some bounce, a')
    ∧ virt_to_phys (ram_globals r) bounce = Some paddr
    ∧ let zeroed := store bounce (replicate (Z.to_nat length) x00) (ram_bytes r) in
      r1 = mk_ram (ram_globals r)
        (if to_device dir then store bounce (load address (Z.to_nat length) zeroed) zeroed
         else zeroed) a'.
Proof.
  unfold share. intros Hrun. destruct (layout_ok length 16) eqn:Hlay; [|done]. split; [done|].
  rewrite bind_run in Hrun. cbv beta iota delta [mret M_ret] in Hrun. rewrite bind_run in Hrun.
  destruct (alloc_zeroed length 16 r) as [[bounce|] ra] eqn:Ha; [|done].
  apply alloc_zeroed_run in Ha as (a'&Ha&->). exists bounce, a'. split; [done|].
  apply bind_ok_inv in Hrun as ([]&rb&Hb&Hrun). apply bind_ok_inv in Hrun as (rg&rc&Hg&Hrun).
  injection Hg as <- <-. unfold lift in Hrun.
  destruct (to_device dir); injection Hb as <-; unfold id in Hrun; simpl in Hrun;
    destruct (virt_to_phys (ram_globals r) bounce); simplify_eq; done.
Qed.

(** C25. A buffer shared with a device: the device's address leads to a bounce buffer that
    holds the driver's bytes when they are meant for the device and zeros otherwise (no
    other memory is exposed); after the device has written what it likes there, the
    buffer holds exactly that when data was meant for the driver, and is unchanged
    otherwise; and no memory outside the two buffers is ever touched. *)
Theorem bounce_roundtrip address length dir r paddr r1 :
  (∀ p a', heap_alloc length 16 (ram_heap r) = (Some p, a') → direct_mapped (ram_globals r) p) →
  (∀ x, address ≤ x < address + length → heap_owned (ram_heap r) x) →
  share address length dir r = (Ok paddr, r1) →
  let n := Z.to_nat length in
  ∃ bounce, phys_to_virt (ram_globals r1) paddr = Some bounce
    ∧ load bounce n (ram_bytes r1)
      = (if to_device dir then load address n (ram_bytes r) else replicate n x00)
    ∧ ∀ data, Datatypes.length data = n → ∃ r2,
        unshare paddr address length dir (set_bytes (store bounce data (ram_bytes r1)) r1)
          = (Ok (), r2)
        ∧ load address n (ram_bytes r2)
          = (if from_device dir then data else load address n (ram_bytes r))
        ∧ ∀ x, ¬ (address ≤ x < address + length) → ¬ (bounce ≤ x < bounce + length) →
            ram_bytes r2 !! x = ram_bytes r !! x.
Proof.
  intros Hdm Hbuf (Hlay&bounce&a'&Ha&Hv&->)%share_run n. simpl.
  pose proof (layout_nonneg _ _ Hlay) as Hn0. pose proof (Hdm _ _ Ha) as Hd.
  destruct (virt_phys _ _ Hd) as [Hv' Hp]. rewrite Hv in Hv'. injection Hv' as ->.
  exists bounce. split; [done|].
  assert (address + length ≤ bounce ∨ bounce + length ≤ address ∨ length = 0) as Hdis.
  { destruct (decide (length = 0)); [tauto|].
    destruct (decide (address + length ≤ bounce)); [tauto|].
    destruct (decide (bounce + length ≤ address)); [tauto|]. exfalso.
    apply (law_alloc _ _ _ _ _ Ha (Z.max address bounce)); [lia|]. apply Hbuf. lia. }
  assert (∀ data m, Datatypes.length data = n →
    load address n (store bounce data m) = load address n m) as Hother.
  { intros data m Hl. unfold n in *. destruct Hdis as [?|[?| ->]].
    - apply load_store_other. lia.
    - apply load_store_other. unfold len. lia.
    - done. }
  assert (∀ data m, Datatypes.length data = n → load bounce n (store bounce data m) = data) as Hsame.
  { intros data m <-. apply load_store_same. }
  split.
  { destruct (to_device dir); rewrite Hsame; rewrite ?load_length, ?length_replicate; try done.
    apply Hother. by rewrite length_replicate. }
  intros data Hdata. unfold unshare. rewrite bind_run. cbv beta iota delta [gets id].
  cbn [ram_globals set_bytes]. rewrite Hp, bind_lift_ok, Hlay.
  destruct (from_device dir); (eexists; split; [reflexivity|]); cbn.
  all: fold n.
  - split.
    + rewrite Hsame by done. replace n with (Datatypes.length data). apply load_store_same.
    + intros x Hx Hb. rewrite Hsame by done.
      destruct (to_device dir); rewrite !store_lookup, !decide_False;
        unfold len; rewrite ?load_length, ?length_replicate; (done || lia).
  - split.
    + rewrite Hother by done. destruct (to_device dir); rewrite ?Hother;
        rewrite ?load_length, ?length_replicate; done.
    + intros x Hx Hb.
      destruct (to_device dir); rewrite !store_lookup, !decide_False;
        unfold len; rewrite ?load_length, ?length_replicate; (done || lia).
Qed.
End bounce.

(** DMA pages are zeroed, and the device's address is the driver's. *)
Lemma dma_alloc_zeroed {A} `{AL : !Allocator A} pages (r : Ram A) physical pointer r1 :
  (∀ size p a', heap_alloc size PAGE_SIZE (ram_heap r) = (Some p, a') →
     direct_mapped (ram_globals r) p) →
  dma_alloc pages r = ((physical, Some pointer), r1) →
  phys_to_virt (ram_globals r1) physical = Some pointer
  ∧ load pointer (Z.to_nat (pages * PAGE_SIZE)) (ram_bytes r1)
    = replicate (Z.to_nat (pages * PAGE_SIZE)) x00.
Proof.
  intros Hdm. unfold dma_alloc, checked_mul. destruct (try_from _ _) as [size|] eqn:Hs; [|done].
  apply try_from_Some in Hs as [-> _]. destruct (layout_ok _ _); [|done]. cbn [negb].
  destruct (alloc_zeroed _ _ r) as [[p|] ra] eqn:Ha; [|done].
  apply alloc_zeroed_run in Ha as (a'&Ha&->). cbn [ram_globals].
  destruct (virt_phys _ _ (Hdm _ _ _ Ha)) as [Hv Hp]. rewrite Hv. intros [= <- <- <-].
  split; [done|]. cbn [ram_bytes]. set (n := Z.to_nat (pages * PAGE_SIZE)).
  pose proof (load_store_same p (replicate n x00) (ram_bytes r)) as Hl.
  by rewrite length_replicate in Hl.
Qed.

(** ** A concrete heap: blocks from a rising address *)
#[local] Instance bump_allocator : Allocator Z := {|
  heap_alloc size align a := (Some a, a + div_ceil size align * align);
  heap_dealloc _ _ _ a := a |}.
#[local] Program Instance bump_ok : HeapOk Z := {| heap_owned a x := x < a |}.
Next Obligation. intros size align a p a' [= <- _] x Hx Ho. lia. Qed.

Lemma bounce_roundtrip_witness :
  let r : Ram Z := mk_ram (mk_globals 0x1000 0x400 0xff00) (store 0x2000 "data" ∅) 0x2010 in
  ∃ paddr r1, share 0x2000 4 BothDirections r = (Ok paddr, r1) ∧
  ∃ bounce, phys_to_virt (ram_globals r1) paddr = Some bounce ∧
    load bounce 4 (ram_bytes r1) = "data" ∧ ∃ r2,
    unshare paddr 0x2000 4 BothDirections (set_bytes (store bounce "echo" (ram_bytes r1)) r1)
      = (Ok (), r2) ∧ load 0x2000 4 (ram_bytes r2) = "echo".
Proof.
  intros r. set (s := share 0x2000 4 BothDirections r).
  assert (s.1 = Ok 0x1010) as Hs by by_vm.
  exists 0x1010, s.2. assert (s = (Ok 0x1010, s.2)) as Hr.
  { rewrite <-Hs. apply surjective_pairing. }
  split; [exact Hr|].
  destruct (bounce_roundtrip 0x2000 4 BothDirections r 0x1010 s.2) as (b&Hb&Hl&Hd).
  - intros p a' [= <- _]. vm_compute. intuition (discriminate || auto).
  - intros x Hx. simpl. lia.
  - exact Hr.
  - exists b. split; [exact Hb|]. split; [exact Hl|].
    destruct (Hd "echo" eq_refl) as (r2&H1&H2&_). exists r2. split; [exact H1|exact H2].
Defined.
