(* ===== verification/Net.v ===== *)
(** * The network stack (platforms/bare-metal/src/net.rs)

    The stack's own state (connection handles, ports, the DHCP lease) and its
    operations, which poll until something happens, the user cancels or a deadline
    passes.  The TCP/IP crate is the class [Smoltcp]: its interface and socket set are one
    abstract state, sockets are numbers, and asking for a socket that is not in the set
    panics, as it does in the crate.  The clock and the cancellation probe are the two
    closures the platform passes, over its own state. *)
From S2P Require Import Prelude RustStr Api Arch.

(** ** Addresses *)
Definition Ipv4 : Type := list byte.

Definition format_ipv4 (a : Ipv4) : str := join "." (dec ∘ b2z <$> a).

Fixpoint parse_octets (n : nat) (parts : list str) : option (Ipv4 * list str) :=
  match n, parts with
  | O, _ => Some ([], parts)
  | S _, [] => None
  | S n, part :: parts =>
      octet ← parse_u8 part;
      '(octets, rest) ← parse_octets n parts;
      Some (z2b octet :: octets, rest)
  end.

Definition parse_ipv4 (value : str) : option Ipv4 :=
  '(octets, rest) ← parse_octets 4 (split dot value);
  match rest with [] => Some octets | _ :: _ => None end.

Definition hex_char (n : Z) : byte := z2b (if bool_decide (n < 10) then 48 + n else 87 + n).
Definition hex_byte (b : byte) : str := [hex_char (b2z b / 16); hex_char (b2z b mod 16)].
Definition format_mac (mac : list byte) : str := join ":" (hex_byte <$> mac).

(** ** The TCP/IP crate *)
Inductive TcpState := TcpClosed | TcpEstablished | TcpOther.

Record DhcpConfig := {
  dc_address : Ipv4 * Z; dc_router : option Ipv4; dc_dns_servers : list Ipv4 }.
Inductive DhcpEvent := Configured (c : DhcpConfig) | Deconfigured.

Inductive DnsResult := DnsOk (addresses : list Ipv4) | DnsPending | DnsFailed (e : str).

Class Smoltcp (N : Type) : Type := {
  (** The TCP sockets in the set. *)
  tcp_live : N → Z → bool;
  iface_poll : Z → N → N;
  dhcp_poll : N → option DhcpEvent * N;
  set_ip_addrs : list (Ipv4 * Z) → N → N;
  remove_default_route : N → N;
  add_default_route : Ipv4 → N → N;
  dns_update_servers : list Ipv4 → N → N;
  dns_start_query : str → N → res str Z * N;
  dns_query_result : Z → N → DnsResult * N;
  tcp_add : Z → Z → N → Z * N;
  tcp_connect : Z → Ipv4 → Z → Z → N → res str () * N;
  tcp_state : Z → N → TcpState;
  tcp_may_send : Z → N → bool;
  tcp_can_send : Z → N → bool;
  tcp_send_slice : Z → list byte → N → res str Z * N;
  tcp_may_recv : Z → N → bool;
  tcp_can_recv : Z → N → bool;
  tcp_recv_slice : Z → list byte → N → res str (Z * list byte) * N;
  tcp_close : Z → N → N;
  sockets_remove : Z → N → N }.

(** ** The stack *)
Inductive NetError : Type :=
| NoLease
| NameResolution (message : str)
| Timeout (message : str)
| Cancelled
| Closed
| SocketError (message : str).

Definition TCP_RX_BUFFER : Z := 16 * 1024.
Definition TCP_TX_BUFFER : Z := 8 * 1024.
Definition FIRST_EPHEMERAL_PORT : Z := 49152.
Definition i64_max : Z := 9223372036854775807.

Record NetStack (N : Type) := mk_stack {
  nk_net : N;
  nk_connections : gmap Z Z;
  nk_next_handle : Z;
  nk_next_port : Z;
  nk_mac : list byte;
  nk_address : option (Ipv4 * Z);
  nk_gateway : option Ipv4;
  nk_dns_servers : list Ipv4 }.
Arguments mk_stack {N}.
Arguments nk_net {N}.
Arguments nk_connections {N}.
Arguments nk_next_handle {N}.
Arguments nk_next_port {N}.
Arguments nk_mac {N}.
Arguments nk_address {N}.
Arguments nk_gateway {N}.
Arguments nk_dns_servers {N}.

(** [new], given the crate's state with the DHCP and DNS sockets added. *)
Definition stack_new {N} (net : N) (mac : list byte) : NetStack N :=
  mk_stack net ∅ 1 FIRST_EPHEMERAL_PORT mac None None [].

Section stack.
Context {N : Type} `{SM : !Smoltcp N}.
Implicit Types k : NetStack N.

Definition with_net (f : N → N) k : NetStack N :=
  mk_stack (f (nk_net k)) (nk_connections k) (nk_next_handle k) (nk_next_port k) (nk_mac k)
    (nk_address k) (nk_gateway k) (nk_dns_servers k).
Definition set_lease (address : option (Ipv4 * Z)) (gateway : option Ipv4) (servers : list Ipv4) k
    : NetStack N :=
  mk_stack (nk_net k) (nk_connections k) (nk_next_handle k) (nk_next_port k) (nk_mac k)
    address gateway servers.
Definition set_connections (c : gmap Z Z) k : NetStack N :=
  mk_stack (nk_net k) c (nk_next_handle k) (nk_next_port k) (nk_mac k)
    (nk_address k) (nk_gateway k) (nk_dns_servers k).

(** [poll]: advance the crate and apply a change of the lease. *)
Definition net_poll (now_millis : Z) k : NetStack N :=
  let k := with_net (iface_poll (Z.min now_millis i64_max)) k in
  let '(event, net) := dhcp_poll (nk_net k) in
  let k := with_net (λ _, net) k in
  match event with
  | Some (Configured config) =>
      let k := with_net (set_ip_addrs [dc_address config]) k in
      let k := with_net remove_default_route k in
      let k := match dc_router config with
               | Some gateway => with_net (add_default_route gateway) k
               | None => k
               end in
      let k := with_net (dns_update_servers (dc_dns_servers config)) k in
      set_lease (Some (dc_address config)) (dc_router config) (dc_dns_servers config) k
  | Some Deconfigured =>
      let k := with_net (set_ip_addrs []) k in
      let k := with_net remove_default_route k in
      set_lease None None (nk_dns_servers k) k
  | None => k
  end.

Definition is_configured k : bool := match nk_address k with Some _ => true | None => false end.

Definition stack_status k : NetStatus :=
  {| ns_link_up := true;
     ns_mac := format_mac (nk_mac k);
     ns_address := (λ '(a, prefix), format_ipv4 a ++ "/" ++ dec prefix) <$> nk_address k;
     ns_gateway := format_ipv4 <$> nk_gateway k |}.

Definition allocate_port k : Z * NetStack N :=
  let port := nk_next_port k in
  (port, mk_stack (nk_net k) (nk_connections k) (nk_next_handle k)
    (if bool_decide (nk_next_port k = u16_max) then FIRST_EPHEMERAL_PORT else nk_next_port k + 1)
    (nk_mac k) (nk_address k) (nk_gateway k) (nk_dns_servers k)).
End stack.

Section operations.
Context {N : Type} `{SM : !Smoltcp N} {H : Type}.
(** The closures: the time in milliseconds, and whether the user cancelled. *)
Context (clock : H → res NetError Z * H) (cancel : H → bool * H).
Notation Net := (M (NetStack N * H) NetError).

Definition now : Net Z := λ '(k, h), let '(t, h) := clock h in (t, (k, h)).
Definition cancelled : Net bool := effect (λ '(k, h), let '(b, h) := cancel h in (b, (k, h))).
Definition on_stack {A} (f : NetStack N → A * NetStack N) : Net A :=
  effect (λ '(k, h), let '(a, k) := f k in (a, (k, h))).
Definition stack_do (f : NetStack N → NetStack N) : Net () := on_stack (λ k, ((), f k)).
Definition stack_get {A} (f : NetStack N → A) : Net A := on_stack (λ k, (f k, k)).
(** [self.sockets.get_mut::<tcp::Socket>(handle)]. *)
Definition get_socket (handle : Z) : Net () :=
  live ← stack_get (λ k, tcp_live (nk_net k) handle);
  if (live : bool) then mret () else lift Panic.
(** A fallible call of the crate. *)
Definition net_call {A} (wrap : str → NetError) (f : N → res str A * N) : Net A := λ '(k, h),
  let '(r, net) := f (nk_net k) in (map_err wrap r, (with_net (λ _, net) k, h)).

(** [self.poll(clock())]. *)
Definition poll_now : Net () := t ← now; stack_do (net_poll t).

(** The shape of every wait: try, then give up when cancelled or late ([stop] cleans
    up), else again. *)
Fixpoint wait {A} (fuel : nat) (attempt : Net (option A)) (stop : Net ()) (late : NetError)
    (deadline : Z) : Net A :=
  match fuel with
  | O => hang
  | S fuel =>
      found ← attempt;
      match found with
      | Some a => mret a
      | None =>
          c ← cancelled;
          if (c : bool) then stop;; throw Cancelled
          else
            t ← now;
            if bool_decide (deadline ≤ t) then stop;; throw late
            else wait fuel attempt stop late deadline
      end
  end.

Definition lease_attempt : Net (option ()) :=
  poll_now;;
  configured ← stack_get is_configured;
  mret (if (configured : bool) then Some () else None).

Definition dns_attempt (query : Z) : Net (option Ipv4) :=
  poll_now;;
  r ← on_stack (λ k, let '(r, net) := dns_query_result query (nk_net k) in
                     (r, with_net (λ _, net) k));
  match r with
  | DnsOk addresses =>
      match head addresses with
      | Some value => mret (Some value)
      | None => throw (NameResolution "host has no IPv4 address")
      end
  | DnsPending => mret None
  | DnsFailed error => throw (NameResolution error)
  end.

Definition net_resolve (fuel : nat) (host : str) (deadline : Z) : Net Ipv4 :=
  match parse_ipv4 host with
  | Some address => mret address
  | None =>
      servers ← stack_get nk_dns_servers;
      if bool_decide (servers = [])
      then throw (NameResolution "no DNS server was offered by DHCP")
      else
        query ← net_call NameResolution (dns_start_query host);
        wait fuel (dns_attempt query) (mret ()) (Timeout "DNS resolution timed out") deadline
  end.

Definition remove_socket (handle : Z) : Net () :=
  get_socket handle;;
  stack_do (with_net (sockets_remove handle)).

Definition tcp_attempt (handle : Z) : Net (option ()) :=
  poll_now;;
  get_socket handle;;
  state ← stack_get (λ k, tcp_state handle (nk_net k));
  match state with
  | TcpEstablished => mret (Some ())
  | TcpClosed => remove_socket handle;; throw (SocketError "connection refused")
  | TcpOther => mret None
  end.

(** [self.next_handle += 1] overflows when no handle is left. *)
Definition register_connection (handle : Z) : Net Z :=
  k ← stack_get id;
  let id := nk_next_handle k in
  if bool_decide (u64_max < id + 1) then lift Panic
  else
    stack_do (λ k, mk_stack (nk_net k) (<[id := handle]> (nk_connections k)) (id + 1)
      (nk_next_port k) (nk_mac k) (nk_address k) (nk_gateway k) (nk_dns_servers k));;
    mret id.

Definition net_connect_op (fuel : nat) (host : str) (port timeout_millis : Z) : Net Z :=
  t ← now;
  let deadline := saturating_add64 t timeout_millis in
  configured ← stack_get is_configured;
  (if (configured : bool) then mret () else wait fuel lease_attempt (mret ()) NoLease deadline);;
  address ← net_resolve fuel host deadline;
  local_port ← on_stack allocate_port;
  handle ← on_stack (λ k, let '(h, net) := tcp_add TCP_RX_BUFFER TCP_TX_BUFFER (nk_net k) in
                          (h, with_net (λ _, net) k));
  get_socket handle;;
  net_call SocketError (tcp_connect handle address port local_port);;
  wait fuel (tcp_attempt handle) (remove_socket handle) (Timeout "connection timed out") deadline;;
  register_connection handle.

Definition connection (id : Z) : Net Z :=
  c ← stack_get (λ k, nk_connections k !! id);
  match c with Some handle => mret handle | None => throw Closed end.

Definition send_attempt (handle : Z) (data : list byte) : Net (option Z) :=
  poll_now;;
  get_socket handle;;
  may_send ← stack_get (λ k, tcp_may_send handle (nk_net k));
  if negb may_send then throw Closed
  else
    can_send ← stack_get (λ k, tcp_can_send handle (nk_net k));
    if (can_send : bool) then
      written ← net_call SocketError (tcp_send_slice handle data);
      poll_now;;
      mret (Some written)
    else mret None.

Definition net_send_op (fuel : nat) (id : Z) (data : list byte) : Net Z :=
  handle ← connection id;
  t ← now;
  let deadline := saturating_add64 t 15000 in
  wait fuel (send_attempt handle data) (mret ()) (Timeout "send timed out") deadline.

Definition recv_attempt (handle : Z) (output : list byte) : Net (option (Z * list byte)) :=
  poll_now;;
  get_socket handle;;
  can_recv ← stack_get (λ k, tcp_can_recv handle (nk_net k));
  if (can_recv : bool) then
    r ← net_call SocketError (tcp_recv_slice handle output);
    mret (Some r)
  else
    may_recv ← stack_get (λ k, tcp_may_recv handle (nk_net k));
    mret (if negb may_recv then Some (0, output) else None).

Definition net_recv_op (fuel : nat) (id : Z) (output : list byte) : Net (Z * list byte) :=
  handle ← connection id;
  t ← now;
  let deadline := saturating_add64 t 15000 in
  wait fuel (recv_attempt handle output) (mret ()) (Timeout "receive timed out") deadline.

Definition net_close_op (id : Z) : Net () :=
  k ← stack_get Datatypes.id;
  match nk_connections k !! id with
  | None => mret ()
  | Some handle =>
      stack_do (λ k, set_connections (delete id (nk_connections k)) k);;
      get_socket handle;;
      stack_do (with_net (tcp_close handle));;
      poll_now;;
      remove_socket handle
  end.
End operations.

(** ** What the stack relies on

    The crate's socket set: only adding and removing change which sockets are in it, a
    new socket is not one that was there, and no call panics. *)
Class ReliableSmoltcp (N : Type) `{!Smoltcp N} : Prop := {
  law_iface_poll t n x : tcp_live (iface_poll t n) x = tcp_live n x;
  law_dhcp_poll n x : tcp_live (dhcp_poll n).2 x = tcp_live n x;
  law_set_ip_addrs l n x : tcp_live (set_ip_addrs l n) x = tcp_live n x;
  law_remove_route n x : tcp_live (remove_default_route n) x = tcp_live n x;
  law_add_route g n x : tcp_live (add_default_route g n) x = tcp_live n x;
  law_dns_servers l n x : tcp_live (dns_update_servers l n) x = tcp_live n x;
  law_dns_start host n x : tcp_live (dns_start_query host n).2 x = tcp_live n x;
  law_dns_start_returns host n : (dns_start_query host n).1 ≠ Panic;
  law_dns_result q n x : tcp_live (dns_query_result q n).2 x = tcp_live n x;
  law_tcp_add rx tx n : tcp_live n (tcp_add rx tx n).1 = false;
  law_tcp_added rx tx n x :
    tcp_live (tcp_add rx tx n).2 x = bool_decide (x = (tcp_add rx tx n).1) || tcp_live n x;
  law_tcp_connect s a p l n x : tcp_live (tcp_connect s a p l n).2 x = tcp_live n x;
  law_tcp_connect_returns s a p l n : (tcp_connect s a p l n).1 ≠ Panic;
  law_tcp_send s d n x : tcp_live (tcp_send_slice s d n).2 x = tcp_live n x;
  law_tcp_send_returns s d n : (tcp_send_slice s d n).1 ≠ Panic;
  law_tcp_recv s d n x : tcp_live (tcp_recv_slice s d n).2 x = tcp_live n x;
  law_tcp_recv_returns s d n : (tcp_recv_slice s d n).1 ≠ Panic;
  law_tcp_close s n x : tcp_live (tcp_close s n) x = tcp_live n x;
  law_removed s n x : tcp_live (sockets_remove s n) x = negb (bool_decide (x = s)) && tcp_live n x }.

(** A clock that runs: every reading finds the counter further on, and a time within
    its range is reached once the counter is far enough.  Probing for cancellation does
    not turn it back. *)
Class LiveClock {H : Type} (clock : H → res NetError Z * H) (cancel : H → bool * H) : Type := {
  ticks : H → Z;
  clock_max : Z;
  law_tick h : ∃ t h', clock h = (Ok t, h') ∧ 0 ≤ t ∧ ticks h < ticks h';
  law_late d : d ≤ clock_max →
    ∃ T, ∀ h t h', clock h = (Ok t, h') → T ≤ ticks h' → d ≤ t;
  law_probe h : ticks h ≤ ticks (cancel h).2 }.

(** Handles are positive and below the next one, each has its own open socket, and
    ports are ephemeral ones. *)
Record net_ok {N} `{!Smoltcp N} (k : NetStack N) : Prop := {
  ok_live id s : nk_connections k !! id = Some s → tcp_live (nk_net k) s = true;
  ok_own id id' s : nk_connections k !! id = Some s → nk_connections k !! id' = Some s → id = id';
  ok_handle id s : nk_connections k !! id = Some s → 1 ≤ id < nk_next_handle k;
  ok_next : 1 ≤ nk_next_handle k ≤ u64_max;
  ok_port : FIRST_EPHEMERAL_PORT ≤ nk_next_port k ≤ u16_max }.

Section returns.
Context {N : Type} `{SM : !Smoltcp N} `{RS : !ReliableSmoltcp N} {H : Type}.
Context (clock : H → res NetError Z * H) (cancel : H → bool * H) `{LC : !LiveClock clock cancel}.
Notation S := (NetStack N * H)%type.
Notation Net := (M S NetError).
Implicit Types s : S.

(** [hoare P m Q R]: from a state in [P], [m] returns given enough fuel, with a result in
    [Q] or an error in [R], and no time is lost. *)
Definition hoare {A} (P : S → Prop) (m : nat → Net A) (Q : A → S → Prop)
    (R : NetError → S → Prop) : Prop :=
  ∀ s, P s → ∃ n r s', (∀ fuel, (n ≤ fuel)%nat → m fuel s = (r, s')) ∧ ticks s.2 ≤ ticks s'.2
    ∧ match r with Ok a => Q a s' | Err e => R e s' | Panic => False end.

Lemma hoare_bind {A B} P (m : nat → Net A) Q (k : A → nat → Net B) Q' R :
  hoare P m Q R → (∀ a, hoare (Q a) (k a) Q' R) → hoare P (λ f, m f ≫= λ a, k a f) Q' R.
Proof.
  intros Hm Hk s Hs. destruct (Hm s Hs) as (n&r&s1&H1&Ht1&Hr). destruct r as [a|e|]; [| |done].
  - destruct (Hk a s1 Hr) as (n2&r2&s2&H2&Ht2&Hr2). exists (n `max` n2)%nat, r2, s2.
    split_and!; [|lia|done]. intros fuel Hf. rewrite bind_run, H1 by lia. apply H2. lia.
  - exists n, (Err e), s1. split_and!; [|done..]. intros fuel Hf. by rewrite bind_run, H1.
Qed.

Lemma hoare_weaken {A} P P' (m : nat → Net A) Q Q' (R R' : NetError → S → Prop) :
  hoare P m Q R → (∀ s, P' s → P s) → (∀ a s, Q a s → Q' a s) → (∀ e s, R e s → R' e s) →
  hoare P' m Q' R'.
Proof.
  intros Hm HP HQ HR s Hs. destruct (Hm s (HP s Hs)) as (n&r&s'&H1&Ht&Hr).
  exists n, r, s'. split_and!; [done..|]. destruct r; auto.
Qed.

Lemma hoare_pure {A} (φ : Prop) P (m : nat → Net A) Q R :
  (φ → hoare P m Q R) → hoare (λ s, φ ∧ P s) m Q R.
Proof. intros Hm s [Hφ Hs]. by apply Hm. Qed.
Lemma hoare_ret {A} (P : S → Prop) (a : A) (Q : A → S → Prop) R :
  (∀ s, P s → Q a s) → hoare P (λ _, mret a) Q R.
Proof. intros HQ s Hs. exists 0%nat, (Ok a), s. split_and!; [done..|auto]. Qed.
Lemma hoare_throw {A} (P : S → Prop) e (Q : A → S → Prop) (R : NetError → S → Prop) :
  (∀ s, P s → R e s) → hoare P (λ _, throw e) Q R.
Proof. intros HR s Hs. exists 0%nat, (Err e), s. split_and!; [done..|auto]. Qed.

Lemma hoare_on_stack {A} P (f : NetStack N → A * NetStack N) (Q : A → S → Prop) R :
  (∀ k h, P (k, h) → Q (f k).1 ((f k).2, h)) → hoare P (λ _, on_stack f) Q R.
Proof.
  intros HQ [k h] Hs. exists 0%nat, (Ok (f k).1), ((f k).2, h).
  split_and!; [|done|by apply HQ]. intros. unfold on_stack, effect. by destruct (f k).
Qed.

Lemma hoare_get {A} P (f : NetStack N → A) (Q : A → S → Prop) R :
  (∀ k h, P (k, h) → Q (f k) (k, h)) → hoare P (λ _, stack_get f) Q R.
Proof. intros HQ. by apply hoare_on_stack. Qed.
Lemma hoare_do P (f : NetStack N → NetStack N) (Q : () → S → Prop) R :
  (∀ k h, P (k, h) → Q () (f k, h)) → hoare P (λ _, stack_do f) Q R.
Proof. intros HQ. by apply hoare_on_stack. Qed.

Lemma hoare_net_call {A} P wrap (f : N → res str A * N) (Q : A → S → Prop) R :
  (∀ n, (f n).1 ≠ Panic) →
  (∀ k h a, P (k, h) → Q a (with_net (λ _, (f (nk_net k)).2) k, h)) →
  (∀ k h e, P (k, h) → R (wrap e) (with_net (λ _, (f (nk_net k)).2) k, h)) →
  hoare P (λ _, net_call wrap f) Q R.
Proof.
  intros Hp HQ HR [k h] Hs. specialize (Hp (nk_net k)).
  exists 0%nat, (map_err wrap (f (nk_net k)).1), (with_net (λ _, (f (nk_net k)).2) k, h).
  split_and!; [|done|].
  - intros. unfold net_call. by destruct (f (nk_net k)).
  - destruct (f (nk_net k)).1; [by apply HQ|by apply HR|done].
Qed.

(** A condition that the time does not affect. *)
Definition timeless (P : S → Prop) : Prop := ∀ k h h', P (k, h) → P (k, h').

Lemma hoare_clock (P : S → Prop) (Q : Z → S → Prop) R :
  (∀ k h t h', P (k, h) → clock h = (Ok t, h') → Q t (k, h')) → hoare P (λ _, now clock) Q R.
Proof.
  intros HQ [k h] Hs. destruct (law_tick h) as (t&h'&Hc&_&Ht).
  exists 0%nat, (Ok t), (k, h').
  split_and!; [intros; unfold now; by rewrite Hc|simpl; lia|by eapply HQ].
Qed.
Lemma hoare_now P R : timeless P → hoare P (λ _, now clock) (λ _, P) R.
Proof. intros HP. apply hoare_clock. eauto. Qed.
Lemma hoare_cancelled P R : timeless P → hoare P (λ _, cancelled cancel) (λ _, P) R.
Proof.
  intros HP [k h] Hs. pose proof (law_probe h) as Ht.
  exists 0%nat, (Ok (cancel h).1), (k, (cancel h).2).
  split_and!; [|done|by eapply HP]. intros. unfold cancelled, effect. by destruct (cancel h).
Qed.

(** A wait ends: found, failed, cancelled or late. *)
Lemma hoare_wait {A} (P : S → Prop) (attempt : Net (option A)) stop late deadline Q (R : NetError → S → Prop) :
  timeless P → deadline ≤ clock_max →
  hoare P (λ _, attempt) (λ o s, match o with Some a => Q a s | None => P s end) R →
  hoare P (λ _, stop) (λ _ s, R Cancelled s ∧ R late s) R →
  hoare P (λ f, wait clock cancel f attempt stop late deadline) Q R.
Proof.
  intros HP Hd Hatt Hstop. destruct (law_late deadline Hd) as [T HT].
  assert (∀ e, e = Cancelled ∨ e = late → hoare P (λ _, stop;; throw e : Net A) Q R) as Hquit.
  { intros e He. apply (hoare_bind P (λ _, stop) _ (λ _ _, throw e)) with (1 := Hstop).
    intros _. apply hoare_throw. intros s [??]. by destruct He as [->| ->]. }
  intros s. remember (Z.to_nat (T - ticks s.2)) as m eqn:Em. revert s Em.
  induction m as [m IH] using lt_wf_ind. intros s -> Hs.
  destruct (Hatt s Hs) as (n1&r1&s1&H1&Ht1&Hr1).
  specialize (H1 n1 (le_n _)). destruct r1 as [[a|]|e|]; [| | |done].
  { exists 1%nat, (Ok a), s1. split_and!; [|done..]. intros [|f] Hf; [lia|].
    cbn [wait]. by rewrite bind_run, H1. }
  2:{ exists 1%nat, (Err e), s1. split_and!; [|done..]. intros [|f] Hf; [lia|].
      cbn [wait]. by rewrite bind_run, H1. }
  destruct (hoare_cancelled P R HP s1 Hr1) as (n2&r2&s2&H2&Ht2&Hr2).
  specialize (H2 n2 (le_n _)). destruct s1 as [k1 h1]. unfold cancelled, effect in H2.
  destruct (cancel h1) as [c h2] eqn:Ec. injection H2 as <- <-. simpl in *.
  destruct c.
  { destruct (Hquit Cancelled (or_introl eq_refl) (k1, h2) Hr2) as (n3&r3&s3&H3&Ht3&Hr3).
    exists 1%nat, r3, s3. split_and!; [|simpl in *; lia|done]. intros [|f] Hf; [lia|].
    cbn [wait]. rewrite bind_run, H1, bind_run. unfold cancelled, effect. rewrite Ec.
    apply (H3 n3). lia. }
  destruct (law_tick h2) as (t&h3&Hc&_&Hlt).
  assert (P (k1, h3)) as Hs3 by by eapply HP.
  destruct (decide (deadline ≤ t)) as [Hlate|Hlate].
  - destruct (Hquit late (or_intror eq_refl) (k1, h3) Hs3) as (n3&r3&s3&H3&Ht3&Hr3).
    exists 1%nat, r3, s3. split_and!; [|simpl in *; lia|done]. intros [|f] Hf; [lia|].
    cbn [wait]. rewrite bind_run, H1, bind_run. unfold cancelled, effect. rewrite Ec, bind_run.
    unfold now. rewrite Hc, bool_decide_true by done. apply (H3 n3). lia.
  - assert (ticks h3 < T) as Hm.
    { destruct (decide (T ≤ ticks h3)) as [Hge|]; [|lia]. exfalso. apply Hlate. by eapply HT. }
    destruct (IH (Z.to_nat (T - ticks h3)) ltac:(lia) (k1, h3) eq_refl Hs3)
      as (n3&r3&s3&H3&Ht3&Hr3).
    exists (Datatypes.S n3), r3, s3. split_and!; [|simpl in *; lia|done]. intros [|f] Hf; [lia|].
    cbn [wait]. rewrite bind_run, H1, bind_run. unfold cancelled, effect. rewrite Ec, bind_run.
    unfold now. rewrite Hc, bool_decide_false by done. apply H3. lia.
Qed.

(** What the operations change of the stack: the connections, the next handle and which
    sockets are open. *)
Definition shape (c : gmap Z Z) (next : Z) (live : Z → bool) : S → Prop := λ '(k, _),
  nk_connections k = c ∧ nk_next_handle k = next
  ∧ FIRST_EPHEMERAL_PORT ≤ nk_next_port k ≤ u16_max ∧ ∀ x, tcp_live (nk_net k) x = live x.

Lemma shape_timeless c next live : timeless (shape c next live).
Proof. intros k h h' Hs. exact Hs. Qed.
Hint Resolve shape_timeless : core.

Lemma shape_with_net c next live live' f k h :
  shape c next live (k, h) →
  (∀ n, (∀ x, tcp_live n x = live x) → ∀ x, tcp_live (f n) x = live' x) →
  shape c next live' (with_net f k, h).
Proof. intros (?&?&[??]&?) Hf. split_and!; [done..|]. by apply Hf. Qed.
Lemma shape_kept c next live f k h :
  shape c next live (k, h) → (∀ n x, tcp_live (f n) x = tcp_live n x) →
  shape c next live (with_net f k, h).
Proof. intros ? Hf. eapply shape_with_net; [done|]. intros n Hn x. by rewrite Hf. Qed.

Lemma shape_poll c next live t k h :
  shape c next live (k, h) → shape c next live (net_poll t k, h).
Proof.
  intros (?&?&[??]&Hl). unfold net_poll.
  assert (∀ x, tcp_live (dhcp_poll (iface_poll (Z.min t i64_max) (nk_net k))).2 x = live x) as Hd
    by (intros x; by rewrite law_dhcp_poll, law_iface_poll).
  simpl. destruct (dhcp_poll _) as [[[[a [g|] l]|]|] n2]; split_and!; try done; intros x; simpl;
    by rewrite ?law_dns_servers, ?law_add_route, ?law_remove_route, ?law_set_ip_addrs.
Qed.

Lemma hoare_poll c next live R :
  hoare (shape c next live) (λ _, poll_now clock) (λ _, shape c next live) R.
Proof.
  apply hoare_bind with (Q := λ _, shape c next live); [by apply hoare_now|].
  intros t. apply hoare_do. intros. by apply shape_poll.
Qed.

Lemma hoare_get_socket c next live x R :
  live x = true →
  hoare (shape c next live) (λ _, get_socket x) (λ _, shape c next live) R.
Proof.
  intros Hx. apply hoare_bind with (Q := λ b s, b = true ∧ shape c next live s).
  - apply hoare_get. intros k h Hs. split; [|done]. destruct Hs as (_&_&_&Hl). by rewrite Hl.
  - intros b. apply hoare_pure. intros ->. by apply hoare_ret.
Qed.

Definition without (x : Z) (live : Z → bool) : Z → bool := λ y, negb (bool_decide (y = x)) && live y.
Definition plus (x : Z) (live : Z → bool) : Z → bool := λ y, bool_decide (y = x) || live y.

Lemma hoare_remove_socket c next live x R :
  live x = true →
  hoare (shape c next live) (λ _, remove_socket x) (λ _, shape c next (without x live)) R.
Proof.
  intros Hx. eapply hoare_bind; [by apply hoare_get_socket|]. intros []. apply hoare_do.
  intros k h Hs. eapply shape_with_net; [done|]. intros n Hn y. by rewrite law_removed, Hn.
Qed.

Lemma hoare_lease c next live R :
  hoare (shape c next live) (λ _, lease_attempt clock) (λ _, shape c next live) R.
Proof.
  eapply hoare_bind; [apply hoare_poll|]. intros [].
  apply hoare_bind with (Q := λ _, shape c next live); [by apply hoare_get|].
  intros b. by apply hoare_ret.
Qed.

Lemma shape_ext c next live live' s :
  shape c next live s → (∀ x, live x = live' x) → shape c next live' s.
Proof. destruct s. intros (?&?&[??]&Hl) He. split_and!; [done..|]. intros x. by rewrite Hl. Qed.
Lemma without_plus x live : live x = false → ∀ y, without x (plus x live) y = live y.
Proof. intros Hx y. unfold without, plus. by destruct (decide (y = x)) as [->|]; repeat case_bool_decide. Qed.

(** After a failure the stack is as it was, but a socket error may leave a socket open. *)
Definition failed (c : gmap Z Z) (next : Z) (live : Z → bool) (e : NetError) (s : S) : Prop :=
  match e with
  | SocketError _ => ∃ live', (∀ x, live x = true → live' x = true) ∧ shape c next live' s
  | _ => shape c next live s
  end.
Lemma shape_failed c next live e s : shape c next live s → failed c next live e s.
Proof. destruct e; simpl; eauto. Qed.
Hint Resolve shape_failed : core.

Lemma hoare_dns c next live query :
  hoare (shape c next live) (λ _, dns_attempt clock query) (λ _, shape c next live)
    (failed c next live).
Proof.
  eapply hoare_bind; [apply hoare_poll|]. intros [].
  apply hoare_bind with (Q := λ _, shape c next live).
  - apply hoare_on_stack. intros k h Hs. destruct (dns_query_result _ _) as [r net] eqn:E.
    apply (shape_with_net c next live live (λ _, net) k h Hs). intros _ _ x. destruct Hs as (_&_&_&<-).
    pose proof (law_dns_result query (nk_net k) x) as Hl. by rewrite E in Hl.
  - intros [addresses| |]; [|by apply hoare_ret|by apply hoare_throw; eauto].
    destruct (head addresses); [by apply hoare_ret|by apply hoare_throw; eauto].
Qed.

Lemma hoare_resolve c next live host deadline :
  deadline ≤ clock_max →
  hoare (shape c next live) (λ f, net_resolve clock cancel f host deadline)
    (λ _, shape c next live) (failed c next live).
Proof.
  intros Hd. unfold net_resolve. destruct (parse_ipv4 host); [by apply hoare_ret|].
  apply hoare_bind with (Q := λ _, shape c next live); [by apply hoare_get|]. intros servers.
  case_bool_decide; [by apply hoare_throw|].
  apply hoare_bind with (Q := λ _, shape c next live).
  - apply hoare_net_call; [apply law_dns_start_returns| |]; intros k h ? Hs;
      [|apply shape_failed]; destruct Hs as (?&?&[??]&Hl); split_and!; try done;
      intros x; simpl; by rewrite law_dns_start.
  - intros query. apply hoare_wait; [done..| |].
    + eapply hoare_weaken; [apply hoare_dns|done| |done]. by intros [].
    + by apply hoare_ret; eauto.
Qed.

Lemma hoare_tcp c next live x :
  live x = false →
  hoare (shape c next (plus x live)) (λ _, tcp_attempt clock x)
    (λ _, shape c next (plus x live)) (failed c next live).
Proof.
  intros Hx. assert (plus x live x = true) by (unfold plus; by rewrite bool_decide_true).
  eapply hoare_bind; [apply hoare_poll|]. intros [].
  eapply hoare_bind; [by apply hoare_get_socket|]. intros [].
  apply hoare_bind with (Q := λ _, shape c next (plus x live)); [by apply hoare_get|].
  intros []; [|by apply hoare_ret..].
  eapply hoare_bind; [by apply hoare_remove_socket|]. intros []. apply hoare_throw.
  intros s Hs. eapply shape_failed, shape_ext; [done|]. by apply without_plus.
Qed.

Lemma hoare_register c next live x R :
  next < u64_max →
  hoare (shape c next live) (λ _, register_connection x)
    (λ id s, id = next ∧ shape (<[next := x]> c) (next + 1) live s) R.
Proof.
  intros Hn. apply hoare_bind with (Q := λ k s, nk_next_handle k = next ∧ shape c next live s).
  - apply hoare_get. intros k h Hs. split; [|done]. by destruct Hs as (?&?&?).
  - intros k. apply hoare_pure. intros ->. rewrite bool_decide_false by lia.
    apply hoare_bind with (Q := λ _, shape (<[next := x]> c) (next + 1) live).
    + apply hoare_do. intros k' h (<-&?&[??]&?). by split_and!.
    + intros []. by apply hoare_ret.
Qed.

(** Reading the clock first fixes the deadline. *)
Lemma hoare_deadline {A} c next live h duration (m : Z → nat → Net A) Q R :
  (∀ t h', clock h = (Ok t, h') → saturating_add64 t duration ≤ clock_max) →
  (∀ t, saturating_add64 t duration ≤ clock_max → hoare (shape c next live) (m t) Q R) →
  hoare (λ s, shape c next live s ∧ s.2 = h) (λ f, now clock ≫= λ t, m t f) Q R.
Proof.
  intros Hd Hm.
  apply hoare_bind
    with (Q := λ t s, saturating_add64 t duration ≤ clock_max ∧ shape c next live s).
  - apply hoare_clock. intros k h0 t h' [Hs Hh] Hc. simpl in Hh. subst h0. eauto.
  - intros t. apply hoare_pure. auto.
Qed.

Lemma hoare_add_socket c next live R :
  hoare (shape c next live)
    (λ _, on_stack (λ k, let '(h, net) := tcp_add TCP_RX_BUFFER TCP_TX_BUFFER (nk_net k) in
                         (h, with_net (λ _, net) k)))
    (λ x s, live x = false ∧ shape c next (plus x live) s) R.
Proof.
  apply hoare_on_stack. intros k h' Hs. destruct (tcp_add _ _ _) as [x net] eqn:E.
  pose proof (law_tcp_add TCP_RX_BUFFER TCP_TX_BUFFER (nk_net k)) as Hf.
  pose proof (law_tcp_added TCP_RX_BUFFER TCP_TX_BUFFER (nk_net k)) as Ha.
  rewrite E in Hf, Ha. simpl in *. pose proof Hs as (_&_&_&Hl). split; [by rewrite <-Hl|].
  apply (shape_with_net c next live _ (λ _, net) k h' Hs). intros _ _ y. by rewrite Ha, Hl.
Qed.

Lemma hoare_start_connect c next live x address port local :
  hoare (shape c next (plus x live)) (λ _, net_call SocketError (tcp_connect x address port local))
    (λ _, shape c next (plus x live)) (failed c next live).
Proof.
  apply hoare_net_call; [intros; apply law_tcp_connect_returns| |]; intros k h' ? (?&?&[??]&Hl).
  - split_and!; try done. intros y. simpl. by rewrite law_tcp_connect.
  - exists (plus x live). split; [intros y Hy; unfold plus; by rewrite Hy, orb_true_r|].
    split_and!; try done. intros y. simpl. by rewrite law_tcp_connect.
Qed.

Lemma hoare_connect c next live h host port timeout :
  next < u64_max →
  (∀ t h', clock h = (Ok t, h') → saturating_add64 t timeout ≤ clock_max) →
  hoare (λ s, shape c next live s ∧ s.2 = h)
    (λ f, net_connect_op clock cancel f host port timeout)
    (λ id s, id = next ∧ ∃ x, live x = false ∧ shape (<[next := x]> c) (next + 1) (plus x live) s)
    (failed c next live).
Proof.
  intros Hn Ht. eapply hoare_deadline; [done|]. intros t Hd.
  apply hoare_bind with (Q := λ _, shape c next live); [by apply hoare_get|]. intros configured.
  apply hoare_bind with (Q := λ _, shape c next live).
  { destruct configured; [by apply hoare_ret|]. apply hoare_wait; [done..| |].
    - eapply hoare_weaken; [apply hoare_lease|done| |done]. by intros [].
    - apply hoare_ret; eauto. }
  intros []. eapply hoare_bind; [by apply hoare_resolve|]. intros address.
  apply hoare_bind with (Q := λ _, shape c next live).
  { apply hoare_on_stack. intros k h' (?&?&?&?). split_and!; try done; simpl;
      unfold FIRST_EPHEMERAL_PORT, u16_max in *; case_bool_decide; lia. }
  intros local_port.
  eapply hoare_bind; [apply hoare_add_socket|].
  intros x. apply hoare_pure. intros Hx.
  assert (plus x live x = true) by (unfold plus; by rewrite bool_decide_true).
  eapply hoare_bind; [by apply hoare_get_socket|]. intros [].
  eapply hoare_bind; [apply hoare_start_connect|].
  intros []. apply hoare_bind with (Q := λ _, shape c next (plus x live)).
  { apply hoare_wait; [done..| |].
    - eapply hoare_weaken; [by apply hoare_tcp|done| |done]. by intros [].
    - eapply hoare_weaken; [by apply hoare_remove_socket|done| |done].
      intros [] s Hs. split; eapply shape_failed, shape_ext; try done; by apply without_plus. }
  intros []. eapply hoare_weaken; [by apply hoare_register|done| |done].
  intros id s [-> Hs]. eauto.
Qed.

(** The connection's socket, looked up before the clock is read. *)
Lemma hoare_on_connection {A} c next live h id duration (m : Z → Z → nat → Net A) Q :
  (∀ t h', clock h = (Ok t, h') → saturating_add64 t duration ≤ clock_max) →
  (∀ x t, c !! id = Some x → saturating_add64 t duration ≤ clock_max →
     hoare (shape c next live) (m x t) Q (λ _, shape c next live)) →
  hoare (λ s, shape c next live s ∧ s.2 = h)
    (λ f, connection id ≫= λ x, now clock ≫= λ t, m x t f) Q (λ _, shape c next live).
Proof.
  intros Hd Hm.
  apply hoare_bind
    with (Q := λ x s, c !! id = Some x ∧ shape c next live s ∧ s.2 = h).
  - apply hoare_bind with (Q := λ o s, o = c !! id ∧ shape c next live s ∧ s.2 = h).
    + apply hoare_get. intros k h' [Hs ?]. split_and!; [|done..]. by destruct Hs as [-> _].
    + intros o. apply hoare_pure. intros ->. destruct (c !! id); [by apply hoare_ret|].
      apply hoare_throw. by intros s [??].
  - intros x. apply hoare_pure. intros Hx. eapply hoare_deadline; eauto.
Qed.

Lemma hoare_send_attempt c next live x data :
  live x = true →
  hoare (shape c next live) (λ _, send_attempt clock x data) (λ _, shape c next live)
    (λ _, shape c next live).
Proof.
  intros Hx. eapply hoare_bind; [apply hoare_poll|]. intros [].
  eapply hoare_bind; [by apply hoare_get_socket|]. intros [].
  apply hoare_bind with (Q := λ _, shape c next live); [by apply hoare_get|]. intros [];
    [|by apply hoare_throw].
  apply hoare_bind with (Q := λ _, shape c next live); [by apply hoare_get|]. intros [];
    [|by apply hoare_ret].
  apply hoare_bind with (Q := λ _, shape c next live).
  - apply hoare_net_call; [intros; apply law_tcp_send_returns| |]; intros k h ? (?&?&[??]&Hl);
      split_and!; try done; intros y; simpl; by rewrite law_tcp_send.
  - intros written. eapply hoare_bind; [apply hoare_poll|]. intros []. by apply hoare_ret.
Qed.

Lemma hoare_recv_attempt c next live x output :
  live x = true →
  hoare (shape c next live) (λ _, recv_attempt clock x output) (λ _, shape c next live)
    (λ _, shape c next live).
Proof.
  intros Hx. eapply hoare_bind; [apply hoare_poll|]. intros [].
  eapply hoare_bind; [by apply hoare_get_socket|]. intros [].
  apply hoare_bind with (Q := λ _, shape c next live); [by apply hoare_get|]. intros [].
  - apply hoare_bind with (Q := λ _, shape c next live).
    + apply hoare_net_call; [intros; apply law_tcp_recv_returns| |]; intros k h ? (?&?&[??]&Hl);
        split_and!; try done; intros y; simpl; by rewrite law_tcp_recv.
    + intros r. by apply hoare_ret.
  - apply hoare_bind with (Q := λ _, shape c next live); [by apply hoare_get|].
    intros b. by apply hoare_ret.
Qed.

Lemma hoare_close c next live id :
  (∀ x, c !! id = Some x → live x = true) →
  hoare (shape c next live) (λ _, net_close_op clock id)
    (λ _, shape (delete id c) next
            (match c !! id with Some x => without x live | None => live end))
    (λ _ _, False).
Proof.
  intros Hl. apply hoare_bind with (Q := λ k s, nk_connections k = c ∧ shape c next live s).
  { apply hoare_get. intros k h Hs. split; [|done]. by destruct Hs as [? _]. }
  intros k. apply hoare_pure. intros ->. destruct (c !! id) as [x|] eqn:E.
  - specialize (Hl x eq_refl).
    apply hoare_bind with (Q := λ _, shape (delete id c) next live).
    { apply hoare_do. intros k' h (<-&?&[??]&?). by split_and!. }
    intros []. eapply hoare_bind; [by apply hoare_get_socket|]. intros [].
    apply hoare_bind with (Q := λ _, shape (delete id c) next live).
    { apply hoare_do. intros k' h Hs. apply shape_kept; [done|]. apply law_tcp_close. }
    intros []. eapply hoare_bind; [apply hoare_poll|]. intros []. by apply hoare_remove_socket.
  - apply hoare_ret. intros s Hs. by rewrite delete_id.
Qed.

Lemma net_ok_shape k h :
  net_ok k → shape (nk_connections k) (nk_next_handle k) (tcp_live (nk_net k)) (k, h).
Proof. intros [???? [??]]. by split_and!. Qed.
Lemma shape_net_ok c next live k h :
  shape c next live (k, h) → 1 ≤ next ≤ u64_max →
  (∀ id x, c !! id = Some x → live x = true ∧ 1 ≤ id < next) →
  (∀ id id' x, c !! id = Some x → c !! id' = Some x → id = id') → net_ok k.
Proof.
  intros (<-&<-&?&Hl) ? Hc Ho. split; [|done| |done..]; intros id x Hi; rewrite ?Hl; by eapply Hc.
Qed.
Lemma net_ok_kept k k' h live :
  net_ok k → shape (nk_connections k) (nk_next_handle k) live (k', h) →
  (∀ x, tcp_live (nk_net k) x = true → live x = true) → net_ok k'.
Proof. intros [Hl Ho Hh Hn _] Hs Hlive. eapply shape_net_ok; eauto. Qed.

Lemma net_ok_opened k k' h x :
  net_ok k → nk_next_handle k < u64_max → tcp_live (nk_net k) x = false →
  shape (<[nk_next_handle k := x]> (nk_connections k)) (nk_next_handle k + 1)
    (plus x (tcp_live (nk_net k))) (k', h) → net_ok k'.
Proof.
  intros [Hl Ho Hh Hn _] Hlt Hx Hs. eapply shape_net_ok; [done|lia| |].
  - intros id s. rewrite lookup_insert_Some. unfold plus.
    intros [[<- <-]|[_ Hi]]; [by rewrite bool_decide_true by done; split; [|lia]|].
    rewrite (Hl _ _ Hi), orb_true_r. specialize (Hh _ _ Hi). split; [done|lia].
  - intros id id' s. rewrite !lookup_insert_Some.
    intros [[<- <-]|[_ Hi]] [[<- ?]|[_ Hi']]; [done| | |by eapply Ho]; subst.
    + apply Hl in Hi'. congruence.
    + apply Hl in Hi. congruence.
Qed.

Lemma net_ok_closed k k' h id x :
  net_ok k → nk_connections k !! id = Some x →
  shape (delete id (nk_connections k)) (nk_next_handle k) (without x (tcp_live (nk_net k))) (k', h) →
  net_ok k'.
Proof.
  intros [Hl Ho Hh Hn _] Hx Hs. eapply shape_net_ok; [done..| |].
  - intros id' s. rewrite lookup_delete_Some. intros [Hne Hi].
    split; [|by eapply Hh]. unfold without. rewrite (Hl _ _ Hi), bool_decide_false; [done|].
    intros ->. by apply Hne, (Ho _ _ x).
  - intros id1 id2 s. rewrite !lookup_delete_Some. intros [_ ?] [_ ?]. by eapply Ho.
Qed.

(** C26. Opening a connection always ends.  With a clock that runs, whatever the network
    does, [connect] returns after finitely many rounds of each of its three waits (for a
    lease, for the name and for the handshake) and does not panic.  Success registers a
    handle that was not in use for a socket that was not in the set, and opens no other;
    a failure registers nothing and, unless the crate reported a socket error, leaves
    exactly the sockets there were.  The stack's invariant is kept: every registered handle
    has an open socket of its own. *)
Theorem net_connect_returns k h host port timeout :
  net_ok k → nk_next_handle k < u64_max →
  (∀ t h', clock h = (Ok t, h') → saturating_add64 t timeout ≤ clock_max) →
  ∃ n r k' h',
    (∀ fuel, (n ≤ fuel)%nat →
       net_connect_op clock cancel fuel host port timeout (k, h) = (r, (k', h')))
    ∧ net_ok k'
    ∧ match r with
      | Ok id =>
          nk_connections k !! id = None ∧ ∃ x, tcp_live (nk_net k) x = false
          ∧ nk_connections k' = <[id := x]> (nk_connections k)
          ∧ ∀ y, tcp_live (nk_net k') y = bool_decide (y = x) || tcp_live (nk_net k) y
      | Err e =>
          nk_connections k' = nk_connections k
          ∧ match e with
            | SocketError _ => True
            | _ => ∀ y, tcp_live (nk_net k') y = tcp_live (nk_net k) y
            end
      | Panic => False
      end.
Proof.
  intros Hk Hn Hd.
  destruct (hoare_connect (nk_connections k) _ (tcp_live (nk_net k)) h host port timeout Hn Hd (k, h))
    as (n&r&[k' h']&Hrun&_&Hr); [split; [by apply net_ok_shape|done]|].
  exists n, r, k', h'. split; [done|]. destruct r as [id|e|]; [| |done].
  - destruct Hr as (->&x&Hx&Hs). split; [by eapply net_ok_opened|].
    pose proof Hs as (?&_&_&Hl). split; [|by exists x].
    destruct (nk_connections k !! _) as [y|] eqn:E; [|done].
    pose proof (ok_handle _ Hk _ _ E). lia.
  - assert (∃ live, (∀ x, tcp_live (nk_net k) x = true → live x = true)
      ∧ shape (nk_connections k) (nk_next_handle k) live (k', h')) as (live&Hl&Hs)
      by (destruct e; simpl in Hr; eauto).
    split; [by eapply net_ok_kept|]. split; [by destruct Hs|].
    destruct e; try done; by destruct Hr as (_&_&_&?).
Qed.

(** An operation that leaves the shape alone. *)
Lemma hoare_keeps {A} k h (m : nat → Net A) :
  net_ok k →
  hoare (λ s, shape (nk_connections k) (nk_next_handle k) (tcp_live (nk_net k)) s ∧ s.2 = h) m
    (λ _, shape (nk_connections k) (nk_next_handle k) (tcp_live (nk_net k)))
    (λ _, shape (nk_connections k) (nk_next_handle k) (tcp_live (nk_net k))) →
  ∃ n r k' h', (∀ fuel, (n ≤ fuel)%nat → m fuel (k, h) = (r, (k', h')))
    ∧ net_ok k' ∧ r ≠ Panic ∧ nk_connections k' = nk_connections k.
Proof.
  intros Hk Hm. destruct (Hm (k, h) (conj (net_ok_shape k h Hk) eq_refl))
    as (n&r&[k' h']&Hrun&_&Hr).
  exists n, r, k', h'. destruct r; [| |done]; (split_and!; [done|by eapply net_ok_kept|done|]);
    by destruct Hr.
Qed.

(** C27. Sending, receiving and closing always end, do not panic and keep the stack's
    invariant, for any handle: sending and receiving leave the registered connections
    alone, and closing unregisters the handle and removes its socket from the set. *)
Theorem connection_operations_return k h id data :
  net_ok k → (∀ t h', clock h = (Ok t, h') → saturating_add64 t 15000 ≤ clock_max) →
  (∃ n r k' h', (∀ fuel, (n ≤ fuel)%nat → net_send_op clock cancel fuel id data (k, h) = (r, (k', h')))
    ∧ net_ok k' ∧ r ≠ Panic ∧ nk_connections k' = nk_connections k)
  ∧ (∃ n r k' h', (∀ fuel, (n ≤ fuel)%nat → net_recv_op clock cancel fuel id data (k, h) = (r, (k', h')))
    ∧ net_ok k' ∧ r ≠ Panic ∧ nk_connections k' = nk_connections k)
  ∧ (∃ k' h', net_close_op clock id (k, h) = (Ok (), (k', h'))
    ∧ net_ok k' ∧ nk_connections k' = delete id (nk_connections k)
    ∧ ∀ x, nk_connections k !! id = Some x → tcp_live (nk_net k') x = false).
Proof.
  intros Hk Hd. pose proof (net_ok_shape k h Hk) as Hs.
  split_and!.
  - apply (hoare_keeps k h (λ f, net_send_op clock cancel f id data) Hk).
    eapply hoare_on_connection; [done|]. intros x t Hx Ht. apply hoare_wait; [done..| |].
    + eapply hoare_weaken; [apply hoare_send_attempt, (ok_live _ Hk _ _ Hx)|done| |done]. by intros [].
    + by apply hoare_ret.
  - apply (hoare_keeps k h (λ f, net_recv_op clock cancel f id data) Hk).
    eapply hoare_on_connection; [done|]. intros x t Hx Ht. apply hoare_wait; [done..| |].
    + eapply hoare_weaken; [apply hoare_recv_attempt, (ok_live _ Hk _ _ Hx)|done| |done]. by intros [].
    + by apply hoare_ret.
  - destruct (hoare_close _ _ _ id (ok_live _ Hk id) _ Hs) as (n&r&[k' h']&Hrun&_&Hr).
    specialize (Hrun n (le_n _)). destruct r as [[]|e|]; [|done..]. exists k', h'.
    split; [done|]. destruct (nk_connections k !! id) as [x|] eqn:E.
    + split_and!; [by eapply net_ok_closed|by destruct Hr|].
      intros y [= <-]. destruct Hr as (_&_&_&Hl). rewrite Hl. unfold without.
      by rewrite bool_decide_true.
    + rewrite delete_id in * by done. split_and!; [by eapply net_ok_kept|by destruct Hr|done].
Qed.
End returns.

(** ** Addresses as text *)
Lemma octet_text b : dot ∉ dec (b2z b) ∧ parse_u8 (dec (b2z b)) = Some (b2z b).
Proof.
  split; [|apply parse_int_dec; pose proof (b2z_range b); unfold u8_max; lia].
  apply (bool_decide_unpack (dot ∉ dec (b2z b))). by destruct b; vm_compute.
Qed.

Lemma parse_octets_format a n rest :
  n = length a → parse_octets n ((dec ∘ b2z <$> a) ++ rest) = Some (a, rest).
Proof.
  intros ->. induction a as [|b a IH]; [done|]. rewrite fmap_cons. cbn [app parse_octets length].
  change ((dec ∘ b2z) b) with (dec (b2z b)). destruct (octet_text b) as [_ ->].
  rewrite IH. cbn. by rewrite z2b_b2z.
Qed.

(** The text of an IPv4 address parses back to the address. *)
Lemma ipv4_roundtrip a :
  length a = 4%nat → parse_ipv4 (format_ipv4 a) = Some a.
Proof.
  intros Ha. unfold parse_ipv4, format_ipv4. rewrite split_join.
  - rewrite <-(app_nil_r (_ <$> a)), parse_octets_format by done. done.
  - by destruct a.
  - apply Forall_fmap, Forall_forall. intros b _. apply octet_text.
Qed.

(** ** A socket that is never removed: the crate refuses the connection at once. *)
Lemma refused_connect_leaks {N} `{!Smoltcp N} {H} (clock : H → res NetError Z * H) cancel
    fuel k h t h' host port timeout address e x net net' :
  clock h = (Ok t, h') → is_configured k = true → parse_ipv4 host = Some address →
  tcp_add TCP_RX_BUFFER TCP_TX_BUFFER (nk_net k) = (x, net) → tcp_live net x = true →
  tcp_connect x address port (nk_next_port k) net = (Err e, net') →
  net_connect_op clock cancel fuel host port timeout (k, h)
    = (Err (SocketError e), (with_net (λ _, net') (allocate_port k).2, h')).
Proof.
  intros Hc Hk Hp Ha Hl He. unfold net_connect_op. rewrite bind_run. unfold now. rewrite Hc.
  rewrite bind_run. unfold stack_get, on_stack, effect. cbn. rewrite Hk, bind_run. cbn.
  rewrite bind_run. unfold net_resolve. rewrite Hp. cbn. rewrite bind_run. cbn.
  rewrite bind_run. cbn. rewrite Ha. rewrite bind_run. unfold get_socket. rewrite bind_run. cbn.
  rewrite Hl. cbn. rewrite bind_run. unfold net_call. cbn. by rewrite He.
Qed.

(** ** A network on which every connection succeeds *)
Record SimNet := { sim_open : list Z; sim_leased : bool }.
Definition sim_config : DhcpConfig :=
  {| dc_address := (z2b <$> [10; 0; 2; 15], 24); dc_router := Some (z2b <$> [10; 0; 2; 2]);
     dc_dns_servers := [z2b <$> [10; 0; 2; 3]] |}.
Definition sim_fresh (n : SimNet) : Z := foldr Z.max 0 (sim_open n) + 1.

#[export] Instance SimNet_Smoltcp : Smoltcp SimNet := {
  tcp_live n x := bool_decide (x ∈ sim_open n);
  iface_poll _ n := n;
  dhcp_poll n := (if sim_leased n then None else Some (Configured sim_config),
                  {| sim_open := sim_open n; sim_leased := true |});
  set_ip_addrs _ n := n;
  remove_default_route n := n;
  add_default_route _ n := n;
  dns_update_servers _ n := n;
  dns_start_query _ n := (Ok 0, n);
  dns_query_result _ n := (DnsOk [z2b <$> [10; 0; 2; 9]], n);
  tcp_add _ _ n := (sim_fresh n, {| sim_open := sim_fresh n :: sim_open n; sim_leased := sim_leased n |});
  tcp_connect _ _ _ _ n := (Ok (), n);
  tcp_state _ _ := TcpEstablished;
  tcp_may_send _ _ := true;
  tcp_can_send _ _ := true;
  tcp_send_slice _ data n := (Ok (Z.of_nat (length data)), n);
  tcp_may_recv _ _ := false;
  tcp_can_recv _ _ := false;
  tcp_recv_slice _ output n := (Ok (0, output), n);
  tcp_close _ n := n;
  sockets_remove x n := {| sim_open := filter (λ y, y ≠ x) (sim_open n); sim_leased := sim_leased n |} }.

Lemma sim_fresh_max l x : x ∈ l → x ≤ foldr Z.max 0 l.
Proof. induction 1; simpl; lia. Qed.

#[export] Instance SimNet_Reliable : ReliableSmoltcp SimNet.
Proof.
  split; try done.
  - intros rx tx n. simpl. apply bool_decide_eq_false. intros Hx%sim_fresh_max.
    unfold sim_fresh in Hx. lia.
  - intros rx tx n x. simpl. rewrite <-bool_decide_or. apply bool_decide_ext, elem_of_cons.
  - intros s n x. simpl. rewrite <-bool_decide_not, <-bool_decide_and.
    apply bool_decide_ext. by rewrite list_elem_of_filter.
Qed.

(** A clock that counts its readings; nobody cancels. *)
Definition sim_clock (h : Z) : res NetError Z * Z := (Ok (Z.max 0 h), Z.max 0 h + 1).
Definition sim_cancel (h : Z) : bool * Z := (false, h).
#[export] Program Instance sim_live : LiveClock sim_clock sim_cancel := {
  ticks := id; clock_max := u64_max }.
Next Obligation. intros h. eexists _, _. split_and!; [done|lia|unfold id; lia]. Qed.
Next Obligation.
  intros d _. exists (Z.max 0 d + 1). intros h t h' [= <- <-]. unfold id. lia.
Qed.
Next Obligation. done. Qed.

Definition sim_stack : NetStack SimNet := stack_new {| sim_open := []; sim_leased := false |} [].

Lemma sim_stack_ok : net_ok sim_stack.
Proof. by split; try (intros; by simplify_map_eq/=). Qed.

Lemma net_connect_returns_witness :
  (net_connect_op sim_clock sim_cancel 5 "example.org" 80 1000 (sim_stack, 0)).1 = Ok 1 ∧
  ∃ n r k' h',
    (∀ fuel, (n ≤ fuel)%nat →
       net_connect_op sim_clock sim_cancel fuel "example.org" 80 1000 (sim_stack, 0)
       = (r, (k', h')))
    ∧ net_ok k' ∧ r ≠ Panic.
Proof.
  split; [by vm_compute|].
  destruct (net_connect_returns sim_clock sim_cancel sim_stack 0 "example.org" 80 1000)
    as (n&r&k'&h'&Hrun&Hok&Hr);
    [apply sim_stack_ok|by vm_compute|by intros t h' [= <- <-]; vm_compute|].
  exists n, r, k', h'. split_and!; [exact Hrun|exact Hok|]. by destruct r.
Defined.

Definition sim_connected : NetStack SimNet :=
  (net_connect_op sim_clock sim_cancel 5 "example.org" 80 1000 (sim_stack, 0)).2.1.

Lemma sim_connected_ok : net_ok sim_connected.
Proof.
  split; try (vm_compute; split; discriminate).
  - intros id s. change (nk_connections sim_connected) with ({[1 := 1]} : gmap Z Z).
    rewrite lookup_singleton_Some. intros [<- <-]. by vm_compute.
  - intros id id' s. change (nk_connections sim_connected) with ({[1 := 1]} : gmap Z Z).
    rewrite !lookup_singleton_Some. intros [<- _] [<- _]. done.
  - intros id s. change (nk_connections sim_connected) with ({[1 := 1]} : gmap Z Z).
    rewrite lookup_singleton_Some. intros [<- <-]. by vm_compute.
Qed.

Lemma connection_operations_return_witness :
  ∃ k' h', net_close_op sim_clock 1 (sim_connected, 9) = (Ok (), (k', h'))
    ∧ net_ok k' ∧ tcp_live (nk_net k') 1 = false.
Proof.
  destruct (connection_operations_return sim_clock sim_cancel sim_connected 9 1 "hello")
    as (_&_&k'&h'&Hrun&Hok&_&Hx);
    [apply sim_connected_ok|by intros t h' [= <- <-]; vm_compute|].
  exists k', h'. split_and!; [exact Hrun|exact Hok|]. apply Hx. by vm_compute.
Defined.
