(* ===== verification/Devices.v ===== *)
(** * VirtIO devices and PCI (platforms/bare-metal/src/devices.rs, the device of net.rs)

    The adapters around the drivers of the virtio crate (block, entropy, network), the
    legacy PCI transport and the PCI configuration accesses over I/O ports, and the
    discovery of the devices.  The drivers, the MMIO transport and the enumeration of the
    bus are classes; the port instructions are [port_in]/[port_out] at a width in bytes. *)
From S2P Require Import Prelude RustStr Api Storage Arch Memory Net.

(** ** The traits *)
Inductive DeviceType := BlockType | EntropySourceType | NetworkType | OtherType (n : Z).
#[export] Instance DeviceType_eq_dec : EqDecision DeviceType.
Proof. solve_decision. Defined.

Class EntropySource (R : Type) : Type := {
  fill : nat → list byte → M R str (list byte) }.

Class NetDevice (N : Type) : Type := {
  nic_mac : N → list byte;
  nic_can_send : N → bool;
  nic_receive : M N str (option (list byte));
  nic_transmit : list byte → M N str () }.

(** ** The block device *)
Class VirtIOBlk (B : Type) : Type := {
  SECTOR_SIZE : Z;
  blk_capacity : B → Z;
  blk_readonly : B → bool;
  blk_read_blocks : Z → list byte → M B str (list byte);
  blk_write_blocks : Z → list byte → M B str ();
  blk_flush : M B str () }.

Record VirtioBlock (B : Type) := mk_vblk { vb_driver : B }.
Arguments mk_vblk {B}.
Arguments vb_driver {B}.

Section block.
Context {B : Type} `{VB : !VirtIOBlk B}.

Definition on_driver {A} (m : M B StorageError A) : M (VirtioBlock B) StorageError A :=
  zoom vb_driver (λ d _, mk_vblk d) m.

Definition aligned (buffer : list byte) : bool :=
  negb (bool_decide (buffer = [])) && bool_decide (len buffer mod SECTOR_SIZE = 0).

Definition vblk_read (first_block : Z) (output : list byte) : M (VirtioBlock B) StorageError (list byte) :=
  if negb (aligned output) then throw (Device "unaligned VirtIO block read")
  else
    first_block ← lift (ok_or (Device "block address is too large") (try_from usize_max first_block));
    on_driver (with_err (λ error, Device ("VirtIO read: " ++ error))
                 (blk_read_blocks first_block output)).

Definition vblk_write (first_block : Z) (data : list byte) : M (VirtioBlock B) StorageError () :=
  if negb (aligned data) then throw (Device "unaligned VirtIO block write")
  else
    first_block ← lift (ok_or (Device "block address is too large") (try_from usize_max first_block));
    on_driver (with_err (λ error, Device ("VirtIO write: " ++ error))
                 (blk_write_blocks first_block data)).

Definition vblk_flush : M (VirtioBlock B) StorageError () :=
  on_driver (with_err (λ error, Device ("VirtIO flush: " ++ error)) blk_flush).

#[export] Instance VirtioBlock_BlockDevice : BlockDevice (VirtioBlock B) := {|
  block_count d := blk_capacity (vb_driver d);
  read_blocks := vblk_read;
  write_blocks := vblk_write;
  flush := vblk_flush |}.
End block.

(** ** The network device *)
Class VirtIONet (N : Type) : Type := {
  RxBuffer : Type;
  vn_mac_address : N → list byte;
  vn_can_send : N → bool;
  vn_can_recv : N → bool;
  vn_receive : M N str RxBuffer;
  vn_packet : RxBuffer → list byte;
  vn_recycle_rx_buffer : RxBuffer → M N str ();
  vn_new_tx_buffer : Z → list byte;
  vn_send : list byte → M N str () }.

(** [result.ok()], and [let _ = result]. *)
Definition ok {St E A} (m : M St E A) : M St E (option A) := λ s,
  match m s with
  | (Ok a, s) => (Ok (Some a), s)
  | (Err _, s) => (Ok None, s)
  | (Panic, s) => (Panic, s)
  end.

(** [slice.copy_from_slice(source)]. *)
Definition copy_from_slice {E} (slice source : list byte) : res E (list byte) :=
  if bool_decide (length slice = length source) then Ok source else Panic.

Section net.
Context {N : Type} `{VN : !VirtIONet N}.

Definition vnet_receive : M N str (option (list byte)) :=
  can_recv ← gets vn_can_recv;
  if negb can_recv then mret None
  else
    buffer ← ok vn_receive;
    match buffer with
    | None => mret None
    | Some buffer =>
        let frame := vn_packet buffer in
        ok (vn_recycle_rx_buffer buffer);;
        mret (Some frame)
    end.

Definition vnet_transmit (frame : list byte) : M N str () :=
  buffer ← lift (copy_from_slice (vn_new_tx_buffer (len frame)) frame);
  ok (vn_send buffer);;
  mret ().

#[export] Instance VirtioNet_NetDevice : NetDevice N := {|
  nic_mac := vn_mac_address;
  nic_can_send := vn_can_send;
  nic_receive := vnet_receive;
  nic_transmit := vnet_transmit |}.
End net.

(** The crate's view of the card: [SmolDevice] and its tokens. *)
Section smol_device.
Context {N : Type} `{ND : !NetDevice N}.

Definition MTU : Z := 1514.

(** The received frame is the receive token; the card itself is the transmit token. *)
Definition smol_receive : M N str (option (list byte)) := nic_receive.
Definition smol_transmit (d : N) : bool := nic_can_send d.
Definition rx_consume {R} (frame : list byte) (f : list byte → R) : R := f frame.
(** [f] fills the buffer it is given. *)
Definition tx_consume {R} (length : nat) (f : list byte → R * list byte) : M N str R :=
  let '(result, buffer) := f (replicate length x00) in
  nic_transmit buffer;;
  mret result.
End smol_device.

(** ** The entropy device *)
Class VirtIORng (R : Type) : Type := {
  (** The number of bytes written at the start of the slice, and the slice. *)
  request_entropy : list byte → M R str (Z * list byte) }.

Section entropy.
Context {R : Type} `{VR : !VirtIORng R}.

Fixpoint entropy_fill (fuel : nat) (offset : nat) (output : list byte) : M R str (list byte) :=
  if bool_decide (offset < length output)%nat then
    match fuel with
    | O => hang
    | S fuel =>
        '(count, tail) ← with_err (λ error, "VirtIO entropy: " ++ error)
                           (request_entropy (drop offset output));
        let output := take offset output ++ tail in
        if bool_decide (count = 0) then throw "VirtIO entropy device returned no bytes"
        else entropy_fill fuel (offset + Z.to_nat (Z.min count (len output - Z.of_nat offset))) output
    end
  else mret output.

#[export] Instance VirtioEntropy_Source : EntropySource R := {|
  fill fuel output := entropy_fill fuel 0 output |}.
End entropy.

(** ** Ports *)
Class PortAccess (H : Type) : Type := {
  port_in : Z → Z → H → Z * H;
  port_out : Z → Z → Z → H → H }.

Section ports.
Context {H : Type} `{PA : !PortAccess H}.

Definition out_u8 (port value : Z) : H → H := port_out 1 port value.
Definition in_u8 (port : Z) : H → Z * H := port_in 1 port.
Definition out_u16 (port value : Z) : H → H := port_out 2 port value.
Definition in_u16 (port : Z) : H → Z * H := port_in 2 port.
Definition out_u32 (port value : Z) : H → H := port_out 4 port value.
Definition in_u32 (port : Z) : H → Z * H := port_in 4 port.
End ports.

(** ** PCI configuration space *)
Record DeviceFunction := mk_function { df_bus : Z; df_device : Z; df_function : Z }.
#[export] Instance DeviceFunction_eq_dec : EqDecision DeviceFunction.
Proof. solve_decision. Defined.

Definition pci_address (f : DeviceFunction) (register_offset : Z) : Z :=
  Z.lor (Z.lor (Z.lor (Z.lor 0x80000000 (Z.shiftl (df_bus f) 16)) (Z.shiftl (df_device f) 11))
    (Z.shiftl (df_function f) 8)) (Z.land register_offset 0xfc).

Section pci.
Context {H : Type} `{PA : !PortAccess H}.

Definition read_word (f : DeviceFunction) (register_offset : Z) (h : H) : Z * H :=
  let address := pci_address f register_offset in
  in_u32 0xcfc (out_u32 0xcf8 address h).

Definition write_word (f : DeviceFunction) (register_offset data : Z) (h : H) : H :=
  let address := pci_address f register_offset in
  out_u32 0xcfc data (out_u32 0xcf8 address h).
End pci.

(** ** The legacy transport *)
Record LegacyPciTransport := mk_legacy { lt_device_type : DeviceType; lt_io_base : Z }.

(** The flags the crate knows: [from_bits_truncate] drops the others. *)
Class VirtioFlags : Type := { known_status : Z; known_interrupts : Z }.

Inductive VirtioError := InvalidParam.

Definition DEVICE_FEATURES : Z := 0x00.
Definition DRIVER_FEATURES : Z := 0x04.
Definition QUEUE_PFN : Z := 0x08.
Definition QUEUE_SIZE : Z := 0x0c.
Definition QUEUE_SELECT : Z := 0x0e.
Definition QUEUE_NOTIFY : Z := 0x10.
Definition DEVICE_STATUS : Z := 0x12.
Definition ISR_STATUS : Z := 0x13.
Definition DEVICE_CONFIG : Z := 0x14.

Section transport.
Context {H : Type} `{PA : !PortAccess H} `{VF : !VirtioFlags}.
Notation T := (M H VirtioError).
Implicit Types t : LegacyPciTransport.

(** Addition of two [u16]. *)
Definition add_u16 (a b : Z) : T Z :=
  if bool_decide (u16_max < a + b) then lift Panic else mret (a + b).
Definition port t (offset : Z) : T Z := add_u16 (lt_io_base t) offset.

Definition select_queue t (queue : Z) : T () :=
  p ← port t QUEUE_SELECT;
  modify (out_u16 p queue).

Definition read_device_features t : T Z :=
  p ← port t DEVICE_FEATURES;
  features ← effect (in_u32 p);
  mret (Z.land features (Z.lnot (Z.lor (Z.shiftl 1 28) (Z.shiftl 1 29)))).

Definition write_driver_features t (driver_features : Z) : T () :=
  p ← port t DRIVER_FEATURES;
  modify (out_u32 p (default 0 (try_from u32_max (Z.land driver_features u32_max)))).

Definition max_queue_size t (queue : Z) : T Z :=
  select_queue t queue;;
  p ← port t QUEUE_SIZE;
  effect (in_u16 p).

Definition notify t (queue : Z) : T () :=
  p ← port t QUEUE_NOTIFY;
  modify (out_u16 p queue).

Definition get_status t : T Z :=
  p ← port t DEVICE_STATUS;
  status ← effect (in_u8 p);
  mret (Z.land status known_status).

Definition set_status t (status : Z) : T () :=
  p ← port t DEVICE_STATUS;
  modify (out_u8 p (default u8_max (try_from u8_max (Z.land status (Z.lnot 0x08))))).

Definition queue_set t (queue descriptors : Z) : T () :=
  select_queue t queue;;
  let page_frame := default 0 (try_from u32_max (descriptors / PAGE_SIZE)) in
  p ← port t QUEUE_PFN;
  modify (out_u32 p page_frame).

Definition queue_unset t (queue : Z) : T () :=
  select_queue t queue;;
  p ← port t QUEUE_PFN;
  modify (out_u32 p 0).

Definition queue_used t (queue : Z) : T bool :=
  select_queue t queue;;
  p ← port t QUEUE_PFN;
  pfn ← effect (in_u32 p);
  mret (negb (bool_decide (pfn = 0))).

Definition ack_interrupt t : T Z :=
  p ← port t ISR_STATUS;
  status ← effect (in_u8 p);
  mret (Z.land status known_interrupts).

(** The port of a byte of the configuration space. *)
Definition config_port t (offset index : Z) : T Z :=
  (if bool_decide (usize_max < offset + index) then lift Panic else mret ());;
  port_offset ← lift (ok_or InvalidParam (try_from u16_max (offset + index)));
  p ← add_u16 DEVICE_CONFIG port_offset;
  port t p.

(** The loop over the bytes of the value. *)
Fixpoint read_config_space t (offset index : Z) (size : nat) : T (list byte) :=
  match size with
  | O => mret []
  | S size =>
      p ← config_port t offset index;
      b ← effect (in_u8 p);
      rest ← read_config_space t offset (index + 1) size;
      mret (z2b b :: rest)
  end.

Fixpoint write_config_space t (offset index : Z) (value : list byte) : T () :=
  match value with
  | [] => mret ()
  | b :: value =>
      p ← config_port t offset index;
      modify (out_u8 p (b2z b));;
      write_config_space t offset (index + 1) value
  end.
End transport.

(** ** Discovery *)
Record DeviceSet (B R N : Type) := mk_devices {
  ds_block : option (VirtioBlock B);
  ds_entropy : option R;
  ds_net : option N }.
Arguments mk_devices {B R N}.
Arguments ds_block {B R N}.
Arguments ds_entropy {B R N}.
Arguments ds_net {B R N}.

Definition ds_empty {B R N} : DeviceSet B R N := mk_devices None None None.
Definition is_some {A} (o : option A) : bool := match o with Some _ => true | None => false end.
Definition complete {B R N} (d : DeviceSet B R N) : bool :=
  is_some (ds_block d) && is_some (ds_entropy d) && is_some (ds_net d).

Definition NET_QUEUE_SIZE : Z := 256.
Definition NET_BUFFER_LEN : Z := 2048.

(** The transport's [device_type]. *)
Class Transport (T : Type) : Type := { transport_type : T → DeviceType }.
#[export] Instance LegacyPci_Transport : Transport LegacyPciTransport := {|
  transport_type := lt_device_type |}.

(** The constructors of the drivers, for a transport [T] on the machine [H]. *)
Class VirtioDrivers (H T B R N : Type) : Type := {
  blk_new : T → M H str B;
  rng_new : T → M H str R;
  net_new : Z → Z → T → M H str N }.

Section discovery.
Context {H T B R N : Type} `{VB : !VirtIOBlk B} `{TT : !Transport T}
  `{VD : !VirtioDrivers H T B R N}.
Notation DS := (DeviceSet B R N).

Definition wants (ty : DeviceType) (d : DS) : bool :=
  match ty with
  | BlockType => negb (is_some (ds_block d))
  | EntropySourceType => negb (is_some (ds_entropy d))
  | NetworkType => negb (is_some (ds_net d))
  | OtherType _ => false
  end.

Definition add_transport (transport : T) (d : DS) : M H str DS :=
  if negb (wants (transport_type transport) d) then mret d
  else
    match transport_type transport with
    | BlockType =>
        driver ← with_err (λ e, "VirtIO block initialization: " ++ e) (blk_new transport);
        if blk_readonly driver then throw "AFOS VirtIO data disk is read-only"
        else mret (mk_devices (Some (mk_vblk driver)) (ds_entropy d) (ds_net d))
    | EntropySourceType =>
        driver ← with_err (λ e, "VirtIO entropy initialization: " ++ e) (rng_new transport);
        mret (mk_devices (ds_block d) (Some driver) (ds_net d))
    | NetworkType =>
        driver ← with_err (λ e, "VirtIO network initialization: " ++ e)
                   (net_new NET_QUEUE_SIZE NET_BUFFER_LEN transport);
        mret (mk_devices (ds_block d) (ds_entropy d) (Some driver))
    | OtherType _ => mret d
    end.

(** [let _ = add_transport(...)]: an error leaves the set as it is. *)
Definition try_add (transport : T) (d : DS) : M H str DS :=
  added ← ok (add_transport transport d);
  mret (default d added).
End discovery.

Definition supported (ty : DeviceType) : bool :=
  match ty with OtherType _ => false | _ => true end.

Inductive BarInfo := BarIO (address : Z) | BarMemory (address : Z).

Class PciRoot (H Info : Type) : Type := {
  enumerate_bus : Z → H → list (DeviceFunction * Info) * H;
  virtio_device_type : Info → option DeviceType;
  IO_SPACE : Z;
  BUS_MASTER : Z;
  get_command : DeviceFunction → H → Z * H;
  set_command : DeviceFunction → Z → H → H;
  bar_info : DeviceFunction → Z → H → res str (option BarInfo) * H }.

Section pci_discovery.
Context {H Info B R N : Type} `{VB : !VirtIOBlk B} `{PR : !PciRoot H Info}
  `{VD : !VirtioDrivers H LegacyPciTransport B R N}.
Notation DS := (DeviceSet B R N).

(** One candidate: the new set, or [None] when the candidate is skipped. *)
Definition probe (f : DeviceFunction) (information : Info) (d : DS) : M H str (option DS) :=
  match virtio_device_type information with
  | None => mret None
  | Some device_type =>
      if negb (supported device_type) then mret None
      else
        command ← effect (get_command f);
        modify (set_command f (Z.lor (Z.lor command IO_SPACE) BUS_MASTER));;
        bar ← effect (bar_info f 0);
        match bar with
        | Ok (Some (BarIO address)) =>
            modify (set_command f (Z.lor (Z.lor command IO_SPACE) BUS_MASTER));;
            match try_from u16_max address with
            | None => mret None
            | Some io_base => d ← try_add (mk_legacy device_type io_base) d; mret (Some d)
            end
        | Panic => hang
        | _ => mret None
        end
  end.

Fixpoint pci_loop (candidates : list (DeviceFunction * Info)) (d : DS) : M H str DS :=
  match candidates with
  | [] => mret d
  | (f, information) :: candidates =>
      found ← probe f information d;
      match found with
      | None => pci_loop candidates d
      | Some d => if complete d then mret d else pci_loop candidates d
      end
  end.

Definition discover_pci : M H str DS :=
  candidates ← effect (enumerate_bus 0);
  pci_loop candidates ds_empty.
End pci_discovery.

Section mmio_discovery.
Context {H T B R N : Type} `{VB : !VirtIOBlk B} `{TT : !Transport T}
  `{VD : !VirtioDrivers H T B R N}.
Context (mmio_new : Z → Z → M H str T) (g : Globals).
Notation DS := (DeviceSet B R N).

Definition VIRTIO_MMIO_BASE : Z := 0x0a000000.
Definition VIRTIO_MMIO_STRIDE : Z := 0x200.
Definition VIRTIO_MMIO_SIZE : Z := 0x200.
Definition VIRTIO_MMIO_SLOTS : nat := 32.

Fixpoint mmio_loop (slot : Z) (slots : nat) (d : DS) : M H str DS :=
  match slots with
  | O => mret d
  | S slots =>
      match phys_to_virt g (VIRTIO_MMIO_BASE + slot * VIRTIO_MMIO_STRIDE) with
      | None => mmio_loop (slot + 1) slots d
      | Some header =>
          transport ← ok (mmio_new header VIRTIO_MMIO_SIZE);
          match transport with
          | None => mmio_loop (slot + 1) slots d
          | Some transport =>
              d ← (if supported (transport_type transport) then try_add transport d else mret d);
              if complete d then mret d else mmio_loop (slot + 1) slots d
          end
      end
  end.

Definition discover_mmio : M H str DS := mmio_loop 0 VIRTIO_MMIO_SLOTS ds_empty.

Definition aarch64_mmio_ready : bool := false.
(** [DeviceSet::discover] on AArch64; on x86_64 it is [discover_pci]. *)
Definition discover_aarch64 : M H str DS :=
  if aarch64_mmio_ready then discover_mmio else mret ds_empty.
End mmio_discovery.

(** ** The disk *)

(** What the block driver promises: whole sectors within the capacity are read and
    written, a single sector never partly; the capacity is a 64-bit number. *)
Class ReliableBlk (B : Type) `{!VirtIOBlk B} : Type := {
  law_sector_size : SECTOR_SIZE = BLOCK_SIZE;
  blk_ok : B → Prop;
  blk_content : B → list byte;
  law_capacity b : blk_ok b →
    0 ≤ blk_capacity b ≤ u64_max ∧ len (blk_content b) = blk_capacity b * BLOCK_SIZE;
  law_blk_read b first out :
    blk_ok b → 0 ≤ first → whole_blocks out → first * BLOCK_SIZE + len out ≤ len (blk_content b) →
    ∃ b', blk_read_blocks first out b
            = (Ok (take (length out) (drop (Z.to_nat (first * BLOCK_SIZE)) (blk_content b))), b')
          ∧ blk_ok b' ∧ blk_content b' = blk_content b;
  law_blk_write b first data r b' :
    blk_ok b → 0 ≤ first → whole_blocks data →
    first * BLOCK_SIZE + len data ≤ len (blk_content b) →
    blk_write_blocks first data b = (r, b') →
    blk_ok b' ∧ r ≠ Panic ∧
    (r = Ok () → blk_content b' = splice (blk_content b) (Z.to_nat (first * BLOCK_SIZE)) data) ∧
    (∃ torn, length torn = length data
       ∧ blk_content b' = splice (blk_content b) (Z.to_nat (first * BLOCK_SIZE)) torn) ∧
    (len data = BLOCK_SIZE → blk_content b' = blk_content b ∨
       blk_content b' = splice (blk_content b) (Z.to_nat (first * BLOCK_SIZE)) data);
  law_blk_flush b r b' :
    blk_ok b → blk_flush b = (r, b') → blk_ok b' ∧ r ≠ Panic ∧ blk_content b' = blk_content b }.

Section disk.
Context {B : Type} `{VB : !VirtIOBlk B} `{RB : !ReliableBlk B}.
Implicit Types d : VirtioBlock B.

Lemma whole_aligned buffer : whole_blocks buffer → aligned buffer = true.
Proof.
  intros [Hne Hm]. unfold aligned. rewrite law_sector_size.
  by rewrite (bool_decide_false (buffer = [])), bool_decide_true.
Qed.

Lemma block_in_range d first buffer :
  blk_ok (vb_driver d) → 0 ≤ first → whole_blocks buffer →
  first * BLOCK_SIZE + len buffer ≤ len (blk_content (vb_driver d)) →
  try_from usize_max first = Some first.
Proof.
  intros Hok Hf [Hne _] Hl. destruct (law_capacity _ Hok) as [Hc Hlen].
  apply try_from_ok. assert (0 < len buffer) by (destruct buffer; [done|unfold len; simpl; lia]).
  unfold BLOCK_SIZE, usize_max, u64_max in *. lia.
Qed.

Lemma vblk_write_run d first data r d' :
  blk_ok (vb_driver d) → 0 ≤ first → whole_blocks data →
  first * BLOCK_SIZE + len data ≤ len (blk_content (vb_driver d)) →
  vblk_write first data d = (r, d') →
  ∃ r0, blk_write_blocks first data (vb_driver d) = (r0, vb_driver d')
        ∧ r = map_err (λ error, Device ("VirtIO write: " ++ error)) r0.
Proof.
  intros Hok Hf Hw Hl. unfold vblk_write. rewrite whole_aligned by done. cbn [negb].
  rewrite (block_in_range d first data) by done. cbn [ok_or]. rewrite bind_lift_ok.
  unfold on_driver, zoom, with_err.
  destruct (blk_write_blocks first data (vb_driver d)) as [r0 b]. intros [= <- <-]. by exists r0.
Qed.

#[export] Program Instance VirtioBlock_Reliable : ReliableDevice (VirtioBlock B) := {|
  dev_ok d := blk_ok (vb_driver d);
  content d := blk_content (vb_driver d) |}.
Next Obligation. intros d Hok. destruct (law_capacity _ Hok) as [[]?]. done. Qed.
Next Obligation.
  intros d first out Hok Hf Hw Hl. cbn [read_blocks VirtioBlock_BlockDevice].
  unfold vblk_read. rewrite whole_aligned by done. cbn [negb].
  rewrite (block_in_range d first out) by done. cbn [ok_or].
  destruct (law_blk_read _ _ _ Hok Hf Hw Hl) as (b'&Hr&Hok'&Hc').
  exists (mk_vblk b'). rewrite bind_lift_ok. unfold on_driver, zoom, with_err. by rewrite Hr.
Qed.
Next Obligation.
  intros d first data r d' Hok Hf Hw Hl Hrun.
  apply vblk_write_run in Hrun as (r0&Hrun&->); [|done..].
  apply law_blk_write in Hrun as (Hok'&Hnp&Hc&Ht&_); [|done..].
  split_and!; [done|by destruct r0| |done]. intros Hr. apply Hc. by destruct r0; simplify_eq/=.
Qed.
Next Obligation.
  intros d first data r d' Hok Hf Hs Hl Hrun.
  assert (whole_blocks data) as Hw by (split; [by destruct data|by rewrite Hs]).
  apply vblk_write_run in Hrun as (r0&Hrun&->); [|done..].
  apply law_blk_write in Hrun as (_&_&_&_&Hsec); [|done..]. by apply Hsec.
Qed.
Next Obligation.
  intros d r d' Hok. cbn [flush VirtioBlock_BlockDevice]. unfold vblk_flush, on_driver, zoom, with_err.
  destruct (blk_flush (vb_driver d)) as [r0 b] eqn:E.
  apply law_blk_flush in E as (?&?&?); [|done]. intros [= <- <-]. split_and!; [done|by destruct r0|done].
Qed.

(** C28. Persistence on the VirtIO disk: the store opened on the disk adapter keeps what
    is saved.  Whatever [save] accepts, reopening the device after a successful save
    restores that tree, although the adapter refuses empty and unaligned transfers and
    block numbers that do not fit: the store never asks for one. *)
Theorem virtio_disk_keeps_tree (d : VirtioBlock B) st t tree st' :
  dev_ok d → slot_fits (block_count d / 2) → store_open d = Ok (st, t) →
  tree_utf8 tree → st_generation st < u64_max → save tree st = (Ok (), st') →
  ∃ st2, store_open (st_device st') = Ok (st2, Some tree).
Proof.
  intros Hok Hfit Hopen Hu Hg Hsave. assert (current st t) as Hcur by by eapply open_current.
  assert (current st' (Some tree)) as Hcur'.
  { apply (save_cases st t) in Hsave; [|done]. inversion Hsave; subst. by eapply written_current. }
  destruct (current_reopen st' (Some tree) Hcur') as (st2&Hst2&_). eauto.
Qed.
End disk.

(** ** The entropy device *)

(** What the entropy driver promises: the bytes it counts are the next ones the device
    produced, at the start of the slice; the slice keeps its length. *)
Class ReliableRng (R : Type) `{!VirtIORng R} : Type := {
  produced : R → list byte;
  law_request out r :
    match request_entropy out r with
    | (Ok (count, bytes), r') =>
        0 ≤ count ∧ length bytes = length out
        ∧ produced r' = produced r ++ take (Z.to_nat count) bytes
    | (Err _, _) => True
    | (Panic, _) => False
    end }.

Section entropy_theorems.
Context {R : Type} `{VR : !VirtIORng R} `{RR : !ReliableRng R}.

(** One answer of [count] bytes, and the output that the rest of the loop makes of it. *)
Lemma entropy_piece offset count (output tail out : list byte) :
  let step := (count `min` (length output - offset))%nat in
  (offset ≤ length output)%nat → length tail = (length output - offset)%nat →
  take (offset + step) out = take (offset + step) (take offset output ++ tail) →
  take offset out = take offset output
  ∧ take count tail ++ drop (offset + step) out = drop offset out.
Proof.
  intros step Ho Hl Hx. split.
  - replace (take offset out) with (take offset (take (offset + step) out))
      by (rewrite take_take; f_equal; lia).
    rewrite Hx, take_take, take_app_le by (rewrite length_take; lia).
    rewrite take_take. f_equal. lia.
  - assert (take step (drop offset out) = take count tail) as <-.
    { rewrite firstn_skipn_comm, Hx.
      rewrite <-firstn_skipn_comm, drop_app_length' by (rewrite length_take; lia).
      unfold step. destruct (decide (count ≤ length output - offset)%nat);
        [f_equal; lia|rewrite !take_ge by lia; done]. }
    by rewrite <-drop_drop, take_drop.
Qed.

Lemma entropy_fill_run n offset output r :
  (length output - offset ≤ n)%nat → (offset ≤ length output)%nat →
  ∃ x r', (∀ fuel, (n ≤ fuel)%nat → entropy_fill fuel offset output r = (x, r'))
    ∧ match x with
      | Ok out => length out = length output ∧ take offset out = take offset output
                  ∧ produced r' = produced r ++ drop offset out
      | Err _ => True
      | Panic => False
      end.
Proof.
  revert offset output r. induction n as [|n IH]; intros offset output r Hn Ho.
  - exists (Ok output), r. split.
    + intros fuel _. destruct fuel; simpl; by rewrite bool_decide_false by lia.
    + split_and!; [done..|]. by rewrite drop_ge, app_nil_r by lia.
  - destruct (decide (offset < length output)%nat) as [Hlt|Hge].
    2:{ destruct (IH offset output r) as (x&r'&Hrun&Hx); [lia|done|]. exists x, r'.
        split; [|done]. intros fuel Hf. apply Hrun. lia. }
    pose proof (law_request (drop offset output) r) as Hreq.
    destruct (request_entropy (drop offset output) r) as [[[count tail]|e|] r1] eqn:E; [| |done].
    2:{ exists (Err ("VirtIO entropy: " ++ e)), r1. split; [|done]. intros [|f] Hf; [lia|].
        cbn [entropy_fill]. rewrite bool_decide_true by done. unfold with_err.
        by rewrite bind_run, E. }
    destruct Hreq as (Hc&Hl&Hp). rewrite length_drop in Hl.
    set (output1 := take offset output ++ tail).
    assert (length output1 = length output) as Hlen
      by (unfold output1; rewrite length_app, length_take; lia).
    destruct (decide (count = 0)) as [->|Hne].
    { eexists (Err _), r1. split; [|done]. intros [|f] Hf; [lia|]. cbn [entropy_fill].
      rewrite bool_decide_true by done. unfold with_err. rewrite bind_run, E. done. }
    set (step := Z.to_nat (Z.min count (len output1 - Z.of_nat offset))).
    assert (step = Z.to_nat count `min` (length output - offset))%nat as Hstep
      by (unfold step, len; rewrite Hlen; lia).
    destruct (IH (offset + step)%nat output1 r1) as (x&r'&Hrun&Hx); [lia..|].
    exists x, r'. split.
    + intros [|f] Hf; [lia|]. cbn [entropy_fill]. rewrite bool_decide_true by done.
      unfold with_err. rewrite bind_run, E. cbn. rewrite (bool_decide_false (count = 0)) by done.
      apply Hrun. lia.
    + destruct x as [out|e|]; [|done..]. destruct Hx as (Hx1&Hx2&Hx3).
      rewrite Hstep in Hx2, Hx3. destruct (entropy_piece offset (Z.to_nat count) output tail out)
        as [? Hpiece]; [done|lia|done|]. split_and!; [lia|done|].
      by rewrite Hx3, Hp, <-app_assoc, Hpiece.
Qed.

(** Filling a buffer with entropy always ends, after at most one request per byte, and
    success means the whole buffer is fresh: its bytes are exactly the next bytes the device
    produced, none is left from before, whatever the sizes of the device's answers (a device
    that stops answering is an error). *)
Theorem entropy_fill_fresh output r :
  ∃ x r', (∀ fuel, (length output ≤ fuel)%nat → entropy_fill fuel 0 output r = (x, r'))
    ∧ match x with
      | Ok out => length out = length output ∧ produced r' = produced r ++ out
      | Err _ => True
      | Panic => False
      end.
Proof.
  destruct (entropy_fill_run (length output) 0 output r) as (x&r'&Hrun&Hx); [lia..|].
  exists x, r'. split; [done|]. destruct x; [|done..]. by destruct Hx as (?&_&?).
Qed.
End entropy_theorems.

(** ** PCI configuration space *)
Definition valid_function (f : DeviceFunction) : Prop :=
  0 ≤ df_bus f < 256 ∧ 0 ≤ df_device f < 32 ∧ 0 ≤ df_function f < 8.
Definition valid_register (r : Z) : Prop := 0 ≤ r < 256 ∧ r mod 4 = 0.

Lemma lor_disjoint hi lo k :
  0 ≤ k → hi mod 2 ^ k = 0 → 0 ≤ lo < 2 ^ k → Z.lor hi lo = hi + lo.
Proof.
  intros Hk Hh Hl. assert (Z.land hi lo = 0) as Hz.
  { apply Z.bits_inj'. intros i Hi. rewrite Z.land_spec, Z.bits_0.
    destruct (decide (i < k)).
    - rewrite <-(Z.mod_pow2_bits_low hi k i) by lia. by rewrite Hh, Z.bits_0.
    - rewrite <-(Z.mod_small lo (2 ^ k)) by lia. rewrite Z.mod_pow2_bits_high by lia.
      apply andb_false_r. }
  rewrite Z.add_nocarry_lxor by done. by rewrite Z.lxor_lor.
Qed.

Lemma register_bits r : valid_register r → Z.land r 0xfc = r.
Proof.
  intros [Hr Hm]. apply Z.bits_inj'. intros i Hi. rewrite Z.land_spec.
  destruct (decide (i < 2)) as [Hlo|Hlo].
  - rewrite <-(Z.mod_pow2_bits_low r 2 i) by lia. change (2 ^ 2) with 4. by rewrite Hm, Z.bits_0.
  - destruct (decide (i < 8)) as [Hhi|Hhi].
    + assert (Z.testbit 0xfc i = true) as ->; [|apply andb_true_r].
      assert (i = 2 ∨ i = 3 ∨ i = 4 ∨ i = 5 ∨ i = 6 ∨ i = 7) as Hi' by lia.
      by repeat destruct Hi' as [->|Hi']; [..|subst].
    + rewrite <-(Z.mod_small r (2 ^ 8)) by lia. by rewrite Z.mod_pow2_bits_high by lia.
Qed.

Lemma pci_address_sum f r :
  valid_function f → valid_register r →
  pci_address f r = 2147483648 + df_bus f * 65536 + df_device f * 2048 + df_function f * 256 + r.
Proof.
  intros (Hb&Hd&Hf) Hr. unfold pci_address. rewrite register_bits by done.
  destruct Hr as [Hr _]. rewrite !Z.shiftl_mul_pow2 by lia.
  change (2 ^ 16) with 65536. change (2 ^ 11) with 2048. change (2 ^ 8) with 256.
  rewrite (lor_disjoint 2147483648 _ 24); [|lia|done|lia].
  rewrite (lor_disjoint _ (df_device f * 2048) 16); [|lia| |lia].
  2:{ change 2147483648 with (32768 * 2 ^ 16). change 65536 with (2 ^ 16).
      rewrite <-Z.mul_add_distr_r. by apply Z.mod_mul. }
  rewrite (lor_disjoint _ (df_function f * 256) 11); [|lia| |lia].
  2:{ replace (_ + _ + _) with ((1048576 + df_bus f * 32 + df_device f) * 2 ^ 11) by lia.
      by apply Z.mod_mul. }
  apply (lor_disjoint _ r 8); [lia| |lia].
  replace (_ + _ + _ + _)
    with ((8388608 + df_bus f * 256 + df_device f * 8 + df_function f) * 2 ^ 8) by lia.
  by apply Z.mod_mul.
Qed.

(** Different registers have different addresses. *)
Lemma pci_address_inj f r f' r' :
  valid_function f → valid_register r → valid_function f' → valid_register r' →
  pci_address f r = pci_address f' r' → f = f' ∧ r = r'.
Proof.
  intros Hf Hr Hf' Hr'. rewrite !pci_address_sum by done. destruct f, f'.
  unfold valid_function, valid_register in *. simpl in *. intros He.
  assert (r = r') by lia. subst. split; [f_equal; lia|done].
Qed.

(** Configuration mechanism 1: the address port selects the register that the data port
    reads and writes; what a register makes of a written value is its own affair. *)
Class PciPorts (H : Type) `{!PortAccess H} : Type := {
  selected : H → Z;
  registers : H → Z → Z;
  reg_write : Z → Z → Z → Z;
  law_address a h : selected (port_out 4 0xcf8 a h) = a;
  law_address_only a h x : registers (port_out 4 0xcf8 a h) x = registers h x;
  law_data_in h : (port_in 4 0xcfc h).1 = registers h (selected h);
  law_data_out d h x : registers (port_out 4 0xcfc d h) x =
    if bool_decide (x = selected h) then reg_write x (registers h x) d else registers h x }.

(** Configuration accesses reach the register they name and no other: reading after a
    write finds the written register changed and every other register, of this function
    or of any other one on the bus, as it was. *)
Theorem pci_access_exact {H} `{PA : !PortAccess H} `{PP : !PciPorts H} (h : H) f r f' r' data :
  valid_function f → valid_register r → valid_function f' → valid_register r' →
  (read_word f' r' (write_word f r data h)).1 =
    if bool_decide (f' = f ∧ r' = r) then reg_write (pci_address f r) (read_word f r h).1 data
    else (read_word f' r' h).1.
Proof.
  intros Hf Hr Hf' Hr'. unfold read_word, write_word, in_u32, out_u32.
  rewrite !law_data_in, !law_address, !law_address_only, law_data_out, law_address, law_address_only.
  destruct (decide (f' = f ∧ r' = r)) as [[-> ->]|Hne].
  - by rewrite !bool_decide_true.
  - rewrite !bool_decide_false; [done|done|]. intros He. apply Hne.
    by apply pci_address_inj in He.
Qed.

(** ** The register window of a device *)

(** Any machine, recording the ports it is asked for: the first port and the width. *)
Record Logged (H : Type) := mk_logged { lg_machine : H; lg_log : list (Z * Z) }.
Arguments mk_logged {H}.
Arguments lg_machine {H}.
Arguments lg_log {H}.

#[export] Instance Logged_PortAccess {H} `{!PortAccess H} : PortAccess (Logged H) := {|
  port_in width p s := let '(v, h) := port_in width p (lg_machine s) in
                       (v, mk_logged h ((p, width) :: lg_log s));
  port_out width p v s := mk_logged (port_out width p v (lg_machine s)) ((p, width) :: lg_log s) |}.

(** The operations of the transport. *)
Inductive TransportOp : Type :=
| OpReadFeatures | OpWriteFeatures (features : Z) | OpMaxQueueSize (queue : Z)
| OpNotify (queue : Z) | OpGetStatus | OpSetStatus (status : Z)
| OpQueueSet (queue descriptors : Z) | OpQueueUnset (queue : Z) | OpQueueUsed (queue : Z)
| OpAckInterrupt | OpReadConfig (offset : Z) (size : nat)
| OpWriteConfig (offset : Z) (value : list byte).

Definition run_op {H} `{PA : !PortAccess H} `{VF : !VirtioFlags} (t : LegacyPciTransport)
    (op : TransportOp) : M H VirtioError () :=
  match op with
  | OpReadFeatures => read_device_features t;; mret ()
  | OpWriteFeatures features => write_driver_features t features
  | OpMaxQueueSize queue => max_queue_size t queue;; mret ()
  | OpNotify queue => notify t queue
  | OpGetStatus => get_status t;; mret ()
  | OpSetStatus status => set_status t status
  | OpQueueSet queue descriptors => queue_set t queue descriptors
  | OpQueueUnset queue => queue_unset t queue
  | OpQueueUsed queue => queue_used t queue;; mret ()
  | OpAckInterrupt => ack_interrupt t;; mret ()
  | OpReadConfig offset size => read_config_space t offset 0 size;; mret ()
  | OpWriteConfig offset value => write_config_space t offset 0 value
  end.

(** The configuration accesses stay within [size] bytes. *)
Definition op_fits (size : Z) (op : TransportOp) : Prop :=
  match op with
  | OpReadConfig offset n => 0 ≤ offset ∧ offset + Z.of_nat n ≤ size
  | OpWriteConfig offset value => 0 ≤ offset ∧ offset + len value ≤ size
  | _ => True
  end.

Section window.
Context {H : Type} `{PA : !PortAccess H} `{VF : !VirtioFlags}.
Context (t : LegacyPciTransport) (size : Z).
Context (Hbase : 0 ≤ lt_io_base t) (Hsize : 0 ≤ size)
  (Hend : lt_io_base t + DEVICE_CONFIG + size ≤ 65536).
Notation L := (Logged H).

Definition in_window (access : Z * Z) : Prop :=
  lt_io_base t ≤ access.1 ∧ access.1 + access.2 ≤ lt_io_base t + DEVICE_CONFIG + size.
Definition log_ok (s : L) : Prop := Forall in_window (lg_log s).

Lemma returns_in width p :
  in_window (p, width) → returns log_ok (effect (port_in width p) : M L VirtioError Z).
Proof.
  intros Hp s Hs. unfold effect. simpl. destruct (port_in width p (lg_machine s)) as [v h].
  eexists _, _. split; [done|]. by constructor.
Qed.
Lemma returns_out width p v :
  in_window (p, width) → returns log_ok (modify (port_out width p v) : M L VirtioError ()).
Proof. intros Hp. apply returns_modify. intros s Hs. by constructor. Qed.

Lemma port_run offset (s : L) :
  0 ≤ offset ≤ DEVICE_CONFIG → offset < DEVICE_CONFIG + size →
  port t offset s = (Ok (lt_io_base t + offset), s).
Proof.
  intros Ho Hs. unfold port, add_u16. rewrite bool_decide_false; [done|]. unfold u16_max. lia.
Qed.
Lemma returns_at {A} offset (k : Z → M L VirtioError A) :
  0 ≤ offset < DEVICE_CONFIG → returns log_ok (k (lt_io_base t + offset)) →
  returns log_ok (p ← port t offset; k p).
Proof. intros Ho Hk s Hs. rewrite bind_run, port_run by lia. by apply Hk. Qed.

Lemma window_at offset width :
  0 ≤ offset → offset + width ≤ DEVICE_CONFIG → in_window (lt_io_base t + offset, width).
Proof. unfold in_window. simpl. lia. Qed.

Lemma returns_select queue : returns log_ok (select_queue t queue : M L VirtioError ()).
Proof. apply returns_at; [done|]. apply returns_out. by apply window_at. Qed.

Lemma config_port_run offset index (s : L) :
  0 ≤ offset → 0 ≤ index → offset + index < size →
  config_port t offset index s = (Ok (lt_io_base t + (DEVICE_CONFIG + (offset + index))), s).
Proof.
  intros Ho Hi Hs. unfold config_port. unfold DEVICE_CONFIG in *.
  rewrite bool_decide_false by (unfold usize_max, u64_max; lia).
  rewrite bind_run. cbn [mret M_ret]. rewrite try_from_ok by (unfold u16_max; lia). cbn [ok_or].
  rewrite bind_lift_ok. unfold port, add_u16.
  rewrite bool_decide_false by (unfold u16_max; lia). rewrite bind_run. cbn [mret M_ret].
  rewrite bool_decide_false by (unfold u16_max; lia). done.
Qed.

Lemma returns_config_read offset index n :
  0 ≤ offset → 0 ≤ index → offset + index + Z.of_nat n ≤ size →
  returns log_ok (read_config_space t offset index n : M L VirtioError (list byte)).
Proof.
  revert index. induction n as [|n IH]; intros index Ho Hi Hn; [apply returns_ret|].
  intros s Hs. cbn [read_config_space]. rewrite bind_run, config_port_run by lia.
  refine (returns_bind _ _ _ (returns_in _ _ _) _ s Hs); [unfold in_window; cbn [fst snd]; unfold DEVICE_CONFIG in *; lia|]. intros b.
  apply returns_bind; [apply IH; lia|]. intros rest. apply returns_ret.
Qed.
Lemma returns_config_write offset index value :
  0 ≤ offset → 0 ≤ index → offset + index + len value ≤ size →
  returns log_ok (write_config_space t offset index value : M L VirtioError ()).
Proof.
  revert index. induction value as [|b value IH]; intros index Ho Hi Hn; [apply returns_ret|].
  assert (len (b :: value) = 1 + len value) as Hl by (unfold len; simpl; lia).
  pose proof (len_nonneg value).
  intros s Hs. cbn [write_config_space]. rewrite bind_run, config_port_run by lia.
  refine (returns_bind _ _ _ (returns_out _ _ _ _) _ s Hs); [unfold in_window; cbn [fst snd]; unfold DEVICE_CONFIG in *; lia|].
  intros []. apply IH; lia.
Qed.
End window.

(** The transport stays inside its device: with a window of [size] configuration bytes
    below the end of the port space, every register operation returns (no port number
    overflows 16 bits) and touches only ports of the window, header and configuration space,
    at every width. *)
Theorem transport_in_window {H} `{PA : !PortAccess H} `{VF : !VirtioFlags} t size op (h : H) :
  0 ≤ lt_io_base t → 0 ≤ size → lt_io_base t + DEVICE_CONFIG + size ≤ 65536 → op_fits size op →
  ∃ s, run_op t op (mk_logged h []) = (Ok (), s)
    ∧ Forall (in_window t size) (lg_log s).
Proof.
  intros Hb Hs He Hop.
  assert (returns (log_ok t size) (run_op t op : M (Logged H) VirtioError ())) as Hr.
  { destruct op; simpl in Hop |- *;
      repeat first [ apply returns_config_read; simpl; lia
                   | apply returns_config_write; simpl; lia
                   | apply returns_select; done
                   | apply returns_in, window_at; done
                   | apply returns_out, window_at; done
                   | apply returns_at; [done..| ]
                   | apply returns_ret
                   | apply returns_bind; [|intros ?] ]. }
  destruct (Hr (mk_logged h []) ltac:(constructor)) as ([]&s&Hrun&Hlog). by exists s.
Qed.

(** ** Discovery *)
Section discovery_theorems.
Context {H Info B R N : Type} `{VB : !VirtIOBlk B} `{PR : !PciRoot H Info}
  `{VD : !VirtioDrivers H LegacyPciTransport B R N}.
Notation DS := (DeviceSet B R N).

(** The driver came from a legacy transport of its kind, at a 16-bit port. *)
Definition started_on {D} (new : LegacyPciTransport → M H str D) (ty : DeviceType) (driver : D) : Prop :=
  ∃ io_base h h', 0 ≤ io_base ≤ u16_max ∧ new (mk_legacy ty io_base) h = (Ok driver, h').

Record devices_ok (d : DS) : Prop := {
  ok_block b : ds_block d = Some b →
    blk_readonly (vb_driver b) = false ∧ started_on blk_new BlockType (vb_driver b);
  ok_entropy r : ds_entropy d = Some r → started_on rng_new EntropySourceType r;
  ok_net n : ds_net d = Some n → started_on (net_new NET_QUEUE_SIZE NET_BUFFER_LEN) NetworkType n }.

(** What is found is never replaced. *)
Definition extends (d d' : DS) : Prop :=
  (∀ b, ds_block d = Some b → ds_block d' = Some b)
  ∧ (∀ r, ds_entropy d = Some r → ds_entropy d' = Some r)
  ∧ (∀ n, ds_net d = Some n → ds_net d' = Some n).
#[local] Instance extends_preorder : PreOrder extends.
Proof. split; unfold extends; [naive_solver|]. intros ????. naive_solver. Qed.

(** [m] ends with a good set that extends [d], or a panic of a driver. *)
Definition grows {A} (d : DS) (get : A → DS) (m : M H str A) : Prop := ∀ h,
  match m h with
  | (Ok a, _) => devices_ok (get a) ∧ extends d (get a)
  | (Err _, _) => False
  | (Panic, _) => True
  end.

Lemma grows_ret d d' : devices_ok d' → extends d d' → grows d id (mret d').
Proof. by intros ?? h. Qed.

Lemma grows_add transport d :
  0 ≤ lt_io_base transport ≤ u16_max → devices_ok d → grows d id (try_add transport d).
Proof.
  intros Hio Hd h. unfold try_add, ok. rewrite bind_run.
  destruct (add_transport transport d h) as [[d'|e|] h'] eqn:E; [| |done]; cbn.
  2:{ split; [done|reflexivity]. }
  revert E. unfold add_transport. destruct transport as [ty io]. simpl in *.
  pose proof Hd as [Hb Hr Hn].
  destruct (negb (wants ty d)) eqn:Hw; [by intros [= <- <-]|].
  destruct ty; rewrite ?bind_run; unfold with_err.
  - destruct (blk_new (mk_legacy BlockType io) h) as [[b|e|] h1] eqn:En; [|done..]. cbn.
    destruct (blk_readonly b) eqn:Hro; intros [= <- <-]. split.
    + split; cbn; [|done..]. intros ? [= <-]. split; [done|]. by exists io, h, h1.
    + split_and!; cbn; [|done..]. intros x Hx. simpl in Hw. by rewrite Hx in Hw.
  - destruct (rng_new (mk_legacy EntropySourceType io) h) as [[b|e|] h1] eqn:En; [|done..].
    intros [= <- <-]. split.
    + split; cbn; [done| |done]. intros ? [= <-]. by exists io, h, h1.
    + split_and!; cbn; [done| |done]. intros x Hx. simpl in Hw. by rewrite Hx in Hw.
  - destruct (net_new _ _ (mk_legacy NetworkType io) h) as [[b|e|] h1] eqn:En; [|done..].
    intros [= <- <-]. split.
    + split; cbn; [done..|]. intros ? [= <-]. by exists io, h, h1.
    + split_and!; cbn; [done..|]. intros x Hx. simpl in Hw. by rewrite Hx in Hw.
  - intros [= <- <-]. split; [done|reflexivity].
Qed.

Lemma grows_probe f info d : devices_ok d → grows d (default d) (probe f info d).
Proof.
  intros Hd h. unfold probe. destruct (virtio_device_type info) as [ty|]; [|by split; [|reflexivity]].
  destruct (supported ty); cbn [negb]; [|by split; [|reflexivity]].
  rewrite bind_run. unfold effect at 1. destruct (get_command f h) as [command h1].
  rewrite bind_run. cbn [modify]. rewrite bind_run. unfold effect at 1.
  destruct (bar_info f 0 _) as [[[[address|address]|]|e|] h2]; cbn;
    try (by split; [|reflexivity]); [|done].
  rewrite bind_run. cbn [modify].
  destruct (try_from u16_max address) as [io|] eqn:E; [|by split; [|reflexivity]].
  apply try_from_Some in E as [-> Hio].
  rewrite bind_run. set (h3 := set_command _ _ _).
  pose proof (grows_add (mk_legacy ty address) d ltac:(done) Hd h3) as Hg.
  by destruct (try_add _ _ h3) as [[d'|e|] h4].
Qed.

Lemma grows_loop candidates d : devices_ok d → grows d id (pci_loop candidates d).
Proof.
  revert d. induction candidates as [|[f info] l IH]; intros d Hd; [by apply grows_ret; [|reflexivity]|].
  intros h. cbn [pci_loop]. rewrite bind_run. pose proof (grows_probe f info d Hd h) as Hp.
  destruct (probe f info d h) as [[[d'|]|e|] h1]; [| |done..].
  - destruct Hp as [Hd' He]. destruct (complete d'); [done|]. specialize (IH d' Hd' h1).
    destruct (pci_loop l d' h1) as [[d''|e|] h2]; [|done..]. destruct IH as [? He'].
    split; [done|]. by etrans.
  - apply IH, Hd.
Qed.
End discovery_theorems.

(** Discovery does not fail and trusts no device blindly: whatever is on the bus, every
    device of the resulting set was started on a legacy transport of its own kind at a port
    that fits 16 bits, and a disk in it is writable; a device that cannot be started only
    stays out of the set. *)
Theorem discover_pci_devices {H Info B R N} `{VB : !VirtIOBlk B} `{PR : !PciRoot H Info}
    `{VD : !VirtioDrivers H LegacyPciTransport B R N} (h : H) :
  match (discover_pci : M H str (DeviceSet B R N)) h with
  | (Ok d, _) => devices_ok d
  | (Err _, _) => False
  | (Panic, _) => True
  end.
Proof.
  unfold discover_pci. rewrite bind_run. unfold effect.
  destruct (enumerate_bus 0 h) as [candidates h1].
  pose proof (grows_loop candidates ds_empty ltac:(by split) h1) as Hg.
  destruct (pci_loop _ _ h1) as [[d|e|] h2]; [by destruct Hg|done..].
Qed.

(** ** Simulated devices *)
Record SimBlk := mk_sim_blk { sim_bytes : list byte }.
#[export] Instance SimBlk_VirtIOBlk : VirtIOBlk SimBlk := {|
  SECTOR_SIZE := 512;
  blk_capacity b := len (sim_bytes b) / 512;
  blk_readonly _ := false;
  blk_read_blocks first out := λ b,
    (Ok (take (length out) (drop (Z.to_nat (first * 512)) (sim_bytes b))), b);
  blk_write_blocks first data := λ b,
    (Ok (), mk_sim_blk (splice (sim_bytes b) (Z.to_nat (first * 512)) data));
  blk_flush := mret () |}.
#[export] Program Instance SimBlk_Reliable : ReliableBlk SimBlk := {|
  blk_ok b := len (sim_bytes b) mod BLOCK_SIZE = 0 ∧ len (sim_bytes b) ≤ u64_max;
  blk_content := sim_bytes |}.
Next Obligation. done. Qed.
Next Obligation.
  intros b [Hm Hl]. simpl. pose proof (len_nonneg (sim_bytes b)). unfold BLOCK_SIZE, u64_max in *.
  pose proof (Z.div_mod (len (sim_bytes b)) 512). split; [split; [apply Z.div_pos|]|]; lia.
Qed.
Next Obligation. intros b first out Hok Hf Hw Hl. by exists b. Qed.
Next Obligation.
  intros b first data r b' Hok Hf Hw Hl [= <- <-].
  assert (len (splice (sim_bytes b) (Z.to_nat (first * 512)) data) = len (sim_bytes b)) as Hlen
    by (unfold len, BLOCK_SIZE in *; rewrite length_splice; lia).
  simpl. rewrite Hlen. split_and!; [apply Hok..|done|done|by exists data|by right].
Qed.
Next Obligation. by intros b r b' Hok [= <- <-]. Qed.

Definition sim_disk : VirtioBlock SimBlk := mk_vblk (mk_sim_blk (replicate 8192 x00)).
Definition sim_opened : SnapshotStore (VirtioBlock SimBlk) := mk_store sim_disk 8 None 0.
Definition sim_saved : SnapshotStore (VirtioBlock SimBlk) := (save (example_tree "kept") sim_opened).2.

Lemma virtio_disk_keeps_tree_witness :
  store_open sim_disk = Ok (sim_opened, None) ∧ save (example_tree "kept") sim_opened = (Ok (), sim_saved)
  ∧ ∃ st2, store_open (st_device sim_saved) = Ok (st2, Some (example_tree "kept")).
Proof.
  split_and!; [by_vm|by_vm|].
  apply (virtio_disk_keeps_tree sim_disk sim_opened None (example_tree "kept") sim_saved);
    [split; by vm_compute|exact example_fits|by_vm|apply example_utf8|by vm_compute|by_vm].
Defined.

(** A device that answers three bytes at a time; the state is what it produced. *)
Record SimRng := mk_sim_rng { sim_produced : list byte }.
#[export] Instance SimRng_VirtIORng : VirtIORng SimRng := {|
  request_entropy out := λ r,
    let fresh := replicate (3 `min` length out) x2a in
    (Ok (len fresh, fresh ++ drop 3 out), mk_sim_rng (sim_produced r ++ fresh)) |}.
#[export] Program Instance SimRng_Reliable : ReliableRng SimRng := {| produced := sim_produced |}.
Next Obligation.
  intros out r. cbn [request_entropy SimRng_VirtIORng]. unfold len. rewrite Nat2Z.id, take_app_length, length_app, length_replicate,
    length_drop. split_and!; [lia|lia|done].
Qed.

Lemma entropy_fill_fresh_witness :
  fill 5 (replicate 5 x00) (mk_sim_rng []) = (Ok (replicate 5 x2a), mk_sim_rng (replicate 5 x2a))
  ∧ ∃ x r', (∀ fuel, (5 ≤ fuel)%nat → entropy_fill fuel 0 (replicate 5 x00) (mk_sim_rng []) = (x, r'))
      ∧ x ≠ Panic.
Proof.
  split; [by_vm|].
  destruct (entropy_fill_fresh (replicate 5 x00) (mk_sim_rng [])) as (x&r'&Hrun&Hx).
  exists x, r'. split; [exact Hrun|]. by destruct x.
Defined.

(** A bus whose registers keep what is written. *)
Record SimPci := mk_sim_pci { sim_selected : Z; sim_registers : Z → Z }.
#[export] Instance SimPci_PortAccess : PortAccess SimPci := {|
  port_in width p s :=
    (if bool_decide (p = 0xcfc) then sim_registers s (sim_selected s) else 0, s);
  port_out width p v s :=
    if bool_decide (p = 0xcf8) then mk_sim_pci v (sim_registers s)
    else if bool_decide (p = 0xcfc)
    then mk_sim_pci (sim_selected s)
           (λ a, if bool_decide (a = sim_selected s) then v else sim_registers s a)
    else s |}.
#[export] Program Instance SimPci_PciPorts : PciPorts SimPci := {|
  selected := sim_selected; registers := sim_registers; reg_write _ _ v := v |}.
Solve All Obligations with done.

Definition sim_bus : SimPci := mk_sim_pci 0 (λ _, 7).

Lemma pci_access_exact_witness :
  (read_word (mk_function 0 3 1) 4 (write_word (mk_function 0 3 0) 4 5 sim_bus)).1
  = (read_word (mk_function 0 3 1) 4 sim_bus).1.
Proof.
  etransitivity; [apply (pci_access_exact sim_bus (mk_function 0 3 0) 4 (mk_function 0 3 1) 4 5)|].
  - vm_compute. repeat split; discriminate.
  - vm_compute. repeat split; discriminate.
  - vm_compute. repeat split; discriminate.
  - vm_compute. repeat split; discriminate.
  - reflexivity.
Defined.

#[export] Instance sim_flags : VirtioFlags := {| known_status := 0xcf; known_interrupts := 3 |}.

Lemma transport_in_window_witness :
  ∃ s, run_op (mk_legacy BlockType 0xc000) (OpReadConfig 0 8) (mk_logged sim_bus []) = (Ok (), s)
    ∧ Forall (in_window (mk_legacy BlockType 0xc000) 8) (lg_log s).
Proof.
  apply (transport_in_window (mk_legacy BlockType 0xc000) 8 (OpReadConfig 0 8) sim_bus);
    [by vm_compute..|split; by vm_compute].
Defined.
