(* ===== verification/Kernel.v ===== *)
(** * The kernel (platforms/bare-metal/src/main.rs and the hardware side of platform.rs)

    The machine the bare-metal platform runs on, put together from the console, the
    architecture layer, the entropy device and the network stack, as an instance of the
    [Hardware] interface; the choice of the heap, the boot files and the entry point. *)
From S2P Require Import Prelude RustStr Api Mock Vfs Contract Security App System Shell Storage.
From S2P Require Import BareMetal BareMetalContract Arch Console Memory Net Devices.

(** ** The machine *)
Definition NET_TIMEOUT_MILLIS : Z := 30000.

Definition net_unavailable : Error := Unsupported "no network device is available".

Definition map_net_error (error : NetError) : Error :=
  match error with
  | NoLease => Io "no DHCP lease was acquired"
  | NameResolution message => Io ("name resolution failed: " ++ message)
  | Timeout message | SocketError message => Io message
  | Cancelled => Io "network operation cancelled"
  | Closed => Io "connection is closed"
  end.

Record KernelHw (H SN R : Type) := mk_khw {
  kh_machine : H;
  kh_console : Console;
  kh_entropy : option R;
  kh_net : option (NetStack SN) }.
Arguments mk_khw {H SN R}.
Arguments kh_machine {H SN R}.
Arguments kh_console {H SN R}.
Arguments kh_entropy {H SN R}.
Arguments kh_net {H SN R}.

Section hardware.
Context {H SN R : Type} `{PIO : !PortIo H} `{FT : !Font} `{SM : !Smoltcp SN} `{ES : !EntropySource R}.
(** Polls of a busy serial port, of the input while a line is typed, and of the network. *)
Context (spin line_fuel net_fuel : nat).
Notation K := (KernelHw H SN R).
Notation NS := (NetStack SN * (Console * H))%type.

Definition on_console {A} (m : M (Console * H) Error A) : M K Error A := λ k,
  let '(r, (c, h)) := m (kh_console k, kh_machine k) in
  (r, mk_khw h c (kh_entropy k) (kh_net k)).

(** The two closures of [with_net]. *)
Definition net_clock (started frequency : Z) (s : Console * H) : res NetError Z * (Console * H) :=
  let '(c, h) := s in
  let '(t, h) := counter h in
  (if bool_decide (frequency = 0) then Panic
   else Ok (saturating_mul64 (saturating_sub t started) 1000 / frequency), (c, h)).

Definition kernel_with_net {A} (operation : M NS NetError A) : M K Error A := λ k,
  match kh_net k with
  | None => (Err net_unavailable, k)
  | Some stack =>
      let '(r, (stack, (c, h))) := operation (stack, (kh_console k, kh_machine k)) in
      (map_err map_net_error r, mk_khw h c (kh_entropy k) (Some stack))
  end.

(** The wait of [net_status] for a lease. *)
Fixpoint status_loop (fuel : nat) (started frequency deadline : Z) : M NS NetError () :=
  configured ← stack_get is_configured;
  if (configured : bool) then mret ()
  else
    match fuel with
    | O => hang
    | S fuel =>
        poll_now (net_clock started frequency);;
        configured ← stack_get is_configured;
        if (configured : bool) then mret ()
        else
          c ← cancelled con_poll_cancel;
          if (c : bool) then mret ()
          else
            t ← now (net_clock started frequency);
            if bool_decide (deadline ≤ t) then mret ()
            else status_loop fuel started frequency deadline
    end.

Definition kernel_net_status (started frequency : Z) : M K Error NetStatus :=
  kernel_with_net (
    t ← now (net_clock started frequency);
    status_loop net_fuel started frequency (saturating_add64 t 5000);;
    stack_get stack_status).

Definition Kernel_Hardware : Hardware K := {|
  hw_architecture := "x86_64";
  hw_console_write text := on_console (con_write spin text);
  hw_console_read_line prompt secret := on_console (con_read_line spin line_fuel prompt secret);
  hw_console_clear := on_console (con_clear spin);
  hw_poll_cancel k :=
    let '(b, (c, h)) := con_poll_cancel (kh_console k, kh_machine k) in
    (b, mk_khw h c (kh_entropy k) (kh_net k));
  hw_counter k :=
    let '(t, h) := counter (kh_machine k) in
    (t, mk_khw h (kh_console k) (kh_entropy k) (kh_net k));
  (** One request per byte is enough for the entropy device. *)
  hw_entropy output k :=
    match kh_entropy k with
    | None => None
    | Some e =>
        let '(r, e) := fill (length output) output e in
        Some (r, mk_khw (kh_machine k) (kh_console k) (Some e) (kh_net k))
    end;
  hw_random output k :=
    let '((ok, bytes), h) := fill_hardware_random output (kh_machine k) in
    (if ok then Some bytes else None, mk_khw h (kh_console k) (kh_entropy k) (kh_net k));
  hw_net_status := kernel_net_status;
  hw_net_connect started frequency host port :=
    kernel_with_net (net_connect_op (net_clock started frequency) con_poll_cancel net_fuel
                       host port NET_TIMEOUT_MILLIS);
  hw_net_send started frequency handle data :=
    kernel_with_net (net_send_op (net_clock started frequency) con_poll_cancel net_fuel handle data);
  hw_net_recv started frequency handle out :=
    kernel_with_net (net_recv_op (net_clock started frequency) con_poll_cancel net_fuel handle out);
  hw_net_close started frequency handle :=
    kernel_with_net (net_close_op (net_clock started frequency) handle) |}.
End hardware.

(** ** The boot protocol *)
Record MemmapEntry := { me_base : Z; me_length : Z; me_usable : bool }.
Record BootModule := { bm_cmdline : str; bm_data : list byte }.

(** The loader's responses. *)
Record Limine := {
  lm_supported : bool;
  lm_hhdm : option Z;
  lm_executable : option (Z * Z);
  lm_memmap : option (list MemmapEntry);
  lm_modules : option (list BootModule);
  lm_framebuffers : option (list Framebuffer);
  lm_tsc_frequency : option Z }.

Definition MAX_HEAP_SIZE : Z := 128 * 1024 * 1024.
Definition MIN_HEAP_SIZE : Z := 8 * 1024 * 1024.
Definition KERNEL_PAGE : Z := 4096.

(** [& !(PAGE_SIZE - 1)] on a [u64]. *)
Definition page_floor (a : Z) : Z := Z.land a (Z.lxor u64_max (KERNEL_PAGE - 1)).

Definition heap_region (entry : MemmapEntry) : option (Z * Z) :=
  sum ← checked_add64 (me_base entry) (KERNEL_PAGE - 1);
  let aligned := page_floor sum in
  skipped ← checked_sub64 aligned (me_base entry);
  rest ← checked_sub64 (me_length entry) skipped;
  let available := page_floor rest in
  if bool_decide (MIN_HEAP_SIZE ≤ available) then Some (aligned, Z.min available MAX_HEAP_SIZE)
  else None.

(** [max_by_key]: the last of the largest. *)
Definition larger (best : option (Z * Z)) (region : Z * Z) : option (Z * Z) :=
  match best with
  | Some b => if bool_decide (b.2 ≤ region.2) then Some region else Some b
  | None => Some region
  end.
Definition choose_heap (entries : list MemmapEntry) : option (Z * Z) :=
  foldl larger None (omap heap_region (filter (λ e, me_usable e = true) entries)).

(** A message is a call of [fail]. *)
Definition initialize_heap (l : Limine) (g : Globals) : res str (Globals * (Z * Z)) :=
  hhdm ← ok_or "Limine did not provide a higher-half direct map" (lm_hhdm l);
  let g := mem_initialize hhdm (lm_executable l) g in
  entries ← ok_or "Limine did not provide a memory map" (lm_memmap l);
  '(physical, length) ← ok_or "no suitable usable memory region exists for the heap"
                          (choose_heap entries);
  pointer ← ok_or "heap address is outside the higher-half direct map" (phys_to_virt g physical);
  length ← ok_or "heap is too large for this architecture" (try_from usize_max length);
  Ok (g, (pointer, length)).

(** ** The boot files *)
Definition below (root path : str) : bool :=
  bool_decide (path = root) || starts_with (root ++ "/") path.

Definition boot_path_ok (path : str) : bool :=
  (below "/sys" path || below "/apps" path || below "/user" path)
  && bool_decide (normalize_path "/" path = Ok path).

Record BootFiles := { bf_system : list EmbeddedFile; bf_mutable : list InitialFile }.

Fixpoint load_modules (modules : list BootModule) (system : list EmbeddedFile)
    (mutable : list InitialFile) : option (list EmbeddedFile * list InitialFile) :=
  match modules with
  | [] => Some (system, mutable)
  | module :: modules =>
      match strip_prefix "afos-file:" (bm_cmdline module) with
      | None => load_modules modules system mutable
      | Some path =>
          if negb (boot_path_ok path) then None
          else if below "/sys" path
          then load_modules modules (system ++ [{| ef_path := path; ef_data := bm_data module |}]) mutable
          else
            path ← strip_prefix "/" path;
            load_modules modules system
              (mutable ++ [{| if_path := path; if_data := bm_data module |}])
      end
  end.

Definition load_boot_files (modules : list BootModule) : option BootFiles :=
  '(system, mutable) ← load_modules modules [] [];
  if bool_decide (length system = 0%nat) then None
  else Some {| bf_system := system; bf_mutable := mutable |}.

(** ** Start *)

(** [arch::halt]: after a message of [fail], of the panic handler or of the handler of failed
    allocations, or when the shell ended. *)
Inductive Halt :=
| HaltFailed (message : str)
| HaltPanic (info : str)
| HaltAllocation (layout : str)
| HaltFinished.

(** [zero_bss], between the two symbols of the linker; [offset_from] is the distance. *)
Definition zero_bss (bss_start bss_end : Z) (m : gmap Z byte) : gmap Z byte :=
  let length := default 0 (try_from usize_max (bss_end - bss_start)) in
  if bool_decide (0 < length) then store bss_start (replicate (Z.to_nat length) x00) m else m.

Section start.
Context {H SN R B ND : Type} `{PIO : !PortIo H} `{FT : !Font} `{SM : !Smoltcp SN}
  `{ES : !EntropySource R} `{VB : !VirtIOBlk B} `{NIC : !NetDevice ND} `{AR : !Argon2}.
Context (spin line_fuel net_fuel shell_fuel : nat).
(** The crate's interface and sockets over a card, from the time and a seed. *)
Context (smol_new : ND → Z → Z → SN).
Context (discover : M H str (DeviceSet B R ND)) (rhai : AppRuntime).
Notation P := (BareMetalPlatform (VirtioBlock B) (KernelHw H SN R)).
Notation Boot := (M H Halt).
#[local] Instance this_hardware : Hardware (KernelHw H SN R) := Kernel_Hardware spin line_fuel net_fuel.

(** Texts written one after the other before the machine stops. *)
Definition last_texts {A} (texts : list str) (halt : Halt) : Boot A :=
  with_err (λ _, halt) (for_each (emergency_write spin) texts);;
  throw halt.

Definition fail {A} (message : str) : Boot A :=
  last_texts [[nl] ++ "AFOS kernel: "; message; [nl]] (HaltFailed message).

(** The handlers of panics and failed allocations, from the text of what they are given. *)
Definition panic_handler {A} (info : str) : Boot A :=
  last_texts [[nl] ++ "AFOS kernel panic: "; info; [nl]] (HaltPanic info).
Definition allocation_error {A} (layout : str) : Boot A :=
  last_texts ["AFOS kernel: allocation failed: "; layout; [nl]] (HaltAllocation layout).

(** [Some(x) else { fail(...) }]. *)
Definition or_fail {A} (r : res str A) : Boot A :=
  match r with Ok a => mret a | Err message => fail message | Panic => hang end.

(** The hardware side of [BareMetalPlatform::new]; the counter seeds the network. *)
Definition kernel_hw (console : Console) (entropy : option R) (net : option ND) (h : H)
    : KernelHw H SN R :=
  match net with
  | None => mk_khw h console entropy None
  | Some device =>
      let '(seed, h) := counter h in
      mk_khw h console entropy (Some (stack_new (smol_new device 0 seed) (nic_mac device)))
  end.

Definition kernel_platform (l : Limine) (files : list InitialFile) (d : DeviceSet B R ND) (h : H)
    : res Error P :=
  console ← con_new (lm_framebuffers l ≫= head);
  bm_new (kernel_hw console (ds_entropy d) (ds_net d) h)
    (from_option (Z.max 1) 1000000 (lm_tsc_frequency l)) files (ds_block d).

(** [_start] up to the shell; [zero_bss] has cleared the statics, hence [globals_zero]. *)
Definition kernel_boot (l : Limine) : Boot (Afos P) :=
  modify initialize_com1;;
  (if lm_supported l then mret () else fail "unsupported Limine boot protocol revision");;
  '(g, heap) ← or_fail (initialize_heap l globals_zero);
  modules ← or_fail (ok_or "Limine did not provide the AFOS filesystem" (lm_modules l));
  boot_files ← or_fail (ok_or "Limine filesystem modules are invalid" (load_boot_files modules));
  devices ← with_err HaltFailed discover;
  h ← gets id;
  platform ← or_fail (map_err error_to_string (kernel_platform l (bf_mutable boot_files) devices h));
  let '(r, afos) := register_runtime rhai (afos_with_system_files platform (bf_system boot_files)) in
  match r with
  | Ok _ => mret afos
  | Err _ => fail "failed to register Rhai"
  | Panic => hang
  end.

(** The machine behind a running system. *)
Definition afos_machine (a : Afos P) : H := kh_machine (bm_hw (into_platform (afos_system a))).

Definition kernel_start (l : Limine) : Boot () :=
  afos ← kernel_boot l;
  let '(r, afos) := run_interactive (P := P) shell_fuel
                      {| interactive_setup := false; banner := true |} afos in
  modify (λ _, afos_machine afos);;
  match r with
  | Ok _ => throw HaltFinished
  | Err _ => fail "AFOS stopped after a platform error"
  | Panic => hang
  end.
End start.

(** ** Cleared statics *)
(** The bytes between the symbols are zero afterwards, and no other byte is touched. *)
Lemma zero_bss_clears bss_start bss_end m a :
  0 ≤ bss_start → bss_end ≤ u64_max →
  zero_bss bss_start bss_end m !! a
  = if decide (bss_start ≤ a < bss_end) then Some x00 else m !! a.
Proof.
  intros Hs He. unfold zero_bss. destruct (decide (0 ≤ bss_end - bss_start ≤ usize_max)) as [Hr|Hr].
  - rewrite try_from_ok by done. cbn [from_option id]. case_bool_decide as Hl.
    + rewrite store_lookup. unfold len. rewrite length_replicate. repeat case_decide; try lia; [|done].
      apply lookup_replicate_2. lia.
    + by rewrite decide_False by lia.
  - unfold try_from. rewrite (bool_decide_false (_ ∧ _)) by done. cbn. unfold usize_max in Hr.
    by rewrite decide_False by lia.
Qed.

(** So a static in between reads as zeros. *)
Lemma zero_bss_load bss_start bss_end m address n :
  0 ≤ bss_start → bss_end ≤ u64_max → bss_start ≤ address → address + Z.of_nat n ≤ bss_end →
  load address n (zero_bss bss_start bss_end m) = replicate n x00.
Proof.
  intros Hs He Ha Hn. apply list_eq_same_length with n; [by rewrite length_replicate|apply load_length|].
  intros i x y Hi Hx Hy. rewrite load_lookup, zero_bss_clears, decide_True in Hx by lia.
  apply lookup_replicate in Hy as [-> _]. by injection Hx.
Qed.

(** ** The heap *)
Lemma page_floor_spec a : 0 ≤ a ≤ u64_max → page_floor a = a - a mod KERNEL_PAGE.
Proof.
  intros Ha. unfold page_floor, KERNEL_PAGE. change 4096 with (2 ^ 12) at 2.
  assert (Z.land a (Z.lxor u64_max (4096 - 1)) = Z.ldiff a (Z.ones 12)) as ->.
  { rewrite Z.ldiff_land. apply Z.bits_inj'. intros i Hi. rewrite !Z.land_spec.
    destruct (decide (i < 64)).
    - f_equal. change (4096 - 1) with (Z.ones 12). change u64_max with (Z.ones 64).
      by rewrite Z.lxor_spec, Z.lnot_spec, Z.ones_spec_low by lia.
    - rewrite <-(Z.mod_small a (2 ^ 64)) by (unfold u64_max in Ha; lia).
      by rewrite Z.mod_pow2_bits_high by lia. }
  rewrite Z.ldiff_ones_r, Z.shiftl_mul_pow2, Z.shiftr_div_pow2 by lia.
  pose proof (Z.div_mod a (2 ^ 12)). lia.
Qed.

(** An entry of the map lies in the address space. *)
Definition entry_ok (e : MemmapEntry) : Prop :=
  0 ≤ me_base e ∧ 0 ≤ me_length e ∧ me_base e + me_length e ≤ u64_max.

(** A page-aligned range of [n] bytes at [p] inside a usable entry. *)
Record usable_range (entries : list MemmapEntry) (p n : Z) : Prop := {
  ur_page : p mod KERNEL_PAGE = 0;
  ur_size : n mod KERNEL_PAGE = 0;
  ur_entry : ∃ e, e ∈ entries ∧ me_usable e = true ∧ me_base e ≤ p ∧ p + n ≤ me_base e + me_length e }.

Lemma heap_region_spec e :
  entry_ok e →
  (∀ p n, heap_region e = Some (p, n) →
     p mod KERNEL_PAGE = 0 ∧ n mod KERNEL_PAGE = 0 ∧ MIN_HEAP_SIZE ≤ n ≤ MAX_HEAP_SIZE
     ∧ me_base e ≤ p ∧ p + n ≤ me_base e + me_length e)
  ∧ (∀ p n, p mod KERNEL_PAGE = 0 → n mod KERNEL_PAGE = 0 → MIN_HEAP_SIZE ≤ n ≤ MAX_HEAP_SIZE →
       me_base e ≤ p → p + n ≤ me_base e + me_length e →
       ∃ p' n', heap_region e = Some (p', n') ∧ n ≤ n').
Proof.
  intros (Hb&Hl&Hsum). unfold heap_region, checked_add64, checked_sub64.
  set (b := me_base e) in *. set (len := me_length e) in *.
  unfold KERNEL_PAGE, MIN_HEAP_SIZE, MAX_HEAP_SIZE in *.
  destruct (decide (b + (4096 - 1) ≤ u64_max)) as [Ho|Ho].
  2:{ unfold u64_max in *. split.
      - intros p n. unfold try_from. by rewrite bool_decide_false by lia.
      - intros p n ????. pose proof (Z.mod_pos_bound p 4096). lia. }
  rewrite (try_from_ok u64_max (b + (4096 - 1))) by lia. cbn [mbind option_bind].
  rewrite (page_floor_spec (b + _)) by lia. unfold KERNEL_PAGE.
  pose proof (Z.mod_pos_bound (b + (4096 - 1)) 4096 eq_refl) as Hr.
  pose proof (Z.div_mod (b + (4096 - 1)) 4096 ltac:(done)) as Hdm.
  set (al := b + (4096 - 1) - (b + (4096 - 1)) mod 4096) in *.
  assert (al mod 4096 = 0) as Hal.
  { replace al with ((b + (4096 - 1)) / 4096 * 4096) by lia. by apply Z.mod_mul. }
  assert (∀ p, p mod 4096 = 0 → b ≤ p → al ≤ p) as Hmin.
  { intros p Hp Hbp. pose proof (Z.div_mod p 4096). pose proof (Z.div_mod al 4096). lia. }
  rewrite (try_from_ok u64_max (al - b)) by lia. cbn [mbind option_bind].
  unfold try_from. case_bool_decide as Hs; cbn [mbind option_bind].
  2:{ split; [done|]. intros p n Hp Hn Hm Hbp Hpn. specialize (Hmin p Hp Hbp). lia. }
  rewrite page_floor_spec by lia. unfold KERNEL_PAGE.
  pose proof (Z.mod_pos_bound (len - (al - b)) 4096 eq_refl) as Hr2.
  pose proof (Z.div_mod (len - (al - b)) 4096 ltac:(done)) as Hdm2.
  set (av := len - (al - b) - (len - (al - b)) mod 4096) in *.
  assert (av mod 4096 = 0) as Hav.
  { replace av with ((len - (al - b)) / 4096 * 4096) by lia. by apply Z.mod_mul. }
  case_bool_decide as Hge.
  - split.
    + intros p n [= <- <-]. split_and!; [done| |lia..].
      destruct (Z.min_spec av (128 * 1024 * 1024)) as [[_ ->]|[_ ->]]; [done|by vm_compute].
    + intros p n Hp Hn Hm Hbp Hpn. specialize (Hmin p Hp Hbp). eexists _, _. split; [done|].
      pose proof (Z.div_mod n 4096). pose proof (Z.div_mod av 4096). lia.
  - split; [done|]. intros p n Hp Hn Hm Hbp Hpn. specialize (Hmin p Hp Hbp).
    pose proof (Z.div_mod n 4096). pose proof (Z.div_mod av 4096). lia.
Qed.

Lemma larger_fold l best r :
  foldl larger best l = Some r →
  (best = Some r ∨ r ∈ l) ∧ (∀ b, best = Some b → b.2 ≤ r.2) ∧ ∀ x, x ∈ l → x.2 ≤ r.2.
Proof.
  revert best. induction l as [|x l IH]; intros best; cbn [foldl].
  { intros ->. split_and!; [by left|by intros b [= ->]|]. intros y Hy. by apply elem_of_nil in Hy. }
  intros H. apply IH in H as (Hin&Hb&Hl). unfold larger in *.
  destruct best as [b|]; [case_bool_decide as Hx|].
  - specialize (Hb x eq_refl). split_and!.
    + right. destruct Hin as [[= ->]|]; [left|by right].
    + intros b' [= <-]. lia.
    + intros y [->|Hy]%elem_of_cons; auto.
  - specialize (Hb b eq_refl). split_and!.
    + destruct Hin; [by left|right; by right].
    + intros b' [= <-]. lia.
    + intros y [->|Hy]%elem_of_cons; [lia|auto].
  - specialize (Hb x eq_refl). split_and!; [|done|].
    + right. destruct Hin as [[= ->]|]; [left|by right].
    + intros y [->|Hy]%elem_of_cons; auto.
Qed.

Lemma larger_some l best : is_Some best → is_Some (foldl larger best l).
Proof.
  revert best. induction l as [|x l IH]; intros best Hb; [done|]. apply IH.
  destruct Hb as [b ->]. simpl. by case_bool_decide.
Qed.

Lemma elem_of_regions (entries : list MemmapEntry) r :
  r ∈ omap heap_region (filter (λ e, me_usable e = true) entries)
  ↔ ∃ e, e ∈ entries ∧ me_usable e = true ∧ heap_region e = Some r.
Proof.
  rewrite list_elem_of_omap. split.
  - intros (e&[??]%list_elem_of_filter&?). by exists e.
  - intros (e&?&?&?). exists e. by rewrite list_elem_of_filter.
Qed.

(** C29. The heap is a page-aligned range of whole pages inside one usable entry of the memory
    map, between the minimum and the maximum size, and no usable entry offers a larger one;
    the kernel gives up only when no usable entry holds the minimum. *)
Theorem heap_is_largest entries :
  Forall entry_ok entries →
  match choose_heap entries with
  | Some (p, n) =>
      usable_range entries p n ∧ MIN_HEAP_SIZE ≤ n ≤ MAX_HEAP_SIZE
      ∧ ∀ p' n', usable_range entries p' n' → MIN_HEAP_SIZE ≤ n' ≤ MAX_HEAP_SIZE → n' ≤ n
  | None => ∀ p n, usable_range entries p n → n < MIN_HEAP_SIZE
  end.
Proof.
  intros Hok. rewrite Forall_forall in Hok. unfold choose_heap.
  assert (∀ p n, usable_range entries p n → MIN_HEAP_SIZE ≤ n ≤ MAX_HEAP_SIZE →
    ∃ r, r ∈ omap heap_region (filter (λ e, me_usable e = true) entries) ∧ n ≤ r.2) as Hall.
  { intros p n [Hp Hn (e&He&Hu&Hb&Hpn)] Hm.
    destruct (proj2 (heap_region_spec e (Hok e He)) p n Hp Hn Hm Hb Hpn) as (p'&n'&Hr&Hle).
    exists (p', n'). rewrite elem_of_regions. eauto. }
  destruct (foldl larger None _) as [[p n]|] eqn:E.
  - apply larger_fold in E as ([|Hin]&_&Hmax); [done|].
    apply elem_of_regions in Hin as (e&He&Hu&Hr).
    destruct (proj1 (heap_region_spec e (Hok e He)) p n Hr) as (?&?&?&?&?).
    split_and!; [|lia..|].
    + split; [done..|]. by exists e.
    + intros p' n' Hr' Hm. destruct (Hall p' n' Hr' Hm) as (r&Hin&Hle).
      specialize (Hmax r Hin). simpl in Hmax. lia.
  - intros p n [Hp Hn (e&He&Hu&Hb&Hpn)]. destruct (decide (n < MIN_HEAP_SIZE)) as [|Hge]; [done|].
    exfalso. destruct (Hall p MIN_HEAP_SIZE) as (r&Hin&_); [|unfold MIN_HEAP_SIZE, MAX_HEAP_SIZE; lia|].
    { split; [done|done|]. exists e. split_and!; [done..|lia]. }
    destruct (omap heap_region _) as [|x l]; [by apply elem_of_nil in Hin|].
    destruct (larger_some l (Some x)) as [r' Hr']; [done|]. cbn [foldl larger] in E. congruence.
Qed.

(** ** Boot files *)
Definition module_file (m : BootModule) : option (str * list byte) :=
  path ← strip_prefix "afos-file:" (bm_cmdline m); Some (path, bm_data m).

Definition boot_file (f : str * list byte) : Prop :=
  canonical f.1 ∧ (under "/sys" f.1 ∨ under "/apps" f.1 ∨ under "/user" f.1).

Lemma below_under root path : below root path = true ↔ under root path.
Proof.
  unfold below. rewrite orb_true_iff, bool_decide_eq_true. split.
  - intros [->|H]; [apply under_refl|by apply under_dir].
  - intros [->|[r ->]]; [by left|]. right. apply starts_with_spec. exists r. by rewrite <-app_assoc.
Qed.

Lemma boot_path_ok_spec f : boot_path_ok f.1 = true ↔ boot_file f.
Proof.
  unfold boot_path_ok, boot_file. rewrite andb_true_iff, !orb_true_iff, !below_under.
  rewrite bool_decide_eq_true. split.
  - intros [Hu Hn]. split; [|tauto]. by eapply normalize_canonical.
  - intros [Hc Hu]. split; [tauto|]. by apply normalize_canonical_id.
Qed.

Definition embedded (f : str * list byte) : EmbeddedFile := {| ef_path := f.1; ef_data := f.2 |}.
Definition absolute (i : InitialFile) : str * list byte := ("/" ++ if_path i, if_data i).

(** Boot files outside [/sys] are files the persistent mounts can hold. *)
Lemma boot_file_mount path data :
  boot_file (path, data) → ¬ under "/sys" path → ∃ rel, path = "/" ++ rel ∧ mount_path rel.
Proof.
  intros [Hc Hu] Hs. simpl in *. pose proof Hc as (cs&_&Hp). exists (join "/" cs).
  split; [done|]. rewrite Hp in Hc, Hu. split; [|done].
  destruct Hu as [?|[Hu|Hu]]; [by rewrite Hp in Hs|left|right];
    (destruct Hu as [[= ->]|[r [= ->]]]; [apply under_refl|right; by exists r]).
Qed.

Lemma load_modules_spec ms system mutable :
  match load_modules ms system mutable with
  | Some (s', m') =>
      Forall boot_file (omap module_file ms)
      ∧ s' = system ++ (embedded <$> filter (λ f, under "/sys" f.1) (omap module_file ms))
      ∧ ∃ rels, m' = mutable ++ rels ∧ Forall (λ i, mount_path (if_path i)) rels
          ∧ absolute <$> rels = filter (λ f, ¬ under "/sys" f.1) (omap module_file ms)
  | None => ¬ Forall boot_file (omap module_file ms)
  end.
Proof.
  revert system mutable. induction ms as [|m ms IH]; intros system mutable.
  { cbn. rewrite app_nil_r. split_and!; [constructor|done|]. exists []. by rewrite app_nil_r. }
  cbn [load_modules]. cbn [omap list_omap].
  assert (module_file m = (λ path, (path, bm_data m)) <$> strip_prefix "afos-file:" (bm_cmdline m))
    as -> by (unfold module_file; by destruct (strip_prefix _ _)).
  destruct (strip_prefix "afos-file:" (bm_cmdline m)) as [path|]; [|apply IH].
  cbn [fmap option_fmap option_map]. set (f := (path, bm_data m)). rewrite !filter_cons.
  destruct (boot_path_ok path) eqn:Hp; cbn [negb].
  2:{ rewrite Forall_cons. intros [Hf _]. apply (boot_path_ok_spec f) in Hf. simpl in Hf. congruence. }
  apply (boot_path_ok_spec f) in Hp. destruct (below "/sys" path) eqn:Hb.
  - apply below_under in Hb. rewrite (decide_True (P := under "/sys" f.1)) by done.
    rewrite (decide_False (P := ¬ under "/sys" f.1)) by auto.
    specialize (IH (system ++ [embedded f]) mutable). fold (embedded f).
    destruct (load_modules ms _ mutable) as [[s' m']|]; [|by intros [_ ?]%Forall_cons].
    destruct IH as (Ha&->&?). split_and!; [by constructor| |done]. by rewrite <-app_assoc.
  - assert (¬ under "/sys" path) as Hn by (rewrite <-below_under; congruence).
    rewrite (decide_False (P := under "/sys" f.1)), (decide_True (P := ¬ under "/sys" f.1)) by done.
    destruct (boot_file_mount path _ Hp Hn) as (rel&Hrel&Hmount). rewrite Hrel, strip_prefix_app.
    cbn [mbind option_bind]. set (i := {| if_path := rel; if_data := bm_data m |}).
    specialize (IH system (mutable ++ [i])).
    destruct (load_modules ms system _) as [[s' m']|]; [|by intros [_ ?]%Forall_cons].
    destruct IH as (Ha&->&rels&->&Hm&Hr). split_and!; [by constructor|done|].
    exists (i :: rels). split_and!; [by rewrite <-app_assoc|by constructor|].
    rewrite fmap_cons, Hr. unfold absolute, f. simpl. by rewrite Hrel.
Qed.

(** The boot files are taken exactly as the loader gives them: when loading succeeds every
    [afos-file:] module names a canonical path below [/sys], [/apps] or [/user]; the system
    files are those below [/sys], in order, the others become files of the persistent mounts,
    in order and with their contents; nothing else is added and nothing is lost.  It fails
    exactly when some path is not of that form or no system file is there. *)
Theorem boot_files_exact modules :
  let fs := omap module_file modules in
  match load_boot_files modules with
  | Some bf =>
      Forall boot_file fs ∧ bf_system bf ≠ []
      ∧ bf_system bf = embedded <$> filter (λ f, under "/sys" f.1) fs
      ∧ absolute <$> bf_mutable bf = filter (λ f, ¬ under "/sys" f.1) fs
      ∧ Forall (λ i, mount_path (if_path i)) (bf_mutable bf)
  | None => ¬ (Forall boot_file fs ∧ filter (λ f, under "/sys" f.1) fs ≠ [])
  end.
Proof.
  intros fs. unfold load_boot_files. pose proof (load_modules_spec modules [] []) as Hs.
  fold fs in Hs. destruct (load_modules modules [] []) as [[s m]|]; cbn [mbind option_bind].
  - destruct Hs as (Ha&->&rels&->&Hm&Hr). rewrite !app_nil_l. case_bool_decide as Hl.
    + intros [_ Hne]. apply Hne. by apply nil_length_inv, (fmap_nil_inv embedded) in Hl.
    + simpl. split_and!; try done. intros Hx. by rewrite Hx in Hl.
  - by intros [? _].
Qed.
