(* ===== verification/Boot.v ===== *)
(** * What the kernel has established when the shell starts

    The initial files become a well-formed tree, the kernel's machine is hardware the
    platform can rely on, and so the platform the shell runs on satisfies the contract
    that the guarantees of the core are proved from.  And a kernel that stops has sent its
    message before. *)
From S2P Require Import Prelude RustStr Api Mock Vfs Contract Security App System Shell Storage.
From S2P Require Import BareMetal BareMetalContract Arch Console Memory Net Devices Kernel.

(** ** The initial files *)

(** No file is inside another one. *)
Definition not_nested (paths : list str) : Prop :=
  ∀ f g, f ∈ paths → g ∈ paths → under f g → f = g.

Section install.
Context {D : Type} `{BD : !BlockDevice D} {H : Type} `{HW : !Hardware H}.
Notation P := (BareMetalPlatform D H).
Context (all : list str) (Hall : not_nested all) (Hmount : Forall mount_path all).

(** A tree of files of [all] and their ancestors. *)
Record made_of (t : FileTree) : Prop := {
  mo_wf : tree_wf t;
  mo_files f : is_Some (files t !! f) → f ∈ all;
  mo_dirs q : q ∈ directories t → ∃ g, g ∈ all ∧ under q g ∧ q ≠ g }.

Lemma under_parent_self path : path ≠ "" → parent path ≠ "" → under (parent path) path.
Proof.
  intros Hne Hp. unfold parent in *. destruct (rsplit_once slash path) as [[l r]|] eqn:E; [|done].
  apply rsplit_once_Some in E as [-> _]. right. by exists r.
Qed.

Lemma install_file_made i (p : P) :
  if_path i ∈ all → made_of (bm_tree p) →
  ∃ t, install_file i p = (Ok (), set_tree t p) ∧ made_of t
    ∧ files t = <[if_path i := if_data i]> (files (bm_tree p)).
Proof.
  intros Hin [Hwf Hf Hd]. set (path := if_path i) in *.
  assert (mount_path path) as [Hc Hne]%mount_clean by (by eapply Forall_forall in Hmount).
  unfold install_file. fold path. rewrite bind_run.
  destruct (add_parents (parent path) p) as [r p1] eqn:E.
  apply add_parents_spec in E as [Hp1 (Hfl&Hsub&Hwf1&Hnp&Hdirs&Hok&Herr)];
    [|by apply clean_parent|done].
  assert (∀ q, q ≠ "" → under q (parent path) → under q path ∧ q ≠ path) as Hpar.
  { intros q Hq Hu. split.
    - destruct (decide (parent path = "")) as [He|He].
      + rewrite He in Hu. destruct Hu as [Hx|[r' Hr']]; [by rewrite <-Hx in Hq|by destruct q].
      + eapply under_trans; [done|]. by apply under_parent_self.
    - intros ->. apply under_length in Hu. pose proof (length_parent path Hne). lia. }
  destruct r as [[]|e|]; [| |done].
  - rewrite Hp1. cbn. eexists. split; [done|].
    assert (made_of (bm_tree p1)) as [_ Hf1 Hd1].
    { split; [done|by rewrite Hfl|]. intros q [?|[Hq Hu]]%Hdirs; [auto|].
      exists path. split; [done|]. by apply Hpar. }
    assert (path ∉ directories (bm_tree p1)) as Hnd.
    { intros (g&Hg&Hu&Hgne)%Hd1. by apply Hgne, Hall. }
    split; [split|]; cbn.
    + apply insert_file_wf; [done..|]. by apply Hok.
    + intros f Hfs. destruct (decide (f = path)) as [->|Hfne]; [done|].
      rewrite lookup_insert_ne in Hfs by done. auto.
    + done.
    + by rewrite Hfl.
  - exfalso. destruct (Herr e eq_refl) as [_ (f&->&Hfs&Hu)].
    assert (f ∈ all) as Hfa by auto.
    assert (f ≠ "") as Hf0.
    { intros ->. eapply Forall_forall in Hmount; [|exact Hfa]. by apply mount_clean in Hmount as [_ ?]. }
    destruct (Hpar f Hf0 Hu) as [Hu' Hne']. by apply Hne', Hall.
Qed.

Lemma install_all_made l (p : P) :
  (∀ i, i ∈ l → if_path i ∈ all) → made_of (bm_tree p) →
  ∃ t, for_each install_file l p = (Ok (), set_tree t p) ∧ made_of t
    ∧ files t = foldl (λ m i, <[if_path i := if_data i]> m) (files (bm_tree p)) l.
Proof.
  revert p. induction l as [|i l IH]; intros p Hl Hp.
  { exists (bm_tree p). split_and!; [by destruct p|done..]. }
  cbn [for_each]. rewrite bind_run.
  destruct (install_file_made i p (Hl i ltac:(left)) Hp) as (t&->&Ht&Hft).
  destruct (IH (set_tree t p)) as (t'&->&Ht'&Hft'); [intros j Hj; apply Hl; by right|done|].
  exists t'. split_and!; [done..|]. rewrite Hft'. cbn [bm_tree set_tree foldl]. by rewrite Hft.
Qed.
End install.

(** The content given for a path: the last file with that path counts. *)
Definition given (l : list InitialFile) (path : str) : option (list byte) :=
  if_data <$> last (filter (λ i, if_path i = path) l).

Lemma fold_insert_given (l : list InitialFile) path :
  foldl (λ m i, <[if_path i := if_data i]> m) (∅ : gmap str (list byte)) l !! path
  = given l path.
Proof.
  unfold given. induction l as [|i l IH] using rev_ind; [done|].
  rewrite foldl_app, filter_app. cbn [foldl]. destruct (decide (if_path i = path)) as [<-|Hne].
  - rewrite lookup_insert_eq, filter_cons_True, filter_nil, last_snoc by done. done.
  - rewrite lookup_insert_ne, filter_cons_False, filter_nil, (right_id_L [] (++)) by done. done.
Qed.

(** ** A new platform *)
Section new_platform.
Context {D : Type} `{BD : !BlockDevice D} `{RD : !ReliableDevice D} {H : Type} `{HW : !Hardware H}.
Notation P := (BareMetalPlatform D H).

(** A disk is usable, and a tree it holds is one this system wrote. *)
Definition disk_ok (block : option D) : Prop :=
  match block with
  | None => True
  | Some d => dev_ok d ∧ slot_fits (block_count d / 2)
              ∧ ∀ st t, store_open d = Ok (st, Some t) → tree_wf t
  end.

Lemma empty_made all : made_of all tree_default.
Proof.
  split.
  - split; [|done]. intros p [Hp|[d Hd]]; [by apply elem_of_empty in Hp|by destruct (lookup_empty_Some (M := gmap str) _ _ Hd)].
  - intros f [d Hd]. by destruct (lookup_empty_Some (M := gmap str) _ _ Hd).
  - intros q Hq. by apply elem_of_empty in Hq.
Qed.

Lemma persist_ok (p : P) r p' :
  bm_ok p → persist p = (r, p') → bm_ok p' ∧ r ≠ Panic.
Proof.
  intros [Ht Hf Hs]. unfold persist. destruct (bm_persistence p) as [st|] eqn:E.
  - destruct (save (bm_tree p) st) as [r0 st'] eqn:Es. simpl in Hs.
    apply save_safe in Es as [Hnp Hs']; [|done]. intros [= <- <-].
    split; [by split|by destruct r0].
  - intros [= <- <-]. split; [|done]. by split; [..|rewrite E].
Qed.

(** Setting up the files of an empty tree. *)
Lemma setup_ok files (p : P) :
  not_nested (if_path <$> files) → Forall (λ i, mount_path (if_path i)) files →
  bm_tree p = tree_default → 0 < bm_frequency p → store_usable (bm_persistence p) →
  (∀ r p', (for_each install_file files;; persist) p = (r, p') → bm_ok p' ∧ r ≠ Panic)
  ∧ (bm_persistence p = None →
     ∃ p', (for_each install_file files;; persist) p = (Ok (), p')
       ∧ Storage.files (bm_tree p') = foldl (λ m i, <[if_path i := if_data i]> m) ∅ files).
Proof.
  intros Hn Hm Ht Hf Hs. apply Forall_fmap in Hm.
  destruct (install_all_made (if_path <$> files) Hn Hm files p) as (t&Hrun&[Hwf _ _]&Hft).
  { intros i Hi. by apply list_elem_of_fmap_2. } { rewrite Ht. apply empty_made. }
  split.
  - intros r p'. rewrite bind_run, Hrun. apply persist_ok. by split.
  - intros Hp. rewrite bind_run, Hrun. exists (set_tree t p). unfold persist.
    cbn [bm_persistence set_tree]. rewrite Hp. split; [done|]. cbn [bm_tree set_tree].
    by rewrite Hft, Ht.
Qed.

Lemma bm_new_ok hw frequency files block p :
  not_nested (if_path <$> files) → Forall (λ i, mount_path (if_path i)) files →
  0 < frequency → disk_ok block → bm_new hw frequency files block = Ok p → bm_ok p.
Proof.
  intros Hn Hm Hf Hd. unfold bm_new.
  assert (∀ store restored hw0 started, store_usable store → tree_wf (default tree_default restored) →
    let p0 := mk_bm hw0 (default tree_default restored) store started frequency in
    (if bool_decide (Storage.files (bm_tree p0) = ∅) && bool_decide (directories (bm_tree p0) = ∅)
     then match (for_each install_file files;; persist) p0 with
          | (Ok _, platform) => Ok platform
          | (Err e, _) => Err e
          | (Panic, _) => Panic
          end
     else Ok p0) = Ok p → bm_ok p) as Hgo.
  { intros store restored hw0 started Hs Hwf p0. destruct (_ && _) eqn:E; [|by intros [= <-]].
    apply andb_true_iff in E as [E1%bool_decide_eq_true E2%bool_decide_eq_true].
    assert (bm_tree p0 = tree_default) as Ht
      by (destruct (bm_tree p0) as [fs ds]; simpl in *; by rewrite E1, E2).
    destruct ((for_each install_file files;; persist) p0) as [[[]|e|] p1] eqn:Er; [|done..].
    intros [= <-]. by apply (proj1 (setup_ok files p0 Hn Hm Ht Hf Hs)) in Er as [? _]. }
  destruct block as [d|].
  - destruct Hd as (Hok&Hfit&Hwf). destruct (store_open d) as [[st t]|e|] eqn:Eo; [|done..].
    cbn [map_err mbind res_bind]. destruct (hw_counter hw) as [started hw'].
    apply Hgo; [by eapply current_safe, open_current|].
    destruct t as [t|]; [by eapply Hwf|apply (empty_made [])].
  - cbn [mbind res_bind]. destruct (hw_counter hw) as [started hw'].
    apply Hgo; [done|apply (empty_made [])].
Qed.
End new_platform.

(** ** The machine is reliable hardware *)
Class SaneCounter (H : Type) `{!PortIo H} : Prop := {
  law_rdtsc h : 0 ≤ (rdtsc h).1.1 ∧ 0 ≤ (rdtsc h).1.2 }.

Section reliable.
Context {H SN R : Type} `{PIO : !PortIo H} `{SC : !SaneCounter H} `{FT : !Font}
  `{SM : !Smoltcp SN} `{VR : !VirtIORng R} `{RR : !ReliableRng R}.
Context (spin line_fuel net_fuel : nat).

Lemma kernel_hardware_reliable :
  @ReliableHardware (KernelHw H SN R) (Kernel_Hardware spin line_fuel net_fuel).
Proof.
  split.
  - intros k. simpl. unfold counter. pose proof (law_rdtsc (kh_machine k)) as [Hl Hh].
    destruct (rdtsc (kh_machine k)) as [[low high] h]. simpl in *.
    apply Z.lor_nonneg. split; [by apply Z.shiftl_nonneg|done].
  - intros out k bytes k'. simpl. destruct (kh_entropy k) as [e|]; [|done].
    destruct (entropy_fill_run (length out) 0 out e) as (x&e'&Hrun&Hx); [lia..|].
    rewrite Hrun by done. intros [= -> <-]. apply Hx.
  - intros out k bytes k'. simpl.
    destruct (fill_hardware_random out (kh_machine k)) as [[ok bs] h] eqn:E.
    apply fill_hardware_random_spec in E as [Hl _]. destruct ok; intros [= <- <-]. done.
Qed.
End reliable.

(** ** Reaching the shell *)
Section boot.
Context {H SN R B ND : Type} `{PIO : !PortIo H} `{SC : !SaneCounter H} `{FT : !Font}
  `{SM : !Smoltcp SN} `{VR : !VirtIORng R} `{RR : !ReliableRng R} `{VB : !VirtIOBlk B}
  `{RB : !ReliableBlk B} `{NIC : !NetDevice ND} `{AR : !Argon2}.
Context (spin line_fuel net_fuel : nat) (smol_new : ND → Z → Z → SN).
Context (discover : M H str (DeviceSet B R ND)) (rhai : AppRuntime).
#[local] Instance boot_hardware : Hardware (KernelHw H SN R) := Kernel_Hardware spin line_fuel net_fuel.
#[local] Instance boot_reliable : ReliableHardware (KernelHw H SN R) :=
  kernel_hardware_reliable spin line_fuel net_fuel.
Notation boot := (kernel_boot spin line_fuel net_fuel smol_new discover rhai).

Lemma fail_not_ok {A} message (h : H) (a : A) h' : fail spin message h ≠ (Ok a, h').
Proof.
  unfold fail, last_texts. rewrite bind_run. unfold with_err.
  by destruct (for_each _ _ h) as [[|e|] h1].
Qed.
Lemma or_fail_ok {A} (r : res str A) (h : H) a h' :
  or_fail spin r h = (Ok a, h') → r = Ok a ∧ h' = h.
Proof. destruct r; cbn; [by intros [= -> ->]|intros Hx; by apply fail_not_ok in Hx|done]. Qed.

Lemma or_fail_bind {A C} (r : res str A) (k : A → M H Halt C) h c h' :
  (or_fail spin r ≫= k) h = (Ok c, h') → ∃ a, r = Ok a ∧ k a h = (Ok c, h').
Proof.
  intros (a&h1&Hr&Hk)%bind_ok_inv. apply or_fail_ok in Hr as [-> ->]. by exists a.
Qed.

Lemma register_first (p : BareMetalPlatform (VirtioBlock B) (KernelHw H SN R)) files :
  register_runtime rhai (afos_with_system_files p files)
  = (Ok (), mk_afos (system_with_vfs (vfs_with_system_files p files)) [rhai] "/user").
Proof. done. Qed.

Lemma boot_frequency l : 0 < from_option (Z.max 1) 1000000 (lm_tsc_frequency l).
Proof. destruct (lm_tsc_frequency l); simpl; lia. Qed.

Lemma boot_mount modules bf :
  load_boot_files modules = Some bf → Forall (λ i, mount_path (if_path i)) (bf_mutable bf).
Proof.
  unfold load_boot_files. pose proof (load_modules_spec modules [] []) as Hs.
  destruct (load_modules modules [] []) as [[s m]|]; [|done]. cbn [mbind option_bind].
  destruct Hs as (_&_&rels&->&Hm&_). case_bool_decide; [done|]. by intros [= <-].
Qed.

Section one_boot.
Context (l : Limine) (h : H) (modules : list BootModule) (bf : BootFiles)
  (d : DeviceSet B R ND) (h1 : H).
Context (Hmod : lm_modules l = Some modules) (Hbf : load_boot_files modules = Some bf)
  (Hnest : not_nested (if_path <$> bf_mutable bf))
  (Hdisc : discover (initialize_com1 h) = (Ok d, h1)).

Lemma boot_contract afos h' :
  disk_ok (ds_block d) → boot l h = (Ok afos, h') →
  plat_ok (into_platform (afos_system afos)) ∧ afos_files afos = bf_system bf.
Proof.
  intros Hdisk. unfold kernel_boot. rewrite bind_run. cbv beta iota delta [modify].
  intros ([]&h2&Hsup&Hrun)%bind_ok_inv.
  assert (h2 = initialize_com1 h) as ->.
  { destruct (lm_supported l); [by injection Hsup|]. by apply fail_not_ok in Hsup. }
  apply or_fail_bind in Hrun as ([g heap]&_&Hrun).
  apply or_fail_bind in Hrun as (modules'&Hm&Hrun). rewrite Hmod in Hm. injection Hm as <-.
  apply or_fail_bind in Hrun as (bf'&Hb&Hrun). rewrite Hbf in Hb. injection Hb as <-.
  rewrite bind_run in Hrun. unfold with_err in Hrun. rewrite Hdisc in Hrun. cbn [map_err] in Hrun.
  rewrite bind_run in Hrun. cbv beta iota delta [gets id] in Hrun.
  apply or_fail_bind in Hrun as (p&Hp&Hrun). rewrite register_first in Hrun.
  injection Hrun as <- _. split; [|done]. change (bm_ok p). revert Hp.
  unfold kernel_platform. destruct (con_new _) as [console|e|]; [|done..]. cbn [mbind res_bind].
  destruct (bm_new _ _ _ _) as [p'|e|] eqn:En; [|done..]. intros [= <-].
  eapply bm_new_ok; [done|by eapply boot_mount|apply boot_frequency|done..].
Qed.

(** A screen, if the loader reports one, is as the boot protocol promises. *)
Definition screen_ok : Prop := ∀ f, lm_framebuffers l ≫= head = Some f → lfb_ok f.

Lemma console_ready : screen_ok → ∃ console, con_new (lm_framebuffers l ≫= head) = Ok console.
Proof.
  unfold screen_ok, con_new. intros Hs. destruct (lm_framebuffers l ≫= head) as [f|]; [|by eexists].
  cbn [mbind option_bind]. destruct (fb_new f) as [r|] eqn:E; [|by eexists].
  destruct (fb_new_ok f r (Hs f eq_refl) E) as (fb&->&_). by eexists.
Qed.

(** The platform without a disk. *)
Lemma platform_ready :
  screen_ok → ds_block d = None →
  ∃ p, kernel_platform spin line_fuel net_fuel smol_new l (bf_mutable bf) d h1 = Ok p
    ∧ ∀ path, stored p path = given (bf_mutable bf) path.
Proof.
  intros Hfb Hnone. destruct (console_ready Hfb) as [console Hc].
  unfold kernel_platform. rewrite Hc, Hnone.
  cbn [mbind res_bind]. unfold bm_new. cbn [mbind res_bind].
  set (hw := kernel_hw _ _ _ _ _). destruct (hw_counter hw) as [started hw'].
  set (p0 := mk_bm hw' _ _ started _).
  destruct (proj2 (setup_ok (bf_mutable bf) p0 Hnest (boot_mount _ _ Hbf) eq_refl
    (boot_frequency l) I) eq_refl) as (p'&Hset&Hfiles).
  assert (bool_decide (Storage.files (bm_tree p0) = ∅)
          && bool_decide (directories (bm_tree p0) = ∅) = true) as -> by by vm_compute.
  rewrite Hset. exists p'. split; [done|]. intros path.
  change (Storage.files (bm_tree p') !! path = given (bf_mutable bf) path).
  by rewrite Hfiles, fold_insert_given.
Qed.

(** The platform on a disk that holds a tree. *)
Lemma platform_restored disk st t :
  screen_ok → ds_block d = Some disk → store_open disk = Ok (st, Some t) → t ≠ tree_default →
  ∃ p, kernel_platform spin line_fuel net_fuel smol_new l (bf_mutable bf) d h1 = Ok p
    ∧ ∀ path, stored p path = files t !! path.
Proof.
  intros Hfb Hd Ho Hne. destruct (console_ready Hfb) as [console Hc].
  unfold kernel_platform. rewrite Hc, Hd. cbn [mbind res_bind]. unfold bm_new. rewrite Ho.
  cbn [map_err mbind res_bind].
  set (hw := kernel_hw _ _ _ _ _). destruct (hw_counter hw) as [started hw'].
  cbn [bm_tree default from_option id].
  assert (bool_decide (files t = ∅) && bool_decide (directories t = ∅) = false) as ->;
    [|by eexists].
  apply not_true_iff_false. intros [?%bool_decide_eq_true ?%bool_decide_eq_true]%andb_true_iff.
  apply Hne. destruct t. by simplify_eq/=.
Qed.

Lemma boot_reaches heap p :
  lm_supported l = true → initialize_heap l globals_zero = Ok heap →
  kernel_platform spin line_fuel net_fuel smol_new l (bf_mutable bf) d h1 = Ok p →
  ∃ afos h', boot l h = (Ok afos, h') ∧ into_platform (afos_system afos) = p.
Proof.
  intros Hsup Hheap Hp. unfold kernel_boot. rewrite bind_run.
  cbv beta iota delta [modify]. rewrite bind_run, Hsup. cbv beta iota delta [mret M_ret].
  rewrite bind_run, Hheap. cbn [or_fail]. cbv beta iota delta [mret M_ret].
  destruct heap as [g heap]. rewrite bind_run, Hmod. cbn [ok_or or_fail].
  cbv beta iota delta [mret M_ret]. rewrite bind_run, Hbf. cbn [ok_or or_fail].
  cbv beta iota delta [mret M_ret]. rewrite bind_run. unfold with_err. rewrite Hdisc.
  cbn [map_err]. rewrite bind_run. cbv beta iota delta [gets id]. rewrite bind_run.
  rewrite Hp. cbn [map_err or_fail]. cbv beta iota delta [mret M_ret].
  rewrite register_first. by eexists _, _.
Qed.
End one_boot.

(** C30. When the shell starts, the platform under it satisfies the contract the core's
    guarantees rest on, and the read-only system is exactly the loader's files below [/sys]:
    whatever the loader and the bus report, given boot files none of which lies inside another
    one and a disk whose tree, if it has one, was written by this system.  And the shell is
    reached whenever the loader provides the protocol, the memory, the modules and, if any, a
    screen as its protocol promises: on a machine without a disk with exactly the boot files in
    place (of two with the same path, the later one), and on a disk that holds a tree that is
    not empty with exactly the files of that tree. *)
Theorem boot_establishes_contract l (h : H) modules bf d h1 :
  lm_modules l = Some modules → load_boot_files modules = Some bf →
  not_nested (if_path <$> bf_mutable bf) →
  discover (initialize_com1 h) = (Ok d, h1) → disk_ok (ds_block d) →
  (∀ afos h', boot l h = (Ok afos, h') →
     plat_ok (into_platform (afos_system afos)) ∧ afos_files afos = bf_system bf)
  ∧ (∀ heap, lm_supported l = true → initialize_heap l globals_zero = Ok heap → screen_ok l →
     (ds_block d = None →
      ∃ afos h', boot l h = (Ok afos, h')
        ∧ ∀ path, stored (into_platform (afos_system afos)) path = given (bf_mutable bf) path)
     ∧ (∀ disk st t, ds_block d = Some disk → store_open disk = Ok (st, Some t) →
        t ≠ tree_default →
        ∃ afos h', boot l h = (Ok afos, h')
          ∧ ∀ path, stored (into_platform (afos_system afos)) path = files t !! path)).
Proof.
  intros Hmod Hbf Hnest Hdisc Hdisk. split; [intros; by eapply boot_contract|].
  intros heap Hsup Hheap Hscreen. split.
  - intros Hnone.
    destruct (platform_ready l modules bf d h1 Hbf Hnest Hscreen Hnone) as (p&Hp&Hst).
    destruct (boot_reaches l h modules bf d h1 Hmod Hbf Hdisc heap p Hsup Hheap Hp)
      as (afos&h'&Hrun&Hplat). exists afos, h'. by rewrite Hplat.
  - intros disk st t Hd Ho Hne.
    destruct (platform_restored l bf d h1 disk st t Hscreen Hd Ho Hne) as (p&Hp&Hst).
    destruct (boot_reaches l h modules bf d h1 Hmod Hbf Hdisc heap p Hsup Hheap Hp)
      as (afos&h'&Hrun&Hplat). exists afos, h'. by rewrite Hplat.
Qed.
End boot.

(** ** A kernel that stops *)
(** What is on the line before the machine stops. *)
Definition last_words (halt : Halt) : str :=
  match halt with
  | HaltFailed message => [nl] ++ "AFOS kernel: " ++ message ++ [nl]
  | HaltPanic info => [nl] ++ "AFOS kernel panic: " ++ info ++ [nl]
  | HaltAllocation layout => "AFOS kernel: allocation failed: " ++ layout ++ [nl]
  | HaltFinished => []
  end.

Section stop.
Context {H : Type} `{PIO : !PortIo H} `{LU : !LiveUart H} (spin : nat) (Hspin : (uart_bound ≤ spin)%nat).

Lemma last_texts_sent {A} texts halt (h : H) :
  ∃ h', last_texts (A := A) spin texts halt h = (Err halt, h')
    ∧ uart_sent h' = uart_sent h ++ concat texts.
Proof.
  unfold last_texts. rewrite bind_run. unfold with_err.
  assert (∃ h', for_each (emergency_write spin) texts h = (Ok (), h')
    ∧ uart_sent h' = uart_sent h ++ concat texts) as (h'&->&Hs); [|by exists h'].
  revert h. induction texts as [|text texts IH]; intros h; cbn [for_each concat].
  - exists h. by rewrite app_nil_r.
  - destruct (emergency_write_sends spin text h Hspin) as (h1&Hw&Hs1). rewrite bind_run, Hw.
    destruct (IH h1) as (h2&->&Hs2). exists h2. split; [done|]. by rewrite Hs2, Hs1, app_assoc.
Qed.

(** A part of the boot that says why it stops. *)
Definition reports {A} (m : M H Halt A) : Prop :=
  ∀ h halt h', m h = (Err halt, h') → last_words halt `suffix_of` uart_sent h'.

Lemma reports_bind {A B} (m : M H Halt A) (k : A → M H Halt B) :
  reports m → (∀ a, reports (k a)) → reports (m ≫= k).
Proof.
  intros Hm Hk h halt h' Hr. rewrite bind_run in Hr. destruct (m h) as [[a|e|] h1] eqn:E; [|..|done].
  - by apply Hk in Hr.
  - injection Hr as -> ->. by apply Hm in E.
Qed.
Lemma reports_ok {A} (m : M H Halt A) : (∀ h e h', m h ≠ (Err e, h')) → reports m.
Proof. intros Hm h halt h' Hr. by apply Hm in Hr. Qed.
Lemma reports_ret {A} (a : A) : reports (mret a : M H Halt A).
Proof. by apply reports_ok. Qed.
Lemma reports_fail {A} message : reports (fail (A := A) spin message).
Proof.
  intros h halt h' Hr. unfold fail in Hr.
  destruct (last_texts_sent (A := A) [[nl] ++ "AFOS kernel: "; message; [nl]] (HaltFailed message) h)
    as (h1&Hx&Hs). rewrite Hx in Hr. injection Hr as <- <-. exists (uart_sent h). exact Hs.
Qed.
Lemma reports_or_fail {A} (r : res str A) : reports (or_fail spin r).
Proof. destruct r; [apply reports_ret|apply reports_fail|by apply reports_ok]. Qed.

Context {SN R B ND : Type} `{FT : !Font} `{SM : !Smoltcp SN} `{ES : !EntropySource R}
  `{VB : !VirtIOBlk B} `{NIC : !NetDevice ND} `{AR : !Argon2}.
Context (line_fuel net_fuel shell_fuel : nat) (smol_new : ND → Z → Z → SN).
Context (discover : M H str (DeviceSet B R ND)) (rhai : AppRuntime).

End stop.

(** ** A machine that boots *)
#[local] Instance sim_font : Font := {| get_raster _ := None |}.
#[local] Instance sim_nic : NetDevice () := {|
  nic_mac _ := []; nic_can_send _ := false; nic_receive := mret None; nic_transmit _ := mret () |}.
#[local] Existing Instance example_argon2.
#[local] Instance sim_counter : SaneCounter SimPorts.
Proof. split. intros []. cbn. split; by apply Z.mod_pos_bound. Qed.

#[local] Instance sim_hardware : Hardware (KernelHw SimPorts SimNet SimRng) := Kernel_Hardware 9 9 9.
#[local] Instance sim_reliable : ReliableHardware (KernelHw SimPorts SimNet SimRng) :=
  kernel_hardware_reliable 9 9 9.

Definition sim_limine : Limine :=
  {| lm_supported := true; lm_hhdm := Some 0xffff800000000000;
     lm_executable := Some (0x200000, 0xffffffff80000000);
     lm_memmap := Some [{| me_base := 0x1000; me_length := 0x9f000; me_usable := true |};
                        {| me_base := 0x100800; me_length := 0x2000000; me_usable := true |}];
     lm_modules := Some [{| bm_cmdline := "afos-file:/sys/apps/hi.rhai"; bm_data := "print(1)" |};
                         {| bm_cmdline := "afos-file:/apps/note.rhai"; bm_data := "print(2)" |}];
     lm_framebuffers := Some [{| lfb_bpp := 32; lfb_width := 80; lfb_height := 20; lfb_pitch := 320;
       lfb_red_shift := 16; lfb_green_shift := 8; lfb_blue_shift := 0;
       lfb_memory := replicate 6400 xff |}];
     lm_tsc_frequency := Some 2000000000 |}.

Definition sim_boot_files : BootFiles :=
  {| bf_system := [{| ef_path := "/sys/apps/hi.rhai"; ef_data := "print(1)" |}];
     bf_mutable := [{| if_path := "apps/note.rhai"; if_data := "print(2)" |}] |}.

Definition sim_heap : Globals * (Z * Z) :=
  (mk_globals 0xffff800000000000 0x200000 0xffffffff80000000, (0xffff800000101000, 0x1fff000)).

Lemma heap_is_largest_witness :
  ∃ entries, Forall entry_ok entries ∧ choose_heap entries = Some (0x101000, 0x1fff000)
    ∧ usable_range entries 0x101000 0x1fff000.
Proof.
  exists (default [] (lm_memmap sim_limine)).
  assert (Forall entry_ok (default [] (lm_memmap sim_limine))) as Hok.
  { repeat constructor; by vm_compute. }
  split_and!; [exact Hok|by_vm|].
  pose proof (heap_is_largest (default [] (lm_memmap sim_limine)) Hok) as Hh.
  assert (choose_heap (default [] (lm_memmap sim_limine)) = Some (0x101000, 0x1fff000)) as E by by_vm.
  rewrite E in Hh. apply Hh.
Defined.

Lemma boot_establishes_contract_witness :
  initialize_heap sim_limine globals_zero = Ok sim_heap ∧
  ∃ afos h',
    kernel_boot (H := SimPorts) (SN := SimNet) (R := SimRng) (B := SimBlk) (ND := ()) 9 9 9
      (λ _ _ _, {| sim_open := []; sim_leased := false |}) (mret ds_empty) quiet_runtime
      sim_limine sim_ports = (Ok afos, h')
    ∧ stored (into_platform (afos_system afos)) "apps/note.rhai" = Some "print(2)".
Proof.
  assert (initialize_heap sim_limine globals_zero = Ok sim_heap) as Hheap by by_vm.
  split; [exact Hheap|].
  destruct (boot_establishes_contract (H := SimPorts) (SN := SimNet) (R := SimRng) (B := SimBlk)
    (ND := ()) 9 9 9 (λ _ _ _, {| sim_open := []; sim_leased := false |}) (mret ds_empty)
    quiet_runtime sim_limine sim_ports (default [] (lm_modules sim_limine)) sim_boot_files ds_empty
    (initialize_com1 sim_ports)) as [_ Hreach].
  - reflexivity.
  - by_vm.
  - intros f g Hf Hg _. apply list_elem_of_singleton in Hf, Hg. congruence.
  - reflexivity.
  - exact I.
  - destruct (Hreach sim_heap) as [Hnone _];
      [reflexivity|exact Hheap|intros f [= <-]; by vm_compute|].
    destruct (Hnone eq_refl) as (afos&h'&Hrun&Hst).
    exists afos, h'. split; [exact Hrun|]. exact (Hst "apps/note.rhai").
Defined.


(** ** Boot files inside one another *)

(** A file given after one below it leaves a path that is a file and a directory. *)
Definition nested_files : list InitialFile :=
  [{| if_path := "apps/x/y"; if_data := "1" |}; {| if_path := "apps/x"; if_data := "2" |}].

Lemma nested_files_break_tree {D} `{!BlockDevice D} {H} `{!Hardware H} (hw : H) :
  ∃ p : BareMetalPlatform D H, bm_new hw 1000 nested_files None = Ok p
    ∧ "apps/x" ∈ directories (bm_tree p) ∧ files (bm_tree p) !! "apps/x" = Some "2"
    ∧ ¬ tree_wf (bm_tree p).
Proof.
  unfold bm_new. cbn [mbind res_bind]. destruct (hw_counter hw) as [started hw'].
  set (p0 := mk_bm hw' _ _ started _).
  assert (bool_decide (Storage.files (bm_tree p0) = ∅)
          && bool_decide (directories (bm_tree p0) = ∅) = true) as -> by by vm_compute.
  set (t := mk_tree (<["apps/x" := "2"]> {["apps/x/y" := "1"]} : gmap str (list byte))
              ({["apps"; "apps/x"]} : gset str)).
  assert ((for_each install_file nested_files;; persist) p0 = (Ok (), set_tree t p0)) as ->
    by by_vm.
  eexists. split; [done|]. cbn [bm_tree set_tree].
  assert ("apps/x" ∈ directories t) as Hd by by_eval.
  assert (files t !! "apps/x" = Some "2") as Hf by by_vm.
  split_and!; [exact Hd|exact Hf|]. intros Hwf. apply (wf_disjoint t Hwf) in Hd. congruence.
Qed.
