(* ===== verification/Rhai.v ===== *)
(** * The Rhai runtime (crates/afos-runtime-rhai/src/lib.rs)

    The host functions an application calls, the slot through which they find the API of
    the running application, and the exit status.  The interpreter is a parameter: a
    script is the tree of the host calls it makes, each with what the script does with
    the answer.  The theorems show that running a script through the slot is running a
    tree of API calls, so what is proved of every such tree (confinement, above all) holds
    of every Rhai application; that each host function makes the API call of its name with
    its arguments ([rhai_host_functions]); and what the host functions mean to a script: files,
    application data and connections behave as their names say. *)
From S2P Require Import Prelude RustStr Text Api Mock Vfs Contract Security App System.

(** ** Values *)
Inductive Dynamic : Type :=
| DUnit
| DBool (b : bool)
| DInt (n : Z)
| DString (s : str)
| DArray (l : list Dynamic)
(** The entries of a map; their order means nothing. *)
| DMap (l : list (str * Dynamic))
| DOther.

Definition i64_min : Z := -9223372036854775808.
Definition i64_max : Z := 9223372036854775807.
Definition i32_min : Z := -2147483648.
Definition i32_max : Z := 2147483647.
Definition is_int (n : Z) : Prop := i64_min ≤ n ≤ i64_max.

Definition optional_string (value : option str) : Dynamic :=
  match value with Some s => DString s | None => DUnit end.

Definition net_handle_to_int (handle : Z) : res Error Z :=
  ok_or (ResourceLimit "connection handle exceeds Rhai integer") (try_from i64_max handle).
Definition net_handle_from_int (handle : Z) : res Error Z :=
  ok_or (InvalidInput "invalid connection handle") (try_from u64_max handle).

(** ** The engine *)
Record EngineLimits := {
  max_operations : Z; max_call_levels : Z; max_expr_depth : Z;
  max_string_size : Z; max_array_size : Z; max_map_size : Z }.

Definition MAX_OPERATIONS : Z := 5000000.
Definition MAX_CALL_LEVELS : Z := 32.
Definition MAX_EXPR_DEPTH : Z := 64.
Definition MAX_STRING_SIZE : Z := 1024 * 1024.
Definition MAX_COLLECTION_SIZE : Z := 16 * 1024.

Definition engine_limits : EngineLimits :=
  {| max_operations := MAX_OPERATIONS; max_call_levels := MAX_CALL_LEVELS;
     max_expr_depth := MAX_EXPR_DEPTH; max_string_size := MAX_STRING_SIZE;
     max_array_size := MAX_COLLECTION_SIZE; max_map_size := MAX_COLLECTION_SIZE |}.

(** The registered functions, with arguments of the types the engine checked. *)
Inductive HostFn : Type :=
| PrintRaw (text : str)
| ReadLine (prompt : str)
| Args
| Cwd
| FnFsRead (path : str)
| FnFsWrite (path text : str)
| FnFsList (path : str)
| FnFsMkdir (path : str)
| FnFsRemove (path : str)
| FnFsRename (from to : str)
| AppdataRead (path : str)
| AppdataWrite (path text : str)
| MonotonicMillis
| FnSystemInfo
| FnNetStatus
| FnNetConnect (host : str) (port : Z)
| FnNetSend (handle : Z) (text : str)
| FnNetRecv (handle max : Z)
| FnNetClose (handle : Z).

(** What a script asks of the host: the hooks and the functions. *)
Inductive host_op : Type → Type :=
| OnPrint (text : str) : host_op ()
| OnDebug (text : str) (source : option str) (position : str) : host_op ()
(** [Some] stops the script. *)
| OnProgress : host_op (option Dynamic)
(** The error is the text the script can catch. *)
| CallFn (f : HostFn) : host_op (str + Dynamic).

Inductive script : Type :=
| ScriptDone (result : res str Dynamic)
| ScriptCall (T : Type) (o : host_op T) (k : T → script).
Arguments ScriptCall {T} o k.

(** ** The host functions

    Each is a piece of API calls, as a tree with the answer of type [T] at its leaves. *)
Inductive api_tree (T : Type) : Type :=
| Leaf (t : res Error T)
| Node (X : Type) (o : api_op X) (k : X → api_tree T).
Arguments Leaf {T} t.
Arguments Node {T X} o k.

Definition call {X} (o : api_op X) : api_tree X := Node o (λ x, Leaf (Ok x)).
Fixpoint and_then {X Y} (t : api_tree X) (f : X → res Error Y) : api_tree Y :=
  match t with
  | Leaf r => Leaf (x ← r; f x)
  | Node o k => Node o (λ x, and_then (k x) f)
  end.

Definition i64_or (message : str) (value : Z) : res Error Dynamic :=
  DInt <$> ok_or (ResourceLimit message) (try_from i64_max value).

Definition entry_name (e : StorageEntry) : Dynamic :=
  DString (if se_is_dir e then se_name e ++ "/" else se_name e).

Definition info_map (info : SystemInfo) : Dynamic :=
  DMap [("name" : str, DString (si_name info)); ("version" : str, DString (si_version info));
        ("platform" : str, DString (si_platform info));
        ("architecture" : str, DString (si_architecture info))].
Definition status_map (status : NetStatus) : Dynamic :=
  DMap [("link_up" : str, DBool (ns_link_up status)); ("mac" : str, DString (ns_mac status));
        ("address" : str, optional_string (ns_address status));
        ("gateway" : str, optional_string (ns_gateway status))].

Definition host_fn (f : HostFn) : api_tree Dynamic :=
  match f with
  | PrintRaw text => and_then (call (OpConsoleWrite text)) (λ _, Ok DUnit)
  | ReadLine prompt => and_then (call (OpConsoleReadLine prompt)) (λ s, Ok (DString s))
  | Args => and_then (call OpArgs) (λ l, Ok (DArray (DString <$> l)))
  | Cwd => and_then (call OpCwd) (λ s, Ok (DString s))
  | FnFsRead path => and_then (call (OpReadText path)) (λ s, Ok (DString s))
  | FnFsWrite path text => and_then (call (OpWriteText path text)) (λ _, Ok DUnit)
  | FnFsList path => and_then (call (OpList path)) (λ l, Ok (DArray (entry_name <$> l)))
  | FnFsMkdir path => and_then (call (OpCreateDirAll path)) (λ _, Ok DUnit)
  | FnFsRemove path => and_then (call (OpRemove path)) (λ _, Ok DUnit)
  | FnFsRename from to => and_then (call (OpRename from to)) (λ _, Ok DUnit)
  | AppdataRead path => and_then (call (OpAppdataRead path)) (λ s, Ok (DString s))
  | AppdataWrite path text => and_then (call (OpAppdataWrite path text)) (λ _, Ok DUnit)
  | MonotonicMillis =>
      and_then (call OpMonotonicMillis) (i64_or "clock value exceeds Rhai integer")
  | FnSystemInfo => and_then (call OpSystemInfo) (λ i, Ok (info_map i))
  | FnNetStatus => and_then (call OpNetStatus) (λ s, Ok (status_map s))
  | FnNetConnect host port =>
      match try_from u16_max port with
      | None => Leaf (Err (InvalidInput "port is out of range"))
      | Some port =>
          and_then (call (OpNetConnect host port)) (λ h, DInt <$> net_handle_to_int h)
      end
  | FnNetSend handle text =>
      match net_handle_from_int handle with
      | Ok handle =>
          and_then (call (OpNetSend handle text)) (i64_or "byte count exceeds Rhai integer")
      | Err e => Leaf (Err e)
      | Panic => Leaf Panic
      end
  | FnNetRecv handle max =>
      match net_handle_from_int handle with
      | Ok handle =>
          match try_from usize_max max with
          | None => Leaf (Err (InvalidInput "invalid receive length"))
          | Some max =>
              and_then (call (OpNetRecv handle max)) (λ bytes, Ok (DString (from_utf8_lossy bytes)))
          end
      | Err e => Leaf (Err e)
      | Panic => Leaf Panic
      end
  | FnNetClose handle =>
      match net_handle_from_int handle with
      | Ok handle => and_then (call (OpNetClose handle)) (λ _, Ok DUnit)
      | Err e => Leaf (Err e)
      | Panic => Leaf Panic
      end
  end.

(** ** The slot *)
Record RhaiState (S : Type) := mk_rhai { rs_slot : bool; rs_api : S }.
Arguments mk_rhai {S}.
Arguments rs_slot {S}.
Arguments rs_api {S}.

Section slot.
Context {S : Type} `{SA : !SystemApi S}.
Notation R := (M (RhaiState S) Error).

(** [ApiGuard::install] and its [drop].  The slot, when set, points at the API of the
    running application; an execution started inside it brings another API, which the
    refusal never touches. *)
Definition guard_install : R () := λ s,
  if rs_slot s then (Err (Runtime "nested Rhai execution is not supported"), s)
  else (Ok (), mk_rhai true (rs_api s)).
Definition guard_drop : R () := modify (λ s, mk_rhai false (rs_api s)).

Definition with_api {T} (operation : M S Error T) : R T := λ s,
  if rs_slot s then let '(r, a) := operation (rs_api s) in (r, mk_rhai (rs_slot s) a)
  else (Err (Runtime "missing AFOS API context"), s).

Fixpoint run_host {T} (t : api_tree T) : R T :=
  match t with
  | Leaf r => lift r
  | Node o k => x ← with_api (api_exec o); run_host (k x)
  end.

(** The error of a call becomes a value for the caller. *)
Definition catch {T} (m : R T) : R (Error + T) := λ s,
  match m s with
  | (Ok t, s) => (Ok (inr t), s)
  | (Err e, s) => (Ok (inl e), s)
  | (Panic, s) => (Panic, s)
  end.
End slot.

Definition on_print (text : str) : api_tree () :=
  Node (OpConsoleWrite text) (λ _, call (OpConsoleWrite [nl])).
Definition on_debug (text : str) (source : option str) (position : str) : api_tree () :=
  call (OpConsoleWrite ("[debug " ++ default "<script>" source ++ ":" ++ position ++ "] "
                          ++ text ++ [nl])).
Definition on_progress : api_tree bool := call OpCancelled.

Definition progress_answer (r : Error + bool) : option Dynamic :=
  match r with inr true => Some (DString "execution cancelled") | _ => None end.
Definition fn_answer (r : Error + Dynamic) : str + Dynamic :=
  match r with inr d => inr d | inl e => inl (error_to_string e) end.

(** The exit status of a script. *)
Definition script_exit (result : res str Dynamic) : res Error Z :=
  d ← map_err Runtime result;
  match d with
  | DUnit => Ok 0
  | DInt n =>
      if bool_decide (i32_min ≤ n ≤ i32_max) then Ok n
      else Err (Runtime "application must return an integer exit status")
  | _ => Err (Runtime "application must return an integer exit status")
  end.

Section execute.
Context {S : Type} `{SA : !SystemApi S}.
(** [Engine::eval] under the limits. *)
Context (eval : EngineLimits → str → script).
Notation R := (M (RhaiState S) Error).

Definition host_exec {T} (o : host_op T) : R T :=
  match o with
  | OnPrint text => catch (run_host (on_print text));; mret ()
  | OnDebug text source position => catch (run_host (on_debug text source position));; mret ()
  | OnProgress => r ← catch (run_host on_progress); mret (progress_answer r)
  | CallFn f => r ← catch (run_host (host_fn f)); mret (fn_answer r)
  end.

Fixpoint run_script (s : script) : R (res str Dynamic) :=
  match s with
  | ScriptDone Panic => lift Panic
  | ScriptDone r => mret r
  | ScriptCall o k => x ← host_exec o; run_script (k x)
  end.

(** The scope of the guard: it is dropped when the scope ends, by a return as by a
    panic that unwinds. *)
Definition guarded {T} (m : R T) : R T := λ s,
  let '(r, s) := m s in (r, (guard_drop s).2).

Definition execute (source : str) : R Z :=
  guard_install;;
  guarded (
    result ← run_script (eval engine_limits source);
    lift (script_exit result)).
End execute.

(** ** The runtime as a tree of API calls *)
Fixpoint tree_prog {T} (t : api_tree T) (k : Error + T → app_prog) : app_prog :=
  match t with
  | Leaf (Ok x) => k (inr x)
  | Leaf (Err e) => k (inl e)
  | Leaf Panic => AppDone Panic
  | Node o c => AppCall o (λ r, match r with inr x => tree_prog (c x) k | inl e => k (inl e) end)
  end.

Definition host_prog {T} (o : host_op T) : (T → app_prog) → app_prog :=
  match o in host_op T return (T → app_prog) → app_prog with
  | OnPrint text => λ k, tree_prog (on_print text) (λ _, k ())
  | OnDebug text source position => λ k, tree_prog (on_debug text source position) (λ _, k ())
  | OnProgress => λ k, tree_prog on_progress (λ r, k (progress_answer r))
  | CallFn f => λ k, tree_prog (host_fn f) (λ r, k (fn_answer r))
  end.

Fixpoint script_prog (s : script) : app_prog :=
  match s with
  | ScriptDone Panic => AppDone Panic
  | ScriptDone r => AppDone (script_exit r)
  | ScriptCall o k => host_prog o (λ x, script_prog (k x))
  end.

Definition RhaiRuntime (eval : EngineLimits → str → script) : AppRuntime :=
  {| rt_id := "rhai"; rt_extension := "rhai";
     rt_execute source := script_prog (eval engine_limits source) |}.

Section refinement.
Context {S : Type} `{SA : !SystemApi S}.

(** The state behind a populated slot. *)
Definition slotted {A} (x : res Error A * S) : res Error A * RhaiState S := (x.1, mk_rhai true x.2).

Lemma run_host_prog {T} (t : api_tree T) (k : Error + T → app_prog) (f : Error + T → M (RhaiState S) Error Z) s :
  (∀ r s, f r (mk_rhai true s) = slotted (run_prog (k r) s)) →
  (catch (run_host t) ≫= f) (mk_rhai true s) = slotted (run_prog (tree_prog t k) s).
Proof.
  intros Hf. revert s. induction t as [[x|e|]|X o c IH]; intros s; rewrite bind_run; unfold catch.
  - apply Hf.
  - apply Hf.
  - done.
  - cbn [run_host tree_prog run_prog]. rewrite bind_run. unfold with_api. cbn [rs_slot rs_api].
    destruct (api_exec o s) as [[x|e|] s1]; [|apply Hf|done].
    specialize (IH x s1). rewrite bind_run in IH. unfold catch in IH. exact IH.
Qed.

(** A script, then the exit status, as the tree. *)
Lemma run_script_prog sc s :
  (run_script sc ≫= λ r, lift (script_exit r)) (mk_rhai true s) = slotted (run_prog (script_prog sc) s).
Proof.
  revert s. induction sc as [[r|e|]|T o k IH]; intros s; [done..|].
  assert (∀ T' (t : api_tree T') (g : Error + T' → T),
    host_prog o (λ x, script_prog (k x)) = tree_prog t (λ r, script_prog (k (g r))) →
    host_exec (S := S) o = (r ← catch (run_host t); mret (g r)) →
    (run_script (ScriptCall o k) ≫= λ r, lift (script_exit r)) (mk_rhai true s)
    = slotted (run_prog (script_prog (ScriptCall o k)) s)) as Hgo.
  { intros T' t g Hp Hx. cbn [script_prog run_script]. rewrite Hp, Hx.
    rewrite <-(run_host_prog t (λ r, script_prog (k (g r)))
      (λ r, run_script (k (g r)) ≫= λ r, lift (script_exit r))) by (intros; apply IH).
    rewrite !bind_run. destruct (catch (run_host t) (mk_rhai true s)) as [[a|e|] s1]; done. }
  destruct o as [text|text source position| |f].
  - apply (Hgo _ (on_print text) (λ _, ())); [done|]. done.
  - apply (Hgo _ (on_debug text source position) (λ _, ())); done.
  - apply (Hgo _ on_progress progress_answer); done.
  - apply (Hgo _ (host_fn f) fn_answer); done.
Qed.

End refinement.

(** The slot is transparent and never shared: with the slot empty, executing a script
    runs exactly the tree of API calls of the runtime the core registered, on the
    application's own API, with the same result, and leaves the slot empty whatever the
    outcome, a panic included; with the slot in use, execution is refused and nothing is
    touched. *)
Lemma rhai_execute_refines {S} `{SA : !SystemApi S} (eval : EngineLimits → str → script)
    source (s : S) :
  (let '(r, s') := run_prog (rt_execute (RhaiRuntime eval) source) s in
   execute eval source (mk_rhai false s) = (r, mk_rhai false s'))
  ∧ execute eval source (mk_rhai true s)
    = (Err (Runtime "nested Rhai execution is not supported"), mk_rhai true s).
Proof.
  split; [|done]. pose proof (run_script_prog (eval engine_limits source) s) as Hs.
  cbn [rt_execute RhaiRuntime]. destruct (run_prog _ s) as [r s'].
  unfold execute. rewrite bind_run. cbn [guard_install rs_slot rs_api]. unfold slotted in Hs.
  unfold guarded. by rewrite Hs.
Qed.

(** Handles a script was given lead back to the connection. *)
Lemma handle_roundtrip handle n :
  net_handle_to_int handle = Ok n → is_int n ∧ net_handle_from_int n = Ok handle.
Proof.
  unfold net_handle_to_int, net_handle_from_int.
  destruct (try_from i64_max handle) as [m|] eqn:E; [|done]. intros [= <-].
  apply try_from_Some in E as [-> Hm]. unfold is_int, i64_min, i64_max in *.
  rewrite try_from_ok; [|unfold u64_max; lia]. split; [lia|done].
Qed.

(** ** What a script sees *)
Lemma try_from_none m z : ¬ 0 ≤ z ≤ m → try_from m z = None.
Proof. intros. unfold try_from. by rewrite bool_decide_false. Qed.

Section meaning.
Context {P : Type} `{PP : !Platform P} `{RP : !ReliablePlatform P} `{AR : !Argon2}.
Implicit Types s : AppSession P.
Notation fn f s := (host_exec (CallFn f) (mk_rhai true s)).

(** A host function that is one API call. *)
Lemma host_call {X} f (o : api_op X) g s :
  host_fn f = and_then (call o) g →
  fn f s =
    match api_exec o s with
    | (Ok x, s') => match g x with
                    | Ok d => (Ok (inr d), mk_rhai true s')
                    | Err e => (Ok (inl (error_to_string e)), mk_rhai true s')
                    | Panic => (Panic, mk_rhai true s')
                    end
    | (Err e, s') => (Ok (inl (error_to_string e)), mk_rhai true s')
    | (Panic, s') => (Panic, mk_rhai true s')
    end.
Proof.
  intros Hf. cbn [host_exec]. rewrite Hf, bind_run. unfold catch. cbn [call and_then run_host].
  rewrite bind_run. unfold with_api. cbn [rs_slot rs_api].
  destruct (api_exec o s) as [[x|e|] s']; [|done..]. cbn [mbind res_bind].
  unfold lift. by destruct (g x).
Qed.

Lemma host_call_ok {X} f (o : api_op X) g s d st :
  host_fn f = and_then (call o) g → fn f s = (Ok (inr d), st) →
  ∃ x s', api_exec o s = (Ok x, s') ∧ g x = Ok d ∧ st = mk_rhai true s'.
Proof.
  intros Hf. rewrite (host_call f o g s Hf).
  destruct (api_exec o s) as [[x|e|] s']; [|done..]. destruct (g x) eqn:E; [|done..].
  intros [= <- <-]. by exists x, s'.
Qed.

(** Files, whatever the path looks like: what reaches the storage is its normal form. *)
Lemma vfs_write_inv q d (v v' : Vfs P) :
  vfs_write q d v = (Ok (), v') →
  ∃ rel, normalize_path "/" q = Ok ("/" ++ rel) ∧ mount_path rel
    ∧ vfs_write ("/" ++ rel) d v = (Ok (), v').
Proof.
  intros H. assert (∃ rel, normalize_path "/" q = Ok ("/" ++ rel) ∧ mount_path rel)
    as (rel&Hn&Hm).
  { unfold vfs_write in H. apply bind_ok_inv in H as (n&v1&Hn&H).
    apply lift_ok_inv in Hn as [Hn ->]. pose proof (normalize_canonical _ _ _ canonical_root Hn).
    destruct (is_path_prefix "/sys" n); [done|]. apply bind_ok_inv in H as (rel&v1&Hr&_).
    apply lift_ok_inv in Hr as [Hr _]. apply persistent_path_Ok in Hr as [-> ?]; [|done].
    by exists rel. }
  exists rel. split_and!; [done..|]. rewrite <-H. unfold vfs_write.
  by rewrite Hn, mount_normalize.
Qed.

Lemma vfs_read_text_at q rel (v : Vfs P) :
  normalize_path "/" q = Ok ("/" ++ rel) → mount_path rel →
  vfs_read_text q v = vfs_read_text ("/" ++ rel) v.
Proof. intros Hn Hm. unfold vfs_read_text, vfs_read. by rewrite Hn, mount_normalize. Qed.

Lemma ses_vfs_ok {A} (m : M (Vfs P) Error A) s a s' :
  ses_vfs m s = (Ok a, s') →
  ∃ v', m (sys_vfs (ses_system s)) = (Ok a, v')
    ∧ s' = set_system (mk_system v' (sys_security (ses_system s))) s.
Proof.
  intros H. apply zoom_ok_inv in H as (y&H&->). apply zoom_ok_inv in H as (v'&H&->). by exists v'.
Qed.

Lemma ses_write_stored q d s s' :
  plat_ok (into_platform (ses_system s)) → ses_vfs (vfs_write q d) s = (Ok (), s') →
  ∃ rel, normalize_path "/" q = Ok ("/" ++ rel) ∧ mount_path rel
    ∧ plat_ok (into_platform (ses_system s')) ∧ stored (into_platform (ses_system s')) rel = Some d
    ∧ ses_cwd s' = ses_cwd s ∧ ses_app s' = ses_app s ∧ ses_appdata_root s' = ses_appdata_root s.
Proof.
  intros Hok (v'&H&->)%ses_vfs_ok. apply vfs_write_inv in H as (rel&Hn&Hm&H).
  apply vfs_write_stored in H as [??]; [|done..]. by exists rel.
Qed.

Lemma ses_read_stored q rel d s :
  normalize_path "/" q = Ok ("/" ++ rel) → mount_path rel → from_utf8 d = Some d →
  plat_ok (into_platform (ses_system s)) → stored (into_platform (ses_system s)) rel = Some d →
  ses_vfs (vfs_read_text q) s = (Ok d, s).
Proof.
  intros Hn Hm Hu Hok Hst. unfold ses_vfs, on_system, on_sys_vfs, zoom.
  rewrite (vfs_read_text_at q rel), (vfs_read_text_stored rel d) by done.
  by destruct s as [[]].
Qed.

(** A prompt keeps what is stored. *)
Lemma authorize_keeps c resource s r s' :
  plat_ok (into_platform (ses_system s)) → ses_authorize c resource s = (r, s') →
  plat_ok (into_platform (ses_system s'))
  ∧ (∀ rel, stored (into_platform (ses_system s')) rel = stored (into_platform (ses_system s)) rel)
  ∧ ses_cwd s' = ses_cwd s.
Proof.
  intros Hok H. unfold ses_authorize in H. rewrite bind_run in H.
  cbv beta iota delta [gets] in H. unfold on_system, zoom in H.
  set (K := λ p, plat_ok p ∧ ∀ k, stored p k = stored (into_platform (ses_system s)) k).
  assert (∀ A (m : M P Error A), (∀ p r p', plat_ok p → m p = (r, p') →
    plat_ok p' ∧ ∀ k, stored p' k = stored p k) → preserves K m) as Hf.
  { intros A m Hm. apply preserves_files; [by intros p [??]| |done].
    intros p p' [_ Hp] ? Hk. split; [done|]. intros k. by rewrite Hk. }
  assert (preserves (sys_inv K) (authorize (ses_app s) c resource)) as Hp.
  { apply preserves_authorize.
    - intros. apply Hf. eauto using law_console_write.
    - intros. apply Hf. eauto using law_console_read.
    - apply Hf. eauto using law_clock_keeps.
    - apply Hf. eauto using law_exists_keeps, verifier_mount.
    - apply preserves_read_law; [exact verifier_mount|by intros p [??]]. }
  specialize (Hp (ses_system s) (conj Hok (λ k, eq_refl))).
  destruct (authorize _ _ _ _) as [r0 y]. injection H as <- <-.
  destruct Hp as [? Hk]. by split_and!.
Qed.

Lemma resolve_ok path s q s' :
  resolve path s = (Ok q, s') → normalize_path (ses_cwd s) path = Ok q ∧ s' = s.
Proof. intros [? ->]%reads_ok_inv. done. Qed.

Lemma fs_roundtrip path text d s st v st' :
  plat_ok (into_platform (ses_system s)) → from_utf8 text = Some text →
  fn (FnFsWrite path text) s = (Ok (inr d), st) →
  host_exec (CallFn (FnFsRead path)) st = (Ok (inr v), st') → v = DString text.
Proof.
  intros Hok Hu Hw Hr.
  apply (host_call_ok _ (OpWriteText path text) (λ _, Ok DUnit)) in Hw as ([]&s1&Hw&_&->); [|done].
  apply (host_call_ok _ (OpReadText path) (λ t, Ok (DString t))) in Hr as (t&s2&Hr&[= <-]&_); [|done].
  cbn in Hw, Hr. unfold ses_write_text in Hw. unfold ses_read_text in Hr.
  apply bind_ok_inv in Hw as (q&s3&[Hq ->]%resolve_ok&Hw).
  apply bind_ok_inv in Hw as ([]&sa&Ha&Hw).
  apply authorize_keeps in Ha as (Hoka&_&Hcwda); [|done].
  apply ses_write_stored in Hw as (rel&Hn&Hm&Hok1&Hst1&Hcwd1&_); [|done].
  apply bind_ok_inv in Hr as (q'&s3&[Hq' ->]%resolve_ok&Hr).
  rewrite Hcwd1, Hcwda, Hq in Hq'. injection Hq' as <-.
  apply bind_ok_inv in Hr as ([]&sb&Hb&Hr).
  apply authorize_keeps in Hb as (Hokb&Hstb&_); [|done].
  rewrite (ses_read_stored q rel text) in Hr; [by injection Hr as <- _|done..|].
  by rewrite Hstb.
Qed.

Lemma appdata_roundtrip path text d s st :
  plat_ok (into_platform (ses_system s)) → from_utf8 text = Some text →
  fn (AppdataWrite path text) s = (Ok (inr d), st) →
  host_exec (CallFn (AppdataRead path)) st = (Ok (inr (DString text)), st).
Proof.
  intros Hok Hu Hw.
  apply (host_call_ok _ (OpAppdataWrite path text) (λ _, Ok DUnit)) in Hw as ([]&s1&Hw&_&->); [|done].
  rewrite (host_call _ (OpAppdataRead path) (λ t, Ok (DString t))) by done.
  cbn in Hw |- *. unfold ses_appdata_write in Hw. unfold ses_appdata_read.
  apply bind_ok_inv in Hw as (q&s3&Hq&Hw). unfold resolve_appdata in Hq.
  apply reads_ok_inv in Hq as [Hq ->].
  apply bind_ok_inv in Hw as (root&s3&[-> ->]%gets_ok_inv&Hw).
  apply bind_ok_inv in Hw as ([]&sc&Hc&Hw).
  assert (plat_ok (into_platform (ses_system sc)) ∧ ses_appdata_root sc = ses_appdata_root s)
    as [Hokc Hrootc].
  { apply ses_vfs_ok in Hc as (v'&Hc&->). split; [|done].
    eapply (preserves_run (on_plat plat_ok)); [|exact Hok|exact Hc].
    apply preserves_vfs_create_at. intros rel _ Hm. apply keeps_ok. eauto using law_create. }
  apply ses_write_stored in Hw as (rel&Hn&Hm&Hok1&Hst1&_&_&Hroot1); [|done].
  rewrite bind_run. unfold resolve_appdata, reads. rewrite Hroot1, Hrootc, Hq.
  by rewrite (ses_read_stored q rel text).
Qed.

(** A connection a script opened. *)
Lemma connect_ok host port d s st :
  fn (FnNetConnect host port) s = (Ok (inr d), st) →
  0 ≤ port ≤ u16_max ∧ ∃ n s', d = DInt n ∧ 0 ≤ n ≤ i64_max ∧ st = mk_rhai true s'
    ∧ n ∈ ses_sockets s'.
Proof.
  intros H. destruct (try_from u16_max port) as [port'|] eqn:Ep.
  2: { cbn [host_exec] in H. rewrite bind_run in H. unfold catch in H. cbn [host_fn] in H.
       by rewrite Ep in H. }
  pose proof Ep as [-> Hport]%try_from_Some.
  apply (host_call_ok _ (OpNetConnect host port) (λ h, DInt <$> net_handle_to_int h))
    in H as (h&s'&H&Hd&->); [|cbn [host_fn]; by rewrite Ep].
  split; [done|]. unfold net_handle_to_int in Hd.
  destruct (try_from i64_max h) as [n|] eqn:En; [|done]. apply try_from_Some in En as [-> Hn].
  injection Hd as <-. exists h, s'. split_and!; [done|lia|lia|done|].
  cbn in H. unfold ses_net_connect in H. case_bool_decide; [done|].
  apply bind_ok_inv in H as ([]&s1&_&H). apply bind_ok_inv in H as (h'&s2&_&H).
  apply bind_ok_inv in H as ([]&s3&->%modify_ok_inv&H). apply mret_ok_inv in H as [-> ->].
  simpl. apply elem_of_app. right. by left.
Qed.

Lemma handle_in_range n : 0 ≤ n ≤ i64_max → net_handle_from_int n = Ok n.
Proof.
  intros. unfold net_handle_from_int. rewrite try_from_ok; [done|].
  unfold u64_max, i64_max in *. lia.
Qed.

Lemma send_call n text s :
  0 ≤ n ≤ i64_max →
  fn (FnNetSend n text) s =
    match api_exec (OpNetSend n text) s with
    | (Ok x, s') => match i64_or "byte count exceeds Rhai integer" x with
                    | Ok d => (Ok (inr d), mk_rhai true s')
                    | Err e => (Ok (inl (error_to_string e)), mk_rhai true s')
                    | Panic => (Panic, mk_rhai true s')
                    end
    | (Err e, s') => (Ok (inl (error_to_string e)), mk_rhai true s')
    | (Panic, s') => (Panic, mk_rhai true s')
    end.
Proof. intros Hn. apply host_call. cbn [host_fn]. by rewrite handle_in_range. Qed.

Lemma send_forwards n text s k p' :
  0 ≤ n ≤ i64_max → n ∈ ses_sockets s →
  net_send n text (into_platform (ses_system s)) = (Ok k, p') → 0 ≤ k ≤ i64_max →
  fn (FnNetSend n text) s
  = (Ok (inr (DInt k)), mk_rhai true (set_system (set_platform p' (ses_system s)) s)).
Proof.
  intros Hn Hin Hs Hk. rewrite send_call by done. cbn. unfold ses_net_send, owned_socket.
  rewrite bind_run. unfold reads. rewrite bool_decide_true by done.
  unfold ses_platform, on_system, zoom. rewrite (on_platform_run _ _ _ _ Hs).
  unfold i64_or. by rewrite try_from_ok by lia.
Qed.

Lemma closed_refused n text s d st :
  0 ≤ n ≤ i64_max → fn (FnNetClose n) s = (Ok (inr d), st) →
  host_exec (CallFn (FnNetSend n text)) st
  = (Ok (inl (error_to_string (NotFound ("network connection " ++ dec n)))), st).
Proof.
  intros Hn H.
  apply (host_call_ok _ (OpNetClose n) (λ _, Ok DUnit)) in H as ([]&s'&H&_&->);
    [|cbn [host_fn]; by rewrite handle_in_range].
  cbn in H. unfold ses_net_close in H. apply bind_ok_inv in H as ([]&s1&_&H).
  apply bind_ok_inv in H as ([]&s2&->%modify_ok_inv&H).
  apply zoom_ok_inv in H as (y&_&->). rewrite send_call by done. cbn.
  unfold ses_net_send, owned_socket. rewrite bind_run. unfold reads. simpl.
  rewrite bool_decide_false; [done|]. intros [? _]%list_elem_of_filter. done.
Qed.

(** A call's answer to the script: [view] of its value, or the text of its error. *)
Definition answered {X} (view : X → Dynamic) (run : res Error X * AppSession P) :
    res Error (str + Dynamic) * RhaiState (AppSession P) :=
  (match run.1 with
   | Ok x => Ok (inr (view x))
   | Err e => Ok (inl (error_to_string e))
   | Panic => Panic
   end, mk_rhai true run.2).

(** The functions and hooks that pass on one call of the session, with their arguments in
    their order and the value as the script sees it. *)
Record passes_on s : Prop := {
  on_print_raw text :
    fn (PrintRaw text) s = answered (λ _, DUnit) (ses_platform (console_write text) s);
  on_read_line prompt :
    fn (ReadLine prompt) s = answered DString (ses_platform (console_read_line prompt false) s);
  on_args : fn Args s = (Ok (inr (DArray (DString <$> ses_args s))), mk_rhai true s);
  on_cwd : fn Cwd s = (Ok (inr (DString (ses_cwd s))), mk_rhai true s);
  on_list path :
    fn (FnFsList path) s
    = answered (λ es, DArray ((λ e, DString (se_name e ++ if se_is_dir e then "/" else "")) <$> es))
        (ses_list path s);
  on_mkdir path : fn (FnFsMkdir path) s = answered (λ _, DUnit) (ses_create_dir_all path s);
  on_remove path : fn (FnFsRemove path) s = answered (λ _, DUnit) (ses_remove path s);
  on_rename from to : fn (FnFsRename from to) s = answered (λ _, DUnit) (ses_rename from to s);
  on_connect host port n s' :
    0 ≤ port ≤ 65535 → ses_net_connect host port s = (Ok n, s') → 0 ≤ n ≤ i64_max →
    fn (FnNetConnect host port) s = (Ok (inr (DInt n)), mk_rhai true s');
  on_close n :
    0 ≤ n ≤ i64_max → fn (FnNetClose n) s = answered (λ _, DUnit) (ses_net_close n s);
  on_recv n max :
    0 ≤ n ≤ i64_max → 0 ≤ max ≤ i64_max →
    fn (FnNetRecv n max) s = answered (λ d, DString (from_utf8_lossy d)) (ses_net_recv n max s);
  on_millis t s' :
    ses_monotonic_millis s = (Ok t, s') → 0 ≤ t ≤ i64_max →
    fn MonotonicMillis s = (Ok (inr (DInt t)), mk_rhai true s');
  on_info :
    fn FnSystemInfo s
    = answered (λ i, DMap [("name" : str, DString (si_name i)); ("version" : str, DString (si_version i));
                           ("platform" : str, DString (si_platform i));
                           ("architecture" : str, DString (si_architecture i))])
        (ses_system_info s);
  on_status :
    fn FnNetStatus s
    = answered (λ n, DMap [("link_up" : str, DBool (ns_link_up n)); ("mac" : str, DString (ns_mac n));
                           ("address" : str, from_option DString DUnit (ns_address n));
                           ("gateway" : str, from_option DString DUnit (ns_gateway n))])
        (ses_net_status s);
  on_cancel :
    let p := into_platform (ses_system s) in
    host_exec OnProgress (mk_rhai true s)
    = (Ok (if (poll_cancel p).1 then Some (DString "execution cancelled") else None),
       mk_rhai true (set_system (set_platform (poll_cancel p).2 (ses_system s)) s)) }.

Lemma host_answered {X} f (o : api_op X) g view s :
  host_fn f = and_then (call o) g → (∀ x, g x = Ok (view x)) →
  fn f s = answered view (api_exec o s).
Proof.
  intros Hf Hg. rewrite (host_call f o g s Hf). unfold answered.
  destruct (api_exec o s) as [[x|e|] s']; [|done..]. by rewrite Hg.
Qed.

Lemma host_passes_on s : passes_on s.
Proof.
  split; intros.
  - by apply (host_answered _ (OpConsoleWrite text) (λ _, Ok DUnit)).
  - by apply (host_answered _ (OpConsoleReadLine prompt) (λ t, Ok (DString t))).
  - by rewrite (host_call _ OpArgs (λ l, Ok (DArray (DString <$> l)))) by done.
  - by rewrite (host_call _ OpCwd (λ c, Ok (DString c))) by done.
  - apply (host_answered _ (OpList path) (λ l, Ok (DArray (entry_name <$> l)))); [done|].
    intros es. do 2 f_equal. apply list_fmap_ext. intros _ e _. unfold entry_name.
    destruct (se_is_dir e); [done|]. by rewrite app_nil_r.
  - by apply (host_answered _ (OpCreateDirAll path) (λ _, Ok DUnit)).
  - by apply (host_answered _ (OpRemove path) (λ _, Ok DUnit)).
  - by apply (host_answered _ (OpRename from to) (λ _, Ok DUnit)).
  - rewrite (host_call _ (OpNetConnect host port) (λ h, DInt <$> net_handle_to_int h))
      by (cbn [host_fn]; by rewrite try_from_ok).
    cbn [api_exec api_net_connect AppSession_SystemApi]. rewrite H0. unfold net_handle_to_int.
    by rewrite try_from_ok.
  - apply (host_answered _ (OpNetClose n) (λ _, Ok DUnit)); [|done].
    cbn [host_fn]. by rewrite handle_in_range.
  - apply (host_answered _ (OpNetRecv n max) (λ d, Ok (DString (from_utf8_lossy d)))); [|done].
    cbn [host_fn]. rewrite handle_in_range by done.
    rewrite try_from_ok; [done|]. unfold usize_max, u64_max, i64_max in *. lia.
  - rewrite (host_call _ OpMonotonicMillis (i64_or "clock value exceeds Rhai integer")) by done.
    cbn [api_exec api_monotonic_millis AppSession_SystemApi]. rewrite H. unfold i64_or.
    by rewrite try_from_ok.
  - by apply (host_answered _ OpSystemInfo (λ i, Ok (info_map i))).
  - by apply (host_answered _ OpNetStatus (λ n, Ok (status_map n))).
  - destruct (poll_cancel p) as [b p'] eqn:E.
    assert (cancel_call p = (Ok b, p')) as Hc by (unfold cancel_call; by rewrite E).
    cbn [host_exec]. rewrite bind_run. unfold catch, on_progress, call. cbn [run_host].
    rewrite bind_run. unfold with_api. cbn [rs_slot rs_api api_exec api_cancelled AppSession_SystemApi].
    unfold ses_platform, on_system, zoom. rewrite (on_platform_run _ _ _ _ Hc). by destruct b.
Qed.

(** C32. What a script sees, in its own session and on a reliable platform.  Files: what
    [fs_write] wrote, [fs_read] returns, whatever prompts the two calls take;
    application data: what [appdata_write] wrote, [appdata_read] returns, without a
    prompt.  Connections: [net_connect] takes only ports and returns a handle that the
    session owns, [net_send] with it sends the text on that connection and returns the
    platform's count, and once [net_close] has closed it [net_send] is refused.  A port,
    handle or length out of range is refused before any API call.  Every other function, and
    connecting and closing too, passes on the session's call of its name with its arguments
    and gives the script its value or the text of its error ([passes_on]); the progress hook
    stops the script exactly when the platform reports a cancellation.  The slot: an
    execution leaves it empty whatever the outcome, a panic included, and one started while
    it is in use is refused. *)
Theorem rhai_host_functions eval s :
  plat_ok (into_platform (ses_system s)) →
  (∀ path text d st v st', from_utf8 text = Some text →
     fn (FnFsWrite path text) s = (Ok (inr d), st) →
     host_exec (CallFn (FnFsRead path)) st = (Ok (inr v), st') → v = DString text)
  ∧ (∀ path text d st, from_utf8 text = Some text →
     fn (AppdataWrite path text) s = (Ok (inr d), st) →
     host_exec (CallFn (AppdataRead path)) st = (Ok (inr (DString text)), st))
  ∧ (∀ host port d st, fn (FnNetConnect host port) s = (Ok (inr d), st) →
     0 ≤ port ≤ 65535 ∧ ∃ n s', d = DInt n ∧ st = mk_rhai true s'
       ∧ (∀ text k p', net_send n text (into_platform (ses_system s')) = (Ok k, p') →
            0 ≤ k ≤ i64_max →
            fn (FnNetSend n text) s'
            = (Ok (inr (DInt k)), mk_rhai true (set_system (set_platform p' (ses_system s')) s')))
       ∧ (∀ text d' st', fn (FnNetClose n) s' = (Ok (inr d'), st') →
            host_exec (CallFn (FnNetSend n text)) st'
            = (Ok (inl (error_to_string (NotFound ("network connection " ++ dec n)))), st')))
  ∧ (∀ host port, ¬ 0 ≤ port ≤ 65535 →
     fn (FnNetConnect host port) s
     = (Ok (inl (error_to_string (InvalidInput "port is out of range"))), mk_rhai true s))
  ∧ (∀ n text max, n < 0 →
     let refused := (Ok (inl (error_to_string (InvalidInput "invalid connection handle"))),
                     mk_rhai true s) in
     fn (FnNetSend n text) s = refused ∧ fn (FnNetRecv n max) s = refused
     ∧ fn (FnNetClose n) s = refused)
  ∧ (∀ n max, 0 ≤ n ≤ i64_max → max < 0 →
     fn (FnNetRecv n max) s
     = (Ok (inl (error_to_string (InvalidInput "invalid receive length"))), mk_rhai true s))
  ∧ passes_on s
  ∧ ∀ source, rs_slot (execute eval source (mk_rhai false s)).2 = false
      ∧ execute eval source (mk_rhai true s)
        = (Err (Runtime "nested Rhai execution is not supported"), mk_rhai true s).
Proof.
  intros Hok. split_and!.
  - intros. by eapply fs_roundtrip.
  - intros. by eapply appdata_roundtrip.
  - intros host port d st H. apply connect_ok in H as (?&n&s'&->&Hn&->&Hin).
    split; [done|]. exists n, s'. split_and!; [done..| |].
    + intros. by apply send_forwards.
    + intros. by eapply closed_refused.
  - intros host port Hp. cbn [host_exec]. rewrite bind_run. unfold catch. cbn [host_fn].
    by rewrite try_from_none.
  - intros n text max Hn refused. split_and!; cbn [host_exec]; rewrite bind_run; unfold catch;
      cbn [host_fn]; unfold net_handle_from_int; by rewrite try_from_none by lia.
  - intros n max Hn Hm. cbn [host_exec]. rewrite bind_run. unfold catch. cbn [host_fn].
    rewrite handle_in_range by done. by rewrite try_from_none by lia.
  - apply host_passes_on.
  - intros source. destruct (rhai_execute_refines eval source s) as [He Hnest].
    split; [|done]. destruct (run_prog _ s). by rewrite He.
Qed.
End meaning.

(** ** A concrete run *)
#[local] Existing Instance example_argon2.

(** A script that panics. *)
Definition example_eval (_ : EngineLimits) (_ : str) : script := ScriptDone Panic.

Lemma rhai_host_functions_witness :
  let s := session_new (example_system []) (example_app [Network "h"]) [] "/user" in
  let w := host_exec (CallFn (AppdataWrite "log" "hello")) (mk_rhai true s) in
  w.1 = Ok (inr DUnit) ∧
  host_exec (CallFn (AppdataRead "log")) w.2 = (Ok (inr (DString "hello")), w.2).
Proof.
  intros s w.
  destruct (rhai_host_functions (P := MockPlatform) example_eval s) as (_&Happ&_);
    [apply (example_system_stored [])|].
  assert (w.1 = Ok (inr DUnit)) as Hw by by_vm. split; [exact Hw|].
  apply (Happ "log" "hello" DUnit w.2); [by_vm|]. rewrite <-Hw. apply surjective_pairing.
Defined.
