(* ===== verification/Host.v ===== *)
(** * The host the desktop program runs on

    What [platforms/desktop] uses of the Rust standard library on a Unix host: [std::path]
    (components, join, parent, prefixes), and [std::fs] over a file system with symbolic
    links, which is written out as a map from locations to nodes with the resolution of
    paths by the kernel.  What the host decides (a system call that fails for a reason of its
    own, the console, the clock, the network) and the third-party crates are the class
    [HostEnv].  The lemmas say what a resolved path is, and that every call keeps the file
    system well formed. *)
From S2P Require Import Prelude RustStr Vfs.

(** ** [std::path] on Unix *)
Inductive Component : Type :=
| RootDir
| CurDir
| ParentDir
| Normal (name : str).

#[export] Instance Component_eq_dec : EqDecision Component.
Proof. solve_decision. Defined.

#[export] Instance Normal_inj : Inj (=) (=) Normal.
Proof. by intros x y [=]. Qed.

Definition is_absolute (p : str) : bool := starts_with "/" p.

Definition component_of (c : str) : Component :=
  if bool_decide (c = "..") then ParentDir else Normal c.

(** [Path::components]: repeated separators and [.] are skipped, but for a [.] that begins
    a relative path. *)
Definition path_components (p : str) : list Component :=
  let parts := pieces p in
  let proper := component_of <$> filter (λ c, c ≠ ".") parts in
  if is_absolute p then RootDir :: proper
  else if bool_decide (head parts = Some ".") then CurDir :: proper
  else proper.

Definition component_name (c : Component) : str :=
  match c with RootDir => "" | CurDir => "." | ParentDir => ".." | Normal name => name end.

(** The path of a list of components. *)
Definition path_from (cs : list Component) : str :=
  match cs with
  | RootDir :: cs => "/" ++ join "/" (component_name <$> cs)
  | _ => join "/" (component_name <$> cs)
  end.

(** [Path::parent]. *)
Definition path_parent (p : str) : option str :=
  let cs := path_components p in
  match last cs with
  | None | Some RootDir => None
  | Some _ => Some (path_from (removelast cs))
  end.

(** [Path::join]. *)
Definition path_join (base p : str) : str :=
  if is_absolute p then p
  else if bool_decide (base = "") || ends_with_char slash base then base ++ p
  else base ++ "/" ++ p.

Definition path_starts_with (p base : str) : bool :=
  bool_decide (path_components base `prefix_of` path_components p).

(** [Path::strip_prefix]. *)
Definition path_strip_prefix (p base : str) : option str :=
  if path_starts_with p base
  then Some (path_from (drop (length (path_components base)) (path_components p)))
  else None.

(** ** Errors of the host *)
Inductive ErrorKind : Type :=
| KNotFound
| KAlreadyExists
| KPermissionDenied
| KOther.

#[export] Instance ErrorKind_eq_dec : EqDecision ErrorKind.
Proof. solve_decision. Defined.

Record IoError := mk_io_error { io_kind : ErrorKind; io_text : str }.

Definition io_not_found : IoError :=
  mk_io_error KNotFound "No such file or directory (os error 2)".
Definition io_busy : IoError := mk_io_error KOther "Device or resource busy (os error 16)".
Definition io_exists : IoError := mk_io_error KAlreadyExists "File exists (os error 17)".
Definition io_not_directory : IoError := mk_io_error KOther "Not a directory (os error 20)".
Definition io_is_directory : IoError := mk_io_error KOther "Is a directory (os error 21)".
Definition io_invalid : IoError := mk_io_error KOther "Invalid argument (os error 22)".
Definition io_not_empty : IoError := mk_io_error KOther "Directory not empty (os error 39)".
Definition io_loop : IoError :=
  mk_io_error KOther "Too many levels of symbolic links (os error 40)".
Definition io_nul : IoError :=
  mk_io_error KOther "file name contained an unexpected NUL byte".
Definition io_whole_tree : IoError := mk_io_error KOther "failed to create whole tree".

(** ** The file system

    A location is the list of the names that lead to it from the root directory. *)
Notation location := (list str).

Inductive Inode : Type :=
| IFile (data : list byte)
| IDir
| ILink (target : str).

#[export] Instance Inode_eq_dec : EqDecision Inode.
Proof. solve_decision. Defined.

Notation FileSystem := (gmap location Inode).

(** The names the kernel walks through; a path that ends in a separator ends in a
    directory. *)
Definition path_parts (p : str) : list str :=
  pieces p ++ (if ends_with_char slash p then ["."] else []).

(** The kernel gives up after this many symbolic links. *)
Definition MAX_LINKS : nat := 40.

(** Path resolution.  [follow]: a link at the end is followed; [create]: the last name may
    be missing. *)
Fixpoint resolve_links (fs : FileSystem) (follow create : bool) (links : nat) :
    location → list str → res IoError location :=
  fix go cwd todo :=
    match todo with
    | [] => Ok cwd
    | name :: rest =>
        if bool_decide (name = ".") then go cwd rest
        else if bool_decide (name = "..") then go (removelast cwd) rest
        else match fs !! (cwd ++ [name]) with
        | None =>
            if create && bool_decide (rest = []) then Ok (cwd ++ [name]) else Err io_not_found
        | Some IDir => go (cwd ++ [name]) rest
        | Some (IFile _) =>
            if bool_decide (rest = []) then Ok (cwd ++ [name]) else Err io_not_directory
        | Some (ILink target) =>
            if negb follow && bool_decide (rest = []) then Ok (cwd ++ [name])
            else match links with
            | O => Err io_loop
            | S links =>
                resolve_links fs follow create links
                  (if is_absolute target then [] else cwd) (path_parts target ++ rest)
            end
        end
    end.

(** The names in a directory, in the order of the map. *)
Definition child_name (dir k : location) : option str :=
  match last k with
  | Some name => if bool_decide (k = dir ++ [name]) then Some name else None
  | None => None
  end.
Definition children (dir : location) (fs : FileSystem) : list str :=
  omap (λ kn, child_name dir kn.1) (map_to_list fs).

(** A node and everything below it, moved. *)
Definition rebase (from to k : location) : location := to ++ drop (length from) k.
Definition move_tree (from to : location) (fs : FileSystem) : FileSystem :=
  list_to_map ((λ kn, (rebase from to kn.1, kn.2)) <$>
                 map_to_list (filter (λ kn, from `prefix_of` kn.1) fs))
  ∪ filter (λ kn, ¬ from `prefix_of` kn.1) fs.

(** ** What the host decides *)
Inductive SystemCall : Type :=
| SysRealpath
| SysStat
| SysLstat
| SysMkdir
| SysOpen
| SysReaddir
| SysUnlink
| SysRmdir
| SysRename
| SysTruncate
| SysDup.

(** The first field is the reason for which a system call fails, if it does, beside the
    reasons that lie in the file system; a write to a file may fail after some of the bytes.  [print!] panics when the output is gone
    ([false]).  [prompt_password] is the [rpassword] crate, [getrandom_fill] the [getrandom]
    crate; the last three fields are [std::net::TcpStream];
    [dir_len] is the size the host reports for a directory. *)
Class HostEnv (E Stream : Type) : Type := {
  host_fault : SystemCall → E → option IoError * E;
  host_write_fault : list byte → E → option (nat * IoError) * E;
  dir_len : str → Z;
  target_os : str;
  target_arch : str;
  print : str → E → bool * E;
  stdout_flush : M E IoError ();
  stdin_read_line : M E IoError str;
  prompt_password : str → M E IoError str;
  getrandom_fill : list byte → M E str (list byte);
  instant_now : E → Z * E;
  tcp_connect : str → Z → M E IoError Stream;
  tcp_write : Stream → list byte → M E IoError (Z * Stream);
  tcp_read : Stream → list byte → M E IoError (Z * list byte * Stream) }.

Record Host (E : Type) := mk_host { h_fs : FileSystem; h_cwd : location; h_env : E }.
Arguments mk_host {E}.
Arguments h_fs {E}.
Arguments h_cwd {E}.
Arguments h_env {E}.

(** ** [std::fs] *)
Section fs.
Context {E Stream : Type} `{HE : !HostEnv E Stream}.
Implicit Types h : Host E.
Notation HostM := (M (Host E) IoError).

Definition set_fs (fs : FileSystem) h : Host E := mk_host fs (h_cwd h) (h_env h).
Definition set_env (e : E) h : Host E := mk_host (h_fs h) (h_cwd h) e.
Definition on_env {X A} (m : M E X A) : M (Host E) X A := zoom h_env set_env m.

Definition lookup_parts (follow create : bool) (parts : list str) (p : str) h :
    res IoError location :=
  if contains nul p then Err io_nul
  else if bool_decide (p = "") then Err io_not_found
  else if is_absolute p then resolve_links (h_fs h) follow create MAX_LINKS [] parts
  else match h_fs h !! h_cwd h with
  | Some IDir => resolve_links (h_fs h) follow create MAX_LINKS (h_cwd h) parts
  | _ => Err io_not_found
  end.

Definition lookup_path (follow create : bool) (p : str) h : res IoError location :=
  lookup_parts follow create (path_parts p) p h.

(** A system call that the host may refuse. *)
Definition syscall {A} (call : SystemCall) (m : HostM A) : HostM A := λ h,
  let '(fault, e) := host_fault call (h_env h) in
  let h := set_env e h in
  match fault with Some error => (Err error, h) | None => m h end.

Definition node_at (q : location) h : option Inode := h_fs h !! q.

Definition canonicalize (p : str) : HostM str :=
  syscall SysRealpath (reads (λ h, path_of <$> lookup_path true false p h)).

(** [fs::metadata] and [fs::symlink_metadata]: the node. *)
Definition stat (follow : bool) (p : str) : HostM Inode :=
  syscall (if follow then SysStat else SysLstat)
    (q ← reads (lookup_path follow false p);
     reads (λ h, ok_or io_not_found (node_at q h))).

(** [Path::is_dir]: an error is a no. *)
Definition path_is_dir (p : str) : HostM bool := λ h,
  let '(r, h) := stat true p h in
  (Ok match r with Ok IDir => true | _ => false end, h).

Definition mkdir (p : str) : HostM () :=
  syscall SysMkdir
    (q ← reads (lookup_parts false true (pieces p) p);
     node ← gets (node_at q);
     match node with
     | Some _ => throw io_exists
     | None => modify (λ h, set_fs (<[q := IDir]> (h_fs h)) h)
     end).

(** A directory that is there already is as good as a new one. *)
Definition dir_anyway (p : str) (error : IoError) : HostM () :=
  there ← path_is_dir p;
  if there : bool then mret () else throw error.
Definition mkdir_or (p : str) (retry : IoError → HostM ()) : HostM () := λ h,
  match mkdir p h with (Err error, h) => retry error h | r => r end.

(** [fs::create_dir_all]; [depth] is the number of components. *)
Fixpoint create_dirs (depth : nat) (p : str) : HostM () :=
  if bool_decide (p = "") then mret ()
  else mkdir_or p (λ error,
    if negb (bool_decide (io_kind error = KNotFound)) then dir_anyway p error
    else match depth, path_parent p with
    | S depth, Some parent => create_dirs depth parent;; mkdir_or p (dir_anyway p)
    | _, _ => throw io_whole_tree
    end).
Definition create_dir_all (p : str) : HostM () :=
  create_dirs (length (path_components p)) p.

Definition fs_read (p : str) : HostM (list byte) :=
  syscall SysOpen
    (q ← reads (lookup_path true false p);
     reads (λ h, match node_at q h with
                 | Some (IFile data) => Ok data
                 | Some _ => Err io_is_directory
                 | None => Err io_not_found
                 end)).

(** [fs::write]: the file is opened and truncated, then written. *)
Definition fs_open (p : str) : HostM location :=
  syscall SysOpen
    (q ← reads (lookup_path true true p);
     node ← gets (node_at q);
     match node with
     | Some IDir => throw io_is_directory
     | _ => modify (λ h, set_fs (<[q := IFile []]> (h_fs h)) h);; mret q
     end).
Definition fs_write_all (q : location) (data : list byte) : HostM () := λ h,
  let '(fault, e) := host_write_fault data (h_env h) in
  let h := set_env e h in
  match fault with
  | Some (count, error) =>
      (Err error, set_fs (<[q := IFile (take count data)]> (h_fs h)) h)
  | None => (Ok (), set_fs (<[q := IFile data]> (h_fs h)) h)
  end.
Definition fs_write (p : str) (data : list byte) : HostM () :=
  q ← fs_open p; fs_write_all q data.

(** [fs::read_dir]: the directory and the names in it. *)
Definition read_dir (p : str) : HostM (list str) :=
  syscall SysReaddir
    (q ← reads (lookup_path true false p);
     reads (λ h, match node_at q h with
                 | Some IDir => Ok (children q (h_fs h))
                 | _ => Err io_not_directory
                 end)).

Definition unlink (q : location) : HostM () :=
  syscall SysUnlink
    (node ← gets (node_at q);
     match node with
     | None => throw io_not_found
     | Some IDir => throw io_is_directory
     | Some _ => modify (λ h, set_fs (delete q (h_fs h)) h)
     end).
Definition rmdir (q : location) : HostM () :=
  syscall SysRmdir
    (names ← gets (λ h, children q (h_fs h));
     if bool_decide (q = []) then throw io_busy
     else if bool_decide (names = []) then modify (λ h, set_fs (delete q (h_fs h)) h)
     else throw io_not_empty).

Definition remove_file (p : str) : HostM () :=
  q ← reads (lookup_path false false p); unlink q.

(** [fs::remove_dir_all]: the entries of a directory and then the directory, without
    following links. *)
Definition remove_entry (subtree : location → HostM ()) (q : location) : HostM () :=
  node ← gets (node_at q);
  match node with Some IDir => subtree q | _ => unlink q end.
Fixpoint remove_tree (depth : nat) (q : location) : HostM () :=
  match depth with
  | O => hang
  | S depth =>
      names ← syscall SysReaddir (gets (λ h, children q (h_fs h)));
      for_each (λ name, remove_entry (remove_tree depth) (q ++ [name])) names;;
      rmdir q
  end.
Definition fs_depth (fs : FileSystem) : nat := max_list (length <$> (map_to_list fs).*1).
Definition remove_dir_all (p : str) : HostM () :=
  q ← syscall SysLstat (reads (lookup_path false false p));
  node ← gets (node_at q);
  match node with
  | Some IDir => depth ← gets (λ h, fs_depth (h_fs h)); remove_tree (S depth) q
  | _ => unlink q
  end.

Definition rename (from to : str) : HostM () :=
  syscall SysRename
    (f ← reads (lookup_path false false from);
     t ← reads (lookup_parts false true (pieces to) to);
     source ← gets (node_at f);
     target ← gets (node_at t);
     names ← gets (λ h, children t (h_fs h));
     let move := modify (λ h, set_fs (move_tree f t (h_fs h)) h) in
     if bool_decide (f = t) then mret ()
     else if bool_decide (f `prefix_of` t) then throw io_invalid
     else match source, target with
     | None, _ => throw io_not_found
     | Some IDir, Some IDir => if bool_decide (names = []) then move else throw io_not_empty
     | Some IDir, Some _ => throw io_not_directory
     | Some _, Some IDir => throw io_is_directory
     | Some _, _ => move
     end).
End fs.

(** ** Well-formed file systems *)
Definition host_name (c : str) : Prop :=
  c ≠ "" ∧ c ≠ "." ∧ c ≠ ".." ∧ slash ∉ c ∧ nul ∉ c.

(** The root is a directory, every node is in a directory, and links hold no NUL. *)
Record fs_wf (fs : FileSystem) : Prop := {
  wf_root : fs !! [] = Some IDir;
  wf_parent k c n : fs !! (k ++ [c]) = Some n → fs !! k = Some IDir ∧ host_name c;
  wf_link k t : fs !! k = Some (ILink t) → nul ∉ t }.

(** The same, as a check of every node. *)
Definition node_ok (fs : FileSystem) (k : location) (n : Inode) : Prop :=
  match last k with
  | Some c => fs !! removelast k = Some IDir ∧ host_name c
  | None => True
  end
  ∧ match n with ILink t => nul ∉ t | _ => True end.

Lemma fs_wf_alt fs : fs_wf fs ↔ fs !! [] = Some IDir ∧ map_Forall (node_ok fs) fs.
Proof.
  split.
  - intros [Hr Hp Hl]. split; [done|]. intros k n Hk. split.
    + destruct k as [|c k _] using rev_ind; [done|]. rewrite last_snoc, removelast_last. by eapply Hp.
    + destruct n; [done|done|]. by eapply Hl.
  - intros [Hr Hn]. split; [done|..].
    + intros k c n Hk. destruct (Hn _ _ Hk) as [H _]. by rewrite last_snoc, removelast_last in H.
    + intros k t Hk. by destruct (Hn _ _ Hk) as [_ H].
Qed.
#[export] Instance host_name_dec c : Decision (host_name c).
Proof. unfold host_name. apply _. Defined.
#[export] Instance node_ok_dec fs k n : Decision (node_ok fs k n).
Proof. unfold node_ok. destruct (last k), n; apply _. Defined.
#[export] Instance fs_wf_dec fs : Decision (fs_wf fs).
Proof.
  refine (cast_if (decide (fs !! [] = Some IDir ∧ map_Forall (node_ok fs) fs)));
    by rewrite fs_wf_alt.
Defined.

Lemma wf_above fs k l n :
  fs_wf fs → fs !! (k ++ l) = Some n → l ≠ [] → fs !! k = Some IDir.
Proof.
  intros Hwf. revert n. induction l as [|c l IH] using rev_ind; [done|]. intros n Hn _.
  rewrite app_assoc in Hn. apply (wf_parent _ Hwf) in Hn as [Hd _].
  destruct l as [|c' l]; [by rewrite app_nil_r in Hd|]. by eapply IH.
Qed.

Lemma wf_names fs k n : fs_wf fs → fs !! k = Some n → Forall host_name k.
Proof.
  intros Hwf. revert n. induction k as [|c k IH] using rev_ind; intros n Hn; [done|].
  apply (wf_parent _ Hwf) in Hn as [Hd Hc]. apply Forall_app. eauto.
Qed.

Lemma wf_removelast fs k :
  fs_wf fs → fs !! k = Some IDir → fs !! removelast k = Some IDir.
Proof.
  intros Hwf Hk. destruct k as [|c k _] using rev_ind; [done|].
  rewrite removelast_last. by apply (wf_parent _ Hwf) in Hk as [? _].
Qed.

(** A new node goes into a directory. *)
Lemma wf_insert fs d c n :
  fs_wf fs → fs !! d = Some IDir → host_name c →
  (∀ t, n = ILink t → nul ∉ t) →
  (n ≠ IDir → fs !! (d ++ [c]) ≠ Some IDir) →
  fs_wf (<[d ++ [c] := n]> fs).
Proof.
  intros Hwf Hd Hc Ht Hn. split.
  - rewrite lookup_insert_ne by (by destruct d). by apply wf_root.
  - intros k c' n' [[[-> ->]%app_inj_tail <-]|[Hne Hk]]%lookup_insert_Some.
    + split; [|done]. rewrite lookup_insert_ne; [done|]. intros Heq.
      apply (f_equal length) in Heq. rewrite length_app in Heq. simpl in Heq. lia.
    + destruct (wf_parent _ Hwf _ _ _ Hk) as [Hk' ?]. split; [|done].
      destruct (decide (d ++ [c] = k)) as [<-|]; [|by rewrite lookup_insert_ne].
      rewrite lookup_insert_eq. destruct (decide (n = IDir)) as [->|]; [done|].
      by destruct (Hn ltac:(done)).
  - intros k t [[<- ->]|[_ Hk]]%lookup_insert_Some; [by apply Ht|by eapply wf_link].
Qed.

Lemma wf_not_root fs q n : fs_wf fs → fs !! q = Some n → n ≠ IDir → q ≠ [].
Proof. intros Hwf Hq Hn ->. rewrite (wf_root _ Hwf) in Hq. by injection Hq. Qed.

(** ** Resolution *)
Definition path_part (c : str) : Prop := c ≠ "" ∧ slash ∉ c ∧ nul ∉ c.

Lemma host_name_part c : host_name c → path_part c.
Proof. unfold host_name, path_part. tauto. Qed.
Lemma path_part_name c : path_part c → c ≠ "." → c ≠ ".." → host_name c.
Proof. unfold host_name, path_part. tauto. Qed.
Lemma host_names_part cs : Forall host_name cs → Forall part cs.
Proof. intros. eapply Forall_impl; [done|]. unfold host_name, part. tauto. Qed.

Lemma pieces_part p : nul ∉ p → Forall path_part (pieces p).
Proof.
  intros Hn. apply Forall_forall. intros c [Hc Hin]%list_elem_of_filter. split_and!; [done|..].
  - by apply (proj1 (Forall_forall _ _) (split_nin slash p) c Hin).
  - intros Hx. by eapply elem_of_split_char in Hx.
Qed.

Lemma path_parts_part p : nul ∉ p → Forall path_part (path_parts p).
Proof.
  intros Hn. apply Forall_app. split; [by apply pieces_part|].
  destruct (ends_with_char _ _); [|done]. apply Forall_singleton. by_eval.
Qed.

Lemma resolve_cons fs follow create links cwd name rest :
  resolve_links fs follow create links cwd (name :: rest) =
  if bool_decide (name = ".") then resolve_links fs follow create links cwd rest
  else if bool_decide (name = "..")
  then resolve_links fs follow create links (removelast cwd) rest
  else match fs !! (cwd ++ [name]) with
  | None => if create && bool_decide (rest = []) then Ok (cwd ++ [name]) else Err io_not_found
  | Some IDir => resolve_links fs follow create links (cwd ++ [name]) rest
  | Some (IFile _) => if bool_decide (rest = []) then Ok (cwd ++ [name]) else Err io_not_directory
  | Some (ILink target) =>
      if negb follow && bool_decide (rest = []) then Ok (cwd ++ [name])
      else match links with
      | O => Err io_loop
      | S links => resolve_links fs follow create links (if is_absolute target then [] else cwd)
                     (path_parts target ++ rest)
      end
  end.
Proof. by destruct links. Qed.
Lemma resolve_nil fs follow create links cwd :
  resolve_links fs follow create links cwd [] = Ok cwd.
Proof. by destruct links. Qed.

(** Resolution ends at a node that is there, or, when creating, at a new name in a
    directory; only a link that is not to be followed is a link. *)
Definition found (fs : FileSystem) (follow create : bool) (q : location) : Prop :=
  match fs !! q with
  | Some (ILink _) => follow = false
  | Some _ => True
  | None => create = true ∧ ∃ d c, q = d ++ [c] ∧ fs !! d = Some IDir ∧ host_name c
  end.

(** A node can be put where creation leads. *)
Lemma found_parent fs follow q :
  fs_wf fs → found fs follow true q → q ≠ [] →
  ∃ d c, q = d ++ [c] ∧ fs !! d = Some IDir ∧ host_name c.
Proof.
  intros Hwf Hf Hne. unfold found in Hf. destruct (fs !! q) as [n|] eqn:E; [|by destruct Hf].
  destruct q as [|c d _] using rev_ind; [done|]. exists d, c. split; [done|].
  by eapply wf_parent.
Qed.
Lemma wf_write fs q d :
  fs_wf fs → found fs true true q → fs !! q ≠ Some IDir → fs_wf (<[q := IFile d]> fs).
Proof.
  intros Hwf Hf Hq. destruct (found_parent fs true q) as (e&c&->&Hd&Hc); [done..| |].
  - intros ->. by apply Hq, wf_root.
  - by apply wf_insert.
Qed.

Lemma resolve_found fs follow create links cwd todo q :
  fs_wf fs → fs !! cwd = Some IDir → Forall path_part todo →
  resolve_links fs follow create links cwd todo = Ok q → found fs follow create q.
Proof.
  intros Hwf. revert cwd todo. induction links as [links IHl] using lt_wf_ind.
  intros cwd todo. revert cwd. induction todo as [|name rest IH]; intros cwd Hcwd Hparts.
  { rewrite resolve_nil. intros [= <-]. unfold found. by rewrite Hcwd. }
  apply Forall_cons in Hparts as [Hname Hrest]. rewrite resolve_cons.
  destruct (decide (name = ".")) as [->|Hdot];
    [rewrite bool_decide_true by done; by apply IH|rewrite bool_decide_false by done].
  destruct (decide (name = "..")) as [->|Hdd];
    [rewrite bool_decide_true by done; apply IH; [by apply wf_removelast|done]
    |rewrite bool_decide_false by done].
  destruct (fs !! (cwd ++ [name])) as [[data| |target]|] eqn:E.
  - case_bool_decide; [|done]. intros [= <-]. unfold found. by rewrite E.
  - by apply IH.
  - destruct (negb follow && _) eqn:G.
    { intros [= <-]. unfold found. rewrite E.
      apply andb_true_iff in G as [?%negb_true_iff _]. done. }
    destruct links as [|links]; [done|]. apply IHl; [lia|..].
    + destruct (is_absolute target); [by apply wf_root|done].
    + apply Forall_app. split; [|done]. apply path_parts_part. by eapply wf_link.
  - destruct (create && _) eqn:G; [|done]. intros [= <-]. unfold found. rewrite E.
    apply andb_true_iff in G as [-> _]. split; [done|]. exists cwd, name.
    split_and!; [done..|]. by apply path_part_name.
Qed.

(** Through directories resolution is plain. *)
Lemma resolve_dirs fs follow create links cwd xs ys :
  fs_wf fs → fs !! (cwd ++ xs) = Some IDir → Forall host_name xs →
  resolve_links fs follow create links cwd (xs ++ ys)
  = resolve_links fs follow create links (cwd ++ xs) ys.
Proof.
  intros Hwf. revert cwd. induction xs as [|c xs IH]; intros cwd Hd Hn;
    [by rewrite app_nil_r|].
  apply Forall_cons in Hn as [(?&?&?&?) Hn]. rewrite <-app_comm_cons, resolve_cons.
  rewrite !bool_decide_false by done. rewrite (cons_middle c cwd xs) in Hd.
  assert (fs !! (cwd ++ [c]) = Some IDir) as ->.
  { destruct xs as [|c' xs]; [done|]. rewrite app_assoc in Hd. by eapply wf_above. }
  rewrite IH by (by rewrite <-?app_assoc). by rewrite <-app_assoc.
Qed.

(** The last step at a name that is not a link to be followed. *)
Lemma resolve_last fs follow create links d c :
  host_name c →
  (is_Some (fs !! (d ++ [c])) ∨ create = true) →
  (follow = true → ∀ t, fs !! (d ++ [c]) ≠ Some (ILink t)) →
  resolve_links fs follow create links d [c] = Ok (d ++ [c]).
Proof.
  intros (?&?&?&?) Hs Hl. rewrite resolve_cons, !bool_decide_false by done.
  destruct (fs !! (d ++ [c])) as [[data| |t]|] eqn:E; [done|by rewrite resolve_nil|..].
  - destruct follow; [by destruct (Hl eq_refl t)|done].
  - by destruct Hs as [[? ?]| ->].
Qed.

(** A directory that a path leads to, and what is looked up in it. *)
Lemma resolve_app fs follow create links cwd xs ys q :
  fs_wf fs → ys ≠ [] → fs !! q = Some IDir →
  resolve_links fs true false links cwd xs = Ok q →
  ∃ links', resolve_links fs follow create links cwd (xs ++ ys)
            = resolve_links fs follow create links' q ys.
Proof.
  intros Hwf Hys Hq. revert cwd xs. induction links as [links IHl] using lt_wf_ind.
  intros cwd xs. revert cwd. induction xs as [|name rest IH]; intros cwd.
  { rewrite resolve_nil. intros [= ->]. by exists links. }
  rewrite <-app_comm_cons, !resolve_cons.
  destruct (decide (name = ".")) as [->|Hdot];
    [rewrite !bool_decide_true by done; by apply IH|rewrite !(bool_decide_false (name = _)) by done].
  destruct (decide (name = "..")) as [->|Hdd];
    [rewrite !bool_decide_true by done; by apply IH|rewrite !(bool_decide_false (name = _)) by done].
  assert (rest ++ ys ≠ []) as Hne by (by destruct rest).
  destruct (fs !! (cwd ++ [name])) as [[data| |target]|] eqn:E; [|by apply IH|..|done].
  - case_bool_decide; [|done]. intros [= <-]. by rewrite E in Hq.
  - rewrite (bool_decide_false (rest ++ ys = [])) by done. rewrite andb_false_r. simpl.
    destruct links as [|links]; [done|]. rewrite app_assoc. apply IHl. lia.
Qed.

(** ** Rendered locations *)
Lemma host_name_not_dots c : host_name c → c ≠ "." ∧ c ≠ "..".
Proof. unfold host_name. tauto. Qed.

Lemma path_of_absolute q : is_absolute (path_of q) = true.
Proof. apply starts_with_path_of. Qed.

Lemma path_of_snoc q c :
  path_of (q ++ [c]) = (if bool_decide (q = []) then "/" else path_of q ++ "/") ++ c.
Proof.
  unfold path_of. destruct q as [|x q]; [done|].
  rewrite bool_decide_false by done. rewrite join_app by done. by rewrite <-!app_assoc.
Qed.

Lemma ends_with_path_of q c :
  host_name c → ends_with_char slash (path_of (q ++ [c])) = false.
Proof.
  intros (Hne&_&_&Hs&_). rewrite path_of_snoc. apply bool_decide_eq_false. intros Hl.
  destruct c as [|b c _] using rev_ind; [done|].
  rewrite app_assoc, last_snoc in Hl. injection Hl as ->. apply Hs, elem_of_app. right. by left.
Qed.

Lemma path_of_nul q : Forall host_name q → nul ∉ path_of q.
Proof.
  intros Hq [Hn|Hn]%elem_of_app; [by apply list_elem_of_singleton in Hn|].
  apply elem_of_join in Hn as [Hn|(c&Hc&Hn)]; [by apply list_elem_of_singleton in Hn|].
  rewrite Forall_forall in Hq. by destruct (Hq c Hc) as (_&_&_&_&?).
Qed.

Lemma contains_nul q : Forall host_name q → contains nul (path_of q) = false.
Proof. intros. by apply bool_decide_false, path_of_nul. Qed.

Lemma pieces_location q : Forall host_name q → pieces (path_of q) = q.
Proof. intros. by apply pieces_path_of_parts, host_names_part. Qed.

Lemma filter_names q : Forall host_name q → filter (λ c, c ≠ ".") q = q.
Proof. intros. apply filter_all. eapply Forall_impl; [done|]. unfold host_name. tauto. Qed.

Lemma component_of_names q : Forall host_name q → component_of <$> q = Normal <$> q.
Proof.
  intros Hq. apply list_fmap_ext. intros i c Hc. unfold component_of.
  rewrite Forall_lookup in Hq. destruct (Hq i c Hc) as (_&_&?&_). by rewrite bool_decide_false.
Qed.

Lemma components_path_of q :
  Forall host_name q → path_components (path_of q) = RootDir :: (Normal <$> q).
Proof.
  intros Hq. unfold path_components. rewrite path_of_absolute, pieces_location by done.
  by rewrite filter_names, component_of_names.
Qed.

Lemma path_from_location q :
  path_from (RootDir :: (Normal <$> q)) = path_of q.
Proof. unfold path_from, path_of. do 2 f_equal. rewrite <-list_fmap_compose. apply list_fmap_id. Qed.

Lemma starts_with_location q r :
  Forall host_name q → Forall host_name r →
  path_starts_with (path_of q) (path_of r) = bool_decide (r `prefix_of` q).
Proof.
  intros Hq Hr. apply bool_decide_ext. rewrite !components_path_of by done. split.
  - intros (k&Hk). injection Hk as Hk. apply fmap_app_inv in Hk as (l1&l2&H1&_&->).
    apply (inj (fmap Normal)) in H1 as ->. by eexists.
  - intros (k&->). exists (Normal <$> k). by rewrite fmap_app.
Qed.

Lemma parent_path_of q c :
  Forall host_name (q ++ [c]) → path_parent (path_of (q ++ [c])) = Some (path_of q).
Proof.
  intros Hq. unfold path_parent. rewrite components_path_of, fmap_app by done. simpl fmap.
  rewrite app_comm_cons, last_snoc, removelast_last. by rewrite path_from_location.
Qed.

(** A relative path of names. *)
Lemma join_relative cs : Forall part cs → is_absolute (join "/" cs) = false.
Proof.
  intros Hcs. destruct cs as [|c cs]; [done|]. apply Forall_cons in Hcs as [[Hc1 Hc2] _].
  apply not_true_iff_false. intros [r Hr]%starts_with_spec.
  destruct c as [|b c]; [done|]. destruct cs; simpl in Hr; injection Hr as -> _; apply Hc2; left.
Qed.
Lemma pieces_join cs : cs ≠ [] → Forall part cs → pieces (join "/" cs) = cs.
Proof.
  intros Hne Hcs. unfold pieces. rewrite split_join; [|done|].
  - apply filter_all. eapply Forall_impl; [done|]. by intros ? [].
  - eapply Forall_impl; [done|]. by intros ? [].
Qed.

Lemma join_path_of q cs :
  Forall host_name q → cs ≠ [] → Forall part cs →
  path_join (path_of q) (join "/" cs) = path_of (q ++ cs).
Proof.
  intros Hq Hne Hcs. destruct cs as [|c cs]; [done|]. unfold path_join.
  rewrite join_relative by done.
  rewrite (bool_decide_false (path_of q = "")) by done. simpl orb.
  destruct q as [|x q _] using rev_ind; [done|]. apply Forall_app in Hq as [_ [Hx _]%Forall_cons].
  rewrite ends_with_path_of by exact Hx.
  unfold path_of. rewrite (join_app _ (q ++ [x]) (c :: cs)); [by rewrite <-!app_assoc|by destruct q|done].
Qed.

(** Looking up a rendered location follows its names. *)
Lemma lookup_location {E} (h : Host E) follow create q :
  Forall host_name q →
  lookup_path follow create (path_of q) h
  = resolve_links (h_fs h) follow create MAX_LINKS [] q.
Proof.
  intros Hq. unfold lookup_path, lookup_parts.
  rewrite contains_nul by done.
  rewrite (bool_decide_false (path_of q = "")) by done.
  rewrite path_of_absolute. unfold path_parts. rewrite pieces_location by done.
  destruct q as [|c q _] using rev_ind; [done|].
  apply Forall_app in Hq as [_ [Hc _]%Forall_cons]. rewrite ends_with_path_of by done.
  by rewrite app_nil_r.
Qed.

Lemma lookup_location_parts {E} (h : Host E) follow create q :
  Forall host_name q →
  lookup_parts follow create (pieces (path_of q)) (path_of q) h
  = lookup_path follow create (path_of q) h.
Proof.
  intros Hq. rewrite lookup_location by done. unfold lookup_parts.
  rewrite contains_nul by done.
  by rewrite (bool_decide_false (path_of q = "")), path_of_absolute, pieces_location by done.
Qed.

Lemma lookup_found {E} (h : Host E) follow create parts p q :
  fs_wf (h_fs h) → (nul ∉ p → Forall path_part parts) →
  lookup_parts follow create parts p h = Ok q → found (h_fs h) follow create q.
Proof.
  intros Hwf Hparts. unfold lookup_parts.
  destruct (contains nul p) eqn:En; [done|]. apply bool_decide_eq_false in En.
  case_bool_decide; [done|].
  destruct (is_absolute p); [apply resolve_found; [done|by apply wf_root|auto]|].
  destruct (h_fs h !! h_cwd h) as [[]|] eqn:Hc; [done| |done..].
  apply resolve_found; auto.
Qed.
Lemma lookup_path_found {E} (h : Host E) follow create p q :
  fs_wf (h_fs h) → lookup_path follow create p h = Ok q → found (h_fs h) follow create q.
Proof. intros Hwf. apply lookup_found; [done|apply path_parts_part]. Qed.

(** Existing locations without a link at the end, and new names in directories, resolve to
    themselves. *)
Lemma lookup_exact {E} (h : Host E) follow create q n :
  fs_wf (h_fs h) → h_fs h !! q = Some n →
  (follow = true → ∀ t, n ≠ ILink t) →
  lookup_path follow create (path_of q) h = Ok q.
Proof.
  intros Hwf Hq Hl. rewrite lookup_location by (by eapply wf_names).
  destruct q as [|c q _] using rev_ind; [done|].
  pose proof (wf_parent _ Hwf _ _ _ Hq) as [Hd Hc].
  rewrite resolve_dirs; [|done|done|by eapply wf_names].
  apply resolve_last; [done|eauto|]. rewrite Hq. intros Hf t [= ->]. by apply (Hl Hf t).
Qed.

Lemma lookup_new {E} (h : Host E) follow d c :
  fs_wf (h_fs h) → h_fs h !! d = Some IDir → host_name c → h_fs h !! (d ++ [c]) = None →
  lookup_path follow true (path_of (d ++ [c])) h = Ok (d ++ [c]).
Proof.
  intros Hwf Hd Hc Hn. pose proof (wf_names _ _ _ Hwf Hd) as Hds.
  rewrite lookup_location by (apply Forall_app; split; [done|by apply Forall_singleton]).
  rewrite resolve_dirs by done. apply resolve_last; [done|auto|]. by rewrite Hn.
Qed.

(** Whatever is looked up below a path is looked up where the path leads. *)
Lemma resolve_app_inv fs follow create links cwd xs ys q q' :
  ys ≠ [] →
  resolve_links fs true false links cwd xs = Ok q →
  resolve_links fs follow create links cwd (xs ++ ys) = Ok q' →
  ∃ links', resolve_links fs follow create links' q ys = Ok q'.
Proof.
  intros Hys. revert cwd xs. induction links as [links IHl] using lt_wf_ind.
  intros cwd xs. revert cwd. induction xs as [|name rest IH]; intros cwd.
  { rewrite resolve_nil. intros [= ->]. by exists links. }
  rewrite <-app_comm_cons, !resolve_cons.
  destruct (decide (name = ".")) as [->|Hdot];
    [rewrite !bool_decide_true by done; by apply IH|rewrite !(bool_decide_false (name = _)) by done].
  destruct (decide (name = "..")) as [->|Hdd];
    [rewrite !bool_decide_true by done; by apply IH|rewrite !(bool_decide_false (name = _)) by done].
  assert (rest ++ ys ≠ []) as Hne by (by destruct rest).
  destruct (fs !! (cwd ++ [name])) as [[data| |target]|] eqn:E; [|by apply IH|..|done].
  - by rewrite (bool_decide_false (rest ++ ys = [])).
  - rewrite (bool_decide_false (rest ++ ys = [])) by done. rewrite andb_false_r. simpl.
    destruct links as [|links]; [done|]. rewrite app_assoc. apply IHl. lia.
Qed.

(** A single name that is not a link to be followed. *)
Lemma resolve_last_inv fs follow create links d c q :
  host_name c → (follow = true → ∀ t, fs !! (d ++ [c]) ≠ Some (ILink t)) →
  resolve_links fs follow create links d [c] = Ok q → q = d ++ [c].
Proof.
  intros (?&?&?&?) Hl. rewrite resolve_cons, !(bool_decide_false (c = _)) by done.
  destruct (fs !! (d ++ [c])) as [[data| |t]|] eqn:E; [by intros [=]|..].
  - rewrite resolve_nil. by intros [=].
  - destruct follow; [by destruct (Hl eq_refl t)|]. by intros [=].
  - destruct create; [by intros [=]|done].
Qed.

(** Without links on the way a path leads where it says. *)
Lemma resolve_plain fs follow create links cwd xs q :
  Forall host_name xs →
  (∀ k t, k `prefix_of` xs → fs !! (cwd ++ k) ≠ Some (ILink t)) →
  resolve_links fs follow create links cwd xs = Ok q → q = cwd ++ xs.
Proof.
  revert cwd. induction xs as [|c xs IH]; intros cwd Hn Hl.
  { rewrite resolve_nil, app_nil_r. by intros [=]. }
  apply Forall_cons in Hn as [(?&?&?&?) Hn]. rewrite resolve_cons, !(bool_decide_false (c = _)) by done.
  assert (∀ t, fs !! (cwd ++ [c]) ≠ Some (ILink t)) as Hc.
  { intros t. apply Hl. by exists xs. }
  destruct (fs !! (cwd ++ [c])) as [[data| |t]|] eqn:E; [|..|by destruct (Hc t)|].
  - case_bool_decide as Hx; [|done]. rewrite Hx. by intros [=].
  - intros Hq. rewrite (cons_middle c cwd xs), app_assoc. apply IH; [done| |done].
    intros k t [k' Hk]. rewrite <-app_assoc. apply Hl. exists k'. by rewrite Hk.
  - case_bool_decide as Hx; [|by rewrite andb_false_r]. rewrite Hx, andb_true_r.
    destruct create; [by intros [=]|done].
Qed.

Lemma resolve_returns fs follow create links cwd xs :
  resolve_links fs follow create links cwd xs ≠ Panic.
Proof.
  revert cwd xs. induction links as [links IHl] using lt_wf_ind.
  intros cwd xs. revert cwd. induction xs as [|c xs IH]; intros cwd; [by rewrite resolve_nil|].
  rewrite resolve_cons. repeat case_bool_decide; auto;
    (destruct (fs !! (cwd ++ [c])) as [[data| |t]|]; [done|done| |by destruct create]);
    (destruct follow; simpl; [|try done]); (destruct links; [done|]); apply IHl; lia.
Qed.

Lemma lookup_returns {E} (h : Host E) follow create parts p :
  lookup_parts follow create parts p h ≠ Panic.
Proof.
  unfold lookup_parts. destruct (contains nul p); [done|]. case_bool_decide; [done|].
  destruct (is_absolute p); [apply resolve_returns|].
  destruct (h_fs h !! h_cwd h) as [[]|]; [done|apply resolve_returns|done..].
Qed.

Lemma lookup_missing {E} (h : Host E) follow q :
  fs_wf (h_fs h) → h_fs h !! q = None → Forall host_name q →
  (∀ k t, k `prefix_of` q → h_fs h !! k ≠ Some (ILink t)) →
  ∃ e, lookup_path follow false (path_of q) h = Err e.
Proof.
  intros Hwf Hq Hn Hl. rewrite lookup_location by done.
  destruct (resolve_links _ _ _ _ _ _) as [q'|e|] eqn:Hr; [|eauto|by apply resolve_returns in Hr].
  pose proof Hr as Hf. apply resolve_plain in Hr; [|done..]. rewrite app_nil_l in Hr. subst q'.
  apply resolve_found in Hf; [|done|by apply wf_root|].
  - unfold found in Hf. rewrite Hq in Hf. by destruct Hf.
  - eapply Forall_impl; [done|]. apply host_name_part.
Qed.

(** ** Directories and moves *)
Lemma elem_of_children q fs c : c ∈ children q fs ↔ is_Some (fs !! (q ++ [c])).
Proof.
  unfold children. rewrite list_elem_of_omap. split.
  - intros ([k n]&Hk&Hc). apply elem_of_map_to_list in Hk. unfold child_name in Hc. simpl in Hc.
    destruct (last k) as [c'|]; [|done]. case_bool_decide as He; [|done].
    injection Hc as ->. rewrite <-He. by exists n.
  - intros [n Hn]. exists (q ++ [c], n). split; [by apply elem_of_map_to_list|].
    unfold child_name. simpl. by rewrite last_snoc, bool_decide_true.
Qed.

Lemma children_NoDup q fs : NoDup (children q fs).
Proof.
  unfold children. pose proof (NoDup_fst_map_to_list fs) as Hd. revert Hd.
  generalize (map_to_list fs). intros l. induction l as [|[k n] l IH]; simpl; [by constructor|].
  intros [Hk Hd]%NoDup_cons. destruct (child_name q k) as [c|] eqn:Hc; [|by apply IH].
  constructor; [|by apply IH]. intros ([k' n']&Hin&Hc')%list_elem_of_omap.
  assert (∀ k0 c0, child_name q k0 = Some c0 → k0 = q ++ [c0]) as Hname.
  { intros k0 c0. unfold child_name. destruct (last k0); [|done].
    case_bool_decide; [|done]. by intros [= <-]. }
  apply Hname in Hc, Hc'. simpl in Hc'. subst k k'. apply Hk. apply list_elem_of_fmap.
  by exists (q ++ [c], n').
Qed.

Lemma no_children_below fs q k :
  fs_wf fs → children q fs = [] → q `prefix_of` k → k ≠ q → fs !! k = None.
Proof.
  intros Hwf Hc [l ->] Hne. destruct l as [|c l]; [by rewrite app_nil_r in Hne|].
  apply eq_None_not_Some. intros [n Hn].
  assert (is_Some (fs !! (q ++ [c]))) as Hs.
  { destruct l as [|c' l]; [by exists n|]. rewrite (cons_middle c), app_assoc in Hn. exists IDir.
    by eapply wf_above. }
  apply elem_of_children in Hs. rewrite Hc in Hs. by apply elem_of_nil in Hs.
Qed.

Lemma not_dir_no_children fs q : fs_wf fs → fs !! q ≠ Some IDir → children q fs = [].
Proof.
  intros Hwf Hq. destruct (children q fs) as [|c l] eqn:E; [done|].
  assert (c ∈ children q fs) as [n Hn]%elem_of_children by (rewrite E; left).
  by apply (wf_parent _ Hwf) in Hn as [? _].
Qed.

Lemma wf_delete fs q :
  fs_wf fs → q ≠ [] → children q fs = [] → fs_wf (delete q fs).
Proof.
  intros Hwf Hne Hc. split.
  - rewrite lookup_delete_ne by done. by apply wf_root.
  - intros k c n [Hk Hn]%lookup_delete_Some. destruct (wf_parent _ Hwf _ _ _ Hn) as [Hd ?].
    split; [|done]. rewrite lookup_delete_ne; [done|]. intros ->.
    assert (c ∈ children k fs) as Hin by (apply elem_of_children; eauto).
    rewrite Hc in Hin. by apply elem_of_nil in Hin.
  - intros k t' [_ Hn]%lookup_delete_Some. by eapply wf_link.
Qed.

(** Nodes at or below a location go away. *)
Record cut (q : location) (fs fs' : FileSystem) : Prop := {
  cut_wf : fs_wf fs → fs_wf fs';
  cut_outside k : ¬ q `prefix_of` k → fs' !! k = fs !! k;
  cut_only k : fs' !! k = fs !! k ∨ fs' !! k = None }.
#[export] Instance cut_preorder q : PreOrder (cut q).
Proof.
  split; [by split; auto|]. intros f g h [w1 o1 c1] [w2 o2 c2]. split; [auto|..].
  - intros k Hk. rewrite o2 by done. auto.
  - intros k. destruct (c2 k) as [->|?]; auto.
Qed.
Lemma cut_below q q' fs fs' : q `prefix_of` q' → cut q' fs fs' → cut q fs fs'.
Proof.
  intros Hq [w o c]. split; [done| |done]. intros k Hk. apply o. intros Hk'. apply Hk. by etrans.
Qed.
Lemma cut_delete q fs :
  q ≠ [] → (fs_wf fs → children q fs = []) → cut q fs (delete q fs).
Proof.
  intros Hne Hc. split.
  - intros Hwf. by apply wf_delete; auto.
  - intros k Hk. rewrite lookup_delete_ne; [done|]. intros ->. by apply Hk.
  - intros k. destruct (decide (q = k)) as [->|];
      [rewrite lookup_delete_eq|rewrite lookup_delete_ne by done]; auto.
Qed.

Lemma rebase_app from to l : rebase from to (from ++ l) = to ++ l.
Proof. unfold rebase. by rewrite drop_app_length. Qed.

(** The lookups after a move: what was below [from] is below [to]. *)
Lemma move_tree_below from to fs l n :
  fs !! (from ++ l) = Some n → move_tree from to fs !! (to ++ l) = Some n.
Proof.
  intros Hn. unfold move_tree. apply lookup_union_Some_l, elem_of_list_to_map.
  - rewrite <-list_fmap_compose.
    apply NoDup_fmap_2_strong; [|apply NoDup_map_to_list].
    intros [k1 n1] [k2 n2] [H1 [l1 E1]]%elem_of_map_to_list%map_lookup_filter_Some
      [H2 [l2 E2]]%elem_of_map_to_list%map_lookup_filter_Some. simpl in E1, E2 |- *. subst k1 k2.
    rewrite !rebase_app. intros ->%(inj (app to)). by simplify_eq.
  - apply list_elem_of_fmap. exists (from ++ l, n). simpl. rewrite rebase_app. split; [done|].
    apply elem_of_map_to_list, map_lookup_filter_Some. split; [done|]. by exists l.
Qed.

Lemma move_tree_Some from to fs k n :
  move_tree from to fs !! k = Some n →
  (∃ l, k = to ++ l ∧ fs !! (from ++ l) = Some n)
  ∨ (fs !! k = Some n ∧ ¬ from `prefix_of` k).
Proof.
  intros [H|[_ H]]%lookup_union_Some_raw.
  - left. apply elem_of_list_to_map_2, list_elem_of_fmap in H as ([k' n']&[= -> ->]&H).
    apply elem_of_map_to_list, map_lookup_filter_Some in H as [H [l Hl]].
    simpl in Hl |- *. subst k'. exists l. by rewrite rebase_app.
  - right. by apply map_lookup_filter_Some in H.
Qed.

Lemma move_tree_outside from to fs k :
  ¬ from `prefix_of` k → ¬ to `prefix_of` k → move_tree from to fs !! k = fs !! k.
Proof.
  intros Hf Ht. apply option_eq. intros n. split.
  - intros [(l&->&_)|[? _]]%move_tree_Some; [|done]. by destruct Ht; eexists.
  - intros Hn. unfold move_tree. apply lookup_union_Some_raw. right. split.
    + apply not_elem_of_list_to_map. rewrite <-list_fmap_compose.
      intros ([k' n']&Hk&H)%list_elem_of_fmap. simpl in Hk. subst k. apply Ht. by eexists.
    + by apply map_lookup_filter_Some.
Qed.

(** A move to a new name, or over a node that can be replaced, keeps the file system well
    formed. *)
Lemma wf_move from d c fs n :
  fs_wf fs → fs !! from = Some n → from ≠ [] → fs !! d = Some IDir → host_name c →
  ¬ from `prefix_of` d ++ [c] → children (d ++ [c]) fs = [] →
  fs_wf (move_tree from (d ++ [c]) fs).
Proof.
  intros Hwf Hn Hne Hd Hc Hp Hch.
  pose proof (prefix_snoc_not d c) as Hcd.
  assert (¬ from `prefix_of` d) as Hfd by (intros H; apply Hp; by apply prefix_app_r).
  split.
  - rewrite move_tree_outside; [by apply wf_root|..]; intros [l Hl];
      [by destruct from|by destruct d].
  - intros k c' n' [(l&Hk&Hl)|[Hk Hf]]%move_tree_Some.
    + destruct l as [|x l _] using rev_ind.
      * rewrite app_nil_r in Hk. apply app_inj_tail in Hk as [-> ->].
        rewrite move_tree_outside by done. done.
      * rewrite app_assoc in Hk. apply app_inj_tail in Hk as [-> ->].
        rewrite app_assoc in Hl. apply (wf_parent _ Hwf) in Hl as [Hl ?].
        split; [by apply move_tree_below|done].
    + destruct (wf_parent _ Hwf _ _ _ Hk) as [Hkd ?]. split; [|done].
      rewrite move_tree_outside; [done|intros Hx; apply Hf; by apply prefix_app_r|].
      intros Hpre. assert (fs !! (k ++ [c']) = None) as Hnone; [|by rewrite Hk in Hnone].
      apply (no_children_below _ (d ++ [c])); [done|done|by apply prefix_app_r|].
      intros Heq. apply app_inj_tail in Heq as [-> _]. by apply Hcd.
  - intros k t [(l&->&Hl)|[Hk _]]%move_tree_Some; by eapply wf_link.
Qed.

(** ** What the calls do *)
Section effects.
Context {E Stream : Type} `{HE : !HostEnv E Stream}.
Implicit Types h : Host E.
Notation HostM := (M (Host E) IoError).

(** Two states with the same files. *)
Definition same_files h h' : Prop := h_fs h' = h_fs h ∧ h_cwd h' = h_cwd h.
#[export] Instance same_files_preorder : PreOrder same_files.
Proof. split; [done|]. intros h1 h2 h3 [??] [??]. split; congruence. Qed.

(** A call is refused, or does its work. *)
Lemma syscall_run {A} call (m : HostM A) h r h' :
  syscall call m h = (r, h') →
  (∃ e, r = Err e ∧ same_files h h') ∨ ∃ e, m (set_env e h) = (r, h').
Proof.
  unfold syscall. destruct (host_fault call (h_env h)) as [[error|] e].
  - intros [= <- <-]. left. by exists error.
  - intros H. right. by exists e.
Qed.

Lemma evolves_syscall {A} (R : Host E → Host E → Prop) `{!PreOrder R} call (m : HostM A) :
  (∀ h h', same_files h h' → R h h') → evolves R m → evolves R (syscall call m).
Proof.
  intros HR Hm h. destruct (syscall call m h) as [r h'] eqn:H.
  apply syscall_run in H as [(e&_&?)|[e H]]; [by apply HR|].
  etrans; [by apply (HR h (set_env e h))|]. specialize (Hm (set_env e h)). by rewrite H in Hm.
Qed.

(** Calls that only look. *)
Lemma canonicalize_same p : evolves same_files (canonicalize p).
Proof. apply evolves_syscall; [apply _|done|]. apply (evolves_reads _). Qed.
Lemma stat_same follow p : evolves same_files (stat follow p).
Proof.
  apply evolves_syscall; [apply _|done|].
  apply (evolves_bind _); [apply (evolves_reads _)|]. intros q. apply (evolves_reads _).
Qed.
Lemma path_is_dir_same p : evolves same_files (path_is_dir p).
Proof.
  intros h. unfold path_is_dir. pose proof (stat_same true p h). by destruct (stat true p h).
Qed.
Lemma fs_read_same p : evolves same_files (fs_read p).
Proof.
  apply evolves_syscall; [apply _|done|].
  apply (evolves_bind _); [apply (evolves_reads _)|]. intros q. apply (evolves_reads _).
Qed.
Lemma read_dir_same p : evolves same_files (read_dir p).
Proof.
  apply evolves_syscall; [apply _|done|].
  apply (evolves_bind _); [apply (evolves_reads _)|]. intros q. apply (evolves_reads _).
Qed.

(** Only directories are added. *)
Record grows (fs fs' : FileSystem) : Prop := {
  grows_wf : fs_wf fs → fs_wf fs';
  grows_keeps k n : fs !! k = Some n → fs' !! k = Some n;
  grows_dirs k : fs !! k = None → fs' !! k = None ∨ fs' !! k = Some IDir }.
#[export] Instance grows_preorder : PreOrder grows.
Proof.
  split; [by split; auto|]. intros f g h [w1 k1 d1] [w2 k2 d2]. split; [auto..|].
  intros k Hk. destruct (d1 k Hk) as [?|?]; auto.
Qed.

Lemma grows_new fs d c :
  fs_wf fs → fs !! d = Some IDir → host_name c → fs !! (d ++ [c]) = None →
  grows fs (<[d ++ [c] := IDir]> fs).
Proof.
  intros Hwf Hd Hc Hn. split.
  - intros _. by apply wf_insert.
  - intros k n Hk. rewrite lookup_insert_ne; [done|]. intros <-. congruence.
  - intros k Hk. destruct (decide (d ++ [c] = k)) as [<-|];
      [rewrite lookup_insert_eq|rewrite lookup_insert_ne by done]; auto.
Qed.

(** From a well-formed state the files grow and the working directory stays. *)
Definition grown h h' : Prop :=
  fs_wf (h_fs h) → grows (h_fs h) (h_fs h') ∧ h_cwd h' = h_cwd h.
#[export] Instance grown_preorder : PreOrder grown.
Proof.
  split; [by intros h _; split|]. intros h1 h2 h3 H1 H2 Hwf.
  destruct (H1 Hwf) as [G1 E1]. destruct (H2 (grows_wf _ _ G1 Hwf)) as [G2 E2].
  split; [by etrans|congruence].
Qed.
Lemma same_grown h h' : same_files h h' → grown h h'.
Proof. intros [H ?] _. by rewrite H. Qed.

Lemma mkdir_grows p : evolves grown (mkdir p).
Proof.
  apply evolves_syscall; [apply _|apply same_grown|]. intros h Hwf.
  rewrite bind_run. unfold reads.
  destruct (lookup_parts false true (pieces p) p h) as [q|e|] eqn:Hl; [|by split..].
  rewrite bind_run. unfold gets, node_at. cbv beta iota zeta.
  destruct (h_fs h !! q) as [n|] eqn:Hn; [by split|]. cbn. split; [|done].
  apply lookup_found in Hl; [|done|apply pieces_part].
  unfold found in Hl. rewrite Hn in Hl. destruct Hl as (_&d&c&->&Hd&Hc). by apply grows_new.
Qed.

Lemma evolves_mkdir_or p retry :
  (∀ e, evolves grown (retry e)) → evolves grown (mkdir_or p retry).
Proof.
  intros Hr h. unfold mkdir_or. pose proof (mkdir_grows p h) as Hm.
  destruct (mkdir p h) as [[[]|e|] h1]; [done| |done]. etrans; [exact Hm|apply Hr].
Qed.

Lemma dir_anyway_grows p e : evolves grown (dir_anyway p e).
Proof.
  apply (evolves_bind _).
  - intros h. apply same_grown, path_is_dir_same.
  - intros []; [apply (evolves_ret _)|apply (evolves_throw _)].
Qed.

Lemma create_dirs_grows depth p : evolves grown (create_dirs depth p).
Proof.
  revert p. induction depth as [|depth IH]; intros p;
    (cbn [create_dirs]; case_bool_decide; [apply (evolves_ret _)|]; apply evolves_mkdir_or;
     intros e; destruct (negb _); [apply dir_anyway_grows|]); [apply (evolves_throw _)|].
  destruct (path_parent p) as [parent|]; [|apply (evolves_throw _)].
  apply (evolves_bind _); [apply IH|]. intros _. apply evolves_mkdir_or, dir_anyway_grows.
Qed.
Lemma create_dir_all_grows p : evolves grown (create_dir_all p).
Proof. apply create_dirs_grows. Qed.

(** Removal stays at and below a location. *)
Definition removed (q : location) h h' : Prop :=
  fs_wf (h_fs h) → cut q (h_fs h) (h_fs h') ∧ h_cwd h' = h_cwd h.
#[export] Instance removed_preorder q : PreOrder (removed q).
Proof.
  split; [by intros h _; split|]. intros h1 h2 h3 H1 H2 Hwf.
  destruct (H1 Hwf) as [G1 E1]. destruct (H2 (cut_wf _ _ _ G1 Hwf)) as [G2 E2].
  split; [by etrans|congruence].
Qed.
Lemma same_removed q h h' : same_files h h' → removed q h h'.
Proof. intros [H ?] _. by rewrite H. Qed.
Lemma removed_below q q' {A} (m : HostM A) :
  q `prefix_of` q' → evolves (removed q') m → evolves (removed q) m.
Proof.
  intros Hq Hm h Hwf. destruct (Hm h Hwf) as [Hc ?]. split; [by eapply cut_below|done].
Qed.

Lemma unlink_removes q : evolves (removed q) (unlink q).
Proof.
  apply evolves_syscall; [apply _|apply same_removed|]. apply evolves_gets_bind. intros h.
  unfold node_at. destruct (h_fs h !! q) as [[data| |t]|] eqn:Hq; try (by apply reflexivity);
    (intros Hwf; split; [|done]; apply cut_delete;
     [intros ->; by rewrite (wf_root _ Hwf) in Hq|]; intros _; apply not_dir_no_children; [done|];
     by rewrite Hq).
Qed.
Lemma rmdir_removes q : evolves (removed q) (rmdir q).
Proof.
  apply evolves_syscall; [apply _|apply same_removed|]. apply evolves_gets_bind. intros h.
  case_bool_decide as Hne; [reflexivity|]. case_bool_decide as Hc; [|reflexivity].
  intros Hwf. split; [|done]. by apply cut_delete.
Qed.

Lemma remove_entry_removes subtree q name :
  evolves (removed (q ++ [name])) (subtree (q ++ [name])) →
  evolves (removed q) (remove_entry subtree (q ++ [name])).
Proof.
  intros Hs. apply (removed_below q (q ++ [name])); [by eexists|].
  apply (evolves_bind _); [apply (evolves_gets _)|].
  intros [[data| |t]|]; [apply unlink_removes|exact Hs|apply unlink_removes..].
Qed.

Lemma remove_tree_removes depth q : evolves (removed q) (remove_tree depth q).
Proof.
  revert q. induction depth as [|depth IH]; intros q; cbn [remove_tree]; [apply (evolves_lift _)|].
  apply (evolves_bind _).
  { apply evolves_syscall; [apply _|apply same_removed|apply (evolves_gets _)]. }
  intros names. apply (evolves_bind _); [|intros _; apply rmdir_removes].
  apply (evolves_for_each _). intros name _. apply remove_entry_removes, IH.
Qed.

(** With as much fuel as the tree is deep removal ends. *)
Definition fs_bounded (N : nat) h : Prop :=
  fs_wf (h_fs h) ∧ ∀ k n, h_fs h !! k = Some n → (length k ≤ N)%nat.

Lemma bounded_keeps N q {A} (m : HostM A) :
  evolves (removed q) m → preserves (fs_bounded N) m.
Proof.
  intros Hm h [Hwf Hb]. destruct (Hm h Hwf) as [Hc _]. split; [by eapply cut_wf|].
  intros k n Hk. destruct (cut_only _ _ _ Hc k) as [He|He]; rewrite He in Hk; [by eapply Hb|done].
Qed.

Lemma syscall_no_panic {A} call I (m : HostM A) :
  (∀ e h, I h → I (set_env e h)) → no_panic I m → no_panic I (syscall call m).
Proof.
  intros HI Hm h Hh Hp. destruct (syscall call m h) as [r h'] eqn:H. simpl in Hp. subst r.
  apply syscall_run in H as [(e&?&_)|[e H]]; [done|].
  specialize (Hm (set_env e h) (HI e h Hh)). by rewrite H in Hm.
Qed.

Lemma unlink_returns N q : no_panic (fs_bounded N) (unlink q).
Proof.
  apply syscall_no_panic; [done|]. intros h _. rewrite bind_run. unfold gets.
  by destruct (node_at q h) as [[]|].
Qed.
Lemma rmdir_returns N q : no_panic (fs_bounded N) (rmdir q).
Proof.
  apply syscall_no_panic; [done|]. intros h _. rewrite bind_run. unfold gets.
  repeat case_bool_decide; done.
Qed.

Lemma remove_tree_returns N depth q :
  (length q ≤ N)%nat → (N < depth + length q)%nat →
  no_panic (fs_bounded N) (remove_tree depth q).
Proof.
  revert q. induction depth as [|depth IH]; intros q Hq Hd; [lia|]. cbn [remove_tree].
  apply no_panic_bind; [by apply syscall_no_panic| |].
  { eapply (bounded_keeps N q), evolves_syscall;
      [apply _|apply same_removed|apply (evolves_gets _)]. }
  intros names. apply no_panic_bind; [| |intros _; apply rmdir_returns].
  - apply no_panic_for_each.
    + intros name h [Hwf Hb]. unfold remove_entry. rewrite bind_run.
      unfold gets, node_at. cbv beta iota.
      destruct (h_fs h !! (q ++ [name])) as [[data| |t]|] eqn:Hn;
        [by apply (unlink_returns N)| |by apply (unlink_returns N)..].
      pose proof (Hb _ _ Hn) as Hl. rewrite length_app in Hl. simpl in Hl.
      apply IH; [rewrite length_app; simpl; lia..|done].
    + intros name. apply (bounded_keeps N q), remove_entry_removes, remove_tree_removes.
  - apply (bounded_keeps N q), (evolves_for_each _). intros name _.
    apply remove_entry_removes, remove_tree_removes.
Qed.

(** No call on files panics. *)
Definition sound {A} (m : HostM A) : Prop := no_panic (λ _, True) m.

Lemma sound_bind {A B} (m : HostM A) (k : A → HostM B) :
  sound m → (∀ a, sound (k a)) → sound (m ≫= k).
Proof. intros Hm Hk. by apply no_panic_bind. Qed.
Lemma sound_syscall {A} call (m : HostM A) : sound m → sound (syscall call m).
Proof. by apply syscall_no_panic. Qed.
Lemma fs_read_sound p : sound (fs_read p).
Proof.
  apply sound_syscall, sound_bind; [intros h _; apply lookup_returns|]. intros q h _. unfold reads.
  by destruct (node_at q h) as [[]|].
Qed.
Lemma read_dir_sound p : sound (read_dir p).
Proof.
  apply sound_syscall, sound_bind; [intros h _; apply lookup_returns|]. intros q h _. unfold reads.
  by destruct (node_at q h) as [[]|].
Qed.
Lemma fs_depth_bounded h : fs_wf (h_fs h) → fs_bounded (fs_depth (h_fs h)) h.
Proof.
  intros Hwf. split; [done|]. intros k n Hk. unfold fs_depth. apply max_list_elem_of_le.
  apply list_elem_of_fmap. exists k. split; [done|]. apply list_elem_of_fmap.
  exists (k, n). split; [done|]. by apply elem_of_map_to_list.
Qed.
Lemma sound_lookup follow create parts p : sound (reads (lookup_parts follow create parts p)).
Proof. intros h _. apply lookup_returns. Qed.

Lemma canonicalize_sound p : sound (canonicalize p).
Proof.
  apply sound_syscall. intros h _. unfold reads, lookup_path.
  pose proof (lookup_returns h true false (path_parts p) p). by destruct (lookup_parts _ _ _ _ h).
Qed.
Lemma stat_sound follow p : sound (stat follow p).
Proof.
  apply sound_syscall, sound_bind; [apply sound_lookup|]. intros q h _. unfold reads.
  by destruct (node_at q h).
Qed.
Lemma path_is_dir_sound p : sound (path_is_dir p).
Proof. intros h _. unfold path_is_dir. by destruct (stat true p h). Qed.
Lemma mkdir_sound p : sound (mkdir p).
Proof.
  apply sound_syscall, sound_bind; [apply sound_lookup|]. intros q. apply sound_bind; [done|].
  by intros [].
Qed.
Lemma mkdir_or_sound p retry : (∀ e, sound (retry e)) → sound (mkdir_or p retry).
Proof.
  intros Hr h _. unfold mkdir_or. pose proof (mkdir_sound p h I).
  destruct (mkdir p h) as [[]]; [done|by apply Hr|done].
Qed.
Lemma dir_anyway_sound p e : sound (dir_anyway p e).
Proof. apply sound_bind; [apply path_is_dir_sound|by intros []]. Qed.
Lemma create_dirs_sound depth p : sound (create_dirs depth p).
Proof.
  revert p. induction depth as [|depth IH]; intros p;
    (cbn [create_dirs]; case_bool_decide; [done|]; apply mkdir_or_sound; intros e;
     destruct (negb _); [apply dir_anyway_sound|]); [done|].
  destruct (path_parent p) as [parent|]; [|done].
  apply sound_bind; [apply IH|]. intros _. apply mkdir_or_sound, dir_anyway_sound.
Qed.

(** A written file: what was looked up for creation, unless it is a directory. *)
Lemma fs_write_run p data h r h' :
  fs_write p data h = (r, h') →
  h_cwd h' = h_cwd h ∧ r ≠ Panic ∧
  ((h_fs h' = h_fs h ∧ r ≠ Ok ()) ∨
   ∃ q d, lookup_path true true p h = Ok q ∧ h_fs h !! q ≠ Some IDir
     ∧ h_fs h' = <[q := IFile d]> (h_fs h) ∧ (r = Ok () → d = data)).
Proof.
  unfold fs_write. rewrite bind_run. destruct (fs_open p h) as [r0 h0] eqn:H0. intros H.
  apply syscall_run in H0 as [(e&->&[Hs1 Hs2])|[e H0]].
  { injection H as <- <-. split_and!; [done|done|by left]. }
  rewrite bind_run in H0. unfold reads in H0.
  change (lookup_path true true p (set_env e h)) with (lookup_path true true p h) in H0.
  destruct (lookup_path true true p h) as [q|e'|] eqn:Hq;
    [|injection H0 as <- <-; injection H as <- <-; split_and!; [done|done|by left]
     |by apply lookup_returns in Hq].
  rewrite bind_run in H0. unfold gets, node_at in H0. cbn [h_fs set_env] in H0.
  assert (h_fs h !! q = Some IDir ∧ r0 = Err io_is_directory ∧ h0 = set_env e h
          ∨ h_fs h !! q ≠ Some IDir ∧ r0 = Ok q
            ∧ h0 = set_fs (<[q := IFile []]> (h_fs h)) (set_env e h)) as [(_&->&->)|(Hd&->&->)].
  { destruct (h_fs h !! q) as [[]|]; injection H0 as <- <-; auto. }
  { injection H as <- <-. split_and!; [done|done|by left]. }
  unfold fs_write_all in H. destruct (host_write_fault _ _) as [[[n error]|] e2];
    injection H as <- <-; cbn [h_fs set_fs set_env h_cwd]; rewrite insert_insert_eq;
    (split_and!; [done|done|]; right; eexists q, _; by split_and!).
Qed.

(** A renamed node goes where its new name was looked up, which is free or can be replaced. *)
Lemma rename_run from to h r h' :
  fs_wf (h_fs h) → rename from to h = (r, h') →
  h_cwd h' = h_cwd h ∧ r ≠ Panic ∧
  (h_fs h' = h_fs h ∨
   ∃ f t n, lookup_path false false from h = Ok f
     ∧ lookup_parts false true (pieces to) to h = Ok t
     ∧ h_fs h !! f = Some n ∧ ¬ f `prefix_of` t ∧ children t (h_fs h) = []
     ∧ h_fs h' = move_tree f t (h_fs h)).
Proof.
  intros Hwf H. apply syscall_run in H as [(e&->&[Hs1 Hs2])|[e H]]; [by split_and!; [..|left]|].
  rewrite bind_run in H. unfold reads in H.
  change (lookup_path false false from (set_env e h)) with (lookup_path false false from h) in H.
  destruct (lookup_path false false from h) as [f|e'|] eqn:Hf;
    [|injection H as <- <-; by split_and!; [..|left]|by apply lookup_returns in Hf].
  rewrite bind_run in H.
  change (lookup_parts false true (pieces to) to (set_env e h))
    with (lookup_parts false true (pieces to) to h) in H.
  destruct (lookup_parts false true (pieces to) to h) as [t|e'|] eqn:Ht;
    [|injection H as <- <-; by split_and!; [..|left]|by apply lookup_returns in Ht].
  unfold gets, node_at in H. repeat (rewrite bind_run in H; cbn [h_fs set_env] in H).
  case_bool_decide; [injection H as <- <-; by split_and!; [..|left]|].
  case_bool_decide; [injection H as <- <-; by split_and!; [..|left]|].
  assert ((∃ n, h_fs h !! f = Some n) ∧ children t (h_fs h) = [] ∧ r = Ok ()
          ∧ h' = set_fs (move_tree f t (h_fs h)) (set_env e h)
          ∨ r ≠ Panic ∧ h' = set_env e h) as [([n Hn]&Hc&->&->)|[Hr ->]].
  { pose proof (not_dir_no_children (h_fs h) t Hwf) as Hnd.
    destruct (h_fs h !! f) as [[]|] eqn:E1; destruct (h_fs h !! t) as [[]|] eqn:E2;
      try case_bool_decide; unfold modify, throw in H; injection H as <- <-;
      try (right; by split);
      left; split_and!; try done; first [by eexists|by apply Hnd]. }
  - split_and!; [done..|]. right. exists f, t, n. by split_and!.
  - split_and!; [done..|]. by left.
Qed.

(** Removing what is at a rendered location. *)
Lemma remove_dir_all_removed q n h :
  h_fs h !! q = Some n → removed q h (remove_dir_all (path_of q) h).2.
Proof.
  intros Hq Hwf. unfold remove_dir_all. rewrite bind_run.
  destruct (syscall _ _ h) as [r h1] eqn:H.
  apply syscall_run in H as [(e&->&Hs)|[e H]]; [by apply same_removed|].
  unfold reads in H.
  change (lookup_path false false (path_of q) (set_env e h))
    with (lookup_path false false (path_of q) h) in H.
  rewrite (lookup_exact _ _ _ _ n) in H by done. injection H as <- <-.
  assert (evolves (removed q)
    (node ← gets (node_at q);
     match node with
     | Some IDir => depth ← gets (λ h, fs_depth (h_fs h)); remove_tree (S depth) q
     | _ => unlink q
     end)) as Hev; [|by apply (Hev (set_env e h))].
  apply (evolves_bind _); [apply (evolves_gets _)|].
  intros [[data| |t]|]; [apply unlink_removes| |apply unlink_removes..].
  apply (evolves_bind _); [apply (evolves_gets _)|]. intros depth. apply remove_tree_removes.
Qed.
Lemma remove_file_removed q n h :
  h_fs h !! q = Some n → removed q h (remove_file (path_of q) h).2.
Proof.
  intros Hq Hwf. unfold remove_file. rewrite bind_run. unfold reads.
  rewrite (lookup_exact _ _ _ _ n) by done. by apply unlink_removes.
Qed.
End effects.

(** ** A host that refuses nothing *)
Class QuietHost (E Stream : Type) `{HE : !HostEnv E Stream} : Type := {
  quiet : E → Prop;
  quiet_fault call e : quiet e → host_fault call e = (None, e);
  quiet_write data e : quiet e → host_write_fault data e = (None, e);
  quiet_print text e : quiet e → quiet (print text e).2;
  quiet_flush e : quiet e → quiet (stdout_flush e).2;
  quiet_stdin e : quiet e → quiet (stdin_read_line e).2;
  quiet_password prompt e : quiet e → quiet (prompt_password prompt e).2;
  quiet_random buf e : quiet e → quiet (getrandom_fill buf e).2;
  quiet_now e : quiet e → quiet (instant_now e).2;
  quiet_connect host port e : quiet e → quiet (tcp_connect host port e).2;
  quiet_tcp_write stream data e : quiet e → quiet (tcp_write stream data e).2;
  quiet_tcp_read stream out e : quiet e → quiet (tcp_read stream out e).2;
  (** [getrandom] fills the whole buffer. *)
  random_length buf e b e' : getrandom_fill buf e = (Ok b, e') → length b = length buf }.

Section quiet.
Context {E Stream : Type} `{HE : !HostEnv E Stream} `{QH : !QuietHost E Stream}.
Implicit Types h : Host E.

(** Calls on files leave the rest of a quiet host alone. *)
Definition env_same h h' : Prop := quiet (h_env h) → h_env h' = h_env h.
#[export] Instance env_same_preorder : PreOrder env_same.
Proof.
  split; [done|]. intros h1 h2 h3 H1 H2 Hq. rewrite H2; [by apply H1|]. by rewrite H1.
Qed.

Lemma set_env_same h : set_env (h_env h) h = h.
Proof. by destruct h. Qed.
Lemma syscall_quiet {A} call (m : M (Host E) IoError A) h :
  quiet (h_env h) → syscall call m h = m h.
Proof. intros Hq. unfold syscall. by rewrite quiet_fault, set_env_same. Qed.

Lemma env_syscall {A} call (m : M (Host E) IoError A) :
  evolves env_same m → evolves env_same (syscall call m).
Proof. intros Hm h Hq. rewrite syscall_quiet by done. by apply Hm. Qed.
Lemma env_modify f : evolves env_same (modify (E := IoError) (λ h, set_fs (f h) h)).
Proof. done. Qed.

Ltac env_tac := first [apply env_syscall | apply env_modify].
Ltac env_walk := evolve_with env_tac.

Lemma env_canonicalize p : evolves env_same (canonicalize p).
Proof. unfold canonicalize. env_walk. Qed.
Lemma env_stat follow p : evolves env_same (stat follow p).
Proof. unfold stat. env_walk. Qed.
Lemma env_is_dir p : evolves env_same (path_is_dir p).
Proof. intros h. unfold path_is_dir. pose proof (env_stat true p h). by destruct (stat true p h). Qed.
Lemma env_mkdir p : evolves env_same (mkdir p).
Proof. unfold mkdir. env_walk. Qed.
Lemma env_mkdir_or p retry :
  (∀ e, evolves env_same (retry e)) → evolves env_same (mkdir_or p retry).
Proof.
  intros Hr h. unfold mkdir_or. pose proof (env_mkdir p h) as Hm.
  destruct (mkdir p h) as [[[]|e|] h1]; [done| |done]. etrans; [exact Hm|apply Hr].
Qed.
Lemma env_dir_anyway p e : evolves env_same (dir_anyway p e).
Proof. apply (evolves_bind _); [apply env_is_dir|]. env_walk. Qed.
Lemma env_create_dirs depth p : evolves env_same (create_dirs depth p).
Proof.
  revert p. induction depth as [|depth IH]; intros p;
    (cbn [create_dirs]; case_bool_decide; [apply (evolves_ret _)|]; apply env_mkdir_or;
     intros e; destruct (negb _); [apply env_dir_anyway|]); [apply (evolves_throw _)|].
  destruct (path_parent p) as [parent|]; [|apply (evolves_throw _)].
  apply (evolves_bind _); [apply IH|]. intros _. apply env_mkdir_or, env_dir_anyway.
Qed.
Lemma env_read p : evolves env_same (fs_read p).
Proof. unfold fs_read. env_walk. Qed.
Lemma env_read_dir p : evolves env_same (read_dir p).
Proof. unfold read_dir. env_walk. Qed.
Lemma env_write p data : evolves env_same (fs_write p data).
Proof.
  apply (evolves_bind _); [unfold fs_open; env_walk|]. intros q h Hq. unfold fs_write_all.
  by rewrite quiet_write.
Qed.
(** Without faults a write succeeds or changes nothing. *)
Lemma fs_write_quiet p data h :
  quiet (h_env h) →
  fs_write p data h =
  match lookup_path true true p h with
  | Ok q => if bool_decide (h_fs h !! q = Some IDir) then (Err io_is_directory, h)
            else (Ok (), set_fs (<[q := IFile data]> (h_fs h)) h)
  | Err e => (Err e, h)
  | Panic => (Panic, h)
  end.
Proof.
  intros Hq. unfold fs_write, fs_open. rewrite bind_run, syscall_quiet by done.
  rewrite bind_run. unfold reads. destruct (lookup_path true true p h) as [q|e|]; [|done..].
  rewrite bind_run. unfold gets, node_at. cbv beta iota.
  destruct (h_fs h !! q) as [[data'| |t]|] eqn:Hn;
    [|by rewrite bool_decide_true|..]; rewrite bool_decide_false by done;
    (rewrite bind_run; unfold modify, fs_write_all; cbn;
     rewrite quiet_write by done; unfold set_fs, set_env; cbn; by rewrite insert_insert_eq).
Qed.

Lemma env_unlink q : evolves env_same (unlink q).
Proof. unfold unlink. env_walk. Qed.
Lemma env_rmdir q : evolves env_same (rmdir q).
Proof. unfold rmdir. env_walk. Qed.
Lemma env_remove_file p : evolves env_same (remove_file p).
Proof. apply (evolves_bind _); [apply (evolves_reads _)|]. intros q. apply env_unlink. Qed.
Lemma env_remove_tree depth q : evolves env_same (remove_tree depth q).
Proof.
  revert q. induction depth as [|depth IH]; intros q; cbn [remove_tree]; [apply (evolves_lift _)|].
  apply (evolves_bind _); [env_walk|]. intros names.
  apply (evolves_bind _); [|intros _; apply env_rmdir]. apply (evolves_for_each _).
  intros name _. apply (evolves_bind _); [apply (evolves_gets _)|].
  intros [[]|]; [apply env_unlink|apply IH|apply env_unlink..].
Qed.
Lemma env_remove_dir_all p : evolves env_same (remove_dir_all p).
Proof.
  apply (evolves_bind _); [env_walk|]. intros q. apply (evolves_bind _); [apply (evolves_gets _)|].
  intros [[]|]; [apply env_unlink| |apply env_unlink..].
  apply (evolves_bind _); [apply (evolves_gets _)|]. intros depth. apply env_remove_tree.
Qed.
Lemma env_rename from to : evolves env_same (rename from to).
Proof. unfold rename. env_walk. Qed.

(** Without faults a directory is removed with everything in it. *)
Definition gone (q : location) h : Prop := ∀ k, q `prefix_of` k → h_fs h !! k = None.

Lemma unlink_quiet q n h :
  quiet (h_env h) → fs_wf (h_fs h) → h_fs h !! q = Some n → n ≠ IDir →
  unlink q h = (Ok (), set_fs (delete q (h_fs h)) h) ∧ gone q (set_fs (delete q (h_fs h)) h).
Proof.
  intros Hq Hwf Hn Hd. split.
  - unfold unlink. rewrite syscall_quiet by done. rewrite bind_run. unfold gets, node_at.
    cbv beta iota. rewrite Hn. by destruct n.
  - intros k Hk. cbn [h_fs set_fs]. destruct (decide (q = k)) as [->|Hne];
      [by rewrite lookup_delete_eq|]. rewrite lookup_delete_ne by done.
    apply (no_children_below _ q); [done| |done|done]. apply not_dir_no_children; [done|].
    rewrite Hn. congruence.
Qed.
Lemma rmdir_quiet q h :
  quiet (h_env h) → fs_wf (h_fs h) → q ≠ [] → children q (h_fs h) = [] →
  rmdir q h = (Ok (), set_fs (delete q (h_fs h)) h) ∧ gone q (set_fs (delete q (h_fs h)) h).
Proof.
  intros Hq Hwf Hne Hc. split.
  - unfold rmdir. rewrite syscall_quiet by done. rewrite bind_run. unfold gets. cbv beta iota.
    by rewrite (bool_decide_false (q = [])), (bool_decide_true (children _ _ = [])).
  - intros k Hk. cbn [h_fs set_fs]. destruct (decide (q = k)) as [->|Hx];
      [by rewrite lookup_delete_eq|]. rewrite lookup_delete_ne by done.
    by apply (no_children_below _ q).
Qed.

(** A quiet host with a well-formed file system of bounded depth. *)
Definition removable (N : nat) h : Prop := quiet (h_env h) ∧ fs_bounded N h.

Lemma removable_keeps N q {A} (m : M (Host E) IoError A) h :
  evolves (removed q) m → evolves env_same m → removable N h → removable N (m h).2.
Proof.
  intros Hm He [Hq Hb]. split; [by rewrite (He h Hq)|]. by apply (bounded_keeps N q m Hm).
Qed.

(** Every entry of a directory is removed in turn. *)
Lemma remove_entries N depth q names h :
  (∀ c h, removable N h → h_fs h !! (q ++ [c]) = Some IDir →
    ∃ h', remove_tree depth (q ++ [c]) h = (Ok (), h') ∧ gone (q ++ [c]) h') →
  removable N h → NoDup names →
  (∀ c, c ∈ names ↔ is_Some (h_fs h !! (q ++ [c]))) →
  ∃ h', for_each (λ name, remove_entry (remove_tree depth) (q ++ [name])) names h = (Ok (), h')
    ∧ removable N h' ∧ children q (h_fs h') = [].
Proof.
  intros Hsub. revert h. induction names as [|c names IH]; intros h Hr Hnd Hin.
  { exists h. split_and!; [done|done|]. apply elem_of_nil_inv. intros c Hc.
    apply elem_of_children, Hin in Hc. by apply elem_of_nil in Hc. }
  apply NoDup_cons in Hnd as [Hc Hnd].
  assert (∃ h1, remove_entry (remove_tree depth) (q ++ [c]) h = (Ok (), h1)
    ∧ gone (q ++ [c]) h1 ∧ removable N h1 ∧ cut (q ++ [c]) (h_fs h) (h_fs h1))
    as (h1&H1&Hg&Hr1&Hcut).
  { destruct (proj1 (Hin c)) as [n Hn]; [left|].
    pose proof Hr as [Hq [Hwf _]].
    assert (∃ h1, remove_entry (remove_tree depth) (q ++ [c]) h = (Ok (), h1) ∧ gone (q ++ [c]) h1)
      as (h1&H1&Hg).
    { unfold remove_entry. rewrite bind_run. unfold gets, node_at. cbv beta iota. rewrite Hn.
      destruct n as [data| |t]; [|by apply Hsub|];
        (edestruct (unlink_quiet (q ++ [c])) as [H1 Hg]; [done|done|exact Hn|done|]; eauto). }
    assert (evolves (removed (q ++ [c])) (remove_entry (remove_tree depth) (q ++ [c]))) as Hev.
    { apply (evolves_bind _); [apply (evolves_gets _)|].
      intros [[]|]; [apply unlink_removes|apply remove_tree_removes|apply unlink_removes..]. }
    assert (evolves env_same (remove_entry (remove_tree depth) (q ++ [c]))) as He.
    { apply (evolves_bind _); [apply (evolves_gets _)|].
      intros [[]|]; [apply env_unlink|apply env_remove_tree|apply env_unlink..]. }
    exists h1. pose proof (removable_keeps N _ _ h Hev He Hr) as Hr1.
    destruct (Hev h Hwf) as [Hcut _]. rewrite H1 in Hr1, Hcut. by split_and!. }
  destruct (IH h1) as (h2&H2&?&?); [done|done| |].
  { intros c'. destruct (decide (c' = c)) as [->|Hne].
    - split; [done|]. rewrite Hg by done. by intros [??].
    - rewrite (cut_outside _ _ _ Hcut).
      + rewrite <-Hin, elem_of_cons. naive_solver.
      + intros [l Hl]. rewrite <-app_assoc in Hl. apply (inj (app q)) in Hl. by injection Hl as ->. }
  exists h2. cbn [for_each]. rewrite bind_run, H1. by split_and!.
Qed.

Lemma remove_tree_quiet N depth q h :
  removable N h → q ≠ [] → h_fs h !! q = Some IDir → (N < depth + length q)%nat →
  ∃ h', remove_tree depth q h = (Ok (), h') ∧ gone q h'.
Proof.
  revert q h. induction depth as [|depth IH]; intros q h Hr Hne Hq Hd.
  { pose proof Hr as [_ [_ Hb]]. pose proof (Hb _ _ Hq). lia. }
  cbn [remove_tree]. rewrite bind_run, syscall_quiet by apply Hr. unfold gets. cbv beta iota.
  destruct (remove_entries N depth q (children q (h_fs h)) h) as (h1&H1&[Hq1 [Hwf1 _]]&Hc).
  - intros c h' Hr' Hk. apply IH; [done|by destruct q|done|]. rewrite length_app. simpl. lia.
  - done.
  - apply children_NoDup.
  - intros c. apply elem_of_children.
  - rewrite bind_run, H1. destruct (rmdir_quiet q h1) as [-> Hg]; [done..|]. by eexists.
Qed.

Lemma remove_dir_all_quiet q h :
  quiet (h_env h) → fs_wf (h_fs h) → q ≠ [] → h_fs h !! q = Some IDir →
  ∃ h', remove_dir_all (path_of q) h = (Ok (), h') ∧ gone q h' ∧ cut q (h_fs h) (h_fs h').
Proof.
  intros Hquiet Hwf Hne Hq.
  destruct (remove_tree_quiet (fs_depth (h_fs h)) (S (fs_depth (h_fs h))) q h) as (h'&H&Hg);
    [split; [done|by apply fs_depth_bounded]|done|done|lia|].
  exists h'. destruct (remove_tree_removes (S (fs_depth (h_fs h))) q h Hwf) as [Hcut _].
  rewrite H in Hcut. split_and!; [|done|done].
  unfold remove_dir_all. rewrite bind_run, syscall_quiet by done. unfold reads.
  rewrite (lookup_exact _ _ _ _ IDir) by done. rewrite bind_run. unfold gets, node_at.
  cbv beta iota. rewrite Hq. rewrite bind_run. exact H.
Qed.
End quiet.
