(* ===== verification/HostTree.v ===== *)
(** * Walking the directories of the host

    What the desktop program and the build tool share on top of [Host]: calls on a node
    through its rendered location, the order of paths, and the recursion over a directory
    tree that gathers paths ([walk]), with the proof that it ends and that it lists exactly
    the regular files it may see. *)
From S2P Require Import Prelude RustStr Text Vfs Host.

(** [str::replace('\\', "/")]. *)
Definition slashes (s : str) : str := (λ b, if bool_decide (b = backslash) then slash else b) <$> s.

(** [PathBuf] is ordered by components. *)
Fixpoint path_leb (left_ right_ : list str) : bool :=
  match left_, right_ with
  | [], _ => true
  | _ :: _, [] => false
  | x :: left_, y :: right_ =>
      if bool_decide (x = y) then path_leb left_ right_ else str_leb x y
  end.
Definition path_le (left_ right_ : str) : Prop :=
  path_leb (component_name <$> path_components left_) (component_name <$> path_components right_).
#[export] Instance path_le_dec x y : Decision (path_le x y).
Proof. unfold path_le. apply _. Defined.

(** ** The recursion *)
Section walk.
Context {E Stream X : Type} `{HE : !HostEnv E Stream} (err : IoError → X).
Notation HostX := (M (Host E) X).

(** One step of the iteration over a directory, which the host may refuse. *)
Definition next_entry : HostX () := with_err err (syscall SysReaddir (mret ())).

(** The loop over the entries of a directory: [visit] gets the name and the path. *)
Fixpoint collect_names (visit : str → str → HostX (list str)) (directory : str)
    (names : list str) : HostX (list str) :=
  match names with
  | [] => mret []
  | name :: names =>
      found ← (next_entry;; visit name (path_join directory name));
      rest ← collect_names visit directory names;
      mret (found ++ rest)
  end.

(** A function that calls itself on directories; [depth]: how far they are nested at most. *)
Fixpoint walk (entry : (str → HostX (list str)) → str → str → HostX (list str))
    (depth : nat) (directory : str) : HostX (list str) :=
  match depth with
  | O => hang
  | S depth =>
      names ← with_err err (read_dir directory);
      collect_names (entry (walk entry depth)) directory names
  end.
End walk.

(** ** Calls on a node through its location *)
Section nodes.
Context {E Stream : Type} `{HE : !HostEnv E Stream}.
Implicit Types h : Host E.

Lemma with_err_run {F A} (f : IoError → F) (m : M (Host E) IoError A) h r h' :
  with_err f m h = (r, h') → ∃ r0, m h = (r0, h') ∧ r = map_err f r0.
Proof. unfold with_err. destruct (m h) as [r0 h0]. intros [= <- <-]. by exists r0. Qed.
Lemma with_err_ok {F A} (f : IoError → F) (m : M (Host E) IoError A) h a h' :
  with_err f m h = (Ok a, h') → m h = (Ok a, h').
Proof. intros ([b| |]&H&Hr)%with_err_run; [|done..]. by injection Hr as ->. Qed.
Lemma evolves_with_err {F A} R (f : IoError → F) (m : M (Host E) IoError A) :
  evolves R m → evolves R (with_err f m).
Proof. intros Hm h. specialize (Hm h). unfold with_err. by destruct (m h). Qed.
Lemma sound_with_err {F A} (f : IoError → F) (m : M (Host E) IoError A) h :
  sound m → (with_err f m h).1 ≠ Panic.
Proof.
  intros Hm. specialize (Hm h I). unfold with_err. by destruct (m h) as [[] ?].
Qed.

(** A call that looks at a node. *)
Lemma syscall_at {A} call follow (g : location → Host E → res IoError A) k n h r h' :
  fs_wf (h_fs h) → h_fs h !! k = Some n → (follow = true → ∀ t, n ≠ ILink t) →
  syscall call (q ← reads (lookup_path follow false (path_of k)); reads (g q)) h = (r, h') →
  same_files h h' ∧ ((∃ e, r = Err e) ∨ ∃ e, r = g k (set_env e h)).
Proof.
  intros Hwf Hk Hl H. apply syscall_run in H as [(e&->&?)|[e H]]; [by split; [|left; eexists]|].
  rewrite bind_run in H. unfold reads in H.
  change (lookup_path follow false (path_of k) (set_env e h))
    with (lookup_path follow false (path_of k) h) in H.
  rewrite (lookup_exact _ _ _ _ n) in H by done. injection H as <- <-.
  split; [done|]. right. by exists e.
Qed.

Lemma stat_node follow k n h n' h' :
  fs_wf (h_fs h) → h_fs h !! k = Some n → (follow = true → ∀ t, n ≠ ILink t) →
  stat follow (path_of k) h = (Ok n', h') → n' = n ∧ same_files h h'.
Proof.
  intros Hwf Hk Hl H. apply (syscall_at _ _ _ _ n) in H as [Hs [[e ?]|[e H]]]; [done| |done..].
  unfold node_at in H. cbn [h_fs set_env] in H. rewrite Hk in H. by injection H.
Qed.

Lemma canonicalize_node k n h c h' :
  fs_wf (h_fs h) → h_fs h !! k = Some n → (∀ t, n ≠ ILink t) →
  canonicalize (path_of k) h = (Ok c, h') → c = path_of k ∧ same_files h h'.
Proof.
  intros Hwf Hk Hl H. pose proof (canonicalize_same (path_of k) h) as Hs. rewrite H in Hs.
  split; [|done]. apply syscall_run in H as [(e&?&_)|[e H]]; [done|]. unfold reads in H.
  change (lookup_path true false (path_of k) (set_env e h))
    with (lookup_path true false (path_of k) h) in H.
  rewrite (lookup_exact _ _ _ _ n) in H by auto. by injection H.
Qed.

Lemma read_dir_node q h names h' :
  fs_wf (h_fs h) → h_fs h !! q = Some IDir → read_dir (path_of q) h = (Ok names, h') →
  names = children q (h_fs h) ∧ same_files h h'.
Proof.
  intros Hwf Hq H. apply (syscall_at _ _ _ _ IDir) in H as [Hs [[e ?]|[e H]]]; [done| |done..].
  unfold node_at in H. cbn [h_fs set_env] in H. rewrite Hq in H. by injection H.
Qed.

Lemma fs_read_node k data h d h' :
  fs_wf (h_fs h) → h_fs h !! k = Some (IFile data) → fs_read (path_of k) h = (Ok d, h') →
  d = data ∧ same_files h h'.
Proof.
  intros Hwf Hk H. apply (syscall_at _ _ _ _ (IFile data)) in H as [Hs [[e ?]|[e H]]];
    [done| |done..].
  unfold node_at in H. cbn [h_fs set_env] in H. rewrite Hk in H. by injection H.
Qed.

(** A rendered location against the location of a directory above it. *)
Lemma strip_location rc k :
  Forall host_name k → rc `prefix_of` k →
  path_strip_prefix (path_of k) (path_of rc) = Some (join "/" (drop (length rc) k)).
Proof.
  intros Hk Hp. pose proof Hp as [l ->]. apply Forall_app in Hk as Hkk. destruct Hkk as [Hrc Hl].
  unfold path_strip_prefix. rewrite starts_with_location by done.
  rewrite bool_decide_true by done. rewrite !components_path_of by done. f_equal.
  rewrite fmap_app. simpl. rewrite length_fmap, drop_app_length.
  rewrite drop_app_exact by (by rewrite length_fmap). unfold path_from.
  destruct l as [|c l]; [done|]. simpl fmap. f_equal. simpl. f_equal.
  rewrite <-list_fmap_compose. apply list_fmap_id.
Qed.

Lemma path_of_inj_names q k :
  Forall host_name q → Forall host_name k → path_of q = path_of k → q = k.
Proof. intros Hq Hk H. by rewrite <-(pieces_location q), <-(pieces_location k), H. Qed.

Lemma join_child q c : Forall host_name (q ++ [c]) → path_join (path_of q) c = path_of (q ++ [c]).
Proof.
  intros [Hq [Hc _]%Forall_cons]%Forall_app. change c with (join "/" [c]) at 1.
  apply join_path_of; [done|done|]. apply Forall_singleton. by split; apply Hc.
Qed.
End nodes.

(** ** What the recursion gathers *)
Section lists.
Context (skip : str → Prop) `{Hskip : !∀ c, Decision (skip c)}.

(** A location below another with no name on the way that is to be skipped. *)
Definition visible (q k : location) : Prop := ∃ l, k = q ++ l ∧ Forall (λ c, ¬ skip c) l.

Lemma visible_refl q : visible q q.
Proof. exists []. by rewrite app_nil_r. Qed.
Lemma visible_prefix q k : visible q k → q `prefix_of` k.
Proof. intros (l&->&_). by eexists. Qed.
Lemma visible_child q c k : ¬ skip c → visible (q ++ [c]) k → visible q k.
Proof.
  intros Hc (l&->&Hl). exists (c :: l). rewrite <-app_assoc. split; [done|]. by constructor.
Qed.
Lemma visible_cons q k :
  visible q k → k ≠ q → ∃ c, ¬ skip c ∧ visible (q ++ [c]) k.
Proof.
  intros (l&->&Hl) Hne. destruct l as [|c l]; [by rewrite app_nil_r in Hne|].
  apply Forall_cons in Hl as [Hc Hl]. exists c. split; [done|]. exists l. by rewrite <-app_assoc.
Qed.

Lemma visible_one q c c' k : visible (q ++ [c]) k → visible (q ++ [c']) k → c = c'.
Proof.
  intros (l&->&_) (l'&Hx&_). rewrite <-!app_assoc in Hx. apply (inj (app q)) in Hx. by injection Hx.
Qed.

(** A list of the regular files that are visible from a location, each of them once, and no
    link among the nodes there. *)
Record lists_files (fs : FileSystem) (q : location) (paths : list str) : Prop := {
  lf_links k t : visible q k → fs !! k ≠ Some (ILink t);
  lf_once : NoDup paths;
  lf_files x : x ∈ paths ↔ ∃ k data, x = path_of k ∧ visible q k ∧ fs !! k = Some (IFile data) }.

Lemma leaf_lists fs k data :
  fs_wf fs → fs !! k = Some (IFile data) → lists_files fs k [path_of k].
Proof.
  intros Hwf Hk. assert (∀ k' n, visible k k' → fs !! k' = Some n → k' = k) as Hleaf.
  { intros k' n Hp%visible_prefix Hn. destruct (decide (k' = k)) as [|Hne]; [done|].
    assert (fs !! k' = None) as Hx; [|congruence].
    apply (no_children_below _ k); [done| |done|done].
    apply not_dir_no_children; [done|]. by rewrite Hk. }
  split.
  - intros k' t Hp Hn. pose proof (Hleaf _ _ Hp Hn) as ->. congruence.
  - apply NoDup_singleton.
  - intros x. rewrite list_elem_of_singleton. split.
    + intros ->. exists k, data. split_and!; [done|apply visible_refl|done].
    + intros (k'&d'&->&Hp&Hn). by rewrite (Hleaf _ _ Hp Hn).
Qed.

Context {E Stream X : Type} `{HE : !HostEnv E Stream} (err : IoError → X).
Implicit Types h : Host E.
Notation HostX := (M (Host E) X).

(** What is gathered at an entry [c] of a directory [q]. *)
Definition collects_at (visit : str → str → HostX (list str)) (q : location) (c : str) : Prop :=
  ∀ n h paths h', fs_wf (h_fs h) → h_fs h !! (q ++ [c]) = Some n →
    visit c (path_of (q ++ [c])) h = (Ok paths, h') →
    same_files h h' ∧ if decide (skip c) then paths = [] else lists_files (h_fs h) (q ++ [c]) paths.

Lemma next_entry_run h r h' :
  next_entry err h = (r, h') → same_files h h' ∧ r ≠ Panic.
Proof.
  intros H. apply with_err_run in H as (r0&H&->).
  apply syscall_run in H as [(e&->&?)|[e [= <- <-]]]; by split.
Qed.

Lemma collect_names_lists visit q names h paths h' :
  (∀ c, collects_at visit q c) → fs_wf (h_fs h) → Forall host_name q →
  (∀ c, c ∈ names → is_Some (h_fs h !! (q ++ [c]))) →
  collect_names err visit (path_of q) names h = (Ok paths, h') →
  same_files h h'
  ∧ (∀ c k t, c ∈ names → ¬ skip c → visible (q ++ [c]) k → h_fs h !! k ≠ Some (ILink t))
  ∧ (NoDup names → NoDup paths)
  ∧ ∀ x, x ∈ paths ↔ ∃ c k data, c ∈ names ∧ ¬ skip c ∧ x = path_of k ∧ visible (q ++ [c]) k
                                 ∧ h_fs h !! k = Some (IFile data).
Proof.
  intros Hcol. revert h paths h'. induction names as [|c names IH];
    intros h paths h' Hwf Hqn Hin H; cbn [collect_names] in H.
  { injection H as <- <-. split_and!; [done|..].
    - by intros c k t ?%elem_of_nil.
    - intros _. apply NoDup_nil_2.
    - intros x. split; [by intros ?%elem_of_nil|]. by intros (?&?&?&?%elem_of_nil&_). }
  destruct (Hin c) as [n Hn]; [left|]. pose proof (wf_names _ _ _ Hwf Hn) as Hnames.
  apply bind_ok_inv in H as (l1&h1&H1&H). apply bind_ok_inv in H as (l2&h2&H2&H).
  injection H as <- <-. apply bind_ok_inv in H1 as ([]&h0&H0&H1).
  apply next_entry_run in H0 as [Hs0 _]. pose proof Hs0 as [Hf0 _].
  rewrite join_child in H1 by done.
  apply (Hcol c n) in H1 as [Hs1 Hl1]; [|by rewrite Hf0..]. rewrite Hf0 in Hl1.
  pose proof Hs1 as [Hf1 _]. rewrite Hf0 in Hf1.
  apply IH in H2 as (Hs2&Hl2&Hd2&He2); [|by rewrite Hf1|done|].
  2: { intros c' Hc'. rewrite Hf1. apply Hin. by right. }
  rewrite Hf1 in Hl2, He2. split_and!; [by etrans; [|etrans]|..].
  - intros c' k t [->|Hc']%elem_of_cons Hsk; [|by apply Hl2].
    rewrite decide_False in Hl1 by done. by apply (lf_links _ _ _ Hl1).
  - intros [Hc Hd]%NoDup_cons. apply NoDup_app. split_and!; [| |by apply Hd2].
    { case_decide; [subst l1; apply NoDup_nil_2|apply (lf_once _ _ _ Hl1)]. }
    intros x Hx (c'&k'&d'&Hc'&_&Hk&Hv'&Hd')%He2. case_decide; [subst l1; by apply elem_of_nil in Hx|].
    apply (lf_files _ _ _ Hl1) in Hx as (k&d&->&Hv&Hkd).
    apply path_of_inj_names in Hk as <-; [|by eapply wf_names..].
    by rewrite (visible_one _ _ _ _ Hv Hv') in Hc.
  - intros x. rewrite elem_of_app, He2. case_decide as Hsk.
    + subst l1. split.
      * intros [?%elem_of_nil|(c'&k&d&?&?)]; [done|]. exists c', k, d. by split; [right|].
      * intros (c'&k&d&[->|Hc']%elem_of_cons&?&?); [done|]. right. by exists c', k, d.
    + destruct Hl1 as [_ _ He1]. rewrite He1. split.
      * intros [(k&d&?&?&?)|(c'&k&d&?&?&?&?&?)]; [exists c, k, d|exists c', k, d];
          split_and!; try done; [left|by right].
      * intros (c'&k&d&[->|Hc']%elem_of_cons&?&?&?&?); [left; by exists k, d|right].
        by exists c', k, d.
Qed.

(** What is visible in a directory is visible from one of its entries. *)
Lemma visible_entry fs q k n :
  fs_wf fs → visible q k → fs !! k = Some n → k ≠ q →
  ∃ c, c ∈ children q fs ∧ ¬ skip c ∧ visible (q ++ [c]) k.
Proof.
  intros Hwf Hv Hn Hne. destruct (visible_cons q k Hv Hne) as (c&Hc&Hv').
  exists c. split_and!; [|done|done]. apply elem_of_children.
  destruct Hv' as (l&->&_). destruct l as [|c' l]; [rewrite app_nil_r in Hn; by eexists|].
  exists IDir. by eapply wf_above.
Qed.

Context (entry : (str → HostX (list str)) → str → str → HostX (list str)).

Lemma walk_lists depth k h paths h' :
  (∀ subtree q c,
    (∀ h paths h', fs_wf (h_fs h) → h_fs h !! (q ++ [c]) = Some IDir →
      subtree (path_of (q ++ [c])) h = (Ok paths, h') →
      same_files h h' ∧ lists_files (h_fs h) (q ++ [c]) paths) →
    collects_at (entry subtree) q c) →
  fs_wf (h_fs h) → h_fs h !! k = Some IDir → walk err entry depth (path_of k) h = (Ok paths, h') →
  same_files h h' ∧ lists_files (h_fs h) k paths.
Proof.
  intros Hentry. revert k h paths h'.
  induction depth as [|depth IH]; intros k h paths h' Hwf Hk H; [done|]. cbn [walk] in H.
  apply bind_ok_inv in H as (names&h1&H1&H).
  apply with_err_ok, read_dir_node in H1 as [-> Hs1]; [|done..]. pose proof Hs1 as [Hf1 _].
  apply collect_names_lists in H as (Hs2&Hl&Hnd&He);
    [|intros c; apply Hentry; intros ???; apply IH|by rewrite Hf1|by eapply wf_names|
     rewrite Hf1; intros c Hc; by apply elem_of_children].
  rewrite Hf1 in Hl, He. split; [by etrans|]. split.
  - intros k' t Hv Hn. destruct (visible_entry (h_fs h) k k' (ILink t)) as (c&Hc&Hsk&Hv');
      [done..|intros ->; congruence|]. by apply (Hl c k' t).
  - apply Hnd, children_NoDup.
  - intros x. rewrite He. split.
    + intros (c&k'&d&Hc&Hsk&->&Hv&Hd). exists k', d. split_and!; [done| |done].
      by eapply visible_child.
    + intros (k'&d&->&Hv&Hd). destruct (visible_entry (h_fs h) k k' (IFile d)) as (c&Hc&Hsk&Hv');
        [done..|intros ->; congruence|]. by exists c, k', d.
Qed.

(** ** The recursion ends and changes nothing *)
Lemma next_entry_same : evolves same_files (next_entry err).
Proof.
  intros h. destruct (next_entry err h) as [r h'] eqn:H. by apply next_entry_run in H as [? _].
Qed.
Lemma collect_names_same (visit : str → str → HostX (list str)) directory names :
  (∀ c d, evolves same_files (visit c d)) →
  evolves same_files (collect_names err visit directory names).
Proof.
  intros Hs. induction names as [|name names IH]; [apply (evolves_ret _)|]. cbn [collect_names].
  apply (evolves_bind _); [apply (evolves_bind _); [apply next_entry_same|intros _; apply Hs]|].
  intros l. apply (evolves_bind _); [exact IH|]. intros l'. apply (evolves_ret _).
Qed.
Lemma walk_same depth directory :
  (∀ subtree c d, (∀ d, evolves same_files (subtree d)) → evolves same_files (entry subtree c d)) →
  evolves same_files (walk err entry depth directory).
Proof.
  intros Hs. revert directory. induction depth as [|depth IH]; intros d; cbn [walk];
    [apply (evolves_lift _)|].
  apply (evolves_bind _); [apply evolves_with_err, read_dir_same|]. intros names.
  apply collect_names_same. intros c path. by apply Hs.
Qed.

Lemma collect_names_returns (visit : str → str → HostX (list str)) q names h :
  fs_wf (h_fs h) → (∀ c d, evolves same_files (visit c d)) →
  (∀ c, c ∈ names → is_Some (h_fs h !! (q ++ [c]))) →
  (∀ c h', c ∈ names → same_files h h' → (visit c (path_of (q ++ [c])) h').1 ≠ Panic) →
  (collect_names err visit (path_of q) names h).1 ≠ Panic.
Proof.
  intros Hwf Hs. revert h Hwf. induction names as [|c names IH]; intros h Hwf Hin Hc; [done|].
  cbn [collect_names]. rewrite !bind_run.
  destruct (next_entry err h) as [r0 h0] eqn:H0. apply next_entry_run in H0 as [Hs0 Hn0].
  destruct r0 as [[]|e|]; [|done..]. destruct (Hin c) as [n Hn]; [left|].
  rewrite join_child by (by eapply wf_names).
  pose proof (Hc c h0 ltac:(left) Hs0) as Hnp. pose proof (Hs c (path_of (q ++ [c])) h0) as Hss.
  destruct (visit c (path_of (q ++ [c])) h0) as [[l|e|] h1]; [|done..]. cbn [snd] in Hss.
  assert (same_files h h1) as Hs1 by (by etrans). pose proof Hs1 as [Hf _]. rewrite bind_run.
  assert ((collect_names err visit (path_of q) names h1).1 ≠ Panic) as Hnp2.
  { apply IH; [by rewrite Hf|intros c' Hc'; rewrite Hf; apply Hin; by right|].
    intros c' h' Hc' Hs'. apply Hc; [by right|by etrans]. }
  by destruct (collect_names _ _ _ _ h1) as [[l'|e|] h2].
Qed.

Lemma walk_returns N depth k h :
  (∀ subtree c d, (∀ d, evolves same_files (subtree d)) → evolves same_files (entry subtree c d)) →
  (∀ subtree c k n h, fs_wf (h_fs h) → h_fs h !! k = Some n →
    (∀ h', same_files h h' → n = IDir → (subtree (path_of k) h').1 ≠ Panic) →
    (entry subtree c (path_of k) h).1 ≠ Panic) →
  fs_bounded N h → h_fs h !! k = Some IDir → (N < depth + length k)%nat →
  (walk err entry depth (path_of k) h).1 ≠ Panic.
Proof.
  intros Hsame Hentry. revert k h. induction depth as [|depth IH]; intros k h [Hwf Hb] Hk Hd.
  { pose proof (Hb _ _ Hk). lia. }
  cbn [walk]. rewrite bind_run.
  pose proof (sound_with_err err _ h (read_dir_sound (path_of k))) as Hnp.
  destruct (with_err _ _ h) as [[names|e|] h1] eqn:H1; [|done..].
  apply with_err_ok, read_dir_node in H1 as [-> Hs1]; [|done..]. pose proof Hs1 as [Hf1 _].
  apply collect_names_returns; [by rewrite Hf1|..].
  - intros c d. apply Hsame. intros d'. by apply walk_same.
  - rewrite Hf1. intros c Hc. by apply elem_of_children.
  - intros c h2 Hc Hs2. pose proof Hs2 as [Hf2 _]. apply elem_of_children in Hc as [n Hn].
    apply (Hentry _ _ _ n); [by rewrite Hf2, Hf1|by rewrite Hf2, Hf1|].
    intros h3 [Hf3 _] ->. assert (h_fs h3 = h_fs h) as Hf by congruence.
    pose proof (Hb _ _ Hn) as Hl. rewrite length_app in Hl. simpl in Hl.
    apply IH; [split; by rewrite Hf|by rewrite Hf|rewrite length_app; simpl; lia].
Qed.

(** A directory that is none cannot be walked. *)
Lemma walk_not_dir depth rc data h :
  fs_wf (h_fs h) → h_fs h !! rc = Some (IFile data) →
  ∃ e, (walk err entry (S depth) (path_of rc) h).1 = Err e.
Proof.
  intros Hwf Hrc. cbn [walk]. rewrite bind_run.
  destruct (with_err _ _ h) as [r h1] eqn:H1. apply with_err_run in H1 as (r0&H1&->).
  apply (syscall_at _ _ _ _ (IFile data)) in H1 as [_ [[e ->]|[e ->]]]; [by eexists| |done..].
  unfold node_at. cbn [h_fs set_env]. rewrite Hrc. by eexists.
Qed.
End lists.
