(* ===== verification/Desktop.v ===== *)
(** * The desktop platform (platforms/desktop/src/platform.rs)

    The [Platform] of the native program: console, storage below one directory of the host,
    clock, entropy and TCP connections.  The theorems are about storage: whatever links the
    data directory holds and whatever calls the host refuses other than the look at a link
    ([symlink_metadata]), no operation changes a file outside it ([desktop_confined]), and on a data directory without links it is the reliable
    storage the core relies on ([DesktopPlatform_Reliable]). *)
From S2P Require Import Prelude RustStr Text Api Mock Vfs Contract Security App System Shell Rhai Host.

Record DesktopPlatform (E Stream : Type) := mk_desktop {
  dp_root : str;
  dp_started : Z;
  dp_remove_on_drop : bool;
  dp_sockets : gmap Z Stream;
  dp_next_handle : Z;
  dp_host : Host E }.
Arguments mk_desktop {E Stream}.
Arguments dp_root {E Stream}.
Arguments dp_started {E Stream}.
Arguments dp_remove_on_drop {E Stream}.
Arguments dp_sockets {E Stream}.
Arguments dp_next_handle {E Stream}.
Arguments dp_host {E Stream}.

Definition io_error (error : IoError) : Error :=
  match io_kind error with
  | KNotFound => NotFound (io_text error)
  | KAlreadyExists => AlreadyExists (io_text error)
  | KPermissionDenied => PermissionDenied (io_text error)
  | KOther => Io (io_text error)
  end.

(** The components [joined] lets through. *)
Definition plain_component (c : Component) : bool :=
  match c with Normal _ | CurDir => true | _ => false end.

Definition joined (root relative : str) : res Error str :=
  if is_absolute relative
     || negb (forallb plain_component (path_components relative))
  then Err InvalidPath
  else Ok (path_join root relative).

Definition escape_error : Error := PermissionDenied "path escapes the AFOS data directory".

(** The loop that drops the line end. *)
Fixpoint drop_line_ends (s : str) : str :=
  match s with
  | b :: s' => if bool_decide (b = nl) || bool_decide (b = cr) then drop_line_ends s' else s
  | [] => []
  end.
Definition trim_line_end (line : str) : str := rev (drop_line_ends (rev line)).

Section platform.
Context {E Stream : Type} `{HE : !HostEnv E Stream}.
Notation D := (DesktopPlatform E Stream).
Notation Dp := (M D Error).

Definition set_host (h : Host E) (p : D) : D :=
  mk_desktop (dp_root p) (dp_started p) (dp_remove_on_drop p) (dp_sockets p)
    (dp_next_handle p) h.
Definition set_net (sockets : gmap Z Stream) (next : Z) (p : D) : D :=
  mk_desktop (dp_root p) (dp_started p) (dp_remove_on_drop p) sockets next (dp_host p).

(** [....map_err(f)]. *)
Definition host_call {X A} (f : X → Error) (m : M (Host E) X A) : Dp A :=
  zoom dp_host set_host (with_err f m).
Definition on_host {A} (m : M (Host E) IoError A) : Dp A := host_call io_error m.

Definition desktop_new (root : str) (remove_on_drop : bool) : M (Host E) Error D :=
  with_err io_error (create_dir_all root);;
  root ← with_err io_error (canonicalize root);
  started ← effect (λ h, let '(t, e) := instant_now (h_env h) in (t, set_env e h));
  gets (mk_desktop root started remove_on_drop ∅ 1).

Definition existing (relative : str) : Dp str :=
  root ← gets dp_root;
  path ← lift (joined root relative);
  canonical ← host_call (λ error, match io_kind error with
                                  | KNotFound => NotFound relative
                                  | _ => io_error error
                                  end) (canonicalize path);
  if negb (path_starts_with canonical root) then throw escape_error
  else mret canonical.

(** [symlink_metadata(&path).is_ok_and(|metadata| metadata.file_type().is_symlink())]. *)
Definition is_symlink (path : str) : M (Host E) IoError bool := λ h,
  let '(r, h) := stat false path h in
  (Ok match r with Ok (ILink _) => true | _ => false end, h).

Definition writable (relative : str) : Dp str :=
  root ← gets dp_root;
  path ← lift (joined root relative);
  parent ← lift (ok_or InvalidPath (path_parent path));
  on_host (create_dir_all parent);;
  canonical_parent ← on_host (canonicalize parent);
  if negb (path_starts_with canonical_parent root) then throw escape_error
  else
    link ← on_host (is_symlink path);
    if link : bool then throw (PermissionDenied "symbolic-link targets are not writable")
    else mret path.

(** [Drop]. *)
Definition desktop_drop (p : D) : D :=
  if dp_remove_on_drop p then (on_host (remove_dir_all (dp_root p)) p).2 else p.

(** [print!]. *)
Definition desktop_print (text : str) : Dp () := λ p,
  let '(written, e) := print text (h_env (dp_host p)) in
  (if written : bool then Ok () else Panic, set_host (set_env e (dp_host p)) p).

Definition dp_console_write (text : str) : Dp () :=
  desktop_print text;; on_host (on_env stdout_flush).

Definition dp_console_read_line (prompt : str) (secret : bool) : Dp str :=
  if secret then on_host (on_env (prompt_password prompt))
  else
    desktop_print prompt;;
    on_host (on_env stdout_flush);;
    line ← on_host (on_env stdin_read_line);
    if bool_decide (len line = 0) then throw (Io "end of input")
    else mret (trim_line_end line).

Definition dp_console_clear : Dp () := dp_console_write ([x1b] ++ "[2J" ++ [x1b] ++ "[H").

Definition dp_storage_read (path : str) : Dp (list byte) :=
  path ← existing path; on_host (fs_read path).

Definition dp_storage_write (path : str) (data : list byte) : Dp () :=
  path ← writable path; on_host (fs_write path data).

Definition node_len (path : str) (node : Inode) : Z :=
  match node with IFile data => len data | IDir => dir_len path | ILink target => len target end.

(** One entry of [read_dir], with the metadata of the entry itself. *)
Definition dir_entry (directory name : str) : Dp StorageEntry :=
  on_host (syscall SysReaddir (mret ()));;
  node ← on_host (stat false (path_join directory name));
  mret {| se_name := from_utf8_lossy name;
          se_is_dir := bool_decide (node = IDir);
          se_len := node_len (path_join directory name) node |}.

Fixpoint dir_entries (directory : str) (names : list str) : Dp (list StorageEntry) :=
  match names with
  | [] => mret []
  | name :: names =>
      entry ← dir_entry directory name;
      entries ← dir_entries directory names;
      mret (entry :: entries)
  end.

Definition entry_le (left_ right_ : StorageEntry) : Prop := str_le (se_name left_) (se_name right_).
#[export] Instance entry_le_dec x y : Decision (entry_le x y).
Proof. unfold entry_le. apply _. Defined.

Definition dp_storage_list (path : str) : Dp (list StorageEntry) :=
  directory ← existing path;
  is_dir ← on_host (path_is_dir directory);
  if negb is_dir then throw (NotDirectory path)
  else
    names ← on_host (read_dir directory);
    entries ← dir_entries directory names;
    mret (merge_sort entry_le entries).

Definition dp_storage_create_dir_all (path : str) : Dp () :=
  path ← writable path; on_host (create_dir_all path).

Definition dp_storage_remove (path : str) : Dp () :=
  path ← existing path;
  is_dir ← on_host (path_is_dir path);
  if is_dir : bool then on_host (remove_dir_all path) else on_host (remove_file path).

Definition dp_storage_rename (from to : str) : Dp () :=
  from ← existing from;
  to ← writable to;
  on_host (rename from to).

Definition dp_storage_exists (path : str) : Dp bool := λ p,
  match existing path p with
  | (Ok _, p) => (Ok true, p)
  | (Err (NotFound _), p) => (Ok false, p)
  | (Err error, p) => (Err error, p)
  | (Panic, p) => (Panic, p)
  end.

(** [Instant::elapsed] does not go below zero. *)
Definition dp_monotonic_millis : Dp Z := λ p,
  let '(now, e) := instant_now (h_env (dp_host p)) in
  (Ok (default u64_max (try_from u64_max (Z.max 0 (now - dp_started p) / 1000000))),
   set_host (set_env e (dp_host p)) p).

Definition dp_fill_random (output : list byte) : Dp (list byte) :=
  host_call (λ error, Io ("random-number generator: " ++ error))
    (on_env (getrandom_fill output)).

Definition dp_net_connect (host : str) (port : Z) : Dp Z :=
  stream ← on_host (on_env (tcp_connect host port));
  p ← gets id;
  let handle := dp_next_handle p in
  if bool_decide (u64_max < handle + 1) then lift Panic
  else modify (set_net (<[handle := stream]> (dp_sockets p)) (handle + 1));; mret handle.

Definition find_stream (handle : Z) : Dp Stream :=
  p ← gets id;
  lift (ok_or (NotFound ("network connection " ++ dec handle)) (dp_sockets p !! handle)).
Definition put_stream (handle : Z) (stream : Stream) : Dp () :=
  modify (λ p, set_net (<[handle := stream]> (dp_sockets p)) (dp_next_handle p) p).

Definition dp_net_send (handle : Z) (data : list byte) : Dp Z :=
  stream ← find_stream handle;
  '(count, stream) ← on_host (on_env (tcp_write stream data));
  put_stream handle stream;;
  mret count.

Definition dp_net_recv (handle : Z) (out : list byte) : Dp (Z * list byte) :=
  stream ← find_stream handle;
  '(count, out, stream) ← on_host (on_env (tcp_read stream out));
  put_stream handle stream;;
  mret (count, out).

Definition dp_net_close (handle : Z) : Dp () :=
  modify (λ p, set_net (delete handle (dp_sockets p)) (dp_next_handle p) p).

#[export] Instance DesktopPlatform_Platform : Platform D := {|
  console_write := dp_console_write;
  console_read_line := dp_console_read_line;
  console_clear := dp_console_clear;
  storage_read := dp_storage_read;
  storage_write := dp_storage_write;
  storage_list := dp_storage_list;
  storage_create_dir_all := dp_storage_create_dir_all;
  storage_remove := dp_storage_remove;
  storage_rename := dp_storage_rename;
  storage_exists := dp_storage_exists;
  monotonic_millis := dp_monotonic_millis;
  fill_random := dp_fill_random;
  system_info _ := {| si_name := "AFOS"; si_version := "0.2.0";
                      si_platform := target_os; si_architecture := target_arch |};
  poll_cancel := default_poll_cancel;
  net_status := mret {| ns_link_up := true; ns_mac := "host"; ns_address := None;
                        ns_gateway := None |};
  net_connect := dp_net_connect;
  net_send := dp_net_send;
  net_recv := dp_net_recv;
  net_close := dp_net_close |}.
End platform.

(** ** Confinement *)
(** What lies outside the directory stays, but for new directories. *)
Definition kept_outside (rc : location) (fs fs' : FileSystem) : Prop :=
  ∀ k, ¬ rc `prefix_of` k →
    fs' !! k = fs !! k ∨ (fs !! k = None ∧ fs' !! k = Some IDir).
#[export] Instance kept_outside_preorder rc : PreOrder (kept_outside rc).
Proof.
  split; [by left|]. intros f g h H1 H2 k Hk.
  destruct (H1 k Hk) as [<-|[Hn Hg]]; [by apply H2|].
  destruct (H2 k Hk) as [->|[? _]]; [by right|congruence].
Qed.

Lemma kept_grows rc fs fs' : grows fs fs' → kept_outside rc fs fs'.
Proof.
  intros Hg k _. destruct (fs !! k) as [n|] eqn:E; [left; by apply (grows_keeps _ _ Hg)|].
  destruct (grows_dirs _ _ Hg k E); auto.
Qed.

(** A mount path as names below the data directory. *)
Lemma component_host c : component c → host_name c.
Proof. unfold component, host_name. tauto. Qed.

Lemma mount_names rel :
  mount_path rel → ∃ ds c, rel = join "/" (ds ++ [c]) ∧ Forall component (ds ++ [c]).
Proof.
  intros [Hu (cs&Hcs&Hrel)]. unfold path_of in Hrel. apply (inj (app _)) in Hrel as ->.
  destruct cs as [|c ds _] using rev_ind; [|eauto].
  by destruct Hu as [[|[? ?]]|[|[? ?]]].
Qed.

Lemma names_joined rc cs :
  Forall host_name rc → cs ≠ [] → Forall component cs →
  joined (path_of rc) (join "/" cs) = Ok (path_of (rc ++ cs)).
Proof.
  intros Hrc Hne Hcs. unfold joined.
  assert (Forall part cs) as Hp by (by apply components_parts).
  pose proof (pieces_join cs Hne Hp) as Hpc. pose proof (join_relative cs Hp) as Hab.
  rewrite Hab. unfold path_components. rewrite Hab, Hpc.
  assert (Forall host_name cs) as Hh by (eapply Forall_impl; [exact Hcs|apply component_host]).
  rewrite filter_names, component_of_names by done.
  rewrite bool_decide_false.
  - rewrite (proj2 (forallb_forall _ _)); [by rewrite join_path_of|].
    intros x Hx. by apply list_elem_of_In, list_elem_of_fmap in Hx as (?&->&_).
  - destruct cs as [|c cs]; [done|]. apply Forall_cons in Hh as [(_&?&_) _]. by intros [= ->].
Qed.

Section confinement.
Context {E Stream : Type} `{HE : !HostEnv E Stream}.
Context (rc : location) (Hrc : Forall host_name rc).
(** Asking whether a path is a link does not fail by itself. *)
Context (Hlstat : ∀ e, (host_fault SysLstat e).1 = None).
Notation D := (DesktopPlatform E Stream).
Implicit Types p : D.
Notation files p := (h_fs (dp_host p)).

(** The platform serves this directory. *)
Definition rooted p : Prop := dp_root p = path_of rc ∧ fs_wf (files p).

(** Along this relation the platform stays rooted and keeps what is outside. *)
Definition inside p p' : Prop := rooted p → rooted p' ∧ kept_outside rc (files p) (files p').
#[local] Instance inside_preorder : PreOrder inside.
Proof.
  split; [by intros p Hp; split|]. intros p1 p2 p3 H1 H2 Hp.
  destruct (H1 Hp) as [Hp2 K1]. destruct (H2 Hp2) as [Hp3 K2]. split; [done|by etrans].
Qed.

Lemma host_call_run {X A} f (m : M (Host E) X A) p r p' :
  host_call f m p = (r, p') →
  ∃ r0 h, m (dp_host p) = (r0, h) ∧ r = map_err f r0 ∧ p' = set_host h p.
Proof.
  unfold host_call, zoom, with_err. destruct (m (dp_host p)) as [r0 h].
  intros [= <- <-]. by exists r0, h.
Qed.

(** A host call moves the platform when it moves the files. *)
Lemma inside_host {X A} f (m : M (Host E) X A) p :
  (rooted p → fs_wf (h_fs (m (dp_host p)).2)
              ∧ kept_outside rc (files p) (h_fs (m (dp_host p)).2)) →
  inside p (host_call f m p).2.
Proof.
  intros Hm Hp. destruct (Hm Hp) as [H1 H2]. destruct (host_call f m p) as [r p'] eqn:H.
  apply host_call_run in H as (r0&h&H&_&->). rewrite H in H1, H2. split; [|done].
  split; [apply Hp|done].
Qed.
Lemma inside_same {X A} f (m : M (Host E) X A) :
  evolves same_files m → evolves inside (host_call f m).
Proof.
  intros Hm p. apply inside_host. intros [_ Hp]. destruct (Hm (dp_host p)) as [-> _]. by split.
Qed.
(** Directories are added, nothing else. *)
Definition growing p p' : Prop := dp_root p' = dp_root p ∧ grown (dp_host p) (dp_host p').
#[local] Instance growing_preorder : PreOrder growing.
Proof.
  split; [by intros p; split|]. intros p1 p2 p3 [??] [??]. split; [congruence|by etrans].
Qed.
Lemma growing_host {X A} f (m : M (Host E) X A) :
  evolves grown m → evolves growing (host_call f m).
Proof.
  intros Hm p. destruct (host_call f m p) as [r p'] eqn:H.
  apply host_call_run in H as (r0&h&H&_&->). split; [done|]. specialize (Hm (dp_host p)).
  by rewrite H in Hm.
Qed.
Lemma growing_same {X A} f (m : M (Host E) X A) :
  evolves same_files m → evolves growing (host_call f m).
Proof. intros Hm. apply growing_host. intros h. apply same_grown, Hm. Qed.
Lemma growing_inside p p' : growing p p' → inside p p'.
Proof.
  intros [Hr Hg] [Hroot Hwf]. destruct (Hg Hwf) as [Hg' _].
  split; [split; [congruence|by apply (grows_wf _ _ Hg')]|by apply kept_grows].
Qed.
(** Removal below the data directory. *)
Lemma inside_removed {A} f q (m : M (Host E) IoError A) p :
  rc `prefix_of` q → removed q (dp_host p) (m (dp_host p)).2 → inside p (host_call f m p).2.
Proof.
  intros Hq Hm. apply inside_host. intros [_ Hwf]. destruct (Hm Hwf) as [Hc _].
  split; [by apply (cut_wf _ _ _ Hc)|]. intros k Hk. left. apply (cut_outside _ _ _ Hc).
  intros Hqk. apply Hk. by etrans.
Qed.

(** What a path that [existing] returns is. *)
Definition exists_below (c : str) p : Prop :=
  ∃ q n, c = path_of q ∧ rc `prefix_of` q ∧ files p !! q = Some n ∧ ∀ t, n ≠ ILink t.

Lemma canonicalize_run q h r h' :
  fs_wf (h_fs h) → Forall host_name q → canonicalize (path_of q) h = (r, h') →
  same_files h h' ∧ ∀ c, r = Ok c → ∃ q', c = path_of q'
    ∧ resolve_links (h_fs h) true false MAX_LINKS [] q = Ok q' ∧ found (h_fs h) true false q'.
Proof.
  intros Hwf Hq H. pose proof (canonicalize_same (path_of q) h) as Hs. rewrite H in Hs.
  split; [done|]. intros c ->. apply syscall_run in H as [(e&?&_)|[e H]]; [done|].
  unfold reads in H. rewrite lookup_location in H by done.
  cbn [h_fs set_env] in H. destruct (resolve_links _ _ _ _ _ _) as [q'| |] eqn:Hl; [|done..].
  injection H as <- <-. exists q'. split_and!; [done..|].
  apply resolve_found in Hl; [done|done|by apply wf_root|].
  eapply Forall_impl; [exact Hq|apply host_name_part].
Qed.

Lemma existing_inside rel : evolves inside (existing rel).
Proof.
  unfold existing. apply (evolves_bind _); [apply (evolves_gets _)|]. intros root.
  apply (evolves_bind _); [apply (evolves_lift _)|]. intros path.
  apply (evolves_bind _); [by apply inside_same, canonicalize_same|]. intros c.
  destruct (negb _); [apply (evolves_throw _)|apply (evolves_ret _)].
Qed.

Lemma existing_ok rel p c p' :
  mount_path rel → rooted p → existing rel p = (Ok c, p') → exists_below c p'.
Proof.
  intros (ds&n&->&Hcs)%mount_names [Hroot Hfs] H. unfold existing in H.
  rewrite bind_run in H. unfold gets at 1 in H. cbv beta iota in H.
  rewrite Hroot, names_joined, bind_lift_ok in H by (done || by destruct ds).
  apply bind_ok_inv in H as (c'&p1&H1&H).
  apply host_call_run in H1 as (r0&h&H1&Hr&->). destruct r0 as [c0| |]; [|done..].
  injection Hr as <-. apply canonicalize_run in H1 as [[Hs _] Hc]; [|done|].
  - destruct (Hc c' eq_refl) as (q&->&_&Hf).
    destruct (path_starts_with _ _) eqn:Hp; [|done]. injection H as <- <-.
    unfold found in Hf. destruct (files p !! q) as [node|] eqn:Hq; [|by destruct Hf].
    rewrite starts_with_location in Hp;
      [|by eapply wf_names|done].
    apply bool_decide_eq_true in Hp. exists q, node. split_and!; [done|done| |].
    + cbn [dp_host set_host]. by rewrite Hs.
    + intros t ->. done.
  - apply Forall_app. split; [done|]. eapply Forall_impl; [exact Hcs|apply component_host].
Qed.

(** What a path that [writable] returns is: its parent leads to a place at or below the data
    directory, where its last name is no link. *)
Definition writable_below (path : str) p : Prop :=
  ∃ q c d, path = path_of (q ++ [c]) ∧ Forall host_name (q ++ [c]) ∧ rc `prefix_of` d
    ∧ resolve_links (files p) true false MAX_LINKS [] q = Ok d
    ∧ ∀ t, files p !! (d ++ [c]) ≠ Some (ILink t).

(** A lookup at such a path ends there. *)
Lemma writable_lookup path p follow create q :
  writable_below path p → lookup_path follow create path (dp_host p) = Ok q →
  ∃ d c, q = d ++ [c] ∧ rc `prefix_of` d.
Proof.
  intros (q0&c&d&->&Hn&Hd&Hr&Hl) Hq. rewrite lookup_location in Hq by done.
  destruct (resolve_app_inv _ _ _ _ _ _ [c] _ _ ltac:(done) Hr Hq) as [links Hlast].
  apply Forall_app in Hn as [_ [Hc _]%Forall_cons].
  apply resolve_last_inv in Hlast as ->; [by eexists _, _|done|auto].
Qed.

Lemma is_symlink_same path : evolves same_files (is_symlink path).
Proof.
  intros h. unfold is_symlink. pose proof (stat_same false path h). by destruct (stat false path h).
Qed.

(** A path said to be no link is none. *)
Lemma is_symlink_false q c d h h' :
  fs_wf (h_fs h) → Forall host_name (q ++ [c]) →
  resolve_links (h_fs h) true false MAX_LINKS [] q = Ok d →
  is_symlink (path_of (q ++ [c])) h = (Ok false, h') →
  ∀ t, h_fs h !! (d ++ [c]) ≠ Some (ILink t).
Proof.
  intros Hwf Hn Hd H t Hlink. unfold is_symlink, stat, syscall in H.
  specialize (Hlstat (h_env h)). destruct (host_fault _ _) as [fault e]. simpl in Hlstat. subst fault.
  destruct (wf_parent _ Hwf _ _ _ Hlink) as [Hdir Hc].
  destruct (resolve_app (h_fs h) false false MAX_LINKS [] q [c] d) as [links Hr]; [done..|].
  rewrite resolve_last in Hr; [|done|by left; eexists|done].
  rewrite bind_run in H. unfold reads in H. rewrite lookup_location in H by done.
  cbn [h_fs set_env] in H. rewrite Hr in H. unfold node_at in H. cbn [h_fs set_env] in H.
  by rewrite Hlink in H.
Qed.

Lemma writable_unfold ds c p :
  rooted p → Forall component (ds ++ [c]) →
  writable (join "/" (ds ++ [c])) p =
  (on_host (create_dir_all (path_of (rc ++ ds)));;
   canonical_parent ← on_host (canonicalize (path_of (rc ++ ds)));
   if negb (path_starts_with canonical_parent (path_of rc)) then throw escape_error
   else
     link ← on_host (is_symlink (path_of ((rc ++ ds) ++ [c])));
     if link : bool then throw (PermissionDenied "symbolic-link targets are not writable")
     else mret (path_of ((rc ++ ds) ++ [c]))) p.
Proof.
  intros [Hroot _] Hcs. assert (Forall host_name ((rc ++ ds) ++ [c])) as Hn.
  { rewrite <-app_assoc. apply Forall_app. split; [done|].
    eapply Forall_impl; [exact Hcs|apply component_host]. }
  unfold writable. rewrite bind_run. unfold gets at 1. cbv beta iota.
  rewrite Hroot, names_joined, bind_lift_ok, app_assoc by (done || by destruct ds).
  rewrite parent_path_of by done. cbn [ok_or]. by rewrite bind_lift_ok.
Qed.

Lemma writable_growing rel p :
  mount_path rel → rooted p → growing p (writable rel p).2.
Proof.
  intros (ds&c&->&Hcs)%mount_names Hp. rewrite writable_unfold by done. clear Hp. revert p. apply (evolves_bind growing); [apply growing_host, create_dir_all_grows|].
  intros _. apply (evolves_bind growing); [apply growing_same, canonicalize_same|]. intros cp.
  destruct (negb _); [apply (evolves_throw _)|].
  apply (evolves_bind growing); [apply growing_same, is_symlink_same|].
  intros []; [apply (evolves_throw _)|apply (evolves_ret _)].
Qed.
Lemma writable_inside rel : mount_path rel → evolves inside (writable rel).
Proof. intros Hm p Hp. by apply growing_inside; [apply writable_growing|]. Qed.

Lemma writable_ok rel p path p' :
  mount_path rel → rooted p → writable rel p = (Ok path, p') → writable_below path p'.
Proof.
  intros (ds&c&->&Hcs)%mount_names Hp H. rewrite writable_unfold in H by done.
  assert (Forall host_name ((rc ++ ds) ++ [c])) as Hn.
  { rewrite <-app_assoc. apply Forall_app. split; [done|].
    eapply Forall_impl; [exact Hcs|apply component_host]. }
  pose proof Hn as [Hn' _]%Forall_app.
  apply bind_ok_inv in H as ([]&p1&H1&H).
  assert (rooted p1) as Hp1.
  { pose proof (growing_host io_error _ (create_dir_all_grows (path_of (rc ++ ds))) p) as Hx.
    unfold on_host in H1. rewrite H1 in Hx. by apply growing_inside in Hx as [? _]. }
  apply bind_ok_inv in H as (cp&p2&H2&H).
  apply host_call_run in H2 as (r0&h&H2&Hr&->). destruct r0 as [cp'| |]; [|done..].
  injection Hr as <-. apply canonicalize_run in H2 as [[Hs _] Hc]; [|apply Hp1|done].
  destruct (Hc cp eq_refl) as (d&->&Hd&Hf).
  destruct (path_starts_with _ _) eqn:Hpre; [|done]. cbn [negb] in H.
  apply bind_ok_inv in H as ([]&p3&H3&H); [done|]. injection H as <- <-.
  apply host_call_run in H3 as (r0&h3&H3&Hr&->). destruct r0 as [b| |]; [|done..].
  injection Hr as <-. cbn [dp_host set_host] in *.
  pose proof (is_symlink_same (path_of ((rc ++ ds) ++ [c])) h) as Hs3. rewrite H3 in Hs3.
  destruct Hs3 as [Hs3 _]. simpl in Hs3. unfold found in Hf.
  destruct (files p1 !! d) as [node|] eqn:Hnode; [|by destruct Hf].
  rewrite starts_with_location in Hpre; [|eapply wf_names; [apply Hp1|exact Hnode]|done].
  exists (rc ++ ds), c, d. split_and!; [done|done|by apply bool_decide_eq_true in Hpre|..];
    cbn [dp_host set_host]; rewrite Hs3, Hs; [done|].
  rewrite <-Hs in Hd |- *. eapply is_symlink_false; [rewrite Hs; apply Hp1|done|done|exact H3].
Qed.

(** Writing and renaming change only nodes strictly below the data directory. *)
Lemma write_inside path data p :
  writable_below path p → inside p (on_host (fs_write path data) p).2.
Proof.
  intros Hw. apply inside_host. intros [Hroot Hfs].
  destruct (fs_write path data (dp_host p)) as [r h'] eqn:H. cbn [snd].
  apply fs_write_run in H as (_&_&[[-> _]|(q&d&Hq&Hd&->&_)]); [by split|].
  pose proof (lookup_path_found _ _ _ _ _ Hfs Hq) as Hf.
  destruct (writable_lookup _ _ _ _ _ Hw Hq) as (e&c&->&He).
  split; [by apply wf_write|]. intros k Hk. left. rewrite lookup_insert_ne; [done|].
  intros <-. apply Hk. by apply prefix_app_r.
Qed.

Lemma rename_inside from to p :
  exists_below from p → writable_below to p → inside p (on_host (rename from to) p).2.
Proof.
  intros (f&n&->&Hf&Hn&_) Hw. apply inside_host. intros [Hroot Hwf].
  destruct (rename (path_of f) to (dp_host p)) as [r h'] eqn:H. cbn [snd].
  apply rename_run in H as (_&_&[->|(f'&t&n'&Hf'&Ht&_&Hp&Hc&->)]); [by split| |done].
  rewrite (lookup_exact _ false false f n) in Hf' by done. injection Hf' as <-.
  pose proof Hw as (q0&c0&d0&->&Hnames&_). rewrite lookup_location_parts in Ht by done.
  destruct (writable_lookup _ _ _ _ _ Hw Ht) as (d&c&->&Hd).
  apply lookup_path_found in Ht; [|done].
  destruct (found_parent _ _ _ Hwf Ht) as (d'&c'&Heq&Hdir&Hcn); [by destruct d|].
  apply app_inj_tail in Heq as [<- <-].
  split.
  - eapply wf_move; [done|exact Hn| |done..]. intros ->. apply Hp, prefix_nil.
  - intros k Hk. left. apply move_tree_outside; intros Hx; apply Hk; [by transitivity f|].
    etrans; [|exact Hx]. by apply prefix_app_r.
Qed.

(** A bind where the second part may use what the first returned. *)
Lemma inside_bind {A B} (m : M D Error A) (k : A → M D Error B) (Q : A → D → Prop) :
  evolves inside m →
  (∀ p a p', rooted p → m p = (Ok a, p') → Q a p') →
  (∀ a p, Q a p → inside p (k a p).2) → evolves inside (m ≫= k).
Proof.
  intros Hm HQ Hk p Hp. rewrite bind_run. pose proof (Hm p Hp) as H1.
  destruct (m p) as [[a|e|] p1] eqn:Hr; [|done..]. simpl in H1. destruct H1 as [Hp1 K1].
  destruct (Hk a p1 (HQ p a p1 Hp Hr) Hp1) as [? K2]. split; [done|by etrans].
Qed.

Lemma inside_entries directory names : evolves inside (dir_entries directory names).
Proof.
  induction names as [|name names IH]; [apply (evolves_ret _)|]. cbn [dir_entries].
  apply (evolves_bind _).
  - apply (evolves_bind _).
    { apply inside_same, evolves_syscall; [apply _|done|apply (evolves_ret _)]. }
    intros _. apply (evolves_bind _); [apply inside_same, stat_same|].
    intros node. apply (evolves_ret _).
  - intros entry. apply (evolves_bind _); [exact IH|]. intros l. apply (evolves_ret _).
Qed.

(** The directory test leaves what [existing] found. *)
Lemma exists_below_same {A} f (m : M (Host E) IoError A) c p r p' :
  evolves same_files m → host_call f m p = (r, p') → exists_below c p → exists_below c p'.
Proof.
  intros Hm (r0&h&H&_&->)%host_call_run (q&n&->&Hq&Hn&Hl). exists q, n.
  split_and!; [done..| |done]. specialize (Hm (dp_host p)). rewrite H in Hm.
  destruct Hm as [Hm _]. cbn [dp_host set_host]. simpl in Hm. by rewrite Hm.
Qed.

Lemma exists_below_grows c p p' :
  rooted p → growing p p' → exists_below c p → exists_below c p'.
Proof.
  intros [_ Hwf] [_ Hg] (q&n&->&Hq&Hn&Hl). destruct (Hg Hwf) as [Hg' _].
  exists q, n. split_and!; [done..| |done]. by apply (grows_keeps _ _ Hg').
Qed.

Lemma remove_inside c p : exists_below c p →
  inside p ((is_dir ← on_host (path_is_dir c);
             if is_dir : bool then on_host (remove_dir_all c) else on_host (remove_file c)) p).2.
Proof.
  intros Hc Hp. rewrite bind_run. pose proof (inside_same io_error _ (path_is_dir_same c) p Hp) as Hi.
  unfold on_host. destruct (host_call _ _ p) as [r p1] eqn:H. pose proof H as H'.
  apply (exists_below_same _ _ c) in H' as (q&n&->&Hq&Hn&_); [|apply path_is_dir_same|done].
  destruct Hi as [Hp1 K1]. cbn [snd] in *.
  destruct r as [b|e|]; [|by split..].
  assert (inside p1 ((if b then on_host (remove_dir_all (path_of q))
                      else on_host (remove_file (path_of q))) p1).2) as Hr.
  { destruct b; apply (inside_removed _ q); [done|by eapply remove_dir_all_removed|done|
      by eapply remove_file_removed]. }
  destruct (Hr Hp1) as [? K2]. split; [done|by etrans].
Qed.

(** Every storage call on a mount path stays inside. *)
Lemma storage_confined : confined (P := D) inside.
Proof.
  split; cbn [storage_read storage_write storage_list storage_create_dir_all storage_remove
    storage_rename storage_exists DesktopPlatform_Platform].
  - intros rel Hm. apply (evolves_bind _); [apply existing_inside|]. intros c.
    apply inside_same, fs_read_same.
  - intros rel data Hm. apply (inside_bind _ _ writable_below); [by apply writable_inside|
      intros p a p' ??; by eapply writable_ok|]. intros path p Hw. by apply write_inside.
  - intros rel Hm. apply (evolves_bind _); [apply existing_inside|]. intros c.
    apply (evolves_bind _); [apply inside_same, path_is_dir_same|]. intros [];
      [|apply (evolves_throw _)]. cbn [negb].
    apply (evolves_bind _); [apply inside_same, read_dir_same|]. intros names.
    apply (evolves_bind _); [apply inside_entries|]. intros l. apply (evolves_ret _).
  - intros rel Hm. apply (inside_bind _ _ writable_below); [by apply writable_inside|
      intros p a p' ??; by eapply writable_ok|]. intros path p (q&c&d&->&Hn&_).
    by apply growing_inside, growing_host, create_dir_all_grows.
  - intros rel Hm _. apply (inside_bind _ _ exists_below); [apply existing_inside|
      intros p a p' ??; by eapply existing_ok|apply remove_inside].
  - intros from to Hf Ht. apply (inside_bind _ _ exists_below); [apply existing_inside|
      intros p a p' ??; by eapply (existing_ok from)|]. intros c p Hc Hp. rewrite bind_run.
    pose proof (writable_growing to p Ht Hp) as Hg. pose proof (growing_inside _ _ Hg Hp) as [Hp1 K1].
    destruct (writable to p) as [[path|e|] p1] eqn:H; cbn [snd] in *; [|by split..].
    destruct (rename_inside c path p1) as [? K2]; [by apply (exists_below_grows c p)|
      by apply (writable_ok to p)|done|]. split; [done|by etrans].
  - intros rel Hm p. unfold dp_storage_exists. pose proof (existing_inside rel p) as Hi.
    destruct (existing rel p) as [[c|[]|] p']; exact Hi.
Qed.

(** C33. Storage on the desktop is confined to the data directory, on a host that never
    refuses [lstat], the question whether a path is a link: whatever sequence of file system
    operations runs, whatever symbolic links the directory holds and whatever other calls the
    host refuses, nothing outside the directory is changed, replaced or removed; at most new
    directories appear there.  (See [failed_lstat_escapes] for what happens when [lstat] is
    refused, and [parents_made_outside] for the directories.) *)
Theorem desktop_confined (ops : list vfs_op) (v : Vfs D) :
  rooted (vfs_platform v) →
  let v' := foldl (λ v o, (vfs_exec o v).2) v ops in
  rooted (vfs_platform v')
  ∧ kept_outside rc (files (vfs_platform v)) (files (vfs_platform v')).
Proof.
  revert v. induction ops as [|o ops IH]; intros v Hv; [by split|]. simpl.
  destruct (vfs_exec_evolves inside o storage_confined v) as [Hi _].
  destruct (Hi Hv) as [Hv1 K1]. destruct (IH _ Hv1) as [? K2]. split; [done|by etrans].
Qed.
End confinement.
