(* ===== verification/DesktopContract.v ===== *)
(** * The desktop platform as the core's storage

    On a data directory without symbolic links, under a host that refuses nothing, the
    desktop platform is the [ReliablePlatform] the theorems about the core ask for, and
    temporary storage is gone when the platform is dropped. *)
From S2P Require Import Prelude RustStr Text Api Mock Vfs Contract Host Desktop.

Section reliable.
Context {E Stream : Type} `{HE : !HostEnv E Stream} `{QH : !QuietHost E Stream}.
Notation D := (DesktopPlatform E Stream).
Implicit Types p : D.
Notation files p := (h_fs (dp_host p)).

Definition root_of p : location := pieces (dp_root p).

Record desktop_ok p : Prop := {
  ok_root : dp_root p = path_of (root_of p);
  ok_names : Forall host_name (root_of p);
  ok_wf : fs_wf (files p);
  ok_dir : files p !! root_of p = Some IDir;
  ok_links k t : root_of p `prefix_of` k → files p !! k ≠ Some (ILink t);
  ok_quiet : quiet (h_env (dp_host p)) }.

(** Where a relative path is on the host, and what it holds. *)
Definition place p (rel : str) : location := root_of p ++ pieces rel.
Definition desktop_stored p (rel : str) : option (list byte) :=
  if bool_decide (mount_path rel) then
    match files p !! place p rel with Some (IFile data) => Some data | _ => None end
  else None.

Lemma stored_mount p rel :
  mount_path rel →
  desktop_stored p rel =
    match files p !! place p rel with Some (IFile data) => Some data | _ => None end.
Proof. intros Hm. unfold desktop_stored. by rewrite bool_decide_true. Qed.

Lemma mount_pieces rel :
  mount_path rel → rel = join "/" (pieces rel) ∧ Forall component (pieces rel) ∧ pieces rel ≠ [].
Proof.
  intros (ds&c&->&Hcs)%mount_names.
  assert (ds ++ [c] ≠ []) as Hne by (by destruct ds).
  by rewrite (pieces_join _ Hne (components_parts _ Hcs)).
Qed.

Lemma place_names p rel :
  desktop_ok p → mount_path rel → Forall host_name (place p rel).
Proof.
  intros Hok (_&Hc&_)%mount_pieces. apply Forall_app. split; [apply Hok|].
  eapply Forall_impl; [exact Hc|apply component_host].
Qed.

Lemma place_plain p rel k t :
  desktop_ok p → k `prefix_of` place p rel → files p !! k ≠ Some (ILink t).
Proof.
  intros Hok Hk. destruct (prefix_weak_total k (root_of p) (place p rel)) as [Hp|Hp];
    [done|by eexists| |by apply Hok].
  destruct Hp as [l Hl]. destruct l as [|x l].
  - rewrite app_nil_r in Hl. rewrite <-Hl. by rewrite (ok_dir _ Hok).
  - pose proof (ok_dir _ Hok) as Hd. rewrite Hl in Hd.
    by rewrite (wf_above _ _ _ _ (ok_wf _ Hok) Hd).
Qed.

(** Places of different paths, and of paths not below one another. *)
Lemma place_inj p rel k :
  mount_path rel → mount_path k → place p rel = place p k → rel = k.
Proof.
  intros (Hr&_&_)%mount_pieces (Hk&_&_)%mount_pieces Heq%(inj (app _)).
  by rewrite Hr, Hk, Heq.
Qed.
Lemma place_under p rel k :
  mount_path rel → mount_path k → place p rel `prefix_of` place p k → under rel k.
Proof.
  intros (Hr&_&Hn)%mount_pieces (Hk&_&_)%mount_pieces Hp%prefix_app_inv.
  destruct Hp as [l Hl]. destruct l as [|x l].
  - rewrite app_nil_r in Hl. left. by rewrite Hr, Hk, Hl.
  - right. exists (join "/" (x :: l)). rewrite Hk, Hl, join_app by done. by rewrite <-Hr.
Qed.
Lemma place_not_root p rel : mount_path rel → ¬ place p rel `prefix_of` root_of p.
Proof.
  intros (_&_&Hn)%mount_pieces [l Hl]. unfold place in Hl. rewrite <-app_assoc in Hl.
  rewrite <-(app_nil_r (root_of p)) in Hl at 1. apply (inj (app _)) in Hl.
  by destruct (pieces rel).
Qed.

(** ** What keeps the invariant *)
Lemma ok_keeps p p' :
  desktop_ok p → dp_root p' = dp_root p → fs_wf (files p') →
  files p' !! root_of p = Some IDir →
  (∀ k t, files p' !! k = Some (ILink t) → ¬ root_of p `prefix_of` k) →
  quiet (h_env (dp_host p')) → desktop_ok p'.
Proof.
  intros Hok Hr Hwf Hd Hl Hq. assert (root_of p' = root_of p) as Hrr by (unfold root_of; by rewrite Hr).
  split; rewrite ?Hrr, ?Hr; [apply Hok|apply Hok|done|done| |done].
  intros k t Hk Hx. by apply (Hl k t).
Qed.

(** The files stay as they are. *)
Definition files_same p p' : Prop :=
  dp_root p' = dp_root p ∧ files p' = files p
  ∧ (quiet (h_env (dp_host p)) → quiet (h_env (dp_host p'))).
#[local] Instance files_same_preorder : PreOrder files_same.
Proof.
  split; [done|]. intros p1 p2 p3 (?&?&?) (?&?&?). split_and!; [congruence|congruence|auto].
Qed.

Lemma same_ok p p' :
  files_same p p' → desktop_ok p → desktop_ok p' ∧ ∀ k, desktop_stored p' k = desktop_stored p k.
Proof.
  intros (Hr&Hf&Hq) Hok. split.
  - apply (ok_keeps p); [done|done|rewrite Hf; apply Hok..| |apply Hq, Hok].
    intros k t Hk Hp. rewrite Hf in Hk. by apply (ok_links _ Hok k t).
  - intros k. unfold desktop_stored, place, root_of. by rewrite Hf, Hr.
Qed.

(** Directories are added. *)
Lemma growing_ok p p' :
  growing p p' → env_same (dp_host p) (dp_host p') → desktop_ok p →
  desktop_ok p' ∧ (∀ k, desktop_stored p' k = desktop_stored p k) ∧ root_of p' = root_of p
  ∧ grows (files p) (files p').
Proof.
  intros [Hr Hg] He Hok. destruct (Hg (ok_wf _ Hok)) as [Hg' _].
  assert (root_of p' = root_of p) as Hrr by (unfold root_of; by rewrite Hr).
  split_and!; [|..|done|done].
  - apply (ok_keeps p); [done|done|by apply (grows_wf _ _ Hg'), Hok|
      by apply (grows_keeps _ _ Hg'), Hok| |rewrite He by apply Hok; apply Hok].
    intros k t Hk Hp. destruct (files p !! k) as [n|] eqn:En.
    + rewrite (grows_keeps _ _ Hg' _ _ En) in Hk. injection Hk as ->. by apply (ok_links _ Hok k t).
    + destruct (grows_dirs _ _ Hg' k En); congruence.
  - intros k. unfold desktop_stored, place. rewrite Hrr. destruct (bool_decide _); [|done].
    destruct (files p !! (root_of p ++ pieces k)) as [n|] eqn:En.
    + by rewrite (grows_keeps _ _ Hg' _ _ En).
    + by destruct (grows_dirs _ _ Hg' _ En) as [->| ->].
Qed.

(** ** The operations *)
Lemma ok_rooted p : desktop_ok p → rooted (root_of p) p.
Proof. intros Hok. split; apply Hok. Qed.

Lemma host_call_same {X A} f (m : M (Host E) X A) p r :
  m (dp_host p) = (r, dp_host p) → host_call f m p = (map_err f r, p).
Proof. intros H. unfold host_call, zoom, with_err. rewrite H. by destruct p. Qed.

Definition env_kept p p' : Prop := env_same (dp_host p) (dp_host p').
#[local] Instance env_kept_preorder : PreOrder env_kept.
Proof.
  split; [by intros p|]. intros p1 p2 p3 H1 H2. unfold env_kept. by transitivity (dp_host p2).
Qed.
Lemma env_host {X A} f (m : M (Host E) X A) :
  evolves env_same m → evolves env_kept (host_call f m).
Proof.
  intros Hm p. destruct (host_call f m p) as [r p'] eqn:H.
  apply host_call_run in H as (r0&h&H&_&->). specialize (Hm (dp_host p)). by rewrite H in Hm.
Qed.

Lemma files_host {X A} f (m : M (Host E) X A) :
  evolves same_files m → evolves env_same m → evolves files_same (host_call f m).
Proof.
  intros Hm He p. pose proof (env_host f m He p) as Hp. destruct (host_call f m p) as [r p'] eqn:H.
  apply host_call_run in H as (r0&h&H&_&->). specialize (Hm (dp_host p)). rewrite H in Hm.
  destruct Hm as [Hm _]. split_and!; [done|done|]. intros Hq.
  pose proof (Hp Hq) as He'. cbn [dp_host set_host snd] in He' |- *. by rewrite He'.
Qed.

Lemma existing_unfold rel p :
  desktop_ok p → mount_path rel →
  existing rel p =
  (canonical ← host_call (λ error, match io_kind error with
                                   | KNotFound => NotFound rel
                                   | _ => io_error error
                                   end) (canonicalize (path_of (place p rel)));
   if negb (path_starts_with canonical (path_of (root_of p))) then throw escape_error
   else mret canonical) p.
Proof.
  intros Hok Hm. assert (joined (path_of (root_of p)) rel = Ok (path_of (place p rel))) as Hj.
  { destruct (mount_pieces rel Hm) as (Hr&Hc&Hn). rewrite Hr at 1.
    apply names_joined; [apply Hok|done|done]. }
  unfold existing. rewrite bind_run. unfold gets. cbv beta iota.
  by rewrite (ok_root _ Hok), Hj, bind_lift_ok.
Qed.

Lemma existing_found rel p n :
  desktop_ok p → mount_path rel → files p !! place p rel = Some n →
  existing rel p = (Ok (path_of (place p rel)), p).
Proof.
  intros Hok Hm Hn. rewrite existing_unfold by done. rewrite bind_run.
  rewrite (host_call_same _ _ _ (Ok (path_of (place p rel)))).
  - simpl. rewrite starts_with_location; [|by apply place_names|apply Hok].
    by rewrite bool_decide_true by (by eexists).
  - unfold canonicalize. rewrite syscall_quiet by apply Hok. unfold reads.
    rewrite (lookup_exact _ _ _ _ n); [done|apply Hok|done|].
    intros _ t ->. by apply (place_plain p rel (place p rel) t).
Qed.

Lemma existing_missing rel p :
  desktop_ok p → mount_path rel → files p !! place p rel = None →
  ∃ e, existing rel p = (Err e, p).
Proof.
  intros Hok Hm Hn. rewrite existing_unfold by done.
  destruct (lookup_missing (dp_host p) true (place p rel)) as [e He];
    [apply Hok|done|by apply place_names|intros k t Hk; by eapply place_plain|].
  eexists. rewrite bind_run. rewrite (host_call_same _ _ _ (Err e)); [done|].
  unfold canonicalize. rewrite syscall_quiet by apply Hok. unfold reads. by rewrite He.
Qed.

(** [existing] changes nothing. *)
Lemma existing_keeps rel p r p' :
  desktop_ok p → mount_path rel → existing rel p = (r, p') →
  p' = p ∧ r ≠ Panic ∧ (∀ c, r = Ok c → c = path_of (place p rel) ∧ is_Some (files p !! place p rel)).
Proof.
  intros Hok Hm H. destruct (files p !! place p rel) as [n|] eqn:Hn.
  - rewrite (existing_found _ _ n) in H by done. injection H as <- <-.
    split_and!; [done|done|]. intros c [= <-]. by split.
  - destruct (existing_missing rel p) as [e He]; [done..|]. rewrite He in H. by injection H as <- <-.
Qed.

Lemma writable_keeps rel p r p' :
  desktop_ok p → mount_path rel → writable rel p = (r, p') →
  growing p p' ∧ env_same (dp_host p) (dp_host p')
  ∧ ∀ path, r = Ok path → path = path_of (place p rel).
Proof.
  intros Hok Hm H. pose proof (writable_growing _ (ok_names _ Hok) rel p Hm (ok_rooted _ Hok)) as Hg.
  rewrite H in Hg. split; [done|]. clear Hg.
  destruct (mount_names rel Hm) as (ds&c&Hrel&Hcs).
  assert (pieces rel = ds ++ [c]) as Hpc.
  { rewrite Hrel. apply pieces_join; [by destruct ds|by apply components_parts]. }
  rewrite Hrel, (writable_unfold _ (ok_names _ Hok)) in H by (done || by apply ok_rooted).
  unfold place. rewrite Hpc, app_assoc. split.
  - change p' with ((r, p').2). rewrite <-H. revert p H Hok. intros p _ _.
    match goal with |- env_same _ (dp_host (?m p).2) =>
      assert (evolves env_kept m) as Hev; [|apply Hev] end.
    apply (evolves_bind _); [apply env_host, env_create_dirs|]. intros _.
    apply (evolves_bind _); [apply env_host, env_canonicalize|]. intros cp.
    destruct (negb _); [apply (evolves_throw _)|].
    apply (evolves_bind _); [apply env_host|intros []; [apply (evolves_throw _)|apply (evolves_ret _)]].
    intros h. unfold is_symlink. pose proof (env_stat false (path_of ((root_of p ++ ds) ++ [c])) h).
    by destruct (stat _ _ h).
  - intros path ->. apply bind_ok_inv in H as (?&?&_&H). apply bind_ok_inv in H as (cp&?&_&H).
    destruct (negb _); [done|]. apply bind_ok_inv in H as ([]&?&_&H); [done|]. by injection H.
Qed.

Lemma sound_host {X A} f (m : M (Host E) X A) p :
  (m (dp_host p)).1 ≠ Panic → (host_call f m p).1 ≠ Panic.
Proof. unfold host_call, zoom, with_err. by destruct (m (dp_host p)) as [[] ?]. Qed.

Lemma writable_returns rel p :
  desktop_ok p → mount_path rel → (writable rel p).1 ≠ Panic.
Proof.
  intros Hok (ds&c&->&Hcs)%mount_names.
  rewrite (writable_unfold _ (ok_names _ Hok)) by (done || by apply ok_rooted).
  apply (no_panic_bind (λ _, True)); [|done| |done].
  - intros q _. by apply sound_host, create_dirs_sound.
  - intros _. apply no_panic_bind; [intros q _; by apply sound_host, canonicalize_sound|done|].
    intros cp. destruct (negb _); [done|]. apply no_panic_bind; [|done|by intros []].
    intros q _. apply sound_host. unfold is_symlink. by destruct (stat _ _ _).
Qed.

(** A file put at a place. *)
Lemma written_ok rel data p p' :
  desktop_ok p → mount_path rel → dp_root p' = dp_root p →
  files p' = <[place p rel := IFile data]> (files p) →
  found (files p) true true (place p rel) → files p !! place p rel ≠ Some IDir →
  quiet (h_env (dp_host p')) →
  desktop_ok p' ∧ desktop_stored p' rel = Some data
  ∧ ∀ k, k ≠ rel → desktop_stored p' k = desktop_stored p k.
Proof.
  intros Hok Hm Hr Hf Hfound Hd Hq.
  assert (∀ k, place p' k = place p k) as Hpl by (intros k; unfold place, root_of; by rewrite Hr).
  split_and!.
  - apply (ok_keeps p); [done|done|..|done]; rewrite Hf.
    + apply wf_write; [apply Hok|done..].
    + rewrite lookup_insert_ne; [apply Hok|]. intros Heq.
      by apply (place_not_root p rel Hm); rewrite Heq.
    + intros k t [[_ ?]|[_ Hk]]%lookup_insert_Some Hp; [done|]. by apply (ok_links _ Hok k t).
  - rewrite stored_mount, Hpl, Hf, lookup_insert_eq by done. done.
  - intros k Hk. unfold desktop_stored. case_bool_decide as Hmk; [|done].
    rewrite Hpl, Hf, lookup_insert_ne; [done|]. intros Heq. by apply Hk, eq_sym, (place_inj p).
Qed.

(** Looking up a place for creation leads to it. *)
Lemma lookup_place follow create rel p q :
  desktop_ok p → mount_path rel →
  lookup_path follow create (path_of (place p rel)) (dp_host p) = Ok q →
  q = place p rel ∧ found (files p) follow create q.
Proof.
  intros Hok Hm Hl. split; [|by eapply lookup_path_found; [apply Hok|]].
  rewrite lookup_location in Hl by (by apply place_names).
  apply resolve_plain in Hl; [done|by apply place_names|]. intros k t Hk. by eapply place_plain.
Qed.

Lemma dp_write_spec rel data p r p' :
  desktop_ok p → mount_path rel → dp_storage_write rel data p = (r, p') →
  r ≠ Panic ∧ desktop_ok p' ∧ (∀ k, k ≠ rel → desktop_stored p' k = desktop_stored p k)
  ∧ (r = Ok () → desktop_stored p' rel = Some data)
  ∧ (r ≠ Ok () → desktop_stored p' rel = desktop_stored p rel).
Proof.
  intros Hok Hm H. unfold dp_storage_write in H. rewrite bind_run in H.
  pose proof (writable_returns rel p Hok Hm) as Hret.
  destruct (writable rel p) as [r1 p1] eqn:Hw.
  destruct (writable_keeps _ _ _ _ Hok Hm Hw) as (Hg&He&Hpath).
  destruct (growing_ok _ _ Hg He Hok) as (Hok1&Hs1&Hroot&_).
  destruct r1 as [path|e|]; [|injection H as <- <-; by split_and!|done].
  rewrite (Hpath path eq_refl) in H. clear Hpath Hret.
  assert (place p1 rel = place p rel) as Hpl by (unfold place; by rewrite Hroot).
  rewrite <-Hpl in H. apply host_call_run in H as (r0&h&H&->&->).
  rewrite fs_write_quiet in H by apply Hok1.
  destruct (lookup_path true true (path_of (place p1 rel)) (dp_host p1)) as [q|e|] eqn:Hl;
    [|injection H as <- <-|by apply lookup_returns in Hl].
  2: { assert (set_host (dp_host p1) p1 = p1) as -> by (by destruct p1). by split_and!. }
  destruct (decide (files p1 !! q = Some IDir)) as [Hd|Hd].
  { rewrite bool_decide_true in H by done. injection H as <- <-.
    assert (set_host (dp_host p1) p1 = p1) as -> by (by destruct p1). by split_and!. }
  rewrite bool_decide_false in H by done. injection H as <- <-.
  apply lookup_place in Hl as [-> Hfound]; [|done..].
  destruct (written_ok rel data p1 (set_host (set_fs (<[place p1 rel := IFile data]> (files p1))
    (dp_host p1)) p1)) as (?&?&Hs); [done..|apply Hok1|].
  split_and!; [done..| |done|done]. intros k Hk. by rewrite Hs.
Qed.

(** A call that only looks returns the same platform. *)
Lemma looks_same {X A} f (m : M (Host E) X A) p r p' :
  evolves same_files m → evolves env_same m → desktop_ok p → host_call f m p = (r, p') → p' = p.
Proof.
  intros Hm He Hok (r0&h&H&_&->)%host_call_run. specialize (Hm (dp_host p)).
  specialize (He (dp_host p) (ok_quiet _ Hok)). rewrite H in Hm, He. destruct Hm as [Hf Hc].
  simpl in *. destruct p as [root started drop sockets next [fs cwd env]]; simpl in *.
  destruct h as [fs' cwd' env']; simpl in *. by subst.
Qed.

Lemma removed_ok rel p p' :
  desktop_ok p → mount_path rel → dp_root p' = dp_root p →
  removed (place p rel) (dp_host p) (dp_host p') → env_same (dp_host p) (dp_host p') →
  desktop_ok p' ∧ ∀ k, ¬ under rel k → desktop_stored p' k = desktop_stored p k.
Proof.
  intros Hok Hm Hr Hrem He. destruct (Hrem (ok_wf _ Hok)) as [Hc _]. split.
  - apply (ok_keeps p); [done|done|by apply (cut_wf _ _ _ Hc), Hok| | |rewrite He; apply Hok].
    + rewrite (cut_outside _ _ _ Hc); [apply Hok|by apply place_not_root].
    + intros k t Hk Hp. destruct (cut_only _ _ _ Hc k) as [Hx|Hx]; rewrite Hx in Hk; [|done].
      by apply (ok_links _ Hok k t).
  - intros k Hk. unfold desktop_stored. case_bool_decide as Hmk; [|done].
    assert (place p' k = place p k) as -> by (unfold place, root_of; by rewrite Hr).
    rewrite (cut_outside _ _ _ Hc); [done|]. intros Hx. apply Hk. by eapply place_under.
Qed.

Lemma dp_remove_spec rel p r p' :
  desktop_ok p → mount_path rel → dp_storage_remove rel p = (r, p') →
  desktop_ok p' ∧ ∀ k, ¬ under rel k → desktop_stored p' k = desktop_stored p k.
Proof.
  intros Hok Hm H. unfold dp_storage_remove in H. rewrite bind_run in H.
  destruct (existing rel p) as [r1 p1] eqn:He.
  destruct (existing_keeps _ _ _ _ Hok Hm He) as (->&Hnp&Hc). clear He.
  destruct r1 as [c|e|]; [|by injection H as <- <-|done].
  destruct (Hc c eq_refl) as (->&[n Hn]). rewrite bind_run in H. unfold on_host in H.
  destruct (host_call io_error (path_is_dir (path_of (place p rel))) p) as [r2 p2] eqn:Hd.
  apply looks_same in Hd; [|apply path_is_dir_same|apply env_is_dir|done]. subst p2.
  destruct r2 as [b|e|]; [|by injection H as <- <-..].
  assert (∃ h', p' = set_host h' p ∧ removed (place p rel) (dp_host p) h' ∧ env_same (dp_host p) h')
    as (h'&->&Hrem&Henv); [|by apply (removed_ok rel p)].
  destruct b; apply host_call_run in H as (r0&h&H&_&->); exists h; (split; [done|]).
  - pose proof (remove_dir_all_removed _ _ _ Hn) as H1.
    pose proof (env_remove_dir_all (path_of (place p rel)) (dp_host p)) as H2.
    by rewrite H in H1, H2.
  - pose proof (remove_file_removed _ _ _ Hn) as H1.
    pose proof (env_remove_file (path_of (place p rel)) (dp_host p)) as H2.
    by rewrite H in H1, H2.
Qed.

Lemma read_stored p rel d :
  desktop_ok p → mount_path rel → desktop_stored p rel = Some d →
  dp_storage_read rel p = (Ok d, p).
Proof.
  intros Hok Hm Hs. rewrite stored_mount in Hs by done.
  destruct (h_fs (dp_host p) !! place p rel) as [[data| |]|] eqn:Hn; [|done..]. injection Hs as <-.
  unfold dp_storage_read. rewrite bind_run, (existing_found _ _ (IFile data)) by done.
  unfold on_host. rewrite (host_call_same _ _ _ (Ok data)); [done|].
  unfold fs_read. rewrite syscall_quiet by apply Hok. rewrite bind_run. unfold reads.
  rewrite (lookup_exact _ _ _ _ (IFile data)); [|apply Hok|done|done].
  unfold node_at. cbv beta iota. by rewrite Hn.
Qed.
Lemma read_not_stored p rel :
  desktop_ok p → mount_path rel → desktop_stored p rel = None →
  ∃ e, dp_storage_read rel p = (Err e, p).
Proof.
  intros Hok Hm Hs. rewrite stored_mount in Hs by done.
  unfold dp_storage_read. rewrite bind_run.
  destruct (h_fs (dp_host p) !! place p rel) as [n|] eqn:Hn.
  - rewrite (existing_found _ _ n) by done. unfold on_host.
    assert (∃ e, fs_read (path_of (place p rel)) (dp_host p) = (Err e, dp_host p)) as [e He].
    { unfold fs_read. rewrite syscall_quiet by apply Hok. rewrite bind_run. unfold reads.
      rewrite (lookup_exact _ _ _ _ n); [|apply Hok|done|].
      - unfold node_at. cbv beta iota. rewrite Hn. destruct n; [done|by eexists..].
      - intros _ t ->. by apply (place_plain p rel (place p rel) t). }
    eexists. by rewrite (host_call_same _ _ _ (Err e)).
  - destruct (existing_missing rel p) as [e He]; [done..|]. exists e. by rewrite He.
Qed.

Lemma dp_create_spec rel p r p' :
  desktop_ok p → mount_path rel → dp_storage_create_dir_all rel p = (r, p') →
  desktop_ok p' ∧ ∀ k, desktop_stored p' k = desktop_stored p k.
Proof.
  intros Hok Hm H. unfold dp_storage_create_dir_all in H.
  rewrite bind_run in H. destruct (writable rel p) as [r1 p1] eqn:Hw.
  destruct (writable_keeps _ _ _ _ Hok Hm Hw) as (Hg&He&_).
  destruct (growing_ok _ _ Hg He Hok) as (Hok1&Hs1&_).
  destruct r1 as [path|e|]; [|by injection H as <- <-..].
  unfold on_host in H.
  pose proof (growing_host io_error _ (create_dir_all_grows path) p1) as Hg2.
  pose proof (env_host io_error _ (env_create_dirs (length (path_components path)) path) p1) as He2.
  unfold create_dir_all in Hg2, H. rewrite H in Hg2, He2.
  destruct (growing_ok _ _ Hg2 He2 Hok1) as (?&Hs2&_). split; [done|]. intros k. by rewrite Hs2.
Qed.

(** A tree moved from one place to another. *)
Lemma moved_ok from to p p' n :
  desktop_ok p → mount_path from → mount_path to → dp_root p' = dp_root p →
  files p !! place p from = Some n → found (files p) false true (place p to) →
  ¬ place p from `prefix_of` place p to → children (place p to) (files p) = [] →
  files p' = move_tree (place p from) (place p to) (files p) →
  quiet (h_env (dp_host p')) →
  desktop_ok p'
  ∧ ∀ k, ¬ under from k → ¬ under to k → desktop_stored p' k = desktop_stored p k.
Proof.
  intros Hok Hmf Hmt Hr Hn Hft Hp Hch Hmv Hq. pose proof (ok_wf _ Hok) as Hwf.
  destruct (found_parent _ _ _ Hwf Hft) as (d&c&Heq&Hdir&Hcn).
  { intros Heq. apply (place_not_root p to Hmt). rewrite Heq. apply prefix_nil. }
  split.
  - apply (ok_keeps p); [done|done|..|done]; rewrite Hmv.
    + rewrite Heq in Hp, Hch |- *. eapply wf_move; [done|exact Hn| |done..].
      intros Hx. rewrite Hx in Hp. apply Hp, prefix_nil.
    + rewrite move_tree_outside; [apply Hok|by apply place_not_root..].
    + intros k t' [(l&->&Hl)|[Hk _]]%move_tree_Some Hpre.
      * apply (ok_links _ Hok (place p from ++ l) t'); [|done].
        unfold place. rewrite <-app_assoc. by eexists.
      * by apply (ok_links _ Hok k t').
  - intros k Hkf Hkt. unfold desktop_stored. case_bool_decide as Hmk; [|done].
    assert (place p' k = place p k) as -> by (unfold place, root_of; by rewrite Hr).
    rewrite Hmv, move_tree_outside; [done|..]; intros Hx; [apply Hkf|apply Hkt]; by eapply place_under.
Qed.

Lemma dp_rename_spec from to p r p' :
  desktop_ok p → mount_path from → mount_path to → dp_storage_rename from to p = (r, p') →
  desktop_ok p' ∧ ∀ k, ¬ under from k → ¬ under to k → desktop_stored p' k = desktop_stored p k.
Proof.
  intros Hok Hmf Hmt H. unfold dp_storage_rename in H. rewrite bind_run in H.
  destruct (existing from p) as [r1 p1] eqn:He.
  destruct (existing_keeps _ _ _ _ Hok Hmf He) as (->&Hnp&Hc). clear He.
  destruct r1 as [c|e|]; [|by injection H as <- <-|done].
  destruct (Hc c eq_refl) as (->&[n Hn]). clear Hc. rewrite bind_run in H.
  destruct (writable to p) as [r2 p2] eqn:Hw.
  destruct (writable_keeps _ _ _ _ Hok Hmt Hw) as (Hg&Henv&Hpath).
  destruct (growing_ok _ _ Hg Henv Hok) as (Hok2&Hs2&Hroot&Hgrows).
  destruct r2 as [path|e|]; [|by injection H as <- <-..].
  rewrite (Hpath path eq_refl) in H. clear Hpath Hnp.
  apply (grows_keeps _ _ Hgrows) in Hn.
  assert (place p from = place p2 from ∧ place p to = place p2 to) as [Hpf Hpt]
    by (unfold place; by rewrite Hroot). rewrite Hpf in Hn, H. rewrite Hpt in H.
  apply host_call_run in H as (r0&h&H&_&->).
  pose proof (env_rename (path_of (place p2 from)) (path_of (place p2 to)) (dp_host p2)) as Hq.
  rewrite H in Hq. specialize (Hq (ok_quiet _ Hok2)). cbn [snd] in Hq.
  apply rename_run in H as (_&_&[Hf|(f&t&n'&Hf&Ht&_&Hp&Hch&Hmv)]); [| |apply Hok2].
  { destruct (same_ok p2 (set_host h p2)) as [Hok3 Hs3]; [|done|].
    - split_and!; [done|done|]. intros ?. cbn [dp_host set_host]. by rewrite Hq.
    - split; [done|]. intros k _ _. by rewrite Hs3. }
  rewrite (lookup_exact _ _ _ _ n) in Hf by (done || apply Hok2). injection Hf as <-.
  rewrite lookup_location_parts in Ht by (by apply place_names).
  apply lookup_place in Ht as [-> Hft]; [|done..].
  destruct (moved_ok from to p2 (set_host h p2) n) as [? Hs]; [done..| |].
  { cbn [dp_host set_host]. rewrite Hq. apply Hok2. }
  split; [done|]. intros k ??. by rewrite Hs.
Qed.

(** ** The rest of the platform leaves the files alone *)
Lemma on_env_files {X A} f (m : M E X A) :
  (∀ e, quiet e → quiet (m e).2) → evolves files_same (host_call f (on_env m)).
Proof.
  intros Hm p. unfold host_call, zoom, with_err, on_env, zoom.
  specialize (Hm (h_env (dp_host p))). by destruct (m (h_env (dp_host p))).
Qed.
Lemma print_files text : evolves files_same (desktop_print text).
Proof.
  intros p. unfold desktop_print. pose proof (quiet_print text (h_env (dp_host p))).
  by destruct (print _ _).
Qed.
Lemma console_files text : evolves files_same (dp_console_write text).
Proof.
  apply (evolves_bind _); [apply print_files|]. intros _. apply on_env_files, quiet_flush.
Qed.
Lemma read_line_files prompt secret : evolves files_same (dp_console_read_line prompt secret).
Proof.
  unfold dp_console_read_line. destruct secret; [apply on_env_files, quiet_password|].
  apply (evolves_bind _); [apply print_files|]. intros _.
  apply (evolves_bind _); [apply on_env_files, quiet_flush|]. intros _.
  apply (evolves_bind _); [apply on_env_files, quiet_stdin|]. intros line.
  destruct (bool_decide _); [apply (evolves_throw _)|apply (evolves_ret _)].
Qed.
Lemma find_stream_files h : evolves files_same (find_stream h).
Proof. apply (evolves_bind _); [apply (evolves_gets _)|]. intros p. apply (evolves_lift _). Qed.
Lemma connect_files host port : evolves files_same (dp_net_connect host port).
Proof.
  apply (evolves_bind _); [apply on_env_files, quiet_connect|]. intros stream.
  apply (evolves_bind _); [apply (evolves_gets _)|]. intros p.
  destruct (bool_decide (u64_max < dp_next_handle p + 1)) eqn:Hb; cbv zeta; rewrite Hb;
    [apply (evolves_lift _)|].
  apply (evolves_bind _); [done|]. intros _. apply (evolves_ret _).
Qed.
Lemma send_files handle data : evolves files_same (dp_net_send handle data).
Proof.
  apply (evolves_bind _); [apply find_stream_files|]. intros stream.
  apply (evolves_bind _); [apply on_env_files, quiet_tcp_write|]. intros [count s].
  apply (evolves_bind _); [done|]. intros _. apply (evolves_ret _).
Qed.
Lemma recv_files handle out : evolves files_same (dp_net_recv handle out).
Proof.
  apply (evolves_bind _); [apply find_stream_files|]. intros stream.
  apply (evolves_bind _); [apply on_env_files, quiet_tcp_read|]. intros [[count o] s].
  apply (evolves_bind _); [done|]. intros _. apply (evolves_ret _).
Qed.
Lemma entries_files directory names : evolves files_same (dir_entries directory names).
Proof.
  induction names as [|name names IH]; [apply (evolves_ret _)|]. cbn [dir_entries].
  apply (evolves_bind _).
  - apply (evolves_bind _).
    { apply files_host; [apply evolves_syscall; [apply _|done|]|apply env_syscall];
        apply (evolves_ret _). }
    intros _. apply (evolves_bind _); [apply files_host; [apply stat_same|apply env_stat]|].
    intros node. apply (evolves_ret _).
  - intros entry. apply (evolves_bind _); [exact IH|]. intros l. apply (evolves_ret _).
Qed.
Lemma existing_files rel : evolves files_same (existing rel).
Proof.
  apply (evolves_bind _); [apply (evolves_gets _)|]. intros root.
  apply (evolves_bind _); [apply (evolves_lift _)|]. intros path.
  apply (evolves_bind _); [apply files_host; [apply canonicalize_same|apply env_canonicalize]|].
  intros c. destruct (negb _); [apply (evolves_throw _)|apply (evolves_ret _)].
Qed.
Lemma read_files rel : evolves files_same (dp_storage_read rel).
Proof.
  apply (evolves_bind _); [apply existing_files|]. intros c.
  apply files_host; [apply fs_read_same|apply env_read].
Qed.
Lemma list_files rel : evolves files_same (dp_storage_list rel).
Proof.
  apply (evolves_bind _); [apply existing_files|]. intros c.
  apply (evolves_bind _); [apply files_host; [apply path_is_dir_same|apply env_is_dir]|].
  intros []; [|apply (evolves_throw _)]. cbn [negb].
  apply (evolves_bind _); [apply files_host; [apply read_dir_same|apply env_read_dir]|].
  intros names. apply (evolves_bind _); [apply entries_files|]. intros l. apply (evolves_ret _).
Qed.
Lemma exists_files rel : evolves files_same (dp_storage_exists rel).
Proof.
  intros p. unfold dp_storage_exists. pose proof (existing_files rel p) as H.
  by destruct (existing rel p) as [[c|[]|] p'].
Qed.
Lemma clock_files : evolves files_same dp_monotonic_millis.
Proof.
  intros p. unfold dp_monotonic_millis. pose proof (quiet_now (h_env (dp_host p))).
  by destruct (instant_now _).
Qed.

Lemma keeps_law {A} (m : M D Error A) p r p' :
  evolves files_same m → desktop_ok p → m p = (r, p') →
  desktop_ok p' ∧ ∀ k, desktop_stored p' k = desktop_stored p k.
Proof. intros Hm Hok H. specialize (Hm p). rewrite H in Hm. by apply same_ok. Qed.
End reliable.

#[export] Program Instance DesktopPlatform_Reliable {E Stream} `{HE : !HostEnv E Stream}
    `{QH : !QuietHost E Stream} : ReliablePlatform (DesktopPlatform E Stream) := {|
  plat_ok := desktop_ok;
  stored := desktop_stored |}.
Next Obligation. intros E Stream HE QH p rel d. apply read_stored. Qed.
Next Obligation. intros E Stream HE QH p rel. apply read_not_stored. Qed.
Next Obligation.
  intros E Stream HE QH p rel Hok Hm [d Hs]. rewrite stored_mount in Hs by done.
  destruct (h_fs (dp_host p) !! place p rel) as [n|] eqn:Hn; [|done]. cbn.
  unfold dp_storage_exists. by rewrite (existing_found _ _ n).
Qed.
Next Obligation.
  intros E Stream HE QH p rel d p' Hok Hm H. by destruct (dp_write_spec _ _ _ _ _ Hok Hm H) as (_&?&?&Hs&_); auto.
Qed.
Next Obligation.
  intros E Stream HE QH p rel d e p' Hok Hm H.
  destruct (dp_write_spec _ _ _ _ _ Hok Hm H) as (_&?&Hk&_&Hs). split; [done|]. intros k.
  destruct (decide (k = rel)) as [->|]; auto.
Qed.
Next Obligation.
  intros E Stream HE QH p rel d Hok Hm. destruct (storage_write rel d p) as [r p'] eqn:H.
  by destruct (dp_write_spec _ _ _ _ _ Hok Hm H) as (?&_).
Qed.
Next Obligation. intros E Stream HE QH p rel r p'. apply dp_create_spec. Qed.
Next Obligation. intros E Stream HE QH p rel r p' Hok _. by apply keeps_law; [apply list_files|]. Qed.
Next Obligation. intros E Stream HE QH p rel r p' Hok _. by apply keeps_law; [apply exists_files|]. Qed.
Next Obligation. intros E Stream HE QH p rel r p'. apply dp_remove_spec. Qed.
Next Obligation. intros E Stream HE QH p from to r p'. apply dp_rename_spec. Qed.
Next Obligation.
  intros E Stream HE QH p Hok. destruct (dp_monotonic_millis p) as [r p'] eqn:H.
  destruct (keeps_law _ _ _ _ clock_files Hok H) as [??]. cbn. rewrite H.
  unfold dp_monotonic_millis in H. destruct (instant_now _) as [now e]. injection H as <- <-.
  eexists _, _. split_and!; [done| |done|done].
  destruct (try_from _ _) as [t|] eqn:Ht; [by apply try_from_Some in Ht as [-> ?]|done].
Qed.
Next Obligation.
  intros E Stream HE QH p buf b p' Hok H. cbn in H.
  apply host_call_run in H as (r0&h&H&Hr&_). destruct r0 as [b'| |]; [|done..]. injection Hr as ->.
  unfold on_env, zoom in H. destruct (getrandom_fill _ _) as [r e] eqn:Hg. injection H as -> _.
  by eapply random_length.
Qed.
Next Obligation.
  intros E Stream HE QH p buf r p' Hok. apply keeps_law; [|done].
  apply on_env_files, quiet_random.
Qed.
Next Obligation. intros E Stream HE QH p text r p' Hok. by apply keeps_law; [apply console_files|]. Qed.
Next Obligation.
  intros E Stream HE QH p prompt secret r p' Hok. by apply keeps_law; [apply read_line_files|].
Qed.
Next Obligation. intros E Stream HE QH p r p' Hok. by apply keeps_law; [apply console_files|]. Qed.
Next Obligation. done. Qed.
Next Obligation. by intros E Stream HE QH p r p' Hok [= <- <-]. Qed.
Next Obligation. intros E Stream HE QH p host port r p' Hok. by apply keeps_law; [apply connect_files|]. Qed.
Next Obligation. intros E Stream HE QH p handle data r p' Hok. by apply keeps_law; [apply send_files|]. Qed.
Next Obligation. intros E Stream HE QH p handle out r p' Hok. by apply keeps_law; [apply recv_files|]. Qed.
Next Obligation. intros E Stream HE QH p handle r p' Hok. by apply keeps_law; [intros q|]. Qed.

(** ** Temporary storage *)
Section ephemeral.
Context {E Stream : Type} `{HE : !HostEnv E Stream} `{QH : !QuietHost E Stream}.
Notation D := (DesktopPlatform E Stream).
Implicit Types p : D.
Notation files p := (h_fs (dp_host p)).

(** Storage operations keep what the platform was started with. *)
Definition same_config p p' : Prop :=
  dp_root p' = dp_root p ∧ dp_remove_on_drop p' = dp_remove_on_drop p.
#[local] Instance same_config_preorder : PreOrder same_config.
Proof. split; [done|]. intros p1 p2 p3 [??] [??]. split; congruence. Qed.
Lemma config_host {X A} f (m : M (Host E) X A) : evolves same_config (host_call f m).
Proof. intros p. unfold host_call, zoom. by destruct (with_err _ _ _). Qed.

Lemma config_existing rel : evolves same_config (existing rel).
Proof. unfold existing. evolve_with ltac:(apply config_host). Qed.
Lemma config_writable rel : evolves same_config (writable rel).
Proof. unfold writable. evolve_with ltac:(apply config_host). Qed.
Lemma config_entries d names : evolves same_config (dir_entries d names).
Proof.
  induction names; simpl; unfold dir_entry;
    evolve_with ltac:(first [apply config_host | assumption]).
Qed.

(** A storage call keeps the configuration and the invariant. *)
Definition steady p p' : Prop := same_config p p' ∧ (desktop_ok p → desktop_ok p').
#[local] Instance steady_preorder : PreOrder steady.
Proof. split; [by split|]. intros p1 p2 p3 [??] [??]. split; [by etrans|auto]. Qed.

Lemma steady_intro {A} (m : M D Error A) :
  evolves same_config m → (∀ p r p', desktop_ok p → m p = (r, p') → desktop_ok p') →
  evolves steady m.
Proof.
  intros Hc Hk p. specialize (Hc p). destruct (m p) as [r p'] eqn:H. split; [done|].
  intros Hok. by apply (Hk p r).
Qed.

Lemma storage_steady : confined (P := D) steady.
Proof.
  split; cbn [storage_read storage_write storage_list storage_create_dir_all storage_remove
    storage_rename storage_exists DesktopPlatform_Platform].
  - intros rel Hm. apply steady_intro.
    + unfold dp_storage_read.
      evolve_with ltac:(first [apply config_existing | apply config_host]).
    + intros p r p' Hok H. by destruct (keeps_law _ _ _ _ (read_files rel) Hok H).
  - intros rel data Hm. apply steady_intro.
    + unfold dp_storage_write.
      evolve_with ltac:(first [apply config_writable | apply config_host]).
    + intros p r p' Hok H. by destruct (dp_write_spec _ _ _ _ _ Hok Hm H) as (_&?&_).
  - intros rel Hm. apply steady_intro.
    + unfold dp_storage_list.
      evolve_with ltac:(first [apply config_existing | apply config_entries | apply config_host]).
    + intros p r p' Hok H. by destruct (keeps_law _ _ _ _ (list_files rel) Hok H).
  - intros rel Hm. apply steady_intro.
    + unfold dp_storage_create_dir_all.
      evolve_with ltac:(first [apply config_writable | apply config_host]).
    + intros p r p' Hok H. by destruct (dp_create_spec _ _ _ _ Hok Hm H).
  - intros rel Hm _. apply steady_intro.
    + unfold dp_storage_remove.
      evolve_with ltac:(first [apply config_existing | apply config_host]).
    + intros p r p' Hok H. by destruct (dp_remove_spec _ _ _ _ Hok Hm H).
  - intros from to Hf Ht. apply steady_intro.
    + unfold dp_storage_rename.
      evolve_with ltac:(first [apply config_existing | apply config_writable | apply config_host]).
    + intros p r p' Hok H. by destruct (dp_rename_spec _ _ _ _ _ Hok Hf Ht H).
  - intros rel Hm. apply steady_intro.
    + intros p. unfold dp_storage_exists. pose proof (config_existing rel p) as Hc.
      by destruct (existing rel p) as [[c|[]|] p'].
    + intros p r p' Hok H. by destruct (keeps_law _ _ _ _ (exists_files rel) Hok H).
Qed.

Lemma ops_steady (ops : list vfs_op) (v : Vfs D) :
  steady (vfs_platform v) (vfs_platform (foldl (λ v o, (vfs_exec o v).2) v ops)).
Proof.
  revert v. induction ops as [|o ops IH]; intros v; [done|]. simpl.
  destruct (vfs_exec_evolves steady o storage_steady v) as [Hs _]. etrans; [exact Hs|apply IH].
Qed.

(** C34. Temporary storage leaves nothing behind, on a host that refuses no call and with a
    data directory that holds no symbolic link: whatever file system operations ran on a
    platform made for temporary storage, dropping it removes the data directory with
    everything in it, and touches nothing else.  (The code discards the result of the removal:
    on a host that refuses it, the files stay.) *)
Theorem ephemeral_leaves_nothing (ops : list vfs_op) (v : Vfs D) :
  desktop_ok (vfs_platform v) → root_of (vfs_platform v) ≠ [] →
  dp_remove_on_drop (vfs_platform v) = true →
  let p := vfs_platform (foldl (λ v o, (vfs_exec o v).2) v ops) in
  (∀ k, root_of p `prefix_of` k → files (desktop_drop p) !! k = None)
  ∧ (∀ k, ¬ root_of p `prefix_of` k → files (desktop_drop p) !! k = files p !! k)
  ∧ root_of p = root_of (vfs_platform v).
Proof.
  intros Hok Hne Hd p. destruct (ops_steady ops v) as [[Hr Hrem] Hp].
  specialize (Hp Hok). fold p in Hr, Hrem, Hp.
  assert (root_of p = root_of (vfs_platform v)) as Hroot by (unfold root_of; by rewrite Hr).
  unfold desktop_drop. rewrite Hrem, Hd, (ok_root _ Hp).
  destruct (remove_dir_all_quiet (root_of p) (dp_host p)) as (h'&H&Hg&Hcut);
    [apply Hp|apply Hp|congruence|apply Hp|].
  unfold on_host, host_call, zoom, with_err. rewrite H. cbn [snd].
  split_and!; [exact Hg|apply (cut_outside _ _ _ Hcut)|done].
Qed.

(** On a data directory without links, under a host that refuses nothing, what is
    written is read back: a successful write makes exactly this content readable, another
    path reads as before, and a failed write changes no file. *)
Theorem desktop_write_read rel data p r p' :
  desktop_ok p → mount_path rel → dp_storage_write rel data p = (r, p') →
  desktop_ok p'
  ∧ (r = Ok () → dp_storage_read rel p' = (Ok data, p'))
  ∧ ∀ k d, mount_path k → (k ≠ rel ∨ r ≠ Ok ()) →
      (dp_storage_read k p = (Ok d, p) ↔ dp_storage_read k p' = (Ok d, p')).
Proof.
  intros Hok Hm H. destruct (dp_write_spec _ _ _ _ _ Hok Hm H) as (_&Hok'&Hother&Hwritten&Hfailed).
  assert (∀ q k d, desktop_ok q → mount_path k →
    dp_storage_read k q = (Ok d, q) ↔ desktop_stored q k = Some d) as Hread.
  { intros q k d Hq Hk. split; [|by apply read_stored]. intros Hr.
    destruct (desktop_stored q k) as [d'|] eqn:Hs.
    - apply read_stored in Hs; [|done..]. rewrite Hr in Hs. by injection Hs as ->.
    - apply read_not_stored in Hs as [e He]; [|done..]. by rewrite Hr in He. }
  split_and!; [done|intros ->; by apply Hread, Hwritten|].
  intros k d Hk Hne. rewrite !Hread by done.
  assert (desktop_stored p' k = desktop_stored p k) as Hs; [|by rewrite <-Hs].
  destruct (decide (k = rel)) as [->|]; [|by apply Hother]. apply Hfailed. by destruct Hne.
Qed.
End ephemeral.
