(* ===== verification/DesktopMain.v ===== *)
(** * The desktop program (platforms/desktop/src/main.rs)

    The command line, the choice of the data and system directories, the loading of the
    system files from the host, and the run of the system over the desktop platform.  The
    theorems show what the system files are ([system_files_exact]) and what the command line
    means. *)
From S2P Require Import Prelude RustStr Text Api Mock Vfs Contract Security App System Shell Rhai.
From S2P Require Import Host HostTree Desktop DesktopContract.

(** What the process sees of its surroundings: [std::env], the process id, the time of day,
    and the directory the crate was built in. *)
Record Process := {
  pr_args : list str;
  pr_var : str → option str;
  pr_exe : option str;
  pr_temp_dir : str;
  pr_id : Z;
  pr_nanos : Z;
  pr_manifest_dir : str }.

Record Cli := mk_cli {
  cli_data_dir : option str;
  cli_system_dir : option str;
  cli_ephemeral : bool;
  cli_command : option str }.
Definition cli_default : Cli := mk_cli None None false None.

Definition help_text : str :=
  "AFOS portable environment" ++ [nl; nl] ++ "Usage: afos [OPTIONS]" ++ [nl; nl]
  ++ "Options:" ++ [nl]
  ++ "--data-dir PATH    persistent data directory" ++ [nl]
  ++ "--system-dir PATH  read-only AFOS system files" ++ [nl]
  ++ "--ephemeral        use temporary storage" ++ [nl]
  ++ "-c, --command CMD  execute one command and exit" ++ [nl]
  ++ "-V, --version      print version" ++ [nl]
  ++ "-h, --help         print help".

(** What the arguments ask for: to run, or to print a text. *)
Inductive Request : Type :=
| RunWith (cli : Cli)
| PrintText (text : str).

Definition next_arg {A} (message : str) (args : list str) (k : str → list str → res Error A) :
    res Error A :=
  match args with
  | [] => Err (InvalidInput message)
  | value :: rest => k value rest
  end.

Fixpoint parse_loop (fuel : nat) (args : list str) (cli : Cli) : res Error Request :=
  match fuel, args with
  | _, [] =>
      if cli_ephemeral cli && bool_decide (is_Some (cli_data_dir cli))
      then Err (InvalidInput "--ephemeral conflicts with --data-dir")
      else Ok (RunWith cli)
  | O, _ => Panic
  | S fuel, argument :: rest =>
      if bool_decide (argument = "--data-dir") then
        next_arg "--data-dir requires a path" rest (λ value rest,
          parse_loop fuel rest (mk_cli (Some value) (cli_system_dir cli) (cli_ephemeral cli)
                                  (cli_command cli)))
      else if bool_decide (argument = "--system-dir") then
        next_arg "--system-dir requires a path" rest (λ value rest,
          parse_loop fuel rest (mk_cli (cli_data_dir cli) (Some value) (cli_ephemeral cli)
                                  (cli_command cli)))
      else if bool_decide (argument = "--ephemeral") then
        parse_loop fuel rest (mk_cli (cli_data_dir cli) (cli_system_dir cli) true (cli_command cli))
      else if bool_decide (argument = "--command") || bool_decide (argument = "-c") then
        next_arg "--command requires a command line" rest (λ value rest,
          parse_loop fuel rest (mk_cli (cli_data_dir cli) (cli_system_dir cli) (cli_ephemeral cli)
                                  (Some value)))
      else if bool_decide (argument = "--version") || bool_decide (argument = "-V") then
        Ok (PrintText "AFOS 0.2.0")
      else if bool_decide (argument = "--help") || bool_decide (argument = "-h") then
        Ok (PrintText help_text)
      else Err (InvalidInput ("unknown argument: " ++ argument))
  end.
(** Every round takes an argument. *)
Definition parse_args (args : list str) : res Error Request :=
  parse_loop (length args) args cli_default.

(** [main.rs] has an [io_error] of its own. *)
Definition main_io_error (error : IoError) : Error := Io (io_text error).

Section main.
Context {E Stream : Type} `{HE : !HostEnv E Stream} `{AR : !Argon2}.
Notation D := (DesktopPlatform E Stream).
Notation HostE := (M (Host E) Error).

Definition bundled_filesystem_dir (pr : Process) : HostE (option str) :=
  match (executable ← pr_exe pr; parent ← path_parent executable; path_parent parent) with
  | None => mret None
  | Some bundle =>
      let filesystem := path_join bundle "fs" in
      is_dir ← with_err io_error (path_is_dir (path_join filesystem "sys"));
      mret (if is_dir : bool then Some filesystem else None)
  end.

Definition default_data_dir (pr : Process) : HostE str :=
  match pr_var pr "AFOS_DATA_DIR" with
  | Some path => mret path
  | None =>
      bundled ← bundled_filesystem_dir pr;
      mret match bundled with
      | Some path => path
      | None =>
          if bool_decide (target_os = "windows") then
            match pr_var pr "APPDATA" with
            | Some path => path_join path "AFOS"
            | None => ".afos"
            end
          else if bool_decide (target_os = "macos") then
            match pr_var pr "HOME" with
            | Some home =>
                path_join (path_join (path_join home "Library") "Application Support") "AFOS"
            | None => ".afos"
            end
          else match pr_var pr "XDG_DATA_HOME" with
          | Some path => path_join path "afos"
          | None =>
              match pr_var pr "HOME" with
              | Some home => path_join (path_join (path_join home ".local") "share") "afos"
              | None => ".afos"
              end
          end
      end
  end.

Definition default_system_dir (pr : Process) : HostE str :=
  match pr_var pr "AFOS_SYSTEM_DIR" with
  | Some path => mret path
  | None =>
      bundled ← bundled_filesystem_dir pr;
      mret match bundled with
      | Some filesystem => path_join filesystem "sys"
      | None => path_join (path_join (path_join (path_join (pr_manifest_dir pr) "..") "..") "fs") "sys"
      end
  end.

(** One entry of a system directory: [collect_files] on a directory, the path of a file. *)
Definition collect_entry (root : str) (subtree : str → HostE (list str)) (name path : str) :
    HostE (list str) :=
  node ← with_err main_io_error (stat false path);
  match node with
  | ILink _ => throw (PermissionDenied ("system file may not be a symbolic link: " ++ path))
  | IDir => subtree path
  | IFile _ =>
      canonical ← with_err main_io_error (canonicalize path);
      if negb (path_starts_with canonical root)
      then throw (PermissionDenied "system file escapes its root")
      else mret [canonical]
  end.

(** The function calls itself on directories, nested [depth] deep at most. *)
Definition collect_files (depth : nat) (root directory : str) : HostE (list str) :=
  walk main_io_error (collect_entry root) depth directory.

Definition load_system_file (root path : str) : HostE EmbeddedFile :=
  relative ← lift (ok_or InvalidPath (path_strip_prefix path root));
  data ← with_err main_io_error (fs_read path);
  mret {| ef_path := "/sys/" ++ slashes (from_utf8_lossy relative); ef_data := data |}.

Fixpoint load_each (root : str) (paths : list str) : HostE (list EmbeddedFile) :=
  match paths with
  | [] => mret []
  | path :: paths =>
      file ← load_system_file root path;
      files ← load_each root paths;
      mret (file :: files)
  end.

Definition load_system_files (root : str) : HostE (list EmbeddedFile) :=
  root ← with_err (λ error, Io ("cannot open system directory " ++ root ++ ": " ++ io_text error))
           (canonicalize root);
  depth ← gets (λ h, fs_depth (h_fs h));
  paths ← collect_files (S depth) root root;
  files ← load_each root (merge_sort path_le paths);
  if bool_decide (files = []) then throw (InvalidInput "system directory contains no files")
  else mret files.

Definition or_default {A} (o : option A) (m : HostE A) : HostE A :=
  match o with Some a => mret a | None => m end.

(** The run over a platform, and the drop of the platform at its end, which a panic
    that unwinds reaches too. *)
Definition run_platform (shell_fuel : nat) (rhai : AppRuntime) (command : option str)
    (files : list EmbeddedFile) (platform : D) : res Error (option Z) * D :=
  let afos := afos_with_system_files platform files in
  let '(r, afos) :=
    (register_runtime rhai;;
     match command with
     | Some command =>
         afos_initialize false;;
         outcome ← run_command command;
         mret match outcome with Continue code | Exit code => Some code end
     | None => run_interactive shell_fuel shell_config_default
     end) afos in
  let platform := into_platform (afos_system afos) in
  (r, desktop_drop platform).

(** The exit code; [None] when the shell still runs after its fuel. *)
Definition desktop_run (shell_fuel : nat) (rhai : AppRuntime) (pr : Process) :
    HostE (option Z) :=
  request ← lift (parse_args (pr_args pr));
  match request with
  | PrintText text => λ h,
      let '(written, e) := print (text ++ [nl]) (h_env h) in
      (if written : bool then Ok (Some 0) else Panic, set_env e h)
  | RunWith cli =>
      '(root, remove_on_drop) ←
        (if cli_ephemeral cli
         then mret (path_join (pr_temp_dir pr)
                      ("afos-ephemeral-" ++ dec (pr_id pr) ++ "-" ++ dec (pr_nanos pr)), true)
         else root ← or_default (cli_data_dir cli) (default_data_dir pr); mret (root, false));
      system_dir ← or_default (cli_system_dir cli) (default_system_dir pr);
      files ← load_system_files system_dir;
      platform ← (desktop_new root remove_on_drop : HostE D);
      let '(r, platform) := run_platform shell_fuel rhai (cli_command cli) files platform in
      (λ _, (r, dp_host platform)) : HostE (option Z)
  end.

(** The status [main] exits with. *)
Definition desktop_main (shell_fuel : nat) (rhai : AppRuntime) (pr : Process) (h : Host E) :
    option (option Z) * Host E :=
  match desktop_run shell_fuel rhai pr h with
  | (Ok code, h) => (Some code, h)
  | (Err error, h) => (Some (Some 1), h)
  | (Panic, h) => (None, h)
  end.
End main.

(** ** The command line *)
(** The arguments that ask for a configuration. *)
Definition option_args (name : str) (value : option str) : list str :=
  match value with Some v => [name; v] | None => [] end.
Definition cli_args (cli : Cli) : list str :=
  option_args "--data-dir" (cli_data_dir cli) ++ option_args "--system-dir" (cli_system_dir cli)
  ++ (if cli_ephemeral cli then ["--ephemeral"] else [])
  ++ option_args "--command" (cli_command cli).

Lemma parse_loop_returns fuel args cli :
  (length args ≤ fuel)%nat → parse_loop fuel args cli ≠ Panic.
Proof.
  revert args cli. induction fuel as [|fuel IH]; intros [|a args] cli Hl; simpl in Hl; try lia;
    cbn [parse_loop]; [by destruct (_ && _)..|].
  repeat case_match; try done; try (apply IH; lia); unfold next_arg; destruct args as [|v args];
    try done; simpl in Hl; apply IH; lia.
Qed.

(** The command line round trip: the arguments written for a configuration are read back as
    it, values that look like options included, unless they ask for temporary and for
    persistent storage at once; and no argument list makes the parser run past its end. *)
Theorem parse_args_roundtrip cli args :
  parse_args args ≠ Panic
  ∧ parse_args (cli_args cli) =
    (if cli_ephemeral cli && bool_decide (is_Some (cli_data_dir cli))
     then Err (InvalidInput "--ephemeral conflicts with --data-dir")
     else Ok (RunWith cli)).
Proof.
  split; [by apply parse_loop_returns|].
  by destruct cli as [[d|] [s|] [] [c|]].
Qed.

(** ** The system files *)
Section system_files.
Context {E Stream : Type} `{HE : !HostEnv E Stream}.
Implicit Types h : Host E.
Notation HostE := (M (Host E) Error).

(** Every entry counts. *)
Definition no_name (c : str) : Prop := False.
#[local] Instance no_name_dec c : Decision (no_name c).
Proof. right. intros []. Defined.

Lemma visible_below q k : visible no_name q k ↔ q `prefix_of` k.
Proof.
  split; [apply visible_prefix|]. intros [l ->]. exists l. split; [done|].
  apply Forall_forall. by intros ? ? [].
Qed.

Lemma collect_entry_collects rc subtree q c :
  (∀ h paths h', fs_wf (h_fs h) → h_fs h !! (q ++ [c]) = Some IDir →
    subtree (path_of (q ++ [c])) h = (Ok paths, h') →
    same_files h h' ∧ lists_files no_name (h_fs h) (q ++ [c]) paths) →
  collects_at no_name (collect_entry (path_of rc) subtree) q c.
Proof.
  intros Hsub n h paths h' Hwf Hn H. unfold collect_entry in H.
  apply bind_ok_inv in H as (node&h2&H2&H).
  apply with_err_ok, (stat_node _ _ n) in H2 as [-> Hs2]; [|done..].
  pose proof Hs2 as [Hf _]. rewrite decide_False by (by intros []).
  destruct n as [data| |t]; [| |done].
  - apply bind_ok_inv in H as (c'&h3&H3&H).
    apply with_err_ok, (canonicalize_node _ (IFile data)) in H3 as [-> Hs3]; [|by rewrite Hf..|done].
    destruct (negb _); [done|]. injection H as <- <-.
    split; [by etrans|by eapply leaf_lists].
  - destruct (Hsub h2 paths h') as [Hs3 Hl]; [by rewrite Hf..|done|].
    rewrite Hf in Hl. split; [by etrans|done].
Qed.

(** The file the table holds for a location of the host. *)
Definition sys_file (rc k : location) (data : list byte) : EmbeddedFile :=
  {| ef_path := "/sys/" ++ slashes (from_utf8_lossy (join "/" (drop (length rc) k)));
     ef_data := data |}.

Lemma load_each_files rc paths h files h' :
  fs_wf (h_fs h) →
  (∀ x, x ∈ paths → ∃ k data, x = path_of k ∧ rc `prefix_of` k
                              ∧ h_fs h !! k = Some (IFile data)) →
  load_each (path_of rc) paths h = (Ok files, h') →
  same_files h h' ∧ ∀ f, f ∈ files ↔ ∃ k data, path_of k ∈ paths ∧ rc `prefix_of` k
    ∧ h_fs h !! k = Some (IFile data) ∧ f = sys_file rc k data.
Proof.
  revert h files h'. induction paths as [|x paths IH]; intros h files h' Hwf Hin H;
    cbn [load_each] in H.
  { injection H as <- <-. split; [done|]. intros f. split; [by intros ?%elem_of_nil|].
    by intros (?&?&?%elem_of_nil&_). }
  destruct (Hin x) as (k&data&->&Hp&Hk); [left|].
  pose proof (wf_names _ _ _ Hwf Hk) as Hkn.
  apply bind_ok_inv in H as (f1&h1&H1&H). apply bind_ok_inv in H as (fs2&h2&H2&H).
  injection H as <- <-. unfold load_system_file in H1. rewrite strip_location in H1 by done.
  cbn [ok_or] in H1. rewrite bind_lift_ok in H1. apply bind_ok_inv in H1 as (d&h0&H0&H1).
  injection H1 as <- <-. apply with_err_ok, (fs_read_node _ data) in H0 as [-> Hs1]; [|done..].
  pose proof Hs1 as [Hf1 _]. apply IH in H2 as [Hs2 He]; [|by rewrite Hf1|].
  2: { intros x Hx. rewrite Hf1. apply Hin. by right. }
  rewrite Hf1 in He. split; [by etrans|]. intros f. rewrite elem_of_cons, He. split.
  - intros [->|(k'&d&Hin'&?&?&->)]; [exists k, data|exists k', d];
      (split_and!; [|done..]); [left|by right].
  - intros (k'&d&[Heq|Hin']%elem_of_cons&?&Hk'&->); [left|right; by exists k', d].
    assert (k' = k) as ->; [|by rewrite Hk in Hk'; injection Hk' as ->].
    apply path_of_inj_names; [by eapply wf_names|done..].
Qed.

(** ** Collecting ends *)
Lemma collect_entry_same root (subtree : str → HostE (list str)) name path :
  (∀ d, evolves same_files (subtree d)) → evolves same_files (collect_entry root subtree name path).
Proof.
  intros Hs. apply (evolves_bind _); [apply evolves_with_err, stat_same|].
  intros [data| |t]; [|apply Hs|apply (evolves_throw _)].
  apply (evolves_bind _); [apply evolves_with_err, canonicalize_same|]. intros c.
  destruct (negb _); [apply (evolves_throw _)|apply (evolves_ret _)].
Qed.

Lemma collect_entry_returns root (subtree : str → HostE (list str)) name k n h :
  fs_wf (h_fs h) → h_fs h !! k = Some n →
  (∀ h', same_files h h' → n = IDir → (subtree (path_of k) h').1 ≠ Panic) →
  (collect_entry root subtree name (path_of k) h).1 ≠ Panic.
Proof.
  intros Hwf Hk Hsub. unfold collect_entry. rewrite bind_run.
  pose proof (sound_with_err main_io_error _ h (stat_sound false (path_of k))) as Hnp.
  destruct (with_err _ _ h) as [[node|e|] h2] eqn:H2; [|done..].
  apply with_err_ok, (stat_node _ _ n) in H2 as [-> Hs2]; [|done..].
  destruct n as [data| |t]; [|by apply Hsub|done]. rewrite bind_run.
  pose proof (sound_with_err main_io_error _ h2 (canonicalize_sound (path_of k))) as Hnp2.
  destruct (with_err _ _ h2) as [[c|e|] h3]; [|done..]. by destruct (negb _).
Qed.

Lemma load_each_same root paths : evolves same_files (load_each root paths).
Proof.
  induction paths as [|x paths IH]; [apply (evolves_ret _)|]. cbn [load_each].
  apply (evolves_bind _); [|intros f; apply (evolves_bind _); [exact IH|]; intros l;
    apply (evolves_ret _)].
  apply (evolves_bind _); [apply (evolves_lift _)|]. intros rel.
  apply (evolves_bind _); [apply evolves_with_err, fs_read_same|]. intros d. apply (evolves_ret _).
Qed.
Lemma load_each_returns root paths h : (load_each root paths h).1 ≠ Panic.
Proof.
  revert h. induction paths as [|x paths IH]; intros h; [done|]. cbn [load_each].
  rewrite bind_run. unfold load_system_file. rewrite bind_run. unfold lift.
  destruct (path_strip_prefix x root) as [rel|]; [|done]. cbn [ok_or]. rewrite bind_run.
  pose proof (sound_with_err main_io_error _ h (fs_read_sound x)) as Hnp.
  destruct (with_err _ _ h) as [[d|e|] h1]; [|done..]. simpl. rewrite bind_run.
  specialize (IH h1). by destruct (load_each root paths h1) as [[l|e|] h2].
Qed.

(** Where the system directory is. *)
Lemma canonicalize_place root h r h' :
  fs_wf (h_fs h) → canonicalize root h = (r, h') →
  same_files h h' ∧ r ≠ Panic ∧ ∀ c, r = Ok c → ∃ rc n, c = path_of rc
    ∧ lookup_path true false root h = Ok rc ∧ h_fs h !! rc = Some n ∧ ∀ t, n ≠ ILink t.
Proof.
  intros Hwf H. pose proof (canonicalize_same root h) as Hs. rewrite H in Hs.
  pose proof (canonicalize_sound root h I) as Hn. rewrite H in Hn. split_and!; [done..|].
  intros c ->. apply syscall_run in H as [(e&?&_)|[e H]]; [done|]. unfold reads in H.
  change (lookup_path true false root (set_env e h)) with (lookup_path true false root h) in H.
  destruct (lookup_path true false root h) as [rc| |] eqn:Hl; [|done..]. injection H as <- <-.
  apply lookup_path_found in Hl as Hf; [|done]. unfold found in Hf.
  destruct (h_fs h !! rc) as [n|] eqn:Hk; [|by destruct Hf]. exists rc, n.
  split_and!; [done..|]. by intros t ->.
Qed.

(** Collecting from the system directory. *)
Lemma collect_root rc n h r h' :
  fs_wf (h_fs h) → h_fs h !! rc = Some n → (∀ t, n ≠ ILink t) →
  collect_files (S (fs_depth (h_fs h))) (path_of rc) (path_of rc) h = (r, h') →
  same_files h h' ∧ r ≠ Panic ∧ ∀ paths, r = Ok paths → lists_files no_name (h_fs h) rc paths.
Proof.
  intros Hwf Hn Hl H.
  pose proof (walk_same main_io_error (collect_entry (path_of rc)) (S (fs_depth (h_fs h)))
    (path_of rc) (collect_entry_same _) h) as Hs.
  fold (collect_files (S (fs_depth (h_fs h))) (path_of rc) (path_of rc)) in Hs.
  rewrite H in Hs. split; [done|]. destruct n as [data| |t]; [| |by destruct (Hl t)].
  - destruct (walk_not_dir main_io_error (collect_entry (path_of rc)) (fs_depth (h_fs h)) rc data h)
      as [e He]; [done..|]. unfold collect_files in H. rewrite H in He. simpl in He. by subst r.
  - split.
    + change r with ((r, h').1). rewrite <-H.
      apply (walk_returns _ _ (fs_depth (h_fs h)));
        [apply collect_entry_same|apply collect_entry_returns|by apply fs_depth_bounded|done|lia].
    + intros paths ->. apply (walk_lists no_name) in H as [_ ?]; [done| |done..].
      intros subtree q c Hsub. by apply collect_entry_collects.
Qed.

(** C35. The system files are exactly the regular files below the system directory: loading
    always ends, changes nothing on the host, and when it succeeds there is no symbolic link
    below the directory and the table holds, for every regular file there and for nothing
    else, its bytes under [/sys/] and its relative path; the table is not empty. *)
Theorem system_files_exact (root : str) h :
  fs_wf (h_fs h) →
  (load_system_files root h).1 ≠ Panic ∧ same_files h (load_system_files root h).2
  ∧ ∀ files, (load_system_files root h).1 = Ok files →
    ∃ rc, lookup_path true false root h = Ok rc
      ∧ (∀ k t, rc `prefix_of` k → h_fs h !! k ≠ Some (ILink t))
      ∧ files ≠ []
      ∧ ∀ f, f ∈ files ↔ ∃ k data, rc `prefix_of` k ∧ h_fs h !! k = Some (IFile data)
                                   ∧ f = sys_file rc k data.
Proof.
  intros Hwf. unfold load_system_files. rewrite bind_run.
  destruct (with_err _ (canonicalize root) h) as [r1 h1] eqn:H1.
  apply with_err_run in H1 as (r0&H1&->).
  apply canonicalize_place in H1 as (Hs1&Hn1&Hc); [|done].
  destruct r0 as [c|e|]; [|by split_and!|done]. destruct (Hc c eq_refl) as (rc&n&->&Hl&Hn&Hlink).
  pose proof Hs1 as [Hf1 _]. cbn [map_err]. rewrite bind_run. unfold gets. cbv beta iota.
  rewrite bind_run.
  destruct (collect_files _ (path_of rc) (path_of rc) h1) as [r2 h2] eqn:H2.
  apply (collect_root rc n) in H2 as (Hs2&Hn2&Hlists); [|by rewrite Hf1..|done].
  assert (same_files h h2) as Hs by (by etrans). pose proof Hs as [Hf _].
  destruct r2 as [paths|e|]; [|by split_and!|done].
  destruct (Hlists paths eq_refl) as [Hlinks _ Hpaths]. rewrite Hf1 in Hlinks, Hpaths.
  setoid_rewrite visible_below in Hlinks. setoid_rewrite visible_below in Hpaths.
  rewrite bind_run. destruct (load_each _ _ h2) as [r3 h3] eqn:H3.
  pose proof (load_each_returns (path_of rc) (merge_sort path_le paths) h2) as Hn3.
  pose proof (load_each_same (path_of rc) (merge_sort path_le paths) h2) as Hs3.
  rewrite H3 in Hn3, Hs3. cbn [fst snd] in Hn3, Hs3. assert (same_files h h3) as Hs' by (by etrans).
  destruct r3 as [files|e|]; [|by split_and!|done].
  assert (∀ x, x ∈ merge_sort path_le paths ↔ x ∈ paths) as Hsort
    by (intros x; by rewrite merge_sort_Permutation).
  apply load_each_files in H3 as [_ Hfiles]; [|by rewrite Hf|].
  2: { intros x Hx. rewrite Hf. apply Hsort, Hpaths in Hx as (k&d&->&?&?). by exists k, d. }
  case_bool_decide as Hne; [by split_and!|]. split_and!; [done|done|]. intros fs [= <-].
  exists rc. split_and!; [done..|]. intros f. rewrite Hfiles, Hf. split.
  - intros (k&d&_&?&?&?). by exists k, d.
  - intros (k&d&?&?&?). exists k, d. split_and!; [|done..]. apply Hsort, Hpaths. by exists k, d.
Qed.
End system_files.

(** A platform that was made serves the directory its path leads to. *)
Lemma desktop_new_rooted {E Stream} `{HE : !HostEnv E Stream} root remove (h h' : Host E)
    (p : DesktopPlatform E Stream) :
  fs_wf (h_fs h) → desktop_new root remove h = (Ok p, h') →
  ∃ rc, Forall host_name rc ∧ rooted rc p ∧ dp_remove_on_drop p = remove
        ∧ grows (h_fs h) (h_fs (dp_host p)).
Proof.
  intros Hwf H. unfold desktop_new in H. apply bind_ok_inv in H as ([]&h1&H1&H).
  apply with_err_ok in H1. pose proof (create_dir_all_grows root h Hwf) as [Hg _]. rewrite H1 in Hg.
  cbn [snd] in Hg. pose proof (grows_wf _ _ Hg Hwf) as Hwf1.
  apply bind_ok_inv in H as (c&h2&H2&H). apply with_err_ok, canonicalize_place in H2 as ([Hf _]&_&Hc);
    [|done]. destruct (Hc c eq_refl) as (rc&n&->&_&Hn&_).
  apply bind_ok_inv in H as (t&h3&H3&H). injection H as <- <-.
  unfold effect in H3. destruct (instant_now _) as [now e]. injection H3 as <- <-.
  exists rc. unfold rooted. cbn [dp_host dp_root dp_remove_on_drop h_fs set_env]. rewrite Hf.
  split_and!; [by eapply wf_names|done..].
Qed.
