(* ===== verification/DesktopSim.v ===== *)
(** * The desktop program on a concrete host

    A host that runs: the inputs on which the theorems about the desktop are instantiated,
    and the two ways in which a symbolic link in the data directory reaches outside it. *)
From S2P Require Import Prelude RustStr Text Api Mock Vfs Contract Security App System Shell Rhai.
From S2P Require Import Host HostTree Desktop DesktopContract DesktopMain.

Record SimHost := mk_sim_host { sim_stdin : list str; sim_stdout : str; sim_time : Z }.

(** [faults] are the calls the host refuses. *)
Definition sim_env (faults : SystemCall → option IoError) : HostEnv SimHost (list byte) := {|
  host_fault call e := (faults call, e);
  host_write_fault _ e := (None, e);
  dir_len _ := 4096;
  target_os := "linux";
  target_arch := "x86_64";
  print text e := (true, mk_sim_host (sim_stdin e) (sim_stdout e ++ text) (sim_time e));
  stdout_flush := mret ();
  stdin_read_line e :=
    match sim_stdin e with
    | [] => (Ok [], e)
    | line :: rest => (Ok line, mk_sim_host rest (sim_stdout e) (sim_time e))
    end;
  prompt_password _ := throw io_not_found;
  getrandom_fill buf := mret (replicate (length buf) x07);
  instant_now e := (sim_time e, mk_sim_host (sim_stdin e) (sim_stdout e) (sim_time e + 1000000));
  tcp_connect _ _ := mret [];
  tcp_write stream data := mret (len data, stream ++ data);
  tcp_read stream out := mret (0, out, stream) |}.

Definition no_faults : SystemCall → option IoError := λ _, None.
#[export] Instance SimHost_Env : HostEnv SimHost (list byte) := sim_env no_faults.
#[export] Program Instance SimHost_Quiet : QuietHost SimHost (list byte) := {| quiet _ := True |}.
Solve All Obligations with done.
Next Obligation. intros buf e b e' [= <- <-]. by rewrite length_replicate. Qed.

(** A data directory with a link that leads out of it. *)
Definition sim_files : FileSystem := list_to_map
  [([], IDir);
   (["outside"], IDir);
   (["outside"; "secret"], IFile "keep");
   (["data"], IDir);
   (["data"; "user"], IDir);
   (["data"; "user"; "note"], IFile "hello");
   (["data"; "user"; "out"], ILink "/outside");
   (["data"; "user"; "direct"], ILink "/outside/secret")].

Definition sim_host (fs : FileSystem) : Host SimHost := mk_host fs [] (mk_sim_host [] [] 0).
Definition sim_platform (fs : FileSystem) (remove : bool) :
    DesktopPlatform SimHost (list byte) :=
  mk_desktop "/data" 0 remove ∅ 1 (sim_host fs).

Definition sim_ops : list vfs_op :=
  [VfsWrite "/user/out/new" "escape"; VfsWrite "/user/direct" "escape";
   VfsWrite "/user/note" "changed"; VfsRemove "/user/out"; VfsRead "/user/out/secret";
   VfsRename "/user/note" "/user/out/moved"; VfsCreateDirAll "/apps/x"].

Lemma desktop_confined_witness :
  let v := vfs_new (sim_platform sim_files false) in
  let v' := foldl (λ v o, (vfs_exec o v).2) v sim_ops in
  let fs' := h_fs (dp_host (vfs_platform v')) in
  fs' !! ["data"; "user"; "note"] = Some (IFile "changed")
  ∧ fs' !! ["outside"; "secret"] = Some (IFile "keep").
Proof.
  intros v v' fs'. split; [by_vm|].
  assert (rooted ["data"] (vfs_platform v)) as Hr by (split; [done|by_eval]).
  destruct (desktop_confined ["data"] ltac:(by_eval) ltac:(done) sim_ops v Hr) as [_ Hk].
  assert (h_fs (dp_host (vfs_platform v)) !! ["outside"; "secret"] = Some (IFile "keep")) as Hs
    by by_vm.
  destruct (Hk ["outside"; "secret"]) as [He|[Hn _]]; [by_eval| |congruence].
  unfold fs', v'. rewrite He. exact Hs.
Defined.

(** The parents of a path are made before the check of where they are: a write through the
    link is refused, and leaves a directory outside the data directory. *)
Lemma parents_made_outside :
  let p := sim_platform sim_files false in
  let '(r, p') := dp_storage_write "user/out/made/file" "x" p in
  r = Err escape_error ∧ h_fs (dp_host p') !! ["outside"; "made"] = Some IDir
  ∧ h_fs (dp_host p) !! ["outside"; "made"] = None.
Proof. by_eval. Qed.

(** When the host fails to say whether the target is a link it is taken for none: the write
    goes through the link. *)
Definition lstat_fails (call : SystemCall) : option IoError :=
  match call with
  | SysLstat => Some (mk_io_error KOther "Input/output error (os error 5)")
  | _ => None
  end.
Lemma failed_lstat_escapes :
  let p := sim_platform sim_files false in
  let '(r, p') := dp_storage_write (HE := sim_env lstat_fails) "user/direct" "overwritten" p in
  r = Ok () ∧ h_fs (dp_host p') !! ["outside"; "secret"] = Some (IFile "overwritten").
Proof. by_eval. Qed.

(** Without links. *)
Definition plain_files : FileSystem := list_to_map
  [([], IDir); (["data"], IDir); (["data"; "user"], IDir);
   (["data"; "user"; "note"], IFile "hello");
   (["system"], IDir); (["system"; "apps"], IDir);
   (["system"; "apps"; "hello.rhai"], IFile "print(1)");
   (["system"; "readme"], IFile "AFOS")].

Lemma plain_ok remove : desktop_ok (sim_platform plain_files remove).
Proof.
  split; try by_eval. intros k t Hk Hl.
  assert (map_Forall (λ (_ : location) n, match n with ILink _ => false | _ => true end = true)
            plain_files) as Hall by by_eval.
  by specialize (Hall k (ILink t) Hl).
Qed.

Lemma ephemeral_leaves_nothing_witness :
  let v := vfs_new (sim_platform plain_files true) in
  let p := vfs_platform (foldl (λ v o, (vfs_exec o v).2) v sim_ops) in
  h_fs (dp_host p) !! ["data"; "user"; "out"; "moved"] = Some (IFile "changed")
  ∧ h_fs (dp_host (desktop_drop p)) !! ["data"; "user"; "out"; "moved"] = None.
Proof.
  intros v p. split; [by_vm|].
  destruct (ephemeral_leaves_nothing sim_ops v (plain_ok true) ltac:(done) eq_refl) as [Hg _].
  apply Hg. by_eval.
Defined.

Lemma desktop_write_read_witness :
  let p := sim_platform plain_files false in
  let p' := (dp_storage_write "user/a/b" "text" p).2 in
  dp_storage_read "user/a/b" p' = (Ok "text", p')
  ∧ dp_storage_read "user/note" p' = (Ok "hello", p').
Proof.
  intros p p'. destruct (desktop_write_read "user/a/b" "text" p (Ok ()) p') as (_&Hr&Hk);
    [apply plain_ok|by_eval|by_vm|]. split; [by apply Hr|].
  apply Hk; [by_eval|left; by_eval|by_vm].
Defined.

Lemma system_files_exact_witness :
  let h := sim_host plain_files in
  let files := match (load_system_files "/system" h).1 with Ok l => l | _ => [] end in
  {| ef_path := "/sys/apps/hello.rhai"; ef_data := "print(1)" |} ∈ files
  ∧ length files = 2%nat.
Proof.
  intros h files. split; [|by_vm].
  destruct (system_files_exact "/system" h) as (_&_&Hf); [by_eval|].
  destruct (Hf files) as (rc&Hrc&_&_&Hall); [by_vm|].
  assert (rc = ["system"]) as -> by (vm_compute in Hrc; by injection Hrc).
  apply Hall. exists ["system"; "apps"; "hello.rhai"], "print(1)".
  split_and!; [by_eval|by_vm|by_vm].
Defined.

(** One command, with temporary storage: the program runs the command, exits with its status
    and leaves the host's files as they were. *)
Definition sim_process (args : list str) : Process := {|
  pr_args := args; pr_var _ := None; pr_exe := None; pr_temp_dir := "/tmp"; pr_id := 7;
  pr_nanos := 42; pr_manifest_dir := "/src" |}.
Definition run_files : FileSystem := <[["tmp"] := IDir]> plain_files.

#[local] Existing Instance example_argon2.
Definition sim_script : script := ScriptCall (OnPrint "hi") (λ _, ScriptDone (Ok (DInt 5))).

Lemma ephemeral_command_runs :
  let '(status, h) := desktop_main 0 (RhaiRuntime (λ _ _, sim_script))
    (sim_process ["--ephemeral"; "--system-dir"; "/system"; "-c"; "hello"]) (sim_host run_files) in
  status = Some (Some 5) ∧ h_fs h = run_files ∧ sim_stdout (h_env h)
       = "AFOS first-run setup" ++ [nl] ++ "hi" ++ [nl] ++ "hello exited with status 5" ++ [nl].
Proof. by_eval. Qed.
