(* ===== verification/BuildHost.v ===== *)
(** * The host of the build tool

    What [xtask] uses of the Rust standard library beside [Host]: processes, copies, resized
    and streamed files, output.  The programs it runs, the child process of a smoke test, the
    clock and the [sha2] crate are the classes [ToolHost] and [Sha256].  The lemmas say which
    locations each call may change. *)
From S2P Require Import Prelude RustStr Text Vfs Host HostTree.

(** ** [std::process] *)
Record Command := mk_command { cmd_program : str; cmd_args : list str }.
(** [Command::new], [Command::args] and [Command::arg]. *)
Definition command (program : str) : Command := mk_command program [].
Definition args (l : list str) (c : Command) : Command :=
  mk_command (cmd_program c) (cmd_args c ++ l).
Definition arg (a : str) (c : Command) : Command := args [a] c.

Record ExitStatus := mk_status { st_success : bool; st_text : str }.

(** ** The [sha2] crate *)
Class Sha256 : Type := {
  Hasher : Type;
  sha_new : Hasher;
  sha_update : Hasher → list byte → Hasher;
  sha_finalize : Hasher → list byte }.

(** Feeding the hasher in parts is feeding it the whole. *)
Class Sha256Streams `{!Sha256} : Prop := {
  sha_update_nil s : sha_update s [] = s;
  sha_update_app s a b : sha_update (sha_update s a) b = sha_update s (a ++ b) }.

(** The digest of a byte string. *)
Definition sha256 `{!Sha256} (data : list byte) : list byte :=
  sha_finalize (sha_update sha_new data).

(** ** What the host decides

    Running a program to its end may change any file, like the child of a smoke test
    while the tool sleeps or asks for its status.  [read_size] is how many bytes one read of
    a file gives, of those that are there and asked for. *)
Class ToolHost (E Stream C : Type) `{HE : !HostEnv E Stream} : Type := {
  cmd_status : Command → M (Host E) IoError ExitStatus;
  cmd_spawn : Command → location → M (Host E) IoError C;
  (** Whether the child has a pipe for its standard input, and writing to it. *)
  child_stdin : C → bool;
  child_write : C → list byte → M (Host E) IoError ();
  child_try_wait : C → M (Host E) IoError (option ExitStatus);
  child_kill : C → M (Host E) IoError ();
  child_wait : C → M (Host E) IoError ExitStatus;
  thread_sleep : Z → Host E → Host E;
  read_size : nat → E → (IoError + nat) * E;
  eprint : str → E → bool * E }.

Definition io_not_regular : IoError :=
  mk_io_error KOther "the source path is neither a regular file nor a symlink to a regular file".
Definition io_utf8 : IoError := mk_io_error KOther "stream did not contain valid UTF-8".

(** ** [std::fs] and output *)
Section calls.
Context {E Stream C : Type} `{HE : !HostEnv E Stream} `{TH : !ToolHost E Stream C}.
Notation HostM := (M (Host E) IoError).

(** [Path::exists] and [Path::is_file]: an error is a no. *)
Definition path_exists (p : str) : HostM bool := λ h,
  let '(r, h) := stat true p h in (Ok (is_ok r), h).
Definition path_is_file (p : str) : HostM bool := λ h,
  let '(r, h) := stat true p h in
  (Ok match r with Ok (IFile _) => true | _ => false end, h).

(** [File::open]; a directory can be opened, and not read. *)
Definition file_open (p : str) : HostM location :=
  syscall SysOpen (reads (lookup_path true false p)).

(** [fs::copy]: the source is opened, the target is emptied, then the bytes of the source are
    written. *)
Definition file_data (error : IoError) (q : location) : HostM (list byte) :=
  reads (λ h, match node_at q h with Some (IFile data) => Ok data | _ => Err error end).
Definition fs_copy (from to : str) : HostM () :=
  q ← file_open from;
  syscall SysStat (file_data io_not_regular q);;
  t ← fs_open to;
  data ← file_data io_not_regular q;
  fs_write_all t data.

(** [File::set_len]: a longer file is filled with zeros. *)
Definition resize_data (n : Z) (data : list byte) : list byte :=
  take (Z.to_nat n) data ++ replicate (Z.to_nat n - length data) x00.
Definition file_set_len (q : location) (n : Z) : HostM () :=
  syscall SysTruncate
    (data ← file_data io_invalid q;
     modify (λ h, set_fs (<[q := IFile (resize_data n data)]> (h_fs h)) h)).

(** [File::try_clone]. *)
Definition file_try_clone (q : location) : HostM location := syscall SysDup (mret q).

(** [Read::read] of an open file at an offset: nothing only at the end of the file. *)
Definition read_some (rest : list byte) : HostM (list byte) := λ h,
  let '(size, e) := read_size (length rest) (h_env h) in
  (match size with
   | inl error => Err error
   | inr n => Ok (take (Nat.max 1 n) rest)
   end, set_env e h).
Definition file_read (q : location) (offset max : nat) : HostM (list byte) :=
  data ← file_data io_is_directory q; read_some (take max (drop offset data)).

Definition fs_read_to_string (p : str) : HostM str :=
  data ← fs_read p;
  lift (ok_or io_utf8 (from_utf8 data)).

(** [println!] and [eprintln!] panic when the output is gone. *)
Definition println {X} (text : str) : M (Host E) X () := λ h,
  let '(written, e) := print (text ++ [nl]) (h_env h) in
  (if written then Ok () else Panic, set_env e h).
Definition eprintln {X} (text : str) : M (Host E) X () := λ h,
  let '(written, e) := eprint (text ++ [nl]) (h_env h) in
  (if written then Ok () else Panic, set_env e h).

(** [Instant::now] and [Instant::elapsed], in nanoseconds. *)
Definition now {X} : M (Host E) X Z := λ h,
  let '(t, e) := instant_now (h_env h) in (Ok t, set_env e h).
Definition elapsed {X} (started : Z) : M (Host E) X Z :=
  t ← now; mret (saturating_sub t started).
End calls.

(** ** What the calls change *)
(** Only nodes at or below a location change, and no link appears. *)
Record edits (q : location) (fs fs' : FileSystem) : Prop := {
  edits_wf : fs_wf fs → fs_wf fs';
  edits_outside k : ¬ q `prefix_of` k → fs' !! k = fs !! k;
  edits_links k t : fs' !! k = Some (ILink t) → fs !! k = Some (ILink t) }.
#[export] Instance edits_preorder q : PreOrder (edits q).
Proof.
  split; [by split; auto|]. intros f g h [w1 o1 l1] [w2 o2 l2]. split; [auto|..|auto].
  intros k Hk. rewrite o2 by done. auto.
Qed.

Lemma cut_edits q fs fs' : cut q fs fs' → edits q fs fs'.
Proof.
  intros [Hw Ho Hc]. split; [done|done|]. intros k t Hk.
  destruct (Hc k) as [He|He]; congruence.
Qed.
Lemma file_edits q d fs :
  (fs_wf fs → fs_wf (<[q := IFile d]> fs)) → edits q fs (<[q := IFile d]> fs).
Proof.
  intros Hw. split; [done|..].
  - intros k Hk. rewrite lookup_insert_ne; [done|]. by intros ->.
  - intros k t [[_ ?]|[_ ?]]%lookup_insert_Some; done.
Qed.
Lemma replace_edits q d d' fs : fs !! q = Some (IFile d') → edits q fs (<[q := IFile d]> fs).
Proof.
  intros Hq. apply file_edits. intros Hwf. apply wf_write; [done| |by rewrite Hq].
  unfold found. by rewrite Hq.
Qed.

Section frames.
Context {E Stream C : Type} `{HE : !HostEnv E Stream} `{TH : !ToolHost E Stream C}.
Implicit Types h : Host E.
Notation HostM := (M (Host E) IoError).

(** A call that edits where a path leads. *)
Definition edits_at {X A} (follow create : bool) (p : str) (m : M (Host E) X A) : Prop :=
  ∀ h r h', fs_wf (h_fs h) → m h = (r, h') →
    h_cwd h' = h_cwd h
    ∧ (h_fs h' = h_fs h ∨ ∃ q, lookup_path follow create p h = Ok q ∧ edits q (h_fs h) (h_fs h')).

(** An invariant of the files that such edits keep. *)
Lemma preserves_edits_at {X A} (I : Host E → Prop) follow create p (m : M (Host E) X A) :
  edits_at follow create p m →
  (∀ h, I h → fs_wf (h_fs h)) → (∀ h h', I h → same_files h h' → I h') →
  (∀ h h' q, I h → lookup_path follow create p h = Ok q → edits q (h_fs h) (h_fs h') →
     h_cwd h' = h_cwd h → I h') →
  preserves I m.
Proof.
  intros Hm Hwf Hsame Hedit h Hh. destruct (m h) as [r h'] eqn:H.
  apply Hm in H as [Hc [Hf|(q&Hq&He)]]; [..|by apply Hwf].
  - by apply (Hsame h h' Hh).
  - by eapply Hedit.
Qed.

Lemma edits_with_err {F A} follow create p (f : IoError → F) (m : HostM A) :
  edits_at follow create p m → edits_at follow create p (with_err f m).
Proof. intros Hm h r h' Hwf (r0&H&_)%with_err_run. by eapply Hm. Qed.

(** Looking at a path. *)
Lemma path_exists_same p : evolves same_files (path_exists p).
Proof.
  intros h. unfold path_exists. pose proof (stat_same true p h). by destruct (stat true p h).
Qed.
Lemma path_is_file_same p : evolves same_files (path_is_file p).
Proof.
  intros h. unfold path_is_file. pose proof (stat_same true p h). by destruct (stat true p h).
Qed.

Lemma remove_dir_all_cuts p h r h' :
  fs_wf (h_fs h) → remove_dir_all p h = (r, h') →
  h_cwd h' = h_cwd h
  ∧ (h_fs h' = h_fs h ∨ ∃ q, lookup_path false false p h = Ok q ∧ cut q (h_fs h) (h_fs h')).
Proof.
  intros Hwf H. unfold remove_dir_all in H. rewrite bind_run in H.
  destruct (syscall _ _ h) as [r1 h1] eqn:H1.
  apply syscall_run in H1 as [(e&->&[Hf Hc])|[e H1]]; [injection H as <- <-; split; [done|by left]|].
  unfold reads in H1. change (lookup_path false false p (set_env e h))
    with (lookup_path false false p h) in H1. injection H1 as <- <-.
  destruct (lookup_path false false p h) as [q|e'|] eqn:Hq;
    [|injection H as <- <-; split; [done|by left]..].
  assert (evolves (removed q)
    (node ← gets (node_at q);
     match node with
     | Some IDir => depth ← gets (λ h, fs_depth (h_fs h)); remove_tree (S depth) q
     | _ => unlink q
     end)) as Hev.
  { apply (evolves_bind _); [apply (evolves_gets _)|].
    intros [[data| |t]|]; [apply unlink_removes| |apply unlink_removes..].
    apply (evolves_bind _); [apply (evolves_gets _)|]. intros depth. apply remove_tree_removes. }
  destruct (Hev (set_env e h) Hwf) as [Hcut Hcwd]. rewrite H in Hcut, Hcwd. split; [done|].
  right. by exists q.
Qed.
Lemma remove_dir_all_edits p : edits_at false false p (remove_dir_all p).
Proof.
  intros h r h' Hwf H. apply remove_dir_all_cuts in H as [Hc [Hf|(q&Hq&Hcut)]]; [by split; [|left]| |done].
  split; [done|]. right. exists q. split; [done|]. by apply cut_edits.
Qed.

Lemma remove_file_edits p : edits_at false false p (remove_file p).
Proof.
  intros h r h' Hwf H. unfold remove_file in H. rewrite bind_run in H. unfold reads in H.
  destruct (lookup_path false false p h) as [q|e'|] eqn:Hq;
    [|injection H as <- <-; split; [done|by left]..].
  destruct (unlink_removes q h Hwf) as [Hcut Hcwd]. rewrite H in Hcut, Hcwd. split; [done|].
  right. exists q. split; [done|]. by apply cut_edits.
Qed.

(** A file that is opened for writing is emptied. *)
Lemma fs_open_run p h r h' :
  fs_open p h = (r, h') →
  (same_files h h' ∧ is_ok r = false)
  ∨ ∃ q, r = Ok q ∧ lookup_path true true p h = Ok q ∧ h_fs h !! q ≠ Some IDir
      ∧ h_fs h' = <[q := IFile []]> (h_fs h) ∧ h_cwd h' = h_cwd h.
Proof.
  intros H. apply syscall_run in H as [(e&->&Hs)|[e H]]; [by left|].
  rewrite bind_run in H. unfold reads in H.
  change (lookup_path true true p (set_env e h)) with (lookup_path true true p h) in H.
  destruct (lookup_path true true p h) as [q|e'|] eqn:Hq; [|injection H as <- <-; by left..].
  rewrite bind_run in H. unfold gets, node_at in H. cbn [h_fs set_env] in H.
  destruct (h_fs h !! q) as [[]|] eqn:Hn; try (injection H as <- <-; by left);
    (injection H as <- <-; right; exists q; rewrite Hn; by split_and!).
Qed.
Lemma open_edits p h q :
  fs_wf (h_fs h) → lookup_path true true p h = Ok q → h_fs h !! q ≠ Some IDir →
  edits q (h_fs h) (<[q := IFile []]> (h_fs h)).
Proof.
  intros Hwf Hq Hd. apply file_edits. intros _. apply wf_write; [done| |done].
  by eapply lookup_path_found.
Qed.
Lemma fs_open_edits p : edits_at true true p (fs_open p).
Proof.
  intros h r h' Hwf [[[Hf Hc] _]|(q&->&Hq&Hd&Hf&Hc)]%fs_open_run; [by split; [|left]|].
  split; [done|]. right. exists q. rewrite Hf. split; [done|]. by eapply open_edits.
Qed.

Lemma write_all_run q data h r h' :
  fs_write_all q data h = (r, h') →
  h_cwd h' = h_cwd h ∧ r ≠ Panic ∧ ∃ d, h_fs h' = <[q := IFile d]> (h_fs h) ∧ (is_ok r → d = data).
Proof.
  unfold fs_write_all. destruct (host_write_fault _ _) as [[[n error]|] e];
    intros [= <- <-]; split_and!; try done; by eexists.
Qed.

Lemma fs_write_edits p data : edits_at true true p (fs_write p data).
Proof.
  intros h r h' Hwf (Hc&_&[[Hf _]|(q&d&Hq&Hd&Hf&_)])%fs_write_run; [by split; [|left]|].
  split; [done|]. right. exists q. rewrite Hf. split; [done|]. apply file_edits. intros _.
  apply wf_write; [done| |done]. by eapply lookup_path_found.
Qed.

(** A copy: the target is what the path leads to before the call. *)
Lemma fs_copy_run from to h r h' :
  fs_wf (h_fs h) → fs_copy from to h = (r, h') →
  h_cwd h' = h_cwd h ∧
  (h_fs h' = h_fs h ∧ is_ok r = false
   ∨ ∃ q t data d, lookup_path true false from h = Ok q ∧ h_fs h !! q = Some (IFile data)
       ∧ lookup_path true true to h = Ok t ∧ h_fs h !! t ≠ Some IDir
       ∧ h_fs h' = <[t := IFile d]> (h_fs h) ∧ (is_ok r → q ≠ t → d = data)).
Proof.
  intros Hwf H. unfold fs_copy in H. rewrite bind_run in H.
  destruct (file_open from h) as [r1 h1] eqn:H1.
  apply syscall_run in H1 as [(e&->&[Hf Hc])|[e H1]]; [injection H as <- <-; split; [done|by left]|].
  unfold reads in H1. change (lookup_path true false from (set_env e h))
    with (lookup_path true false from h) in H1. injection H1 as <- <-.
  destruct (lookup_path true false from h) as [q|e'|] eqn:Hq;
    [|injection H as <- <-; split; [done|by left]..].
  rewrite bind_run in H. destruct (syscall SysStat _ _) as [r2 h2] eqn:H2.
  assert (same_files h h2 ∧ (is_ok r2 → ∃ data, h_fs h !! q = Some (IFile data))) as [Hs2 Hdata].
  { apply syscall_run in H2 as [(e2&->&?)|[e2 H2]]; [by split|]. unfold file_data, reads in H2.
    unfold node_at in H2. cbn [h_fs set_env] in H2. injection H2 as <- <-. split; [done|].
    destruct (h_fs h !! q) as [[]|]; try done. by eexists. }
  pose proof Hs2 as [Hf2 Hc2].
  destruct r2 as [d2|e2|]; [|injection H as <- <-; split; [done|by left]..].
  destruct Hdata as [data Hn]; [done|]. clear d2 H2. rewrite bind_run in H.
  destruct (fs_open to h2) as [r3 h3] eqn:H3.
  apply fs_open_run in H3 as [[[Hf3 Hc3] Hr3]|(t&->&Ht&Hd&Hf3&Hc3)].
  { destruct r3; [done|..]; injection H as <- <-; (split; [congruence|]);
      left; (split; [congruence|done]). }
  assert (lookup_path true true to h = Ok t) as Ht'.
  { destruct h, h2. simpl in *. by subst. }
  rewrite bind_run in H. unfold file_data, reads, node_at in H. rewrite Hf3, Hf2 in H.
  rewrite Hf2 in Hd. destruct (decide (q = t)) as [<-|Hne].
  - rewrite lookup_insert_eq in H. apply write_all_run in H as (Hc4&_&d&Hf4&_).
    split; [congruence|]. right. exists q, q, data, d. rewrite Hf4, Hf3, Hf2, insert_insert_eq.
    by split_and!.
  - rewrite lookup_insert_ne, Hn in H by done. apply write_all_run in H as (Hc4&_&d&Hf4&Hd4).
    split; [congruence|]. right. exists q, t, data, d. rewrite Hf4, Hf3, Hf2, insert_insert_eq.
    split_and!; auto.
Qed.
Lemma fs_copy_edits from to : edits_at true true to (fs_copy from to).
Proof.
  intros h r h' Hwf H. apply fs_copy_run in H as [Hc [[Hf _]|(q&t&data&d&_&_&Ht&Hd&Hf&_)]];
    [by split; [|left]| |done].
  split; [done|]. right. exists t. rewrite Hf. split; [done|]. apply file_edits. intros _.
  apply wf_write; [done| |done]. by eapply lookup_path_found.
Qed.

(** A file that is opened and resized. *)
Lemma open_resize_edits {X} (err : IoError → X) p n :
  edits_at true true p
    (file ← with_err err (fs_open p); with_err err (file_set_len file n)).
Proof.
  intros h r h' Hwf H. rewrite bind_run in H.
  destruct (with_err err (fs_open p) h) as [r1 h1] eqn:H1. apply with_err_run in H1 as (r0&H1&->).
  apply fs_open_run in H1 as [[[Hf Hc] Hr]|(q&->&Hq&Hd&Hf&Hc)].
  { destruct r0; [done|..]; injection H as <- <-; (split; [done|by left]). }
  cbn [map_err] in H. apply with_err_run in H as (r2&H&->).
  pose proof (open_edits _ _ _ Hwf Hq Hd) as He. rewrite <-Hf in He.
  apply syscall_run in H as [(e&->&[Hf2 Hc2])|[e H]].
  { split; [congruence|]. right. exists q. by rewrite Hf2. }
  rewrite bind_run in H. unfold file_data, reads, node_at in H. cbn [h_fs set_env] in H.
  rewrite Hf, lookup_insert_eq in H. injection H as <- <-. split; [done|]. right. exists q.
  split; [done|]. cbn [h_fs set_fs set_env]. etrans; [exact He|]. eapply replace_edits.
  by rewrite Hf, lookup_insert_eq.
Qed.
End frames.
