(* ===== verification/Xtask.v ===== *)
(** * The build tool (xtask/src/main.rs)

    Packaging, QEMU runs, smoke tests and the documentation check, over the host of
    [BuildHost].  This file holds the definitions; the theorems are in [XtaskBundle] and
    [XtaskBoot] (what a package holds and what the kernel finds in it), [XtaskRun] (processes,
    checksums, the data disk) and [XtaskDocs] (the documentation check). *)
From S2P Require Import Prelude RustStr Text Vfs Host HostTree BuildHost.

Definition LIMINE_VERSION : str := "12.3.3".
Definition LIMINE_SHA256 : str :=
  "205f98218bb0d5a8ccabf5f903dba9d935f7b0aa66f4262a99b0f5a8e668ec6d".
Definition DATA_DISK_SIZE : Z := 32 * 1024 * 1024.

Inductive BareMetalArch : Type := X86_64 | Aarch64.

Definition arch_target (arch : BareMetalArch) : str :=
  match arch with
  | X86_64 => "x86_64-unknown-none"
  | Aarch64 => "aarch64-unknown-none-softfloat"
  end.
Definition arch_label (arch : BareMetalArch) : str :=
  match arch with X86_64 => "x86_64" | Aarch64 => "aarch64" end.
Definition arch_qemu (arch : BareMetalArch) : str :=
  match arch with X86_64 => "qemu-system-x86_64" | Aarch64 => "qemu-system-aarch64" end.

(** What the process sees of its surroundings: its arguments after the program's name, the
    environment, the directory the crate was built in and the suffix of executables. *)
Record BuildProcess := {
  bp_args : list str;
  bp_var : str → option str;
  bp_manifest_dir : str;
  bp_exe_suffix : str }.

(** [Path::display]. *)
Definition display (p : str) : str := from_utf8_lossy p.

Definition parse_arch (value : option str) : res str BareMetalArch :=
  match value with
  | Some value =>
      if bool_decide (value = "x86_64") then Ok X86_64
      else if bool_decide (value = "aarch64" ∨ value = "arm64") then Ok Aarch64
      else Err "expected architecture x86_64 or aarch64"
  | None => Err "expected architecture x86_64 or aarch64"
  end.

(** One module of the boot configuration. *)
Definition module_lines (file : str) : str :=
  let virtual_path := default file (strip_prefix "fs" file) in
  "module_path: boot():/" ++ file ++ [nl] ++ "module_string: afos-file:" ++ virtual_path ++ [nl].

Definition limine_config (files : list str) : str :=
  "timeout: 0" ++ [nl] ++ "quiet: yes" ++ [nl] ++ "serial: yes" ++ [nl]
  ++ "interface_branding: AFOS" ++ [nl] ++ [nl] ++ "/AFOS" ++ [nl] ++ "protocol: limine" ++ [nl]
  ++ "path: boot():/boot/afos.elf" ++ [nl] ++ (files ≫= module_lines).

(** [Path::file_name], and [Path::extension] of it. *)
Definition path_file_name (p : str) : option str :=
  match last (path_components p) with Some (Normal name) => Some name | _ => None end.
Definition path_extension (p : str) : option str :=
  name ← path_file_name p;
  match rsplit_once dot name with
  | Some ([], _) | None => None
  | Some (_, extension) => Some extension
  end.

(** ** Documentation pages *)
(** The text between the lines of three dashes. *)
Definition front_matter (content : str) : option str :=
  rest ← strip_prefix ("---" ++ [nl]) content;
  fst <$> split_once_str ([nl] ++ "---" ++ [nl]) rest.

Definition has_title (front : str) : bool :=
  existsb (λ line, starts_with "title:" line) (lines front).

(** [Iterator::find_map]. *)
Fixpoint find_map {A B} (f : A → option B) (l : list A) : option B :=
  match l with
  | [] => None
  | x :: l => match f x with Some y => Some y | None => find_map f l end
  end.
Definition page_permalink (front : str) : option str :=
  find_map (λ line, trim <$> strip_prefix "permalink:" line) (lines front).

Definition link_open : str := "{{ '".
Definition link_close : str := "' | relative_url }}".
Definition nav_include : str := "{% include nav.md %}".

(** The checks of one page before it is kept; the permalinks seen so far grow by its own. *)
Definition check_page (page content : str) (permalinks : gset str) : res str (gset str) :=
  front ← ok_or (display page ++ " has no valid YAML front matter") (front_matter content);
  if negb (has_title front) then Err (display page ++ " has no title")
  else
    permalink ← ok_or (display page ++ " has no permalink") (page_permalink front);
    if bool_decide (permalink ∈ permalinks)
    then Err ("duplicate documentation permalink: " ++ permalink)
    else if match path_file_name page with
            | Some name => negb (bool_decide (name = "404.md"))
            | None => false
            end && negb (contains_str nav_include content)
    then Err (display page ++ " does not include site navigation")
    else Ok ({[permalink]} ∪ permalinks).

(** The loop over the links of a page; every round shortens the remainder. *)
Fixpoint check_links (fuel : nat) (permalinks : gset str) (page remainder : str) : res str () :=
  match fuel with
  | O => Panic
  | S fuel =>
      match find_str link_open remainder with
      | None => Ok ()
      | Some start =>
          let remainder := drop (start + 4) remainder in
          match find_str link_close remainder with
          | None => Err (display page ++ " has a malformed relative_url")
          | Some end_ =>
              let target := take end_ remainder in
              if bool_decide (target ∈ permalinks)
              then check_links fuel permalinks page (drop (end_ + 19) remainder)
              else Err (display page ++ " links to undocumented permalink " ++ target)
          end
      end
  end.

Fixpoint check_contents (permalinks : gset str) (contents : list (str * str)) : res str () :=
  match contents with
  | [] => Ok ()
  | (page, content) :: contents =>
      check_links (S (length content)) permalinks page content ≫= λ _,
      check_contents permalinks contents
  end.

Definition usage_text : str :=
  "AFOS build utility" ++ [nl; nl]
  ++ "cargo xtask build [all|desktop|x86_64|aarch64]" ++ [nl]
  ++ "cargo xtask package <x86_64|aarch64>" ++ [nl]
  ++ "cargo xtask run <x86_64|aarch64>" ++ [nl]
  ++ "cargo xtask smoke <x86_64|aarch64>" ++ [nl]
  ++ "cargo xtask check".

Section xtask.
Context {E Stream C : Type} `{HE : !HostEnv E Stream} `{TH : !ToolHost E Stream C} `{SH : !Sha256}.
Context (bp : BuildProcess).
Notation Task := (M (Host E) str).

(** [map_err(display_error)]. *)
Definition io {A} (m : M (Host E) IoError A) : Task A := with_err io_text m.

Definition workspace_root : Task str :=
  lift match path_parent (bp_manifest_dir bp) with Some root => Ok root | None => Panic end.

Definition env_path (name : str) : option str := bp_var bp name.

(** ** Programs *)
Definition run_command (c : Command) : Task () :=
  let program := from_utf8_lossy (cmd_program c) in
  status ← with_err (λ error, "failed to run " ++ program ++ ": " ++ io_text error) (cmd_status c);
  if st_success status then mret ()
  else throw (program ++ " exited with " ++ st_text status).

Definition executable (name : str) : Task str := λ h,
  let '(status, h) := cmd_status (arg "--version" (command name)) h in
  (match status with
   | Panic => Panic
   | Ok status => if st_success status then Ok name
                  else Err (name ++ " is not installed or not on PATH")
   | Err _ => Err (name ++ " is not installed or not on PATH")
   end, h).

Definition cargo (l : list str) : Task () := run_command (args l (command "cargo")).

(** ** Files *)
Definition recreate_directory (path : str) : Task () :=
  exists_ ← io (path_exists path);
  (if exists_ : bool then io (remove_dir_all path) else mret ());;
  io (create_dir_all path).

Definition copy (source destination : str) : Task () :=
  match path_parent destination with
  | Some parent => io (create_dir_all parent)
  | None => mret ()
  end;;
  with_err (λ error, "failed to copy " ++ display source ++ " to " ++ display destination ++ ": "
                     ++ io_text error) (fs_copy source destination).

(** One entry of a directory that is copied. *)
Definition copy_entry (subtree : str → str → Task ()) (source destination name : str) : Task () :=
  next_entry io_text;;
  if bool_decide (name = ".gitkeep") then mret ()
  else
    let path := path_join source name in
    node ← io (stat false path);
    let target := path_join destination name in
    match node with
    | ILink _ => throw ("package source may not contain symlinks: " ++ display path)
    | IDir => subtree path target
    | IFile _ => copy path target
    end.

(** [depth]: how far the directories of the source are nested at most. *)
Fixpoint copy_tree (depth : nat) (source destination : str) : Task () :=
  match depth with
  | O => hang
  | S depth =>
      io (create_dir_all destination);;
      names ← io (read_dir source);
      for_each (copy_entry (copy_tree depth) source destination) names
  end.
Definition copy_directory (source destination : str) : Task () :=
  depth ← gets (λ h, fs_depth (h_fs h));
  copy_tree (S depth) source destination.

Definition collect_entry (subtree : str → Task (list str)) (name path : str) : Task (list str) :=
  if bool_decide (name = ".gitkeep") then mret []
  else
    node ← io (stat false path);
    match node with
    | ILink _ => throw ("filesystem source may not contain symlinks: " ++ display path)
    | IDir => subtree path
    | IFile _ => mret [path]
    end.
Definition collect_files (depth : nat) (directory : str) : Task (list str) :=
  walk io_text collect_entry depth directory.

Definition bundle_name (root path : str) : Task str :=
  relative ← lift (ok_or "prefix not found" (path_strip_prefix path root));
  relative ← lift (ok_or ("non-UTF-8 filesystem path: " ++ display path) (from_utf8 relative));
  let relative := slashes relative in
  if contains nl relative || contains cr relative || contains nul relative
  then throw ("unsupported filesystem path: " ++ display path)
  else mret ("fs/" ++ relative).

Fixpoint bundle_names (root : str) (paths : list str) : Task (list str) :=
  match paths with
  | [] => mret []
  | path :: paths =>
      name ← bundle_name root path;
      names ← bundle_names root paths;
      mret (name :: names)
  end.

Definition bundle_files (root : str) : Task (list str) :=
  depth ← gets (λ h, fs_depth (h_fs h));
  files ← collect_files (S depth) root;
  bundle_names root (merge_sort path_le files).

Definition prepare_bundle_filesystem (package : str) : Task () :=
  let filesystem := path_join package "fs" in
  root ← workspace_root;
  copy_directory (path_join root "fs") filesystem;;
  for_each (λ directory, io (create_dir_all directory))
    [path_join filesystem "apps";
     path_join (path_join filesystem "user") "config";
     path_join (path_join filesystem "user") "saves";
     path_join (path_join filesystem "user") "appdata"].

(** [File::create] and [set_len]. *)
Definition create_sized (path : str) (size : Z) : Task () :=
  file ← io (fs_open path); io (file_set_len file size).

Definition ensure_data_disk (path : str) : Task () :=
  there ← io (path_is_file path);
  if there : bool then mret () else create_sized path DATA_DISK_SIZE.

(** ** The boot loader *)
(** The loop that feeds the hasher; [fuel]: one more than the bytes that are left. *)
Definition HASH_BUFFER : nat := Z.to_nat (64 * 1024).
Fixpoint hash_loop (fuel : nat) (file : location) (offset : nat) (hasher : Hasher) : Task Hasher :=
  match fuel with
  | O => hang
  | S fuel =>
      chunk ← io (file_read file offset HASH_BUFFER);
      if bool_decide (chunk = []) then mret hasher
      else hash_loop fuel file (offset + length chunk) (sha_update hasher chunk)
  end.

Definition file_size (file : location) (h : Host E) : nat :=
  match node_at file h with Some (IFile data) => length data | _ => O end.

Definition verify_sha256 (path expected : str) : Task () :=
  file ← io (file_open path);
  size ← gets (file_size file);
  hasher ← hash_loop (S size) file 0 sha_new;
  let actual := hex_string (sha_finalize hasher) in
  if bool_decide (actual = expected) then mret ()
  else throw ("Limine archive checksum mismatch: expected " ++ expected ++ ", got " ++ actual).

Definition both_files (first second : str) : Task bool :=
  one ← io (path_is_file first);
  if one : bool then io (path_is_file second) else mret false.

Definition limine_url : str :=
  "https://github.com/Limine-Bootloader/Limine/releases/download/v" ++ LIMINE_VERSION
  ++ "/limine-binary.tar.gz".

(** Where the loaders are kept, and where the archive goes. *)
Definition limine_cache (root : str) : str :=
  path_join (path_join root "target") ("limine-" ++ LIMINE_VERSION).
Definition limine_archive (root : str) : str :=
  path_join (path_join root "target") ("limine-binary-" ++ LIMINE_VERSION ++ ".tar.gz").
Definition limine_present (cache : str) : Task bool :=
  both_files (path_join cache "BOOTX64.EFI") (path_join cache "BOOTAA64.EFI").

Definition fetch_limine (cache archive : str) : Task () :=
  executable "curl";;
  executable "tar";;
  recreate_directory cache;;
  run_command (arg limine_url (arg archive
    (args ["-fL"; "--retry"; "3"; "-o"] (command "curl")))).

Definition tar_command (archive cache : str) : Command :=
  arg "--strip-components=1" (arg cache (args ["-C"] (arg archive
    (args ["-xzf"] (command "tar"))))).

Definition ensure_limine : Task str :=
  root ← workspace_root;
  let cache := limine_cache root in
  there ← limine_present cache;
  if there : bool then mret cache
  else
    let archive := limine_archive root in
    fetch_limine cache archive;;
    verify_sha256 archive LIMINE_SHA256;;
    run_command (tar_command archive cache);;
    extracted ← limine_present cache;
    if extracted : bool then mret cache
    else throw "Limine UEFI bootloaders were not extracted".

Definition create_uefi_boot_image (image bootloader boot_name : str) : Task () :=
  create_sized image (4 * 1024 * 1024);;
  run_command (args ["-v"; "AFOS_BOOT"; "::"] (arg image (args ["-i"] (command "mformat"))));;
  for_each (λ directory, run_command (arg directory (arg image (args ["-i"] (command "mmd")))))
    ["::/EFI"; "::/EFI/BOOT"];;
  run_command (arg ("::/EFI/BOOT/" ++ boot_name) (arg bootloader (arg image
    (args ["-i"] (command "mcopy"))))).

(** ** Packages *)
Definition package_desktop : Task () :=
  cargo ["build"; "--release"; "-p"; "afos-desktop"];;
  root ← workspace_root;
  let package := path_join (path_join root "dist") "desktop" in
  recreate_directory package;;
  let executable_name := "afos" ++ bp_exe_suffix bp in
  copy (path_join (path_join (path_join root "target") "release") executable_name)
       (path_join (path_join package "boot") executable_name);;
  prepare_bundle_filesystem package;;
  println ("desktop " ++ display package).

(** The tree of a package: the kernel and the initial files. *)
Definition package_tree (arch : BareMetalArch) (root package : str) : Task () :=
  io (create_dir_all package);;
  recreate_directory (path_join package "boot");;
  recreate_directory (path_join package "fs");;
  copy (path_join (path_join (path_join (path_join root "target") (arch_target arch)) "release")
          "afos-kernel")
       (path_join (path_join package "boot") "afos.elf");;
  prepare_bundle_filesystem package.

(** The tree of the image: the package, and the configuration of the boot loader. *)
Definition stage_image (package staging : str) : Task () :=
  recreate_directory staging;;
  copy_directory (path_join package "boot") (path_join staging "boot");;
  copy_directory (path_join package "fs") (path_join staging "fs");;
  io (create_dir_all (path_join (path_join staging "boot") "limine"));;
  filesystem_files ← bundle_files (path_join staging "fs");
  io (fs_write (path_join staging "limine.conf") (limine_config filesystem_files)).

Definition bootloader_names (arch : BareMetalArch) : str * str :=
  match arch with
  | X86_64 => ("BOOTX64.EFI", "limine-x86_64-cd.bin")
  | Aarch64 => ("BOOTAA64.EFI", "limine-aarch64-cd.bin")
  end.

(** The image from its tree. *)
Definition make_image (arch : BareMetalArch) (limine staging iso : str) : Task () :=
  exists_ ← io (path_exists iso);
  (if exists_ : bool then io (remove_file iso) else mret ());;
  executable "mformat";;
  executable "mmd";;
  executable "mcopy";;
  let '(bootloader_name, boot_image_name) := bootloader_names arch in
  let bootloader := path_join limine bootloader_name in
  let boot_image := path_join (path_join (path_join staging "boot") "limine") boot_image_name in
  create_uefi_boot_image boot_image bootloader bootloader_name;;
  copy bootloader (path_join (path_join (path_join staging "EFI") "BOOT") bootloader_name);;
  run_command (arg iso (args ["-o"] (arg staging
    (args ["-efi-boot-part"; "--efi-boot-image"; "--protective-msdos-label"]
      (arg ("boot/limine/" ++ boot_image_name)
        (args ["-as"; "mkisofs"; "-R"; "-r"; "-J"; "--efi-boot"] (command "xorriso"))))))).

Definition package (arch : BareMetalArch) : Task () :=
  executable "xorriso";;
  limine ← ensure_limine;
  cargo ["build"; "--release"; "-p"; "afos-kernel"; "--target"; arch_target arch];;
  root ← workspace_root;
  let package := path_join (path_join root "dist") (arch_label arch) in
  package_tree arch root package;;
  let staging := path_join (path_join root "target") ("afos-" ++ arch_label arch ++ "-iso") in
  stage_image package staging;;
  let iso := path_join package "afos.iso" in
  make_image arch limine staging iso;;
  let data_disk := path_join package "afos-data.img" in
  ensure_data_disk data_disk;;
  println ("bundle  " ++ display package);;
  println ("kernel  " ++ display (path_join (path_join package "boot") "afos.elf"));;
  println ("iso     " ++ display iso);;
  println ("data    " ++ display data_disk).

(** ** QEMU *)
Definition qemu_share : str := default "/opt/homebrew/share/qemu" (bp_var bp "AFOS_QEMU_SHARE").

Definition qemu_firmware (arch : BareMetalArch) : str * str :=
  let share := qemu_share in
  match arch with
  | X86_64 => (default (path_join share "edk2-x86_64-code.fd") (env_path "AFOS_X86_64_CODE"),
               default (path_join share "edk2-i386-vars.fd") (env_path "AFOS_X86_64_VARS"))
  | Aarch64 => (default (path_join share "edk2-aarch64-code.fd") (env_path "AFOS_AARCH64_CODE"),
                default (path_join share "edk2-arm-vars.fd") (env_path "AFOS_AARCH64_VARS"))
  end.

(** The devices of the machine, as options in their order. *)
Definition qemu_devices (arch : BareMetalArch) (iso code vars data_disk : str) : list str :=
  let flash := ["-drive"; "if=pflash,format=raw,readonly=on,file=" ++ display code;
                "-drive"; "if=pflash,format=raw,file=" ++ display vars] in
  let data := ["-drive"; "if=none,id=afos-data,format=raw,file=" ++ display data_disk] in
  match arch with
  | X86_64 =>
      ["-machine"; "q35"; "-m"; "256M"; "-cdrom"; iso] ++ flash ++ data
      ++ ["-device";
          "virtio-blk-pci,drive=afos-data,disable-modern=on,disable-legacy=off,queue-size=16";
          "-netdev"; "user,id=afos-net"; "-device";
          "virtio-net-pci,netdev=afos-net,disable-modern=on,disable-legacy=off"]
  | Aarch64 =>
      ["-machine"; "virt"; "-cpu"; "cortex-a72"; "-m"; "512M"] ++ ["-device"; "ramfb"] ++ flash
      ++ ["-drive"; "if=none,id=cdrom,media=cdrom,readonly=on,file=" ++ display iso]
      ++ ["-device"; "virtio-scsi-pci"; "-device"; "scsi-cd,drive=cdrom"] ++ data
      ++ ["-device"; "virtio-blk-device,drive=afos-data,queue-size=16"; "-netdev";
          "user,id=afos-net"; "-device"; "virtio-net-device,netdev=afos-net"]
  end.

Definition qemu_command (arch : BareMetalArch) (headless : bool) : Task Command :=
  root ← workspace_root;
  let iso := path_join (path_join (path_join root "dist") (arch_label arch)) "afos.iso" in
  program ← executable (arch_qemu arch);
  let '(code, vars) := qemu_firmware arch in
  let vars_copy :=
    path_join (path_join root "target") ("afos-" ++ arch_label arch ++ "-vars.fd") in
  copy vars vars_copy;;
  let data_disk := path_join (path_join (path_join root "dist") (arch_label arch)) "afos-data.img" in
  let c := args (qemu_devices arch iso code vars_copy data_disk) (command program) in
  let c := args (if headless then ["-display"; "none"] else ["-serial"; "stdio"]) c in
  mret (arg "-no-reboot" c).

Definition run_qemu (arch : BareMetalArch) : Task () :=
  package arch;;
  c ← qemu_command arch false;
  run_command c.

(** [Duration], in nanoseconds. *)
Definition from_secs (n : Z) : Z := n * 1000000000.
Definition from_millis (n : Z) : Z := n * 1000000.

Definition log_shows (log : str) (needles : list str) : Task bool := λ h,
  let '(contents, h) := fs_read_to_string log h in
  (match contents with
   | Ok contents => Ok (forallb (λ needle, contains_str needle contents) needles)
   | Err _ => Ok false
   | Panic => Panic
   end, h).
(** [read_to_string(log).unwrap_or_default()]. *)
Definition log_text (log : str) : Task str := λ h,
  let '(contents, h) := fs_read_to_string log h in
  (match contents with Ok contents => Ok contents | Err _ => Ok "" | Panic => Panic end, h).

(** The polling loop, [rounds] of it at most; a round sleeps a tenth of a second. *)
Fixpoint wait_rounds (rounds : nat) (child : C) (log : str) (needles : list str)
    (seconds started : Z) : Task () :=
  match rounds with
  | O => hang
  | S rounds =>
      shown ← log_shows log needles;
      if shown : bool then mret ()
      else
        status ← io (child_try_wait child);
        match status with
        | Some status => throw ("QEMU exited before AFOS started: " ++ st_text status)
        | None =>
            past ← elapsed started;
            if bool_decide (from_secs seconds ≤ past) then
              output ← log_text log;
              throw ("AFOS did not reach its shell within " ++ dec seconds ++ " seconds:" ++ [nl]
                     ++ output)
            else
              modify (thread_sleep (from_millis 100));;
              wait_rounds rounds child log needles seconds started
        end
  end.
Definition wait_for_log (child : C) (log : str) (needles : list str) (seconds : Z) : Task () :=
  started ← now;
  wait_rounds (Z.to_nat (10 * seconds + 1)) child log needles seconds started.

(** Neither result is looked at. *)
Definition terminate (child : C) : Task () := λ h,
  (Ok (), (child_wait child (child_kill child h).2).2).

Definition smoke_dialogue (child : C) (log input : str) (expected : list str) : Task () :=
  wait_for_log child log ["AFOS:/user$ "] 60;;
  (if child_stdin child then mret () else throw "QEMU stdin pipe is unavailable");;
  io (child_write child input);;
  wait_for_log child log expected 120.

(** The child is ended whatever came of the dialogue. *)
Definition smoke_child (child : C) (log input : str) (expected : list str) : Task () := λ h,
  let '(result, h) := smoke_dialogue child log input expected h in
  let '(_, h) := terminate child h in
  (result, h).

Definition smoke_boot (arch : BareMetalArch) (log input : str) (expected : list str) : Task () :=
  exists_ ← io (path_exists log);
  (if exists_ : bool then io (remove_file log) else mret ());;
  output ← io (fs_open log);
  errors ← io (file_try_clone output);
  c ← qemu_command arch true;
  child ← io (cmd_spawn (args ["-serial"; "stdio"] c) errors);
  smoke_child child log input expected.

Definition smoke (arch : BareMetalArch) : Task () :=
  package arch;;
  root ← workspace_root;
  let log := path_join (path_join root "target") ("afos-" ++ arch_label arch ++ "-smoke.log") in
  smoke_boot arch log ("hello" ++ [nl]) ["Hello from a portable AFOS Rhai application!"];;
  println (arch_label arch ++ " Limine boot and shell-command test passed").

(** ** The checks *)
(** The pages: the two that must be there, and every other [.md] file of the directory. *)
Fixpoint other_pages (docs_dir : str) (names : list str) : Task (list str) :=
  match names with
  | [] => mret []
  | name :: names =>
      next_entry io_text;;
      pages ← other_pages docs_dir names;
      let path := path_join docs_dir name in
      mret (if bool_decide (path_extension path = Some "md")
               && negb (bool_decide ((path_file_name path ≫= from_utf8) = Some "index.md"
                                     ∨ (path_file_name path ≫= from_utf8) = Some "404.md"))
            then path :: pages else pages)
  end.

Fixpoint read_pages (pages : list str) (permalinks : gset str) :
    Task (gset str * list (str * str)) :=
  match pages with
  | [] => mret (permalinks, [])
  | page :: pages =>
      content ← io (fs_read_to_string page);
      permalinks ← lift (check_page page content permalinks);
      '(permalinks, contents) ← read_pages pages permalinks;
      mret (permalinks, (page, content) :: contents)
  end.

Definition check_docs : Task () :=
  root ← workspace_root;
  let docs_dir := path_join root "docs" in
  names ← io (read_dir docs_dir);
  others ← other_pages docs_dir names;
  '(permalinks, contents) ←
    read_pages (path_join docs_dir "index.md" :: path_join docs_dir "404.md" :: others) ∅;
  lift (check_contents permalinks contents).

Definition check_all : Task () :=
  check_docs;;
  cargo ["fmt"; "--all"; "--"; "--check"];;
  cargo ["test"; "--workspace"];;
  cargo ["clippy"; "--workspace"; "--all-targets"; "--"; "-D"; "warnings"];;
  for_each (λ target, cargo ["clippy"; "-p"; "afos-kernel"; "--all-features"; "--target"; target;
                             "--"; "-D"; "warnings"])
    ["x86_64-unknown-none"; "aarch64-unknown-none-softfloat"];;
  cargo ["check"; "-p"; "afos-api"; "-p"; "afos-core"; "-p"; "afos-runtime-rhai"; "-p";
         "afos-storage"; "--target"; "wasm32-unknown-unknown"].

(** ** The command line *)
Definition build (target : option str) : Task () :=
  match target with
  | None => package_desktop;; package X86_64;; package Aarch64
  | Some target =>
      if bool_decide (target = "all") then package_desktop;; package X86_64;; package Aarch64
      else if bool_decide (target = "desktop") then package_desktop
      else if bool_decide (target = "x86_64" ∨ target = "bare-x86_64") then package X86_64
      else if bool_decide (target = "aarch64" ∨ target = "arm64" ∨ target = "bare-aarch64")
      then package Aarch64
      else throw ("unknown build target: " ++ target)
  end.

Definition with_arch (f : BareMetalArch → Task ()) (value : option str) : Task () :=
  arch ← lift (parse_arch value); f arch.

Definition xtask_run : Task () :=
  match bp_args bp with
  | [] => println usage_text
  | name :: rest =>
      if bool_decide (name = "build") then build (head rest)
      else if bool_decide (name = "package") then with_arch package (head rest)
      else if bool_decide (name = "run") then with_arch run_qemu (head rest)
      else if bool_decide (name = "smoke") then with_arch smoke (head rest)
      else if bool_decide (name = "check") then check_all
      else if bool_decide (name = "help") then println usage_text
      else throw ("unknown command: " ++ name)
  end.

(** The exit status; [None] for a panic. *)
Definition xtask_main (h : Host E) : option Z * Host E :=
  match xtask_run h with
  | (Ok _, h) => (Some 0, h)
  | (Err error, h) =>
      match eprintln (X := str) ("xtask: " ++ error) h with
      | (Panic, h) => (None, h)
      | (_, h) => (Some 1, h)
      end
  | (Panic, h) => (None, h)
  end.
End xtask.
