(* ===== verification/XtaskDocs.v ===== *)
(** * The documentation check of the build tool

    [check_docs] against what it is for: a declarative description of a site whose pages have
    a title and a permalink of their own, include the navigation, and link to pages that are
    there. *)
From S2P Require Import Prelude RustStr Text Vfs Host HostTree BuildHost Xtask.

(** ** Links *)
(** The targets of the links of a text, from the front; a link that is not closed has none. *)
Inductive page_links : str → list str → Prop :=
| links_none s : ¬ occurs link_open s → page_links s []
| links_some s pre rest target post targets :
    first_occurrence link_open pre rest s → first_occurrence link_close target post rest →
    page_links post targets → page_links s (target :: targets).

Lemma first_unique needle pre post pre' post' s :
  first_occurrence needle pre post s → first_occurrence needle pre' post' s →
  pre = pre' ∧ post = post'.
Proof.
  intros H1%split_once_str_Some H2%split_once_str_Some. rewrite H1 in H2. by injection H2.
Qed.
Lemma first_not_occurs needle pre post s : first_occurrence needle pre post s → occurs needle s.
Proof. intros [-> _]. by eexists _, _. Qed.

(** The scan of a page: it ends, and accepts the page exactly when every link is closed and
    leads to one of the permalinks. *)
Lemma check_links_spec fuel permalinks page s :
  (length s < fuel)%nat →
  check_links fuel permalinks page s ≠ Panic ∧
  (check_links fuel permalinks page s = Ok () ↔
   ∃ targets, page_links s targets ∧ Forall (.∈ permalinks) targets).
Proof.
  revert s. induction fuel as [|fuel IH]; intros s Hl; [lia|]. cbn [check_links].
  destruct (find_str link_open s) as [i|] eqn:Ho.
  2:{ apply find_str_None in Ho. split; [done|]. split; [|done]. intros _. exists [].
      split; [by apply links_none|done]. }
  apply find_str_Some in Ho as [Hi Ho]. change (length link_open) with 4%nat in Ho.
  set (rest := drop (i + 4) s) in *.
  assert (length rest < length s)%nat as Hr.
  { pose proof Ho as [Hs _]. rewrite Hs, !length_app. simpl. lia. }
  destruct (find_str link_close rest) as [j|] eqn:Hc.
  2:{ apply find_str_None in Hc. split; [done|]. split; [done|]. intros (ts&Hp&_).
      destruct Hp as [s Hn|s pre rest' t post ts Hp1 Hp2 _].
      - destruct Hn. by eapply first_not_occurs.
      - destruct (first_unique _ _ _ _ _ _ Ho Hp1) as [_ <-]. destruct Hc.
        by eapply first_not_occurs. }
  apply find_str_Some in Hc as [Hj Hc]. change (length link_close) with 19%nat in Hc.
  destruct (IH (drop (j + 19) rest)) as [Hnp Hiff].
  { rewrite length_drop. lia. }
  case_bool_decide as Ht.
  - split; [done|]. rewrite Hiff. split.
    + intros (ts&Hp&Hf). exists (take j rest :: ts). split; [by eapply links_some|by constructor].
    + intros (ts&Hp&Hf). destruct Hp as [s Hn|s pre rest' t post ts Hp1 Hp2 Hp3].
      { destruct Hn. by eapply first_not_occurs. }
      destruct (first_unique _ _ _ _ _ _ Ho Hp1) as [_ <-].
      destruct (first_unique _ _ _ _ _ _ Hc Hp2) as [_ <-].
      apply Forall_cons in Hf as [_ Hf]. by exists ts.
  - split; [done|]. split; [done|]. intros (ts&Hp&Hf).
    destruct Hp as [s Hn|s pre rest' t post ts Hp1 Hp2 Hp3].
    { destruct Hn. by eapply first_not_occurs. }
    destruct (first_unique _ _ _ _ _ _ Ho Hp1) as [_ <-].
    destruct (first_unique _ _ _ _ _ _ Hc Hp2) as [<- _].
    by apply Forall_cons in Hf as [? _].
Qed.

Definition links_ok (permalinks : gset str) (content : str) : Prop :=
  ∃ targets, page_links content targets ∧ Forall (.∈ permalinks) targets.

Lemma check_contents_spec permalinks contents :
  check_contents permalinks contents ≠ Panic ∧
  (check_contents permalinks contents = Ok () ↔
   Forall (λ pc, links_ok permalinks pc.2) contents).
Proof.
  induction contents as [|[page content] contents [IHn IH]]; cbn [check_contents].
  { split; [done|]. split; [constructor|done]. }
  destruct (check_links_spec (S (length content)) permalinks page content) as [Hn Hl]; [lia|].
  rewrite Forall_cons. unfold links_ok at 1. cbn [snd]. rewrite <-Hl, <-IH.
  destruct (check_links _ _ _ _) as [[]|e|]; [|split; [done|naive_solver]|done].
  split; [done|]. naive_solver.
Qed.

(** ** Pages *)
(** What a page must have. *)
Record page_fine (page content permalink : str) : Prop := {
  fine_front : ∃ front body,
    first_occurrence ([nl] ++ "---" ++ [nl]) front body (drop 4 content)
    ∧ ("---" ++ [nl]) `prefix_of` content
    ∧ (∃ line, line ∈ lines front ∧ "title:" `prefix_of` line)
    ∧ page_permalink front = Some permalink;
  fine_nav name : path_file_name page = Some name → name ≠ "404.md" → occurs nav_include content }.

Lemma front_matter_spec content front :
  front_matter content = Some front ↔
  ∃ body, first_occurrence ([nl] ++ "---" ++ [nl]) front body (drop 4 content)
          ∧ ("---" ++ [nl]) `prefix_of` content.
Proof.
  unfold front_matter. split.
  - intros (rest&Hr&(p&Ho&Hp)%fmap_Some)%bind_Some. apply strip_prefix_Some in Hr as ->.
    destruct p as [front' body]. simpl in Hp. apply split_once_str_Some in Ho. subst.
    exists body. split; [done|]. by exists rest.
  - intros (body&Hf&[rest ->]). rewrite strip_prefix_app. cbn [mbind option_bind].
    change (drop 4 (("---" ++ [nl]) ++ rest)) with rest in Hf.
    apply split_once_str_Some in Hf. by rewrite Hf.
Qed.

Lemma has_title_spec front :
  has_title front = true ↔ ∃ line, line ∈ lines front ∧ "title:" `prefix_of` line.
Proof.
  unfold has_title. rewrite existsb_exists. unfold starts_with.
  setoid_rewrite bool_decide_eq_true. by setoid_rewrite list_elem_of_In.
Qed.

Lemma page_fine_front page content permalink :
  page_fine page content permalink →
  ∃ front, front_matter content = Some front ∧ has_title front = true
           ∧ page_permalink front = Some permalink.
Proof.
  intros [(front&body&H1&H2&H3&H4) _]. exists front.
  split_and!; [apply front_matter_spec; by exists body|by apply has_title_spec|done].
Qed.
Lemma page_fine_fun page content l l' :
  page_fine page content l → page_fine page content l' → l = l'.
Proof.
  intros (f&Hf&_&H)%page_fine_front (f'&Hf'&_&H')%page_fine_front. congruence.
Qed.

Lemma check_page_spec page content permalinks :
  check_page page content permalinks ≠ Panic ∧
  ∀ permalinks', check_page page content permalinks = Ok permalinks' ↔
    ∃ permalink, page_fine page content permalink ∧ permalink ∉ permalinks
                 ∧ permalinks' = {[permalink]} ∪ permalinks.
Proof.
  unfold check_page. destruct (front_matter content) as [front|] eqn:Hf; cbn [ok_or mbind res_bind].
  2:{ split; [done|]. intros P'. split; [done|]. intros (l&(front&?&_)%page_fine_front&_).
      congruence. }
  pose proof (page_fine_front page content) as Hfine. rewrite Hf in Hfine.
  destruct (has_title front) eqn:Ht; cbn [negb].
  2:{ split; [done|]. intros P'. split; [done|]. by intros (l&(?&[= <-]&?&_)%Hfine&_); congruence. }
  destruct (page_permalink front) as [l|] eqn:Hl; cbn [ok_or mbind res_bind].
  2:{ split; [done|]. intros P'. split; [done|]. by intros (l&(?&[= <-]&_&?)%Hfine&_); congruence. }
  assert (∀ l', page_fine page content l' → l' = l) as Huniq.
  { intros l' (?&[= <-]&_&?)%Hfine. congruence. }
  case_bool_decide as Hin.
  { split; [done|]. intros P'. split; [done|]. by intros (l'&->%Huniq&?&_). }
  destruct (_ && _) eqn:Hn.
  { split; [done|]. intros P'. split; [done|]. intros (l'&[_ Hnav]&_).
    apply andb_true_iff in Hn as [Hn1 Hn2%negb_true_iff].
    destruct (path_file_name page) as [name|]; [|done].
    apply negb_true_iff, bool_decide_eq_false in Hn1.
    specialize (Hnav name eq_refl Hn1). apply contains_str_spec in Hnav. congruence. }
  split; [done|]. intros P'. split.
  - intros [= <-]. exists l. split_and!; [|done|done]. split.
    + apply front_matter_spec in Hf as (body&H1&H2). exists front, body. split_and!; [done..| |done].
      by apply has_title_spec.
    + intros name Hname Hne. rewrite Hname in Hn. rewrite bool_decide_false in Hn by done.
      simpl in Hn. apply negb_false_iff in Hn. by apply contains_str_spec.
  - by intros (l'&->%Huniq&_&->).
Qed.

(** ** The site *)
Section site.
Context {E Stream : Type} `{HE : !HostEnv E Stream}.
Implicit Types h : Host E.
Notation Task := (M (Host E) str).

(** The text a path leads to. *)
Definition text_at h (p text : str) : Prop :=
  ∃ q, lookup_path true false p h = Ok q ∧ h_fs h !! q = Some (IFile text) ∧ valid_utf8 text.

Lemma text_at_same h h' p text : same_files h h' → text_at h' p text → text_at h p text.
Proof.
  destruct h as [fs cwd e], h' as [fs' cwd' e']. intros [Hf Hc]. simpl in *. by subst.
Qed.
Lemma text_at_fun h p s t : text_at h p s → text_at h p t → s = t.
Proof. intros (q&Hq&Hs&_) (q'&Hq'&Ht&_). simplify_eq. congruence. Qed.

Lemma read_to_string_run p h r h' :
  fs_read_to_string p h = (r, h') →
  same_files h h' ∧ r ≠ Panic ∧ ∀ text, r = Ok text → text_at h p text.
Proof.
  intros H. unfold fs_read_to_string in H. rewrite bind_run in H.
  pose proof (fs_read_same p h) as Hs. pose proof (fs_read_sound p h I) as Hn.
  destruct (fs_read p h) as [[data|e|] h1] eqn:Hr;
    [|injection H as <- <-; by split_and!|done].
  unfold lift in H. injection H as <- <-. split; [done|]. unfold from_utf8.
  destruct (valid_utf8 data) eqn:Hv; [|done]. split; [done|]. intros text [= <-].
  apply syscall_run in Hr as [(e&?&_)|[e Hr]]; [done|]. rewrite bind_run in Hr. unfold reads in Hr.
  change (lookup_path true false p (set_env e h)) with (lookup_path true false p h) in Hr.
  destruct (lookup_path true false p h) as [q| |] eqn:Hq; [|done..].
  unfold node_at in Hr. cbn [h_fs set_env] in Hr.
  destruct (h_fs h !! q) as [[data'| |]|] eqn:Hd; [|done..]. injection Hr as <- <-.
  exists q. split_and!; [done..|]. by rewrite Hv.
Qed.

Lemma read_to_string_quiet `{QH : !QuietHost E Stream} p text h :
  quiet (h_env h) → text_at h p text → fs_read_to_string p h = (Ok text, h).
Proof.
  intros Hq (q&Hl&Hd&Hv). unfold fs_read_to_string, fs_read. rewrite bind_run.
  rewrite syscall_quiet, bind_run by done. unfold reads, node_at. rewrite Hl. cbn beta iota.
  rewrite Hd. unfold lift. by rewrite from_utf8_valid.
Qed.

(** The pages that were read, in order, with their permalinks. *)
Record pages_read h (pages : list str) (seen permalinks : gset str)
    (contents : list (str * str)) : Prop := {
  pr_pages : contents.*1 = pages;
  pr_texts : Forall (λ pc, text_at h pc.1 pc.2) contents;
  pr_links : ∃ links, Forall2 (λ pc l, page_fine pc.1 pc.2 l) contents links
    ∧ NoDup links ∧ Forall (.∉ seen) links ∧ permalinks = list_to_set links ∪ seen }.

Lemma read_pages_run pages seen h r h' :
  read_pages pages seen h = (r, h') →
  same_files h h' ∧ r ≠ Panic
  ∧ ∀ permalinks contents, r = Ok (permalinks, contents) →
      pages_read h pages seen permalinks contents.
Proof.
  revert seen h r h'. induction pages as [|page pages IH]; intros seen h r h' H.
  { injection H as <- <-. split_and!; [done..|]. intros P l [= <- <-]. split; [done|done|].
    exists []. split_and!; [constructor..|]. set_solver. }
  cbn [read_pages] in H. rewrite bind_run in H.
  destruct (io _ h) as [r1 h1] eqn:H1. apply with_err_run in H1 as (r0&H1&->).
  apply read_to_string_run in H1 as (Hs1&Hn1&Ht).
  destruct r0 as [content|e|]; [|injection H as <- <-; by split_and!|done].
  cbn [map_err] in H. rewrite bind_run in H. unfold lift in H.
  destruct (check_page_spec page content seen) as [Hnp Hp].
  destruct (check_page page content seen) as [seen'|e|]; [|injection H as <- <-; by split_and!|done].
  destruct (proj1 (Hp seen') eq_refl) as (l&Hfine&Hnew&->). rewrite bind_run in H.
  destruct (read_pages pages _ h1) as [r2 h2] eqn:H2. apply IH in H2 as (Hs2&Hn2&Hrest).
  assert (same_files h h2) as Hs by (by etrans).
  destruct r2 as [[P contents]|e|]; [|injection H as <- <-; by split_and!|done].
  injection H as <- <-. split_and!; [done..|]. intros P' l' [= <- <-].
  destruct (Hrest P contents eq_refl) as [Hpages Htexts (links&Hl2&Hnd&Hout&->)].
  split; [simpl; by f_equal|constructor; [by apply Ht|]|].
  - eapply Forall_impl; [exact Htexts|]. intros pc. by apply text_at_same.
  - exists (l :: links). split_and!; [by constructor| |constructor; [done|]|set_solver].
    + constructor; [|done]. intros Hin. rewrite Forall_forall in Hout. specialize (Hout l Hin).
      set_solver.
    + eapply Forall_impl; [exact Hout|]. set_solver.
Qed.

Lemma read_pages_quiet `{QH : !QuietHost E Stream} pages seen permalinks contents h :
  quiet (h_env h) → pages_read h pages seen permalinks contents →
  read_pages pages seen h = (Ok (permalinks, contents), h).
Proof.
  intros Hq. revert seen permalinks contents.
  induction pages as [|page pages IH]; intros seen P contents [Hpages Ht (links&Hf2&Hnd&Hout&->)].
  { apply fmap_nil_inv in Hpages as ->. apply Forall2_nil_inv_l in Hf2 as ->.
    unfold read_pages, mret, M_ret. repeat f_equal. set_solver. }
  destruct contents as [|[page' content] contents]; [done|]. injection Hpages as -> Hpages.
  apply Forall2_cons_inv_l in Hf2 as (l&links'&Hfine&Hf2&->). simpl in Hfine.
  apply Forall_cons in Ht as [Ht1 Ht]. apply NoDup_cons in Hnd as [Hl Hnd].
  apply Forall_cons in Hout as [Hl' Hout].
  cbn [read_pages]. rewrite bind_run. unfold io, with_err.
  rewrite (read_to_string_quiet page content) by done. cbn [map_err]. rewrite bind_run. unfold lift.
  rewrite (proj2 (proj2 (check_page_spec page content seen) ({[l]} ∪ seen)))
    by (by exists l).
  rewrite bind_run, (IH ({[l]} ∪ seen) (list_to_set (l :: links') ∪ seen) contents); [done|].
  split; [done|done|]. exists links'. split_and!; [done|done| |set_solver].
  apply Forall_forall. intros x Hx. rewrite Forall_forall in Hout. specialize (Hout x Hx).
  intros [->%elem_of_singleton|?]%elem_of_union; done.
Qed.

(** ** The pages of a directory *)
Definition is_page (name : str) : Prop := path_extension name = Some "md".

Lemma path_components_name c : host_name c → path_components c = [Normal c].
Proof.
  intros (Hne&Hd&Hdd&Hs&_). unfold path_components.
  assert (pieces c = [c]) as ->.
  { unfold pieces. rewrite split_no by done. by rewrite filter_cons_True. }
  rewrite filter_cons_True by done. rewrite filter_nil. unfold is_absolute, starts_with.
  rewrite bool_decide_false.
  - simpl. rewrite bool_decide_false by (by intros [= ->]). unfold component_of.
    by rewrite bool_decide_false.
  - intros [r ->]. apply Hs. left.
Qed.

Lemma file_name_location d c :
  Forall host_name (d ++ [c]) → path_file_name (path_of (d ++ [c])) = Some c.
Proof.
  intros Hd. unfold path_file_name. rewrite components_path_of, fmap_app by done.
  simpl fmap. by rewrite app_comm_cons, last_snoc.
Qed.
Lemma extension_location d c :
  Forall host_name (d ++ [c]) → path_extension (path_of (d ++ [c])) = path_extension c.
Proof.
  intros Hd. unfold path_extension. rewrite file_name_location by done.
  apply Forall_app in Hd as [_ [Hc _]%Forall_cons]. unfold path_file_name.
  by rewrite path_components_name.
Qed.

(** The entries that are read beside the two pages that must be there. *)
Definition other_page (name : str) : Prop :=
  is_page name ∧ name ≠ "index.md" ∧ name ≠ "404.md".
#[export] Instance other_page_dec name : Decision (other_page name).
Proof. unfold other_page, is_page. apply _. Defined.

Lemma other_pages_run d names h r h' :
  Forall (λ c, Forall host_name (d ++ [c])) names →
  other_pages (path_of d) names h = (r, h') →
  same_files h h' ∧ r ≠ Panic
  ∧ (∀ pages, r = Ok pages → pages = (λ c, path_of (d ++ [c])) <$> filter other_page names).
Proof.
  revert h r h'. induction names as [|c names IH]; intros h r h' Hn H; cbn [other_pages] in H.
  { injection H as <- <-. split_and!; [done..|]. by intros pages [= <-]. }
  apply Forall_cons in Hn as [Hc Hn]. rewrite bind_run in H.
  destruct (next_entry _ h) as [r1 h1] eqn:H1. apply next_entry_run in H1 as [Hs1 Hn1].
  destruct r1 as [[]|e|]; [|injection H as <- <-; by split_and!|done].
  rewrite bind_run in H. destruct (other_pages _ names h1) as [r2 h2] eqn:H2.
  apply IH in H2 as (Hs2&Hn2&Hp); [|done]. assert (same_files h h2) as Hs by (by etrans).
  destruct r2 as [pages|e|]; [|injection H as <- <-; by split_and!|done].
  injection H as <- <-. split_and!; [done..|]. intros pages' [= <-]. rewrite (Hp pages eq_refl).
  rewrite join_child, extension_location, file_name_location, filter_cons by done.
  cbn [mbind option_bind].
  assert (∀ x, valid_utf8 x → from_utf8 c = Some x ↔ c = x) as Hutf.
  { intros x Hx. unfold from_utf8. destruct (valid_utf8 c) eqn:Hv; split; try congruence.
    intros ->. by rewrite Hv in Hx. }
  case_decide as Ho; unfold other_page, is_page in Ho.
  - rewrite bool_decide_true by tauto. rewrite bool_decide_false; [done|].
    rewrite !Hutf by done. tauto.
  - case_bool_decide; [|done]. rewrite bool_decide_true; [done|]. rewrite !Hutf by done.
    destruct (decide (c = "index.md")), (decide (c = "404.md")); tauto.
Qed.

(** A page of the site in directory [d], and its permalink. *)
Definition site_page h (d : location) (c : str) : Prop :=
  c = "index.md" ∨ c = "404.md" ∨ is_page c ∧ is_Some (h_fs h !! (d ++ [c])).
Definition permalink_of h (d : location) (c permalink : str) : Prop :=
  ∃ text, text_at h (path_of (d ++ [c])) text ∧ page_fine (path_of (d ++ [c])) text permalink.

(** Every page has what it needs, no two pages have the same permalink, and every link leads
    to the permalink of a page. *)
Record site_ok h (d : location) : Prop := {
  site_pages c : site_page h d c → ∃ permalink, permalink_of h d c permalink;
  site_distinct c c' permalink : site_page h d c → site_page h d c' →
    permalink_of h d c permalink → permalink_of h d c' permalink → c = c';
  site_links c text : site_page h d c → text_at h (path_of (d ++ [c])) text →
    ∃ targets, page_links text targets
      ∧ Forall (λ t, ∃ c', site_page h d c' ∧ permalink_of h d c' t) targets }.

Definition site_names h (d : location) : list str :=
  "index.md" :: "404.md" :: filter other_page (children d (h_fs h)).
Definition page_path (d : location) (c : str) : str := path_of (d ++ [c]).

Lemma elem_of_site_names h d c : c ∈ site_names h d ↔ site_page h d c.
Proof.
  unfold site_names, site_page. rewrite !elem_of_cons, list_elem_of_filter, elem_of_children.
  unfold other_page. destruct (decide (c = "index.md")), (decide (c = "404.md")); tauto.
Qed.
Lemma site_names_NoDup h d : NoDup (site_names h d).
Proof.
  unfold site_names. constructor; [|constructor].
  - intros [?|[(_&?&_) _]%list_elem_of_filter]%elem_of_cons; done.
  - by intros [(_&_&?) _]%list_elem_of_filter.
  - apply NoDup_filter, children_NoDup.
Qed.

(** The texts and permalinks of a list of names, one by one. *)
Definition page_row h (d : location) (c : str) (pc : str * str) (l : str) : Prop :=
  pc.1 = page_path d c ∧ text_at h pc.1 pc.2 ∧ page_fine pc.1 pc.2 l.

Lemma page_row_permalink h d c pc l l' :
  page_row h d c pc l → permalink_of h d c l' → l' = l.
Proof.
  destruct pc as [p text]. intros (Hp&Ht&Hf) (text'&Ht'&Hf'). simpl in *. subst p.
  rewrite (text_at_fun _ _ _ _ Ht Ht') in Hf. by eapply page_fine_fun.
Qed.

Lemma rows_of_read h d names seen permalinks contents :
  pages_read h (page_path d <$> names) seen permalinks contents →
  ∃ links, NoDup links ∧ permalinks = list_to_set links ∪ seen
    ∧ Forall3 (page_row h d) names contents links.
Proof.
  intros [Hp Ht (links&Hf&Hnd&_&->)]. exists links. split_and!; [done..|]. clear Hnd.
  revert contents links Hp Ht Hf.
  induction names as [|c names IH]; intros contents links Hp Ht Hf.
  { apply fmap_nil_inv in Hp as ->. apply Forall2_nil_inv_l in Hf as ->. constructor. }
  destruct contents as [|pc contents]; [done|]. injection Hp as Hpc Hp.
  apply Forall2_cons_inv_l in Hf as (l&links'&Hl&Hf&->). apply Forall_cons in Ht as [Ht1 Ht].
  constructor; [by split_and!|auto].
Qed.
Lemma read_of_rows h d names contents links :
  Forall3 (page_row h d) names contents links → NoDup links →
  pages_read h (page_path d <$> names) ∅ (list_to_set links ∪ ∅) contents.
Proof.
  intros H Hnd. split.
  - clear Hnd. induction H as [|c pc l names contents links (Hp&_) _ IH]; [done|].
    simpl. by f_equal.
  - clear Hnd. induction H as [|c pc l names contents links (_&Ht&_) _ IH]; by constructor.
  - exists links. split_and!; [|done|apply Forall_forall; set_solver|done]. clear Hnd.
    induction H as [|c pc l names contents links (_&_&Hf) _ IH]; by constructor.
Qed.

Lemma rows_exist h d names :
  (∀ c, c ∈ names → ∃ l, permalink_of h d c l) →
  ∃ contents links, Forall3 (page_row h d) names contents links.
Proof.
  induction names as [|c names IH]; intros Hall; [exists [], []; constructor|].
  destruct (Hall c) as (l&text&Ht&Hf); [left|].
  destruct IH as (contents&links&Hrows); [intros c' Hc'; apply Hall; by right|].
  exists ((page_path d c, text) :: contents), (l :: links). constructor; [by split_and!|done].
Qed.

(** Different pages with different permalinks, and the other way round. *)
Lemma rows_distinct h d names contents links :
  Forall3 (page_row h d) names contents links → NoDup names →
  NoDup links ↔ ∀ c c' l, c ∈ names → c' ∈ names →
    permalink_of h d c l → permalink_of h d c' l → c = c'.
Proof.
  intros Hrows Hnd. split.
  - intros Hl c c' l [i Hi]%list_elem_of_lookup [j Hj]%list_elem_of_lookup Hc Hc'.
    destruct (Forall3_lookup_l _ _ _ _ _ _ Hrows Hi) as (pc&li&Hpc&Hli&Hrow).
    destruct (Forall3_lookup_l _ _ _ _ _ _ Hrows Hj) as (pc'&lj&Hpc'&Hlj&Hrow').
    rewrite <-(page_row_permalink _ _ _ _ _ _ Hrow Hc) in Hli.
    rewrite <-(page_row_permalink _ _ _ _ _ _ Hrow' Hc') in Hlj.
    rewrite (NoDup_lookup _ _ _ _ Hl Hli Hlj) in Hi. congruence.
  - intros Hd. apply NoDup_alt. intros i j l Hi Hj.
    destruct (Forall3_lookup_r _ _ _ _ _ _ Hrows Hi) as (c&pc&Hc&Hpc&(Hp&Ht&Hf)).
    destruct (Forall3_lookup_r _ _ _ _ _ _ Hrows Hj) as (c'&pc'&Hc'&Hpc'&(Hp'&Ht'&Hf')).
    rewrite Hp in Ht, Hf. rewrite Hp' in Ht', Hf'.
    assert (c = c') as ->.
    { apply (Hd c c' l); [by eapply list_elem_of_lookup_2..| |]; by eexists. }
    by eapply NoDup_lookup.
Qed.

(** The links of all pages, against the permalinks that were gathered. *)
Lemma rows_links h d names contents links :
  Forall3 (page_row h d) names contents links →
  Forall (λ pc, links_ok (list_to_set links ∪ ∅) pc.2) contents ↔
  ∀ c text, c ∈ names → text_at h (page_path d c) text →
    ∃ targets, page_links text targets
      ∧ Forall (λ t, ∃ c', c' ∈ names ∧ permalink_of h d c' t) targets.
Proof.
  intros Hrows.
  assert (∀ t, t ∈ (list_to_set links ∪ ∅ : gset str) ↔
            ∃ c', c' ∈ names ∧ permalink_of h d c' t) as Hin.
  { intros t. rewrite elem_of_union, elem_of_list_to_set, elem_of_empty. split.
    - intros [[i Hi]%list_elem_of_lookup|[]].
      destruct (Forall3_lookup_r _ _ _ _ _ _ Hrows Hi) as (c&pc&Hc&_&(Hp&Ht&Hf)).
      exists c. split; [by eapply list_elem_of_lookup_2|]. rewrite Hp in Ht, Hf. by eexists.
    - intros (c&[i Hi]%list_elem_of_lookup&Hc).
      destruct (Forall3_lookup_l _ _ _ _ _ _ Hrows Hi) as (pc&l&_&Hl&Hrow).
      rewrite (page_row_permalink _ _ _ _ _ _ Hrow Hc). left. by eapply list_elem_of_lookup_2. }
  unfold links_ok. rewrite Forall_forall. setoid_rewrite Hin. split.
  - intros Hall c text [i Hi]%list_elem_of_lookup Ht.
    destruct (Forall3_lookup_l _ _ _ _ _ _ Hrows Hi) as (pc&l&Hpc&_&(Hp&Ht'&_)).
    rewrite Hp in Ht'. rewrite (text_at_fun _ _ _ _ Ht Ht').
    apply Hall. by eapply list_elem_of_lookup_2.
  - intros Hall pc [i Hi]%list_elem_of_lookup.
    destruct (Forall3_lookup_m _ _ _ _ _ _ Hrows Hi) as (c&l&Hc&_&(Hp&Ht&_)).
    rewrite Hp in Ht. by apply (Hall c); [eapply list_elem_of_lookup_2|].
Qed.

(** What the two passes accept is a site in order. *)
Lemma rows_site h d contents links :
  Forall3 (page_row h d) (site_names h d) contents links →
  NoDup links ∧ Forall (λ pc, links_ok (list_to_set links ∪ ∅) pc.2) contents ↔ site_ok h d.
Proof.
  intros Hrows. rewrite (rows_distinct _ _ _ _ _ Hrows (site_names_NoDup h d)).
  rewrite (rows_links _ _ _ _ _ Hrows). setoid_rewrite elem_of_site_names. split.
  - intros [Hd Hl]. split; [|naive_solver|naive_solver]. intros c Hc.
    apply elem_of_site_names, list_elem_of_lookup in Hc as [i Hi].
    destruct (Forall3_lookup_l _ _ _ _ _ _ Hrows Hi) as (pc&l&_&_&(Hp&Ht&Hf)).
    exists l. rewrite Hp in Ht, Hf. by eexists.
  - intros [_ Hd Hl]. split; [naive_solver|done].
Qed.

Lemma children_names d h :
  fs_wf (h_fs h) → Forall (λ c, Forall host_name (d ++ [c])) (children d (h_fs h)).
Proof.
  intros Hwf. apply Forall_forall. intros c [n Hn]%elem_of_children. by eapply wf_names.
Qed.

(** Without faults the directory is read and every entry looked at. *)
Lemma read_dir_quiet `{QH : !QuietHost E Stream} d h :
  quiet (h_env h) → fs_wf (h_fs h) → h_fs h !! d = Some IDir →
  read_dir (path_of d) h = (Ok (children d (h_fs h)), h).
Proof.
  intros Hq Hwf Hd. unfold read_dir. rewrite syscall_quiet, bind_run by done. unfold reads, node_at.
  rewrite (lookup_exact _ _ _ _ IDir) by done. by rewrite Hd.
Qed.
Lemma other_pages_quiet `{QH : !QuietHost E Stream} dir names h :
  quiet (h_env h) → ∃ pages, other_pages dir names h = (Ok pages, h).
Proof.
  intros Hq. induction names as [|c names [pages IH]]; [by exists []|]. cbn [other_pages].
  rewrite bind_run. unfold next_entry at 1, with_err. rewrite syscall_quiet by done. cbn.
  rewrite bind_run, IH. by eexists.
Qed.

(** The pages that are listed, and what is done with them. *)
Lemma list_pages_run `{QH : !QuietHost E Stream} {A} d h (k : list str → Task A) res h' :
  fs_wf (h_fs h) → h_fs h !! d = Some IDir →
  (names ← io (read_dir (path_of d)); others ← other_pages (path_of d) names; k others) h
    = (res, h') →
  (∃ e, res = Err e ∧ same_files h h' ∧ ¬ quiet (h_env h))
  ∨ ∃ h2, same_files h h2 ∧ (quiet (h_env h) → h2 = h)
      ∧ k (page_path d <$> filter other_page (children d (h_fs h))) h2 = (res, h').
Proof.
  intros Hwf Hd H. rewrite bind_run in H.
  destruct (io (read_dir (path_of d)) h) as [r1 h1] eqn:H1. apply with_err_run in H1 as (r0&H1&->).
  pose proof (read_dir_sound (path_of d) h I) as Hn1.
  pose proof (read_dir_same (path_of d) h) as Hs1. rewrite H1 in Hn1, Hs1. cbn [fst snd] in Hn1, Hs1.
  destruct r0 as [names|e|]; [|injection H as <- <-|done].
  2:{ left. eexists. split_and!; [done..|]. intros Hq. by rewrite read_dir_quiet in H1. }
  apply read_dir_node in H1 as Hnames; [|done..]. destruct Hnames as [-> _].
  cbn [map_err] in H. rewrite bind_run in H.
  destruct (other_pages _ _ h1) as [r2 h2] eqn:H2.
  apply other_pages_run in H2 as Hrun2; [|by apply children_names].
  destruct Hrun2 as (Hs2&Hn2&Hpages). assert (same_files h h2) as Hs by (by etrans).
  assert (quiet (h_env h) → h2 = h ∧ is_ok r2) as Hquiet.
  { intros Hq. rewrite read_dir_quiet in H1 by done. injection H1 as <-.
    destruct (other_pages_quiet (path_of d) (children d (h_fs h)) h Hq) as [pages Hp].
    rewrite Hp in H2. by injection H2 as <- <-. }
  destruct r2 as [others|e|]; [|injection H as <- <-|done].
  - right. exists h2. rewrite (Hpages others eq_refl) in H. split_and!; [done|naive_solver|exact H].
  - left. eexists. split_and!; [done..|]. by intros [_ ?]%Hquiet.
Qed.

(** The two passes over the pages. *)
Lemma passes_exact `{QH : !QuietHost E Stream} d h h2 res h' :
  same_files h h2 → (quiet (h_env h) → h2 = h) →
  ('(permalinks, contents) ← read_pages (page_path d <$> site_names h d) ∅;
   lift (check_contents permalinks contents)) h2 = (res, h') →
  res ≠ Panic ∧ same_files h h' ∧ (res = Ok () → site_ok h d)
  ∧ (quiet (h_env h) → site_ok h d → res = Ok ()).
Proof.
  intros Hs Hq H. rewrite bind_run in H.
  destruct (read_pages _ ∅ h2) as [r3 h3] eqn:H3. apply read_pages_run in H3 as Hrun.
  destruct Hrun as (Hs3&Hn3&Hread). assert (same_files h h3) as Hs' by (by etrans).
  assert (quiet (h_env h) → site_ok h d → ∃ contents links, NoDup links
    ∧ Forall3 (page_row h d) (site_names h d) contents links
    ∧ r3 = Ok (list_to_set links ∪ ∅, contents)) as Hback.
  { intros Hqe Hsite. rewrite (Hq Hqe) in H3.
    destruct (rows_exist h d (site_names h d)) as (contents&links&Hrows).
    { intros c Hc. by apply (site_pages _ _ Hsite), elem_of_site_names. }
    pose proof (proj2 (rows_site _ _ _ _ Hrows) Hsite) as [Hnd _]. exists contents, links.
    split_and!; [done..|]. pose proof (read_of_rows _ _ _ _ _ Hrows Hnd) as Hpr.
    apply (read_pages_quiet _ _ _ _ _ Hqe) in Hpr. rewrite Hpr in H3. by injection H3 as <- <-. }
  destruct r3 as [[P contents]|e|]; [|injection H as <- <-; split_and!; try done; naive_solver|done].
  unfold lift in H. injection H as <- <-.
  destruct (check_contents_spec P contents) as [Hnp Hiff]. split_and!; [done..| |].
  - intros Hok%Hiff. destruct (Hread P contents eq_refl) as [Hp Ht Hl].
    assert (pages_read h (page_path d <$> site_names h d) ∅ P contents) as Hpr.
    { split; [done| |done]. eapply Forall_impl; [exact Ht|]. intros pc. by apply text_at_same. }
    apply rows_of_read in Hpr as (links&Hnd&->&Hrows). by apply (rows_site _ _ _ _ Hrows).
  - intros Hqe Hsite. destruct (Hback Hqe Hsite) as (contents'&links&Hnd&Hrows&[= -> ->]).
    apply Hiff. by apply (rows_site _ _ _ _ Hrows).
Qed.

(** C40. The documentation check does what it is for: it ends and changes nothing; when it
    passes, every page of the site has front matter with a title and a permalink, includes
    the navigation unless it is the page for missing pages, no two pages have the same
    permalink, and every link is closed and leads to the permalink of a page; and on a host
    that refuses nothing every such site passes. *)
Theorem docs_check_exact `{QH : !QuietHost E Stream} bp (r : location) h :
  path_parent (bp_manifest_dir bp) = Some (path_of r) → fs_wf (h_fs h) →
  h_fs h !! (r ++ ["docs"]) = Some IDir →
  (check_docs bp h).1 ≠ Panic ∧ same_files h (check_docs bp h).2
  ∧ ((check_docs bp h).1 = Ok () → site_ok h (r ++ ["docs"]))
  ∧ (quiet (h_env h) → site_ok h (r ++ ["docs"]) → (check_docs bp h).1 = Ok ()).
Proof.
  intros Hroot Hwf Hd. set (d := r ++ ["docs"]) in *.
  destruct (check_docs bp h) as [res h'] eqn:H. cbn [fst snd].
  unfold check_docs, workspace_root in H. rewrite Hroot, bind_lift_ok in H.
  rewrite join_child in H by (by eapply wf_names). fold d in H.
  assert (∀ c, host_name c → path_join (path_of d) c = page_path d c) as Hjoin.
  { intros c Hc. apply join_child, Forall_app. split; [by eapply wf_names|].
    by apply Forall_singleton. }
  rewrite !Hjoin in H by by_eval.
  apply list_pages_run in H as [(e&->&?&?)|(h2&Hs&Hq&H)]; [by split_and!|..|done|done].
  by eapply passes_exact.
Qed.
End site.
