(* ===== verification/XtaskRun.v ===== *)
(** * What the build tool runs

    The checksum of the boot loader and the loaders in the cache ([verify_sha256_exact],
    [limine_is_pinned]), the smoke test
    ([smoke_child_ends]), and the data disk that packaging keeps ([package_keeps_disk]). *)
From S2P Require Import Prelude RustStr Text Vfs Host HostTree BuildHost Xtask XtaskDocs.

(** ** Reading a file in parts *)
Section checksum.
Context {E Stream C : Type} `{HE : !HostEnv E Stream} `{TH : !ToolHost E Stream C}.
Context `{SH : !Sha256} `{SS : !Sha256Streams}.
Implicit Types h : Host E.
Notation Task := (M (Host E) str).

(** A read changes nothing and gives the next bytes, some of them unless none are left. *)
Lemma file_read_run q offset max h data r h' :
  h_fs h !! q = Some (IFile data) → (0 < max)%nat → file_read q offset max h = (r, h') →
  same_files h h' ∧ r ≠ Panic
  ∧ ∀ chunk, r = Ok chunk → (∃ tail, drop offset data = chunk ++ tail)
      ∧ (chunk = [] → drop offset data = []).
Proof.
  intros Hq Hmax H. unfold file_read, file_data in H. rewrite bind_run in H. unfold reads, node_at in H.
  rewrite Hq in H. unfold read_some in H. destruct (read_size _ _) as [[error|n] e];
    injection H as <- <-; split_and!; try done.
  intros chunk [= <-]. split.
  - rewrite take_take. eexists. by rewrite take_drop.
  - rewrite take_take. intros Hnil. destruct (drop offset data) as [|b l]; [done|].
    destruct (Nat.max 1 n `min` max)%nat eqn:Hm; [lia|done].
Qed.

(** A call on the host that failed. *)
Definition io_failed {A} (r : res str A) : Prop := ∃ error, r = Err (io_text error).

(** The loop hashes what is left of the file. *)
Lemma hash_loop_run fuel q offset s h data r h' :
  h_fs h !! q = Some (IFile data) → (length (drop offset data) < fuel)%nat →
  hash_loop fuel q offset s h = (r, h') →
  same_files h h' ∧ (io_failed r ∨ r = Ok (sha_update s (drop offset data))).
Proof.
  revert offset s h. induction fuel as [|fuel IH]; intros offset s h Hq Hl H; [lia|].
  cbn [hash_loop] in H. rewrite bind_run in H.
  destruct (io _ h) as [r1 h1] eqn:H1. apply with_err_run in H1 as (r0&H1&->).
  apply (file_read_run _ _ _ _ data) in H1 as (Hs1&Hn1&Hc); [|done|unfold HASH_BUFFER; lia].
  destruct r0 as [chunk|e|]; [|injection H as <- <-; split; [done|left; by exists e]|done].
  cbn [map_err] in H. destruct (Hc chunk eq_refl) as [[tail Ht] Hempty]. case_bool_decide as Hnil.
  { injection H as <- <-. split; [done|]. right. by rewrite (Hempty Hnil), sha_update_nil. }
  assert (drop (offset + length chunk) data = tail) as Htail.
  { by rewrite <-drop_drop, Ht, drop_app_length. }
  assert (length chunk ≠ 0)%nat by (by destruct chunk).
  apply IH in H as [Hs2 Hr].
  - split; [by etrans|]. by rewrite Htail, sha_update_app, <-Ht in Hr.
  - pose proof Hs1 as [-> _]. done.
  - rewrite Htail. rewrite Ht, length_app in Hl. lia.
Qed.

Definition checksum_error (expected actual : str) : str :=
  "Limine archive checksum mismatch: expected " ++ expected ++ ", got " ++ actual.

Lemma file_open_run p h r h' :
  file_open p h = (r, h') →
  same_files h h' ∧ ((∃ e, r = Err e) ∨ ∃ q, r = Ok q ∧ lookup_path true false p h = Ok q).
Proof.
  intros H. apply syscall_run in H as [(e&->&?)|[e H]]; [by split; [|left; eexists]|].
  unfold reads in H. injection H as <- <-. split; [done|].
  change (lookup_path true false p (set_env e h)) with (lookup_path true false p h).
  destruct (lookup_path true false p h) as [q|e'|] eqn:Hl;
    [right; by exists q|left; by eexists|by apply lookup_returns in Hl].
Qed.

(** Reading the file in parts and hashing them is hashing the file: the check ends, changes
    nothing, and unless a call on the host fails its answer is that of the digest of the
    whole contents. *)
Lemma verify_sha256_exact path expected h r h' :
  fs_wf (h_fs h) → verify_sha256 path expected h = (r, h') →
  same_files h h'
  ∧ (io_failed r
     ∨ ∃ q data, lookup_path true false path h = Ok q ∧ h_fs h !! q = Some (IFile data)
         ∧ r = if bool_decide (hex_string (sha256 data) = expected) then Ok ()
               else Err (checksum_error expected (hex_string (sha256 data)))).
Proof.
  intros Hwf H. unfold verify_sha256 in H. rewrite bind_run in H.
  destruct (io _ h) as [r1 h1] eqn:H1. apply with_err_run in H1 as (r0&H1&->).
  apply file_open_run in H1 as [Hs1 [[e ->]|(q&->&Hq)]].
  { injection H as <- <-. split; [done|]. left. by exists e. }
  cbn [map_err] in H. rewrite bind_run in H. unfold gets in H. cbv beta iota in H.
  rewrite bind_run in H. destruct (hash_loop _ q 0 sha_new h1) as [r2 h2] eqn:H2.
  pose proof Hs1 as [Hf1 _]. apply lookup_path_found in Hq as Hfound; [|done]. unfold found in Hfound.
  unfold file_size, node_at in H2. rewrite Hf1 in H2.
  destruct (h_fs h !! q) as [[data| |t]|] eqn:Hn; [| |done|by destruct Hfound].
  - apply (hash_loop_run _ _ _ _ _ data) in H2 as [Hs2 Hr2]; [|by rewrite Hf1|rewrite drop_0; lia].
    rewrite drop_0 in Hr2. assert (same_files h h2) as Hs by (by etrans).
    destruct Hr2 as [[error ->]| ->]; [injection H as <- <-; split; [done|left; by exists error]|].
    fold (sha256 data) in H. split; [by case_bool_decide; injection H as _ <-|]. right.
    exists q, data. split_and!; [done..|].
    by case_bool_decide; injection H as <- _.
  - cbn [hash_loop] in H2. rewrite bind_run in H2. unfold io, with_err, file_read, file_data in H2.
    rewrite bind_run in H2. unfold reads, node_at in H2. rewrite Hf1, Hn in H2.
    injection H2 as <- <-. injection H as <- <-. split; [done|]. left. by exists io_is_directory.
Qed.

(** ** The boot loader *)
Lemma path_is_file_run p h :
  same_files h (path_is_file p h).2
  ∧ ∃ b, (path_is_file p h).1 = Ok b ∧ (b = true → ∃ q data,
      lookup_path true false p h = Ok q ∧ h_fs h !! q = Some (IFile data)).
Proof.
  unfold path_is_file. pose proof (stat_same true p h) as Hs.
  destruct (stat true p h) as [r h'] eqn:H. split; [done|]. eexists. split; [done|].
  destruct r as [[data| |t]| |]; try done. intros _.
  apply syscall_run in H as [(e&?&_)|[e H]]; [done|]. rewrite bind_run in H. unfold reads in H.
  change (lookup_path true false p (set_env e h)) with (lookup_path true false p h) in H.
  destruct (lookup_path true false p h) as [q| |]; [|done..]. unfold node_at in H.
  cbn [h_fs set_env] in H. exists q, data. split; [done|].
  by destruct (h_fs h !! q); [injection H as -> _|].
Qed.

(** The contents of a file a path leads to. *)
Definition contents_at h (p : str) (data : list byte) : Prop :=
  ∃ q, lookup_path true false p h = Ok q ∧ h_fs h !! q = Some (IFile data).

Lemma contents_at_same h h' p data : same_files h h' → contents_at h p data → contents_at h' p data.
Proof.
  destruct h as [fs cwd e], h' as [fs' cwd' e']. intros [Hf Hc]. simpl in *. by subst.
Qed.

(** Both boot loaders are regular files in the cache. *)
Definition loaders_at h (cache : str) : Prop :=
  (∃ data, contents_at h (path_join cache "BOOTX64.EFI") data)
  ∧ ∃ data, contents_at h (path_join cache "BOOTAA64.EFI") data.

Lemma loaders_at_same h h' cache : same_files h h' → loaders_at h cache → loaders_at h' cache.
Proof.
  intros Hs [[d1 H1] [d2 H2]]. split; [exists d1|exists d2]; by eapply contents_at_same.
Qed.

Lemma limine_present_run cache h :
  same_files h (limine_present cache h).2
  ∧ ∃ b, (limine_present cache h).1 = Ok b ∧ (b = true → loaders_at h cache).
Proof.
  unfold limine_present, both_files. rewrite bind_run. unfold io, with_err, loaders_at.
  set (p1 := path_join cache "BOOTX64.EFI"). set (p2 := path_join cache "BOOTAA64.EFI").
  destruct (path_is_file_run p1 h) as (Hs&b&Hb&H1). destruct (path_is_file p1 h) as [r h1].
  cbn [fst snd] in Hs, Hb. subst r. cbn [map_err].
  destruct b; [|split; [done|by eexists]].
  destruct (path_is_file_run p2 h1) as (Hs2&b2&Hb2&H2). destruct (path_is_file p2 h1) as [r h2].
  cbn [fst snd] in Hs2, Hb2. subst r. split; [by etrans|].
  exists b2. split; [done|]. intros Ht.
  destruct (H1 eq_refl) as (q1&d1&?&?), (H2 Ht) as (q2&d2&?&?).
  split; [by exists d1, q1|]. exists d2. apply (contents_at_same h1 h); [by split; symmetry; apply Hs|].
  by exists q2.
Qed.

End checksum.

(** ** Invariants of the files

    What a task keeps of the files, whatever its outcome: an invariant that calls without an
    edit keep, that holds of well-formed files, and that every program keeps. *)
Class FileInvariant {E Stream C : Type} `{HE : !HostEnv E Stream} `{TH : !ToolHost E Stream C}
    (I : Host E → Prop) : Prop := {
  inv_wf h : I h → fs_wf (h_fs h);
  inv_same h h' : I h → same_files h h' → I h';
  inv_grown h h' : I h → grown h h' → I h';
  inv_command c : preserves I (cmd_status c) }.

Section tasks.
Context {E Stream C : Type} `{HE : !HostEnv E Stream} `{TH : !ToolHost E Stream C} `{SH : !Sha256}.
Context (I : Host E → Prop) `{FI : !FileInvariant I}.
Implicit Types h : Host E.
Notation Task := (M (Host E) str).

(** A path at which files may be edited. *)
Definition may_edit (p : str) : Prop :=
  ∀ follow create h h' q, I h → lookup_path follow create p h = Ok q →
    edits q (h_fs h) (h_fs h') → h_cwd h' = h_cwd h → I h'.

Lemma keeps_same {X A} (m : M (Host E) X A) : evolves same_files m → preserves I m.
Proof. intros Hm h Hh. by apply (inv_same h). Qed.
Lemma keeps_grown {X A} (m : M (Host E) X A) : evolves grown m → preserves I m.
Proof. intros Hm h Hh. by apply (inv_grown h). Qed.
Lemma keeps_edit {X A} follow create p (m : M (Host E) X A) :
  edits_at follow create p m → may_edit p → preserves I m.
Proof.
  intros Hm Hp. eapply preserves_edits_at; [exact Hm|apply inv_wf|apply inv_same|].
  intros h h' q Hh Hq He Hc. by eapply Hp.
Qed.

Lemma keeps_io {A} (m : M (Host E) IoError A) : preserves I m → preserves I (io m).
Proof. intros Hm h Hh. specialize (Hm h Hh). unfold io, with_err. by destruct (m h). Qed.
Lemma keeps_with_err {A} (f : IoError → str) (m : M (Host E) IoError A) :
  preserves I m → preserves I (with_err f m).
Proof. intros Hm h Hh. specialize (Hm h Hh). unfold with_err. by destruct (m h). Qed.

Lemma keeps_println text : preserves I (println (X := str) text).
Proof. apply keeps_same. intros h. unfold println. by destruct (print _ _). Qed.
Lemma keeps_create p : preserves I (io (create_dir_all p)).
Proof. apply keeps_io, keeps_grown, create_dir_all_grows. Qed.
Lemma keeps_exists p : preserves I (io (path_exists p)).
Proof. apply keeps_io, keeps_same, path_exists_same. Qed.
Lemma keeps_root bp : preserves I (workspace_root bp).
Proof. apply preserves_lift. Qed.
Lemma keeps_next_entry : preserves I (next_entry io_text).
Proof. apply keeps_same, next_entry_same. Qed.

Lemma keeps_run_command c : preserves I (run_command c).
Proof.
  apply preserves_bind; [apply keeps_with_err, inv_command|]. intros status.
  destruct (st_success status); [apply preserves_ret|apply preserves_throw].
Qed.
Lemma keeps_executable name : preserves I (executable name).
Proof.
  intros h Hh. unfold executable.
  pose proof (inv_command (arg "--version" (command name)) h Hh) as Hi.
  by destruct (cmd_status _ h).
Qed.
Lemma keeps_cargo l : preserves I (cargo l).
Proof. apply keeps_run_command. Qed.
Hint Resolve keeps_println keeps_create keeps_exists keeps_root keeps_next_entry keeps_run_command
  keeps_executable keeps_cargo : evolve.

Lemma keeps_recreate p : may_edit p → preserves I (recreate_directory p).
Proof.
  intros Hp. apply preserves_bind; [auto with evolve|]. intros b.
  apply preserves_bind; [|auto with evolve].
  destruct b; [|apply preserves_ret]. eapply keeps_io, keeps_edit; [apply remove_dir_all_edits|done].
Qed.
Lemma keeps_copy source p : may_edit p → preserves I (copy source p).
Proof.
  intros Hp. apply preserves_bind; [destruct (path_parent p); [auto with evolve|apply preserves_ret]|].
  intros _. eapply keeps_with_err, keeps_edit; [apply fs_copy_edits|done].
Qed.
Lemma keeps_write p data : may_edit p → preserves I (io (fs_write p data)).
Proof. intros Hp. eapply keeps_io, keeps_edit; [apply fs_write_edits|done]. Qed.
Lemma keeps_remove_file p : may_edit p → preserves I (io (remove_file p)).
Proof. intros Hp. eapply keeps_io, keeps_edit; [apply remove_file_edits|done]. Qed.
Lemma keeps_resized p n :
  may_edit p → preserves I (create_sized p n).
Proof. intros Hp. eapply keeps_edit; [apply open_resize_edits|done]. Qed.

(** Names read from a directory. *)
Lemma read_dir_names p h names h' :
  fs_wf (h_fs h) → read_dir p h = (Ok names, h') → Forall host_name names.
Proof.
  intros Hwf H. apply syscall_run in H as [(e&?&_)|[e H]]; [done|].
  rewrite bind_run in H. unfold reads, node_at in H.
  destruct (lookup_path true false p (set_env e h)) as [q| |]; [|done..]. cbn [h_fs set_env] in H.
  destruct (h_fs h !! q) as [[]|]; [done| |done..]. injection H as <- _.
  apply Forall_forall. intros c [n Hn]%elem_of_children. by apply (wf_parent _ Hwf) in Hn as [_ ?].
Qed.

(** A location at and below which files may be edited. *)
Definition may_edit_below (d : location) : Prop :=
  Forall host_name d ∧ ∀ l, Forall host_name l → may_edit (path_of (d ++ l)).

Lemma may_edit_at d : may_edit_below d → may_edit (path_of d).
Proof. intros [_ H]. specialize (H [] (Forall_nil_2 _)). by rewrite app_nil_r in H. Qed.
Lemma may_edit_child d c : may_edit_below d → host_name c → may_edit_below (d ++ [c]).
Proof.
  intros [Hd H] Hc. split; [apply Forall_app; split; [done|by apply Forall_singleton]|].
  intros l Hl. rewrite <-app_assoc. apply H. by constructor.
Qed.

Lemma keeps_copy_tree depth source d :
  may_edit_below d → preserves I (copy_tree depth source (path_of d)).
Proof.
  revert source d. induction depth as [|depth IH]; intros source d Hd; cbn [copy_tree];
    [apply preserves_lift|].
  apply preserves_bind; [auto with evolve|]. intros _. apply preserves_bind_ok.
  { apply keeps_io, keeps_same, read_dir_same. }
  intros names h h' Hh H%with_err_ok. apply read_dir_names in H as Hn; [|by apply inv_wf].
  apply preserves_for_each. intros c Hc. rewrite Forall_forall in Hn. specialize (Hn c Hc).
  pose proof (may_edit_child d c Hd Hn) as Hdc. unfold copy_entry.
  rewrite (join_child d c) by apply Hdc.
  apply preserves_bind; [auto with evolve|]. intros _. case_bool_decide; [apply preserves_ret|].
  apply preserves_bind; [apply keeps_io, keeps_same, stat_same|].
  intros [data| |t]; [by apply keeps_copy, may_edit_at|by apply IH|apply preserves_throw].
Qed.
Lemma keeps_copy_directory source d :
  may_edit_below d → preserves I (copy_directory source (path_of d)).
Proof.
  intros Hd. apply preserves_bind; [apply preserves_gets|]. intros depth. by apply keeps_copy_tree.
Qed.

Lemma keeps_prepare bp d :
  may_edit_below (d ++ ["fs"]) → preserves I (prepare_bundle_filesystem bp (path_of d)).
Proof.
  intros Hd. unfold prepare_bundle_filesystem. rewrite join_child by apply Hd.
  apply preserves_bind; [auto with evolve|]. intros root.
  apply preserves_bind; [by apply keeps_copy_directory|]. intros _.
  apply preserves_for_each. auto with evolve.
Qed.

Lemma bundle_entry_same subtree name path :
  (∀ d, evolves same_files (subtree d)) → evolves same_files (collect_entry subtree name path).
Proof.
  intros Hs. unfold collect_entry. case_bool_decide; [apply (evolves_ret _)|].
  apply (evolves_bind _); [apply evolves_with_err, stat_same|].
  intros [data| |t]; [apply (evolves_ret _)|apply Hs|apply (evolves_throw _)].
Qed.
Lemma bundle_names_same root paths : evolves same_files (bundle_names root paths : Task (list str)).
Proof.
  induction paths as [|p paths IH]; [apply (evolves_ret _)|]. cbn [bundle_names].
  apply (evolves_bind _); [|intros n; apply (evolves_bind _); [exact IH|intros l; apply (evolves_ret _)]].
  unfold bundle_name. apply (evolves_bind _); [apply (evolves_lift _)|]. intros r1.
  apply (evolves_bind _); [apply (evolves_lift _)|]. intros r2.
  destruct (_ || _); [apply (evolves_throw _)|apply (evolves_ret _)].
Qed.
Lemma bundle_files_same root : evolves same_files (bundle_files root).
Proof.
  apply (evolves_bind _); [apply (evolves_gets _)|]. intros depth.
  apply (evolves_bind _); [apply walk_same, bundle_entry_same|]. intros files.
  apply bundle_names_same.
Qed.

Lemma keeps_stage package s :
  may_edit_below s → preserves I (stage_image package (path_of s)).
Proof.
  intros Hs. pose proof (may_edit_child s "boot" Hs ltac:(by_eval)) as Hboot.
  pose proof (may_edit_child s "fs" Hs ltac:(by_eval)) as Hfs.
  pose proof (may_edit_child s "limine.conf" Hs ltac:(by_eval)) as Hconf.
  unfold stage_image. rewrite !join_child by first [apply Hboot|apply Hfs|apply Hconf].
  apply preserves_bind; [by apply keeps_recreate, may_edit_at|]. intros _.
  apply preserves_bind; [by apply keeps_copy_directory|]. intros _.
  apply preserves_bind; [by apply keeps_copy_directory|]. intros _.
  apply preserves_bind; [auto with evolve|]. intros _.
  apply preserves_bind; [apply keeps_same, bundle_files_same|]. intros files.
  by apply keeps_write, may_edit_at.
Qed.

Lemma keeps_boot_image p bootloader name :
  may_edit p → preserves I (create_uefi_boot_image p bootloader name).
Proof.
  intros Hp. apply preserves_bind; [by apply keeps_resized|]. intros _.
  apply preserves_bind; [auto with evolve|]. intros _.
  apply preserves_bind; [apply preserves_for_each|]; auto with evolve.
Qed.

Lemma keeps_make_image arch limine s p :
  may_edit_below s → may_edit p → preserves I (make_image arch limine (path_of s) p).
Proof.
  intros Hs Hp. unfold make_image.
  apply preserves_bind; [auto with evolve|]. intros b.
  apply preserves_bind; [destruct b; [by apply keeps_remove_file|apply preserves_ret]|]. intros _.
  do 3 (apply preserves_bind; [auto with evolve|]; intros _).
  assert (∀ a b c, host_name a → host_name b → host_name c →
    path_join (path_join (path_join (path_of s) a) b) c = path_of (s ++ [a] ++ [b] ++ [c])) as Hj.
  { intros a b' c Ha Hb Hc. pose proof (may_edit_child _ a Hs Ha) as H1.
    pose proof (may_edit_child _ b' H1 Hb) as H2. pose proof (may_edit_child _ c H2 Hc) as H3.
    rewrite (join_child s) by apply H1. rewrite (join_child (s ++ [a])) by apply H2.
    rewrite join_child by apply H3. by rewrite <-!app_assoc. }
  destruct arch; cbn [bootloader_names]; rewrite !Hj by by_eval;
    (apply preserves_bind; [apply keeps_boot_image, Hs; by_eval|]); intros _;
    (apply preserves_bind; [apply keeps_copy, Hs; by_eval|]); intros _; auto with evolve.
Qed.

Lemma keeps_both_files p q : preserves I (both_files p q).
Proof.
  apply preserves_bind; [apply keeps_io, keeps_same, path_is_file_same|].
  intros []; [apply keeps_io, keeps_same, path_is_file_same|apply preserves_ret].
Qed.
Lemma keeps_fetch cache archive : may_edit cache → preserves I (fetch_limine cache archive).
Proof.
  intros Hc. do 2 (apply preserves_bind; [auto with evolve|]; intros _).
  apply preserves_bind; [by apply keeps_recreate|]. auto with evolve.
Qed.

Lemma file_read_same q offset max : evolves same_files (file_read q offset max).
Proof.
  apply (evolves_bind _); [apply (evolves_reads _)|]. intros data h. unfold read_some.
  by destruct (read_size _ _).
Qed.
Lemma hash_loop_same fuel q offset s : evolves same_files (hash_loop fuel q offset s).
Proof.
  revert offset s. induction fuel as [|fuel IH]; intros offset s; cbn [hash_loop];
    [apply (evolves_lift _)|].
  apply (evolves_bind _); [apply evolves_with_err, file_read_same|]. intros chunk.
  case_bool_decide; [apply (evolves_ret _)|apply IH].
Qed.
Lemma verify_same path expected : evolves same_files (verify_sha256 path expected).
Proof.
  apply (evolves_bind _).
  { apply evolves_with_err, evolves_syscall; [apply _|done|apply (evolves_reads _)]. }
  intros q. apply (evolves_bind _); [apply (evolves_gets _)|]. intros size.
  apply (evolves_bind _); [apply hash_loop_same|]. intros s.
  cbv zeta. case_bool_decide; [apply (evolves_ret _)|apply (evolves_throw _)].
Qed.

(** A task that goes on from the root of the workspace. *)
Lemma keeps_root_bind {A} bp root (k : str → Task A) :
  path_parent (bp_manifest_dir bp) = Some root → preserves I (k root) →
  preserves I (root ← workspace_root bp; k root).
Proof. intros Hr Hk h Hh. unfold workspace_root. rewrite Hr, bind_lift_ok. by apply Hk. Qed.

Lemma keeps_limine bp root :
  path_parent (bp_manifest_dir bp) = Some root → may_edit (limine_cache root) →
  preserves I (ensure_limine bp).
Proof.
  intros Hr Hc. apply (keeps_root_bind _ root); [done|].
  apply preserves_bind; [apply keeps_both_files|]. intros [|]; [apply preserves_ret|].
  apply preserves_bind; [by apply keeps_fetch|]. intros _.
  apply preserves_bind; [apply keeps_same, verify_same|]. intros _.
  apply preserves_bind; [auto with evolve|]. intros _.
  apply preserves_bind; [apply keeps_both_files|].
  intros [|]; [apply preserves_ret|apply preserves_throw].
Qed.
End tasks.

(** ** The boot loader is the pinned one *)
Section pinned.
Context {E Stream C : Type} `{HE : !HostEnv E Stream} `{TH : !ToolHost E Stream C}.
Context `{SH : !Sha256} `{SS : !Sha256Streams}.
Implicit Types h : Host E.

Lemma wf_invariant :
  (∀ c, preserves (λ h, fs_wf (h_fs h)) (cmd_status c)) →
  FileInvariant (λ h : Host E, fs_wf (h_fs h)).
Proof.
  intros Hc. split; [done| | |done].
  - intros h h' Hwf [Hf _]. by rewrite Hf.
  - intros h h' Hwf Hg. destruct (Hg Hwf) as [Hg' _]. by eapply grows_wf.
Qed.

(** C38. The boot loader is the pinned one: whatever happens, either both loaders were regular
    files in the cache already and nothing changed, or the tool gave up before it unpacked
    anything, or it unpacked an archive whose digest is the pinned one, and then succeeds only
    with both loaders in the cache; and the digest of the archive, read in parts, is the digest
    of its whole contents.  (The programs it runs leave a file system in which every file is in
    a directory.) *)
Theorem limine_is_pinned bp root h r h' :
  (∀ c, preserves (λ h, fs_wf (h_fs h)) (cmd_status c)) → fs_wf (h_fs h) →
  path_parent (bp_manifest_dir bp) = Some root →
  let cache := limine_cache root in
  let archive := limine_archive root in
  ensure_limine bp h = (r, h') →
  (r = Ok cache ∧ same_files h h' ∧ loaders_at h cache)
  ∨ (is_ok r = false ∧ ∃ h0 r1 h1, same_files h h0 ∧ fetch_limine cache archive h0 = (r1, h1)
      ∧ same_files h1 h')
  ∨ ∃ h1 data r2 h2, contents_at h1 archive data ∧ hex_string (sha256 data) = LIMINE_SHA256
      ∧ cmd_status (tar_command archive cache) h1 = (r2, h2) ∧ same_files h2 h'
      ∧ (is_ok r = true → r = Ok cache ∧ loaders_at h' cache).
Proof.
  intros Hcmd Hwf Hroot cache archive H. unfold ensure_limine, workspace_root in H.
  rewrite Hroot, bind_lift_ok in H. fold cache archive in H. rewrite bind_run in H.
  destruct (limine_present_run cache h) as (Hs0&b&Hb&Hthere).
  destruct (limine_present cache h) as [r0 h0]. cbn [fst snd] in Hs0, Hb. subst r0.
  destruct b; [injection H as <- <-; left; split_and!; auto|]. right. rewrite bind_run in H.
  destruct (fetch_limine cache archive h0) as [r1 h1] eqn:H1.
  destruct r1 as [[]|e|]; [|injection H as <- <-; left; split; [done|]; by exists h0, (Err e), h1|
    injection H as <- <-; left; split; [done|]; by exists h0, Panic, h1].
  rewrite bind_run in H. destruct (verify_sha256 archive LIMINE_SHA256 h1) as [r2 h2] eqn:H2.
  assert (fs_wf (h_fs h1)) as Hwf1.
  { pose proof (wf_invariant Hcmd) as HFI. destruct Hs0 as [Hf0 _].
    eapply (preserves_run (λ h, fs_wf (h_fs h)) _ h0); [|by rewrite Hf0|exact H1].
    apply (keeps_fetch (λ h, fs_wf (h_fs h))). intros follow create g g' q Hg _ He _. by eapply edits_wf. }
  apply verify_sha256_exact in H2 as [Hs2 Hr2]; [|done].
  assert (is_ok r2 = false → is_ok r = false ∧ h' = h2) as Hbad.
  { destruct r2; [done|..]; by injection H as <- <-. }
  destruct (is_ok r2) eqn:Hok.
  2:{ left. destruct (Hbad eq_refl) as [? ->]. split; [done|]. by exists h0, (Ok ()), h1. }
  right. destruct Hr2 as [[error ->]|(q&data&Hq&Hd&->)]; [done|].
  case_bool_decide as Hsum; [|done]. clear Hbad Hok.
  rewrite bind_run in H.
  destruct (run_command (tar_command archive cache) h2) as [r3 h3] eqn:H3.
  assert (∃ r4, cmd_status (tar_command archive cache) h2 = (r4, h3)) as [r4 H4].
  { unfold run_command in H3. rewrite bind_run in H3. unfold with_err in H3.
    destruct (cmd_status _ h2) as [[status|e|] h4]; cbn [map_err] in H3;
      [destruct (st_success status)|..]; injection H3 as _ <-; by eexists. }
  exists h2, data, r4, h3.
  split_and!; [by eapply contents_at_same; [|by exists q]|done|done|..];
    (destruct r3 as [[]|e|]; [|by injection H as <- <-..]);
    rewrite bind_run in H; destruct (limine_present_run cache h3) as (Hs3&b&Hb&Hthere3);
    destruct (limine_present cache h3) as [r5 h5]; cbn [fst snd] in Hs3, Hb; subst r5;
    (destruct b; injection H as <- <-; [|done]); [done|].
  intros _. split; [done|]. by apply (loaders_at_same h3 h5); [|apply Hthere3].
Qed.
End pinned.

(** Lists of names, literal or known. *)
Ltac names :=
  cbn [app];
  repeat first
    [ assumption
    | apply Forall_nil_2
    | apply Forall_cons_2
    | (apply (bool_decide_unpack _); vm_compute; exact I) ].

(** Paths below the workspace. *)
Lemma join_at r l c :
  Forall host_name r → Forall host_name l → host_name c →
  path_join (path_of (r ++ l)) c = path_of (r ++ l ++ [c]).
Proof.
  intros Hr Hl Hc. rewrite !app_assoc. apply join_child. rewrite <-app_assoc. apply Forall_app.
  split; [done|]. apply Forall_app. split; [done|]. by apply Forall_singleton.
Qed.
Lemma join_twice r a b :
  Forall host_name r → host_name a → host_name b →
  path_join (path_join (path_of r) a) b = path_of (r ++ [a; b]).
Proof.
  intros Hr Ha Hb. rewrite <-(app_nil_r r) at 1. rewrite join_at by done. cbn [app].
  rewrite (join_at r [a]); [done|done|by apply Forall_singleton|done].
Qed.

(** ** The data disk *)
Section disk.
Context {E Stream C : Type} `{HE : !HostEnv E Stream} `{TH : !ToolHost E Stream C} `{SH : !Sha256}.
Implicit Types h : Host E.

Definition disk_place (arch : BareMetalArch) : list str :=
  ["dist"; arch_label arch; "afos-data.img"].

(** The disk of the workspace [r] holds [data], and no symbolic link is in the workspace or on
    the way to it. *)
Record disk_safe (r : location) (arch : BareMetalArch) (data : list byte) h : Prop := {
  ds_wf : fs_wf (h_fs h);
  ds_links k t : k `prefix_of` r ∨ r `prefix_of` k → h_fs h !! k ≠ Some (ILink t);
  ds_disk : h_fs h !! (r ++ disk_place arch) = Some (IFile data) }.

Context (r : location) (arch : BareMetalArch) (data : list byte).
Context (Hcmd : ∀ c, preserves (disk_safe r arch data) (cmd_status c)).
Context (Hstat : ∀ e, (host_fault SysStat e).1 = None).

#[local] Instance disk_invariant : FileInvariant (disk_safe r arch data).
Proof.
  split; [by intros h []| | |done].
  - intros h h' [Hwf Hl Hd] [Hf _]. split; by rewrite Hf.
  - intros h h' [Hwf Hl Hd] Hg. destruct (Hg Hwf) as [[Hw Hk Hn] _]. split; [auto| |auto].
    intros k t Hp Hkt. destruct (h_fs h !! k) as [n|] eqn:Hkn.
    + rewrite (Hk k n Hkn) in Hkt. injection Hkt as ->. by apply (Hl k t).
    + destruct (Hn k Hkn); congruence.
Qed.

(** Whatever is not above the disk may be edited. *)
Lemma disk_may_edit l :
  Forall host_name (r ++ l) → ¬ l `prefix_of` disk_place arch →
  may_edit (disk_safe r arch data) (path_of (r ++ l)).
Proof.
  intros Hn Hl follow create h h' q [Hwf Hlinks Hdisk] Hq [Hw Ho Hk] _.
  rewrite lookup_location in Hq by done. apply resolve_plain in Hq; [|done|].
  2:{ intros k t Hp. rewrite app_nil_l. apply Hlinks.
      destruct (prefix_weak_total k r (r ++ l)) as [?|?]; [done|by eexists|by left|by right]. }
  rewrite app_nil_l in Hq. subst q. split; [auto| |].
  - intros k t Hp Hkt. apply (Hlinks k t Hp). by apply Hk.
  - rewrite Ho; [done|]. intros Hp. apply Hl. by apply prefix_app_inv in Hp.
Qed.
Lemma disk_edit_below l :
  Forall host_name (r ++ l) → (∀ l', ¬ l ++ l' `prefix_of` disk_place arch) →
  may_edit_below (disk_safe r arch data) (r ++ l).
Proof.
  intros Hn Hl. split; [done|]. intros l' Hl'. rewrite <-app_assoc. apply disk_may_edit; [|done].
  rewrite app_assoc. by apply Forall_app.
Qed.

(** Two lists that differ before either ends. *)
Lemma differ_not_prefix (l k : list str) :
  ¬ l `prefix_of` k → ∀ l', ¬ l ++ l' `prefix_of` k.
Proof. intros Hn l' Hp. apply Hn. etrans; [|exact Hp]. by apply prefix_app_r. Qed.

Lemma keeps_data_disk :
  preserves (disk_safe r arch data) (ensure_data_disk (path_of (r ++ disk_place arch))).
Proof.
  intros h Hsafe. pose proof Hsafe as [Hwf _ Hd]. unfold ensure_data_disk. rewrite bind_run.
  unfold io, with_err, path_is_file, stat, syscall. pose proof (Hstat (h_env h)) as Hs.
  destruct (host_fault SysStat (h_env h)) as [fault e]. simpl in Hs. subst fault.
  rewrite bind_run. unfold reads.
  rewrite (lookup_exact _ _ _ _ (IFile data)) by done. unfold node_at. cbn [h_fs set_env].
  rewrite Hd. cbn. by apply (inv_same h).
Qed.

Lemma keeps_package_tree bp source :
  Forall host_name r →
  preserves (disk_safe r arch data)
    (package_tree bp arch source (path_of (r ++ ["dist"; arch_label arch]))).
Proof.
  intros Hr. assert (host_name (arch_label arch)) as Ha by (destruct arch; by_eval).
  assert (∀ c, host_name c → c ≠ "afos-data.img" →
    may_edit_below (disk_safe r arch data) (r ++ ["dist"; arch_label arch; c])) as Hedit.
  { intros c Hc Hne. apply disk_edit_below.
    - apply Forall_app. split; [done|]. names.
    - apply differ_not_prefix. intros [l Hl]. unfold disk_place in Hl. simpl in Hl. congruence. }
  unfold package_tree. rewrite !join_at by names. cbn [app].
  apply preserves_bind; [apply keeps_create, _|]. intros _.
  apply preserves_bind; [apply keeps_recreate, may_edit_at, Hedit; [apply _|by_eval|done]|]. intros _.
  apply preserves_bind; [apply keeps_recreate, may_edit_at, Hedit; [apply _|by_eval|done]|]. intros _.
  apply preserves_bind.
  - apply keeps_copy; [apply _|]. destruct (Hedit "boot") as [_ Hb]; [by_eval|done|].
    specialize (Hb ["afos.elf"] ltac:(apply Forall_singleton; by_eval)).
    by rewrite <-app_assoc in Hb.
  - intros _. apply keeps_prepare; [apply _|]. rewrite <-app_assoc. apply Hedit; [by_eval|done].
Qed.

(** C37. Packaging keeps the data disk: as long as the programs it runs leave the disk alone
    and put no symbolic link into the workspace, and the host does not fail to say what is at
    a path, an existing disk holds the same bytes afterwards, whatever the outcome of the
    packaging and whatever other calls the host refuses. *)
Theorem package_keeps_disk bp h :
  path_parent (bp_manifest_dir bp) = Some (path_of r) →
  disk_safe r arch data h → disk_safe r arch data (package bp arch h).2.
Proof.
  intros Hroot Hsafe. assert (Forall host_name r) as Hr.
  { pose proof (wf_names _ _ _ (ds_wf _ _ _ _ Hsafe) (ds_disk _ _ _ _ Hsafe)) as Hn.
    by apply Forall_app in Hn as [? _]. }
  revert h Hsafe. change (preserves (disk_safe r arch data) (package bp arch)).
  assert (host_name (arch_label arch)) as Ha by (destruct arch; by_eval).
  assert (host_name ("afos-" ++ arch_label arch ++ "-iso")) as Hiso by (destruct arch; by_eval).
  assert (∀ c, host_name c → may_edit_below (disk_safe r arch data) (r ++ ["target"; c])) as Htarget.
  { intros c Hc. apply disk_edit_below; [apply Forall_app; split; [done|names]|].
    apply differ_not_prefix. intros [l Hl]. discriminate Hl. }
  apply preserves_bind; [apply keeps_executable, _|]. intros _.
  apply preserves_bind.
  { apply (keeps_limine _ _ (path_of r)); [done|]. unfold limine_cache. rewrite join_twice by names.
    apply may_edit_at, Htarget. names. }
  intros limine. apply preserves_bind; [apply keeps_cargo, _|]. intros _.
  apply (keeps_root_bind _ _ (path_of r)); [done|]. rewrite !join_twice, !join_at by names.
  cbn [app]. apply preserves_bind; [by apply keeps_package_tree|]. intros _.
  apply preserves_bind; [apply keeps_stage; [apply _|by apply Htarget]|]. intros _.
  apply preserves_bind.
  { apply keeps_make_image; [apply _|by apply Htarget|]. apply disk_may_edit.
    - apply Forall_app. split; [done|names].
    - intros [l Hl]. unfold disk_place in Hl. simpl in Hl. congruence. }
  intros _. apply preserves_bind; [apply keeps_data_disk|]. intros _.
  do 3 (apply preserves_bind; [apply keeps_println, _|]; intros _). apply keeps_println, _.
Qed.
End disk.

(** ** The smoke test *)
(** The clock runs, also while the tool sleeps; the calls on a child return, and a child that
    was killed and waited for has ended. *)
Class SteadyTools (E Stream C : Type) `{HE : !HostEnv E Stream} `{TH : !ToolHost E Stream C} :
    Type := {
  clock : E → Z;
  clock_now e : (instant_now e).1 = clock e ∧ clock e ≤ clock (instant_now e).2;
  clock_fault call e : clock e ≤ clock (host_fault call e).2;
  clock_wait child h : clock (h_env h) ≤ clock (h_env (child_try_wait child h).2);
  clock_sleep d h : 0 ≤ d → clock (h_env h) + d ≤ clock (h_env (thread_sleep d h));
  try_wait_returns child h : (child_try_wait child h).1 ≠ Panic;
  write_returns child data h : (child_write child data h).1 ≠ Panic;
  child_running : C → Host E → Prop;
  child_reaped child h : ¬ child_running child (child_wait child (child_kill child h).2).2 }.

Section smoke.
Context {E Stream C : Type} `{HE : !HostEnv E Stream} `{TH : !ToolHost E Stream C}.
Context `{ST : !SteadyTools E Stream C}.
Implicit Types h : Host E.
Notation Task := (M (Host E) str).

Definition later h h' : Prop := clock (h_env h) ≤ clock (h_env h').
#[local] Instance later_preorder : PreOrder later.
Proof. split; [by intros h; unfold later|]. intros h1 h2 h3. unfold later. lia. Qed.

Lemma syscall_later {A} call (m : M (Host E) IoError A) :
  evolves later m → evolves later (syscall call m).
Proof.
  intros Hm h. unfold syscall. pose proof (clock_fault call (h_env h)) as Hc.
  destruct (host_fault call (h_env h)) as [[error|] e]; [done|].
  etrans; [|apply Hm]. done.
Qed.
Lemma read_later p : evolves later (fs_read_to_string p).
Proof.
  apply (evolves_bind _); [|intros data; apply (evolves_lift _)]. apply syscall_later.
  apply (evolves_bind _); [apply (evolves_reads _)|]. intros q. apply (evolves_reads _).
Qed.

(** The log holds the texts. *)
Definition shows h (log : str) (needles : list str) : Prop :=
  ∃ text, text_at h log text ∧ Forall (λ needle, occurs needle text) needles.

Lemma log_shows_run log needles h r h' :
  log_shows log needles h = (r, h') →
  later h h' ∧ ∃ b, r = Ok b ∧ (b = true → shows h' log needles).
Proof.
  unfold log_shows. pose proof (read_later log h) as Hl.
  destruct (fs_read_to_string log h) as [r0 h0] eqn:H0. cbn [snd] in Hl.
  apply read_to_string_run in H0 as (Hs&Hn&Ht). intros H.
  destruct r0 as [text|e|]; [|injection H as <- <-; split; [done|by eexists]|done].
  injection H as <- <-. split; [done|]. eexists. split; [done|]. intros Hall. exists text. split.
  - apply (text_at_same h0 h); [destruct Hs; by split|]. by apply Ht.
  - apply Forall_forall. intros needle Hin. apply contains_str_spec.
    by apply (proj1 (forallb_forall _ _) Hall), list_elem_of_In.
Qed.
Lemma log_text_returns log h : (log_text log h).1 ≠ Panic.
Proof.
  unfold log_text. destruct (fs_read_to_string log h) as [r h'] eqn:H.
  apply read_to_string_run in H as (_&?&_). by destruct r.
Qed.

(** Every round that goes on brings the end of the wait a tenth of a second closer. *)
Lemma wait_rounds_run rounds child log needles seconds started h r h' :
  from_secs seconds ≤ clock (h_env h) - started + Z.of_nat rounds * from_millis 100 →
  started ≤ clock (h_env h) →
  wait_rounds (S rounds) child log needles seconds started h = (r, h') →
  r ≠ Panic ∧ (r = Ok () → shows h' log needles).
Proof.
  revert h. induction rounds as [|rounds IH]; intros h Hc Hst H;
    (cbn [wait_rounds] in H; rewrite bind_run in H;
     destruct (log_shows log needles h) as [r1 h1] eqn:H1;
     apply log_shows_run in H1 as (Hl1&b&->&Hb); unfold later in Hl1;
     destruct b; [injection H as <- <-; split; [done|auto]|];
     rewrite bind_run in H; unfold io, with_err in H;
     pose proof (try_wait_returns child h1) as Hn; pose proof (clock_wait child h1) as Hl2;
     destruct (child_try_wait child h1) as [[[status|]|e|] h2]; cbn [fst snd] in Hn, Hl2;
     cbn [map_err] in H; [by injection H as <- <-| |by injection H as <- <-|done];
     rewrite bind_run in H; unfold elapsed in H; rewrite bind_run in H; unfold now in H;
     pose proof (clock_now (h_env h2)) as [Hnow Hl3];
     destruct (instant_now (h_env h2)) as [t e3]; cbn [fst snd] in Hnow, Hl3; subst t;
     cbn in H; unfold saturating_sub in H; case_bool_decide as Hlate).
  1,3: (rewrite bind_run in H; pose proof (log_text_returns log (set_env e3 h2)) as Hn4;
        destruct (log_text log (set_env e3 h2)) as [[text|e|] h4]; [by injection H as <- <-..|done]).
  { unfold from_millis in Hc. lia. }
  rewrite bind_run in H. unfold modify in H.
  pose proof (clock_sleep (from_millis 100) (set_env e3 h2)) as Hl4.
  cbn [h_env set_env] in Hl4. unfold from_millis in *. apply IH in H; [done|..]; lia.
Qed.

Lemma wait_for_log_run child log needles seconds h r h' :
  0 ≤ seconds → wait_for_log child log needles seconds h = (r, h') →
  r ≠ Panic ∧ (r = Ok () → shows h' log needles).
Proof.
  intros Hs H. unfold wait_for_log in H. rewrite bind_run in H. unfold now in H.
  pose proof (clock_now (h_env h)) as [Hnow Hl]. destruct (instant_now (h_env h)) as [t e].
  cbn [fst snd] in Hnow, Hl. subst t. cbn in H.
  replace (Z.to_nat (10 * seconds + 1)) with (S (Z.to_nat (10 * seconds))) in H by lia.
  apply wait_rounds_run in H; [done|cbn [h_env set_env]..|done].
  unfold from_secs, from_millis. lia.
Qed.

(** C39. The smoke test ends, and leaves no machine behind: whatever the log shows and whatever
    the host refuses, the waits end after their time, the child has ended afterwards, and the
    test passes only if the log showed the prompt, the input was sent, and the log then
    showed the expected texts. *)
Theorem smoke_child_ends child log input expected h r h' :
  smoke_child child log input expected h = (r, h') →
  r ≠ Panic ∧ ¬ child_running child h'
  ∧ (r = Ok () → ∃ h1 h2 h3, shows h1 log ["AFOS:/user$ "]
      ∧ child_write child input h1 = (Ok (), h2) ∧ shows h3 log expected
      ∧ h' = (child_wait child (child_kill child h3).2).2).
Proof.
  unfold smoke_child. destruct (smoke_dialogue child log input expected h) as [r0 h0] eqn:H.
  cbn. intros [= <- <-]. split; [|split; [apply child_reaped|]].
  - unfold smoke_dialogue in H. rewrite bind_run in H.
    destruct (wait_for_log _ _ _ 60 h) as [r1 h1] eqn:H1. apply wait_for_log_run in H1 as [Hn1 _]; [|lia].
    destruct r1 as [[]|e|]; [|by injection H as <- <-|done]. rewrite bind_run in H.
    destruct (child_stdin child); [|by injection H as <- <-]. cbn in H. rewrite bind_run in H.
    unfold io, with_err in H. pose proof (write_returns child input h1) as Hn2.
    destruct (child_write child input h1) as [[[]|e|] h2]; cbn [map_err] in H;
      [|by injection H as <- <-|done].
    apply wait_for_log_run in H as [? _]; [done|lia].
  - intros ->. unfold smoke_dialogue in H. apply bind_ok_inv in H as ([]&h1&H1&H).
    apply bind_ok_inv in H as ([]&h1'&Hin&H). destruct (child_stdin child); [|done].
    apply mret_ok_inv in Hin as [_ ->].
    apply bind_ok_inv in H as ([]&h2&H2&H). apply with_err_ok in H2.
    apply wait_for_log_run in H1 as [_ Hs1]; [|lia]. apply wait_for_log_run in H as [_ Hs2]; [|lia].
    exists h1, h2, h0. split_and!; auto.
Qed.
End smoke.
