(* ===== verification/BuildTree.v ===== *)
(** * Directory trees of the build tool

    What making, emptying and copying a directory does to the files: [recreate_directory]
    leaves an empty directory, and [copy_directory] adds exactly the files and directories of
    the source that it may see. *)
From S2P Require Import Prelude RustStr Text Vfs Host HostTree BuildHost Xtask XtaskDocs XtaskRun.

(** No symbolic link on the way to a location, and none below it either. *)
Definition clear_to (d : location) (fs : FileSystem) : Prop :=
  ∀ k t, k `prefix_of` d → fs !! k ≠ Some (ILink t).
Record clear_way (d : location) (fs : FileSystem) : Prop := {
  cw_to : clear_to d fs;
  cw_below k t : d `prefix_of` k → fs !! k ≠ Some (ILink t) }.

Lemma clear_lookup {E} (h : Host E) follow create d q :
  Forall host_name d → clear_to d (h_fs h) →
  lookup_path follow create (path_of d) h = Ok q → q = d.
Proof.
  intros Hn Hc H. rewrite lookup_location in H by done. apply resolve_plain in H; [done|done|].
  intros k t Hk. rewrite app_nil_l. by apply Hc.
Qed.
Lemma clear_prefix d d' fs : d `prefix_of` d' → clear_to d' fs → clear_to d fs.
Proof. intros Hd Hc k t Hk. apply Hc. by etrans. Qed.
Lemma clear_below d l fs : clear_way d fs → clear_way (d ++ l) fs.
Proof.
  intros [Ht Hb]. split.
  - intros k t Hk. destruct (prefix_weak_total k d (d ++ l)); [done|by apply prefix_app_r|..];
      [by apply Ht|by apply Hb].
  - intros k t Hk. apply Hb. etrans; [|exact Hk]. by apply prefix_app_r.
Qed.

(** Directories on the way to a location may have been made. *)
Record made (d : location) (fs fs' : FileSystem) : Prop := {
  made_grows : grows fs fs';
  made_only k n : fs' !! k = Some n → fs !! k = Some n ∨ k `prefix_of` d }.
#[export] Instance made_preorder d : PreOrder (made d).
Proof.
  split; [split; [done|by left]|]. intros f g h [g1 o1] [g2 o2]. split; [by etrans|].
  intros k n Hk. destruct (o2 k n Hk) as [Hk'|]; [by apply o1|by right].
Qed.
Lemma made_prefix d d' fs fs' : d `prefix_of` d' → made d fs fs' → made d' fs fs'.
Proof.
  intros Hd [g o]. split; [done|]. intros k n Hk. destruct (o k n Hk); [by left|].
  right. by etrans.
Qed.
Lemma grows_link fs fs' k t : grows fs fs' → fs' !! k = Some (ILink t) → fs !! k = Some (ILink t).
Proof.
  intros [_ Hk Hn] Hkt. destruct (fs !! k) as [n|] eqn:Hf.
  - rewrite (Hk _ _ Hf) in Hkt. congruence.
  - destruct (Hn k Hf); congruence.
Qed.
Lemma grows_clear_to d fs fs' : grows fs fs' → clear_to d fs → clear_to d fs'.
Proof. intros Hg Hc k t Hk Hkt. by apply (Hc k t Hk), (grows_link _ fs'). Qed.
Lemma grows_clear d fs fs' : grows fs fs' → clear_way d fs → clear_way d fs'.
Proof.
  intros Hg [Ht Hb]. split; [by eapply grows_clear_to|].
  intros k t Hk Hkt. by apply (Hb k t Hk), (grows_link _ fs').
Qed.

Section trees.
Context {E Stream C : Type} `{HE : !HostEnv E Stream} `{TH : !ToolHost E Stream C}.
Implicit Types h : Host E.
Notation Task := (M (Host E) str).

(** From a state with a clear way, a directory is made, or what was there stays. *)
Definition makes {X} (d : location) (m : M (Host E) X ()) : Prop :=
  ∀ h r h', fs_wf (h_fs h) → clear_to d (h_fs h) → m h = (r, h') →
    h_cwd h' = h_cwd h ∧ made d (h_fs h) (h_fs h')
    ∧ (is_ok r = true → h_fs h' !! d = Some IDir).

Lemma mkdir_makes d : Forall host_name d → makes d (mkdir (path_of d)).
Proof.
  intros Hn h r h' Hwf Hc H. pose proof (mkdir_grows (path_of d) h Hwf) as [Hg Hcwd].
  rewrite H in Hg, Hcwd. cbn [snd] in Hg, Hcwd. split; [done|].
  apply syscall_run in H as [(e&->&[Hf _])|[e H]].
  { split; [|done]. split; [done|]. intros k n. rewrite Hf. by left. }
  rewrite bind_run in H. unfold reads in H.
  rewrite lookup_location_parts in H by done.
  change (lookup_path false true (path_of d) (set_env e h))
    with (lookup_path false true (path_of d) h) in H.
  destruct (lookup_path false true (path_of d) h) as [q|e'|] eqn:Hq;
    [|injection H as <- <-; by split; [split; [|left]|]..].
  apply clear_lookup in Hq as ->; [|done..]. rewrite bind_run in H. unfold gets, node_at in H.
  cbn [h_fs set_env] in H. destruct (h_fs h !! d) as [n|] eqn:Hd; injection H as <- <-.
  - by split; [split; [|left]|].
  - cbn [h_fs set_fs set_env] in *. split; [|by rewrite lookup_insert_eq]. split; [done|].
    intros k n [[<- _]|[_ ?]]%lookup_insert_Some; [by right|by left].
Qed.

Lemma dir_anyway_makes d e : Forall host_name d → makes d (dir_anyway (path_of d) e).
Proof.
  intros Hn h r h' Hwf Hc H. unfold dir_anyway in H. rewrite bind_run in H.
  unfold path_is_dir in H. pose proof (stat_same true (path_of d) h) as Hs.
  destruct (stat true (path_of d) h) as [r0 h0] eqn:H0. cbn [snd] in Hs. pose proof Hs as [Hf Hcwd].
  assert (h' = h0 ∧ (is_ok r = true → r0 = Ok IDir)) as [-> Hr].
  { destruct r0 as [[]| |]; injection H as <- <-; by split. }
  rewrite Hf. split_and!; [done|done|]. intros Hok. rewrite (Hr Hok) in H0.
  apply syscall_run in H0 as [(e1&?&_)|[e1 H0]]; [done|]. rewrite bind_run in H0. unfold reads in H0.
  change (lookup_path true false (path_of d) (set_env e1 h))
    with (lookup_path true false (path_of d) h) in H0.
  destruct (lookup_path true false (path_of d) h) as [q| |] eqn:Hq; [|done..].
  apply clear_lookup in Hq as ->; [|done..]. unfold node_at in H0. cbn [h_fs set_env] in H0.
  by destruct (h_fs h !! d); [injection H0 as -> _|].
Qed.

Lemma mkdir_or_makes d retry :
  Forall host_name d → (∀ e, makes d (retry e)) → makes d (mkdir_or (path_of d) retry).
Proof.
  intros Hn Hr h r h' Hwf Hc H. unfold mkdir_or in H.
  destruct (mkdir (path_of d) h) as [r0 h0] eqn:H0.
  apply mkdir_makes in H0 as (Hcwd&Hm&Hok); [|done..].
  destruct r0 as [[]|e|]; [injection H as <- <-; by split_and!| |injection H as <- <-; by split_and!].
  pose proof (made_grows _ _ _ Hm) as Hg.
  apply Hr in H as (Hcwd'&Hm'&Hok'); [|by eapply grows_wf|by eapply grows_clear_to].
  split_and!; [congruence|by etrans|done].
Qed.

Lemma create_dirs_makes depth d : Forall host_name d → makes d (create_dirs depth (path_of d)).
Proof.
  revert d. induction depth as [|depth IH]; intros d Hn; cbn [create_dirs];
    rewrite (bool_decide_false (path_of d = "")) by done; apply mkdir_or_makes; try done;
    intros e; (destruct (negb _); [by apply dir_anyway_makes|]).
  { intros h r h' _ _ [= <- <-]. by split_and!. }
  destruct (path_parent (path_of d)) as [parent|] eqn:Hp;
    [|intros h r h' _ _ [= <- <-]; by split_and!].
  destruct d as [|c d _] using rev_ind; [done|]. rewrite parent_path_of in Hp by done.
  injection Hp as <-. pose proof Hn as [Hd _]%Forall_app.
  intros h r h' Hwf Hc H. rewrite bind_run in H.
  destruct (create_dirs depth (path_of d) h) as [r1 h1] eqn:H1.
  assert (d `prefix_of` d ++ [c]) as Hdc by (by eexists).
  apply IH in H1 as (Hcwd&Hm%(made_prefix _ (d ++ [c]))&_); [|done|done|done|by eapply clear_prefix].
  destruct r1 as [[]|e1|]; [|injection H as <- <-; by split_and!..].
  pose proof (made_grows _ _ _ Hm) as Hg.
  apply (mkdir_or_makes (d ++ [c])) in H as (Hcwd'&Hm'&Hok');
    [|done|intros e'; by apply dir_anyway_makes|by eapply grows_wf|by eapply grows_clear_to].
  split_and!; [congruence|by etrans|done].
Qed.
Lemma create_dir_all_makes d : Forall host_name d → makes d (io (create_dir_all (path_of d))).
Proof.
  intros Hn h r h' Hwf Hc (r0&H&->)%with_err_run.
  apply create_dirs_makes in H as (?&?&Hok); [|done..]. split_and!; [done..|]. by destruct r0.
Qed.

(** ** An empty directory *)
Lemma rmdir_gone q h h' :
  fs_wf (h_fs h) → rmdir q h = (Ok (), h') → gone q h'.
Proof.
  intros Hwf H. apply syscall_run in H as [(e&?&_)|[e H]]; [done|]. rewrite bind_run in H.
  unfold gets in H. cbn [h_fs set_env] in H. case_bool_decide; [done|]. case_bool_decide as Hc; [|done].
  injection H as <-. intros k Hk. cbn [h_fs set_fs]. destruct (decide (q = k)) as [->|Hne];
    [by rewrite lookup_delete_eq|]. rewrite lookup_delete_ne by done. by apply (no_children_below _ q).
Qed.
Lemma unlink_gone q h h' : fs_wf (h_fs h) → unlink q h = (Ok (), h') → gone q h'.
Proof.
  intros Hwf H. apply syscall_run in H as [(e&?&_)|[e H]]; [done|]. rewrite bind_run in H.
  unfold gets, node_at in H. cbn [h_fs set_env] in H.
  assert (∀ n, h_fs h !! q = Some n → n ≠ IDir →
    gone q (set_fs (delete q (h_fs h)) (set_env e h))) as Hg.
  { intros n Hn Hd k Hk. cbn [h_fs set_fs]. destruct (decide (q = k)) as [->|Hne];
      [by rewrite lookup_delete_eq|]. rewrite lookup_delete_ne by done.
    apply (no_children_below _ q); [done| |done|done]. apply not_dir_no_children; [done|].
    rewrite Hn. congruence. }
  destruct (h_fs h !! q) as [[]|] eqn:Hq; [|done| |done]; injection H as <-; by eapply Hg.
Qed.
Lemma remove_dir_all_gone q h h' :
  fs_wf (h_fs h) → Forall host_name q → clear_to q (h_fs h) →
  remove_dir_all (path_of q) h = (Ok (), h') → gone q h'.
Proof.
  intros Hwf Hn Hc H. unfold remove_dir_all in H. apply bind_ok_inv in H as (q'&h1&H1&H).
  apply syscall_run in H1 as [(e&?&_)|[e H1]]; [done|]. unfold reads in H1.
  change (lookup_path false false (path_of q) (set_env e h))
    with (lookup_path false false (path_of q) h) in H1. injection H1 as H1 <-.
  apply clear_lookup in H1 as ->; [|done..]. apply bind_ok_inv in H as (node&h2&H2&H).
  apply gets_ok_inv in H2 as [-> ->].
  assert (∀ depth, remove_tree depth q (set_env e h) = (Ok (), h') → gone q h') as Htree.
  { intros depth Ht. destruct depth as [|depth]; [done|]. cbn [remove_tree] in Ht.
    apply bind_ok_inv in Ht as (names&h3&H3&Ht). apply bind_ok_inv in Ht as ([]&h4&H4&Ht).
    apply (rmdir_gone q h4); [|done].
    assert (evolves (removed q) (names ← syscall SysReaddir (gets (λ h, children q (h_fs h)));
      for_each (λ name, remove_entry (remove_tree depth) (q ++ [name])) names)) as Hev.
    { apply (evolves_bind _).
      { apply evolves_syscall; [apply _|apply same_removed|apply (evolves_gets _)]. }
      intros l. apply (evolves_for_each _). intros name _. apply remove_entry_removes, remove_tree_removes. }
    specialize (Hev (set_env e h) Hwf) as [Hcut _]. rewrite bind_run, H3, H4 in Hcut.
    by eapply cut_wf. }
  destruct (node_at q (set_env e h)) as [[]|];
    [|apply bind_ok_inv in H as (depth&h3&H3&H); apply gets_ok_inv in H3 as [-> ->]; by eapply Htree|..];
    by apply (unlink_gone q (set_env e h)).
Qed.

(** What is left where a directory was made anew. *)
Record fresh (d : location) (fs fs' : FileSystem) : Prop := {
  fresh_wf : fs_wf fs';
  fresh_dir : fs' !! d = Some IDir;
  fresh_empty k : d `prefix_of` k → k ≠ d → fs' !! k = None;
  fresh_keep k n : ¬ d `prefix_of` k → fs !! k = Some n → fs' !! k = Some n;
  fresh_out k n : fs' !! k = Some n → fs !! k = Some n ∨ n = IDir ∧ k `prefix_of` d }.

Lemma cut_clear_to q d fs fs' : cut q fs fs' → clear_to d fs → clear_to d fs'.
Proof.
  intros Hcut Hc k t Hk Hkt. apply (Hc k t Hk). destruct (cut_only _ _ _ Hcut k); congruence.
Qed.

Lemma recreate_fresh d h h' :
  (∀ e, (host_fault SysStat e).1 = None) →
  fs_wf (h_fs h) → Forall host_name d → clear_to d (h_fs h) →
  recreate_directory (path_of d) h = (Ok (), h') →
  h_cwd h' = h_cwd h ∧ fresh d (h_fs h) (h_fs h').
Proof.
  intros Hstat Hwf Hn Hc H. unfold recreate_directory in H.
  apply bind_ok_inv in H as (b&h1&H1&H). apply with_err_ok in H1.
  pose proof (path_exists_same (path_of d) h) as [Hf1 Hcwd1]. rewrite H1 in Hf1, Hcwd1.
  cbn [snd] in Hf1, Hcwd1.
  assert (b = false → h_fs h !! d = None) as Hb.
  { intros ->. apply eq_None_not_Some. intros [n Hd]. unfold path_exists, stat, syscall in H1.
    pose proof (Hstat (h_env h)) as Hs. destruct (host_fault SysStat (h_env h)) as [fault e].
    simpl in Hs. subst fault. rewrite bind_run in H1. unfold reads in H1.
    rewrite (lookup_exact _ _ _ _ n) in H1; [|done|done|].
    - unfold node_at in H1. cbn [h_fs set_env] in H1. rewrite Hd in H1. done.
    - intros _ t ->. by apply (Hc d t). }
  apply bind_ok_inv in H as ([]&h2&H2&H).
  assert (h_cwd h2 = h_cwd h ∧ cut d (h_fs h) (h_fs h2) ∧ gone d h2) as (Hcwd2&Hcut&Hgone).
  { destruct b.
    - apply with_err_ok in H2. pose proof H2 as Hg. rewrite <-Hf1 in Hwf, Hc.
      apply remove_dir_all_gone in Hg; [|done..]. rewrite <-Hf1, <-Hcwd1.
      apply remove_dir_all_cuts in H2 as [Hcwd [Hf|(q&Hq&Hcut)]]; [..|done];
        (split_and!; [done| |done]); [by rewrite Hf|]. by apply clear_lookup in Hq as ->.
    - injection H2 as <-. rewrite Hf1. split_and!; [done|done|]. intros k Hk. rewrite Hf1.
      destruct (decide (k = d)) as [->|Hne]; [by apply Hb|]. apply (no_children_below _ d); try done.
      apply not_dir_no_children; [done|]. by rewrite (Hb eq_refl). }
  apply create_dir_all_makes in H as (Hcwd&[Hg Ho]&Hok);
    [|done|by eapply cut_wf|by eapply cut_clear_to].
  split; [congruence|]. split.
  - eapply grows_wf; [exact Hg|]. by eapply cut_wf.
  - by apply Hok.
  - intros k Hk Hne. apply eq_None_not_Some. intros [n Hk']. destruct (Ho k n Hk') as [Hx|Hx].
    + rewrite (Hgone k Hk) in Hx. done.
    + apply Hne. by apply (anti_symm prefix).
  - intros k n Hk Hkn. eapply grows_keeps; [exact Hg|]. by rewrite (cut_outside _ _ _ Hcut).
  - intros k n Hk. destruct (h_fs h2 !! k) as [n2|] eqn:Hk2.
    + rewrite (grows_keeps _ _ Hg _ _ Hk2) in Hk. injection Hk as ->. left.
      destruct (cut_only _ _ _ Hcut k); congruence.
    + destruct (grows_dirs _ _ Hg k Hk2); [congruence|]. destruct (Ho k n Hk); [congruence|].
      right. split; [congruence|done].
Qed.
End trees.

(** ** Copies

    [V] are the parts of the source, as locations below it, that are copied. *)
Record copied (V : list str → Prop) (s d : location) (fs fs' : FileSystem) : Prop := {
  copied_wf : fs_wf fs → fs_wf fs';
  copied_in l n : V l → fs !! (s ++ l) = Some n → (∀ t, n ≠ ILink t) ∧ fs' !! (d ++ l) = Some n;
  copied_out k n : fs' !! k = Some n →
    fs !! k = Some n ∨ (∃ l, V l ∧ k = d ++ l ∧ fs !! (s ++ l) = Some n)
    ∨ n = IDir ∧ k `prefix_of` d;
  copied_keep k n : fs !! k = Some n → (∀ l, V l → k = d ++ l → fs !! (s ++ l) = None) →
    fs' !! k = Some n }.

(** Neither location is in the other. *)
Definition apart (s d : location) : Prop := ¬ s `prefix_of` d ∧ ¬ d `prefix_of` s.

Lemma apart_below s d l k : apart s d → s ++ l ≠ d ++ k.
Proof.
  intros [H1 H2] He. destruct (prefix_weak_total s d (s ++ l)) as [?|?]; [..|done|done].
  - by apply prefix_app_r.
  - rewrite He. by apply prefix_app_r.
Qed.
Lemma apart_child s d c : apart s d → apart (s ++ [c]) (d ++ [c]).
Proof.
  intros Ha. split; intros [l Hl]; rewrite <-app_assoc in Hl; [symmetry in Hl|];
    by apply (apart_below _ _ _ _ Ha) in Hl.
Qed.

(** The source stays as it is. *)
Lemma copied_source V s d fs fs' l :
  apart s d → copied V s d fs fs' → fs' !! (s ++ l) = fs !! (s ++ l).
Proof.
  intros Ha [_ _ Ho Hk]. apply option_eq. intros n. split.
  - intros [?|[(k&_&Hx&_)|[_ Hp]]]%Ho; [done|by apply (apart_below _ _ _ _ Ha) in Hx|].
    destruct Ha as [Ha _]. destruct Ha. etrans; [|exact Hp]. by apply prefix_app_r.
  - intros Hn. apply Hk; [done|]. intros k _ Hx. by apply (apart_below _ _ _ _ Ha) in Hx.
Qed.
Lemma copied_clear V s d fs fs' : copied V s d fs fs' → clear_way d fs → clear_way d fs'.
Proof.
  intros [_ Hi Ho _] [Ht Hb].
  assert (∀ k t, fs' !! k = Some (ILink t) → fs !! k = Some (ILink t)) as Hl.
  { intros k t [?|[(l&HV&_&Hl)|[? _]]]%Ho; [done| |done]. destruct (Hi l _ HV Hl) as [H _].
    by destruct (H t). }
  split; intros k t Hk Hkt; [by apply (Ht k t Hk), Hl|by apply (Hb k t Hk), Hl].
Qed.

Lemma copied_refl s d fs : copied (λ _, False) s d fs fs.
Proof. split; [done|done|by left|done]. Qed.

(** Parts that are copied one after the other. *)
Lemma copied_trans V1 V2 s d fs fs1 fs2 :
  apart s d → (∀ l, V1 l → ¬ V2 l) → copied V1 s d fs fs1 → copied V2 s d fs1 fs2 →
  copied (λ l, V1 l ∨ V2 l) s d fs fs2.
Proof.
  intros Ha Hdis H1 H2. pose proof (λ l, copied_source _ _ _ _ _ l Ha H1) as Hs.
  destruct H1 as [W1 I1 O1 K1], H2 as [W2 I2 O2 K2]. setoid_rewrite Hs in I2.
  setoid_rewrite Hs in O2. setoid_rewrite Hs in K2. split; [auto|..].
  - intros l n [HV|HV] Hn; [|by apply I2]. destruct (I1 l n HV Hn) as [Ht Hd]. split; [done|].
    apply K2; [done|]. intros l' HV' Hx. apply (inj (app d)) in Hx as <-. by destruct (Hdis l).
  - intros k n [[?|[(l&HV&->&Hn)|?]]%O1|[(l&HV&->&Hn)|?]]%O2; [by left|..];
      right; [left|right|left|right]; try done; exists l; auto.
  - intros k n Hn HV. apply K2; [apply K1; [done|]|]; intros l Hl; apply HV; auto.
Qed.

(** The same parts, but for some that are not there. *)
Lemma copied_ext (V V' : list str → Prop) s d fs fs' :
  (∀ l, V l → V' l) → (∀ l, V' l → is_Some (fs !! (s ++ l)) → V l) →
  copied V s d fs fs' → copied V' s d fs fs'.
Proof.
  intros H1 H2 [Hw Hi Ho Hk]. split; [done|..].
  - intros l n HV Hn. apply Hi; [|done]. apply H2; [done|by eexists].
  - intros k n [?|[(l&?&?)|?]]%Ho; [by left|right; left; exists l; auto|by right; right].
  - intros k n Hn HV. apply Hk; [done|]. intros l Hl. apply HV. auto.
Qed.

(** Making the target directory, copying a file, and copying a directory. *)
Lemma copied_made s d fs fs' :
  fs !! s = Some IDir → made d fs fs' → fs' !! d = Some IDir → copied (λ l, l = []) s d fs fs'.
Proof.
  intros Hs [Hg Ho] Hd. split; [apply Hg|..].
  - intros l n ->. rewrite !app_nil_r. intros Hn. rewrite Hs in Hn. injection Hn as <-. by split.
  - intros k n Hk. destruct (fs !! k) as [n'|] eqn:Hf.
    + left. rewrite (grows_keeps _ _ Hg _ _ Hf) in Hk. congruence.
    + right; right. destruct (grows_dirs _ _ Hg k Hf); [congruence|].
      destruct (Ho k n Hk); [congruence|]. split; [congruence|done].
  - intros k n Hk _. by apply (grows_keeps _ _ Hg).
Qed.
Lemma copied_file s d c data fs :
  fs_wf (<[d ++ [c] := IFile data]> fs) → fs !! (s ++ [c]) = Some (IFile data) →
  copied (λ l, l = [c]) s d fs (<[d ++ [c] := IFile data]> fs).
Proof.
  intros Hwf Hs. split; [done|..].
  - intros l n -> Hn. rewrite Hs in Hn. injection Hn as <-. by rewrite lookup_insert_eq.
  - intros k n [[<- <-]|[_ ?]]%lookup_insert_Some; [|by left]. right; left. by exists [c].
  - intros k n Hk HV. rewrite lookup_insert_ne; [done|]. intros <-.
    rewrite (HV [c]) in Hs by done. done.
Qed.
Lemma copied_child V s d c fs fs' :
  V [] → fs !! (s ++ [c]) = Some IDir → copied V (s ++ [c]) (d ++ [c]) fs fs' →
  copied (λ l, ∃ l', l = c :: l' ∧ V l') s d fs fs'.
Proof.
  intros HV Hs [Hw Hi Ho Hk]. split; [done|..].
  - intros l n (l'&->&Hl). rewrite !(cons_middle c), !app_assoc. by apply Hi.
  - intros k n [?|[(l&Hl&->&Hn)|[-> Hp]]]%Ho; [by left|right; left|].
    + exists (c :: l). rewrite <-!app_assoc in *. split_and!; [by exists l|done..].
    + destruct (decide (k = d ++ [c])) as [->|Hne].
      * right; left. exists [c]. split_and!; [by exists []|done..].
      * right; right. split; [done|]. destruct Hp as [l Hl].
        destruct l as [|x l _] using rev_ind; [by rewrite app_nil_r in Hl|].
        rewrite app_assoc in Hl. apply app_inj_tail in Hl as [-> _]. by eexists.
  - intros k n Hn HVl. apply Hk; [done|]. intros l Hl ->. rewrite <-app_assoc.
    apply (HVl (c :: l)); [by exists l|by rewrite <-app_assoc].
Qed.

(** A directory that is there is not made again. *)
Lemma made_nothing d fs fs' : fs_wf fs → fs !! d = Some IDir → made d fs fs' → fs' = fs.
Proof.
  intros Hwf Hd [Hg Ho]. apply map_eq. intros k. apply option_eq. intros n. split.
  - intros Hk. destruct (Ho k n Hk) as [?|[l ->]]; [done|].
    assert (fs !! k = Some IDir) as Hk'.
    { destruct l as [|c l]; [by rewrite app_nil_r in Hd|]. by eapply wf_above. }
    rewrite (grows_keeps _ _ Hg _ _ Hk') in Hk. congruence.
  - apply (grows_keeps _ _ Hg).
Qed.

Section copies.
Context {E Stream C : Type} `{HE : !HostEnv E Stream} `{TH : !ToolHost E Stream C}.
Implicit Types h : Host E.

(** The placeholders of empty directories are left out. *)
Definition placeholder (c : str) : Prop := c = ".gitkeep".
Definition shown (l : list str) : Prop := Forall (λ c, ¬ placeholder c) l.

(** From a state in which the target is a directory with a clear way. *)
Record copy_ready (s d : location) h : Prop := {
  cr_wf : fs_wf (h_fs h);
  cr_source : h_fs h !! s = Some IDir;
  cr_target : h_fs h !! d = Some IDir;
  cr_clear : clear_way d (h_fs h) }.

Lemma copied_ready V s d h h' :
  apart s d → copy_ready s d h → copied V s d (h_fs h) (h_fs h') → ¬ V [] → copy_ready s d h'.
Proof.
  intros Ha [Hwf Hs Hd Hc] Hcp HV. split.
  - by eapply copied_wf.
  - pose proof (copied_source _ _ _ _ _ [] Ha Hcp) as He. rewrite !app_nil_r in He. by rewrite He.
  - eapply copied_keep; [done|done|]. intros l Hl Hx. destruct HV.
    rewrite <-(app_nil_r d) in Hx at 1. by apply (inj (app d)) in Hx as <-.
  - by eapply copied_clear.
Qed.

Lemma copy_file_copied s d c data h h' :
  apart s d → copy_ready s d h → Forall host_name (d ++ [c]) →
  h_fs h !! (s ++ [c]) = Some (IFile data) →
  copy (path_of (s ++ [c])) (path_of (d ++ [c])) h = (Ok (), h') →
  h_cwd h' = h_cwd h ∧ copied (λ l, l = [c]) s d (h_fs h) (h_fs h').
Proof.
  intros Ha [Hwf Hs Hd Hc] Hn Hf H. unfold copy in H. rewrite parent_path_of in H by done.
  pose proof Hn as [Hdn _]%Forall_app.
  apply bind_ok_inv in H as ([]&h1&H1&H).
  apply create_dir_all_makes in H1 as (Hcwd1&Hm&_); [|done|done|apply Hc].
  apply made_nothing in Hm; [|done..]. apply with_err_ok in H.
  apply fs_copy_run in H as [Hcwd2 [[_ ?]|(q&t&data'&dd&Hq&Hq'&Ht&Htd&Hf2&Hdd)]]; [done| |by rewrite Hm].
  rewrite Hm in Hq', Htd, Hf2. split; [congruence|].
  rewrite (lookup_exact _ _ _ _ (IFile data)) in Hq by (rewrite ?Hm; done). injection Hq as <-.
  apply clear_lookup in Ht as ->; [|done|rewrite Hm; by apply clear_below].
  rewrite Hf in Hq'. injection Hq' as <-. rewrite Hdd in Hf2; [|done|by apply apart_below].
  rewrite Hf2. apply copied_file; [|done]. apply wf_insert; try done.
  by apply Forall_app in Hn as [_ [? _]%Forall_cons].
Qed.

(** What a copier of subtrees does at every directory. *)
Definition copies_subtrees (subtree : str → str → M (Host E) str ()) (s d : location) : Prop :=
  ∀ c h h', copy_ready s d h → h_fs h !! (s ++ [c]) = Some IDir → host_name c →
    subtree (path_of (s ++ [c])) (path_of (d ++ [c])) h = (Ok (), h') →
    h_cwd h' = h_cwd h ∧ copied shown (s ++ [c]) (d ++ [c]) (h_fs h) (h_fs h').

Lemma copy_entry_copied subtree s d c n h h' :
  apart s d → copies_subtrees subtree s d → copy_ready s d h →
  h_fs h !! (s ++ [c]) = Some n → Forall host_name d →
  copy_entry subtree (path_of s) (path_of d) c h = (Ok (), h') →
  h_cwd h' = h_cwd h
  ∧ copied (λ l, ∃ l', l = c :: l' ∧ shown l) s d (h_fs h) (h_fs h').
Proof.
  intros Ha Hsub Hready Hn Hd H. pose proof Hready as [Hwf _ _ _].
  pose proof (wf_names _ _ _ Hwf Hn) as Hnames. pose proof (wf_parent _ Hwf _ _ _ Hn) as [_ Hcn].
  assert (Forall host_name (d ++ [c])) as Hdc
    by (apply Forall_app; split; [done|by apply Forall_singleton]).
  unfold copy_entry in H. apply bind_ok_inv in H as ([]&h1&H1&H).
  apply next_entry_run in H1 as [[Hf1 Hc1] _]. case_bool_decide as Hk.
  { injection H as <-. rewrite Hf1. split; [done|].
    eapply copied_ext; [..|apply copied_refl]; [done|]. intros l (l'&->&Hl) _.
    apply Forall_cons in Hl as [Hl _]. by destruct Hl. }
  rewrite !join_child in H by done. apply bind_ok_inv in H as (node&h2&H2&H).
  apply with_err_ok, (stat_node _ _ n) in H2 as [-> [Hf2 Hc2]]; [|by rewrite Hf1..|done].
  assert (h_fs h2 = h_fs h) as Hf by congruence.
  assert (copy_ready s d h2) as Hready2 by (destruct Hready; split; by rewrite Hf).
  rewrite <-Hf in Hn |- *. assert (¬ placeholder c) as Hp by done.
  destruct n as [data| |t]; [| |done].
  - apply (copy_file_copied _ _ _ data) in H as [Hcwd Hcp]; [|done..]. split; [congruence|].
    eapply copied_ext; [..|exact Hcp].
    + intros l ->. exists []. split; [done|]. by constructor.
    + intros l (l'&->&_) [n' Hn']. destruct l' as [|x l']; [done|].
      rewrite (cons_middle c), app_assoc in Hn'. destruct Hready2 as [Hwf2 _ _ _].
      apply wf_above in Hn'; [congruence|done|done].
  - apply Hsub in H as [Hcwd Hcp]; [|done..]. split; [congruence|].
    eapply copied_ext; [..|by apply copied_child in Hcp; [|apply Forall_nil_2|done]].
    + intros l (l'&->&Hl). exists l'. split; [done|]. by constructor.
    + intros l (l'&->&Hl) _. exists l'. split; [done|]. by apply Forall_cons in Hl as [_ ?].
Qed.

Lemma copy_entries_copied subtree s d names h h' :
  apart s d → copies_subtrees subtree s d → Forall host_name d → NoDup names →
  copy_ready s d h → (∀ c, c ∈ names → is_Some (h_fs h !! (s ++ [c]))) →
  for_each (copy_entry subtree (path_of s) (path_of d)) names h = (Ok (), h') →
  h_cwd h' = h_cwd h
  ∧ copied (λ l, ∃ c l', l = c :: l' ∧ c ∈ names ∧ shown l) s d (h_fs h) (h_fs h').
Proof.
  intros Ha Hsub Hd. revert h. induction names as [|c names IH]; intros h Hnd Hready Hin H.
  { injection H as <-. split; [done|]. eapply copied_ext; [..|apply copied_refl]; [done|].
    by intros l (c&l'&_&?%elem_of_nil&_). }
  apply NoDup_cons in Hnd as [Hc Hnd]. cbn [for_each] in H.
  apply bind_ok_inv in H as ([]&h1&H1&H). destruct (Hin c) as [n Hn]; [left|].
  apply (copy_entry_copied _ _ _ _ n) in H1 as [Hcwd1 Hcp1]; [|done..].
  pose proof (copied_ready _ _ _ _ _ Ha Hready Hcp1 ltac:(by intros (?&?&_))) as Hready1.
  apply IH in H as [Hcwd2 Hcp2]; [|done|done|].
  2:{ intros c' Hc'. rewrite (copied_source _ _ _ _ _ [c'] Ha Hcp1). apply Hin. by right. }
  split; [congruence|]. eapply copied_ext; [..|eapply (copied_trans _ _ _ _ _ _ _ Ha); [|exact Hcp1|exact Hcp2]].
  - intros l [(l'&->&Hl)|(c'&l'&->&Hc'&Hl)]; eexists _, l'; (split_and!; [done| |done]); [left|by right].
  - intros l (c'&l'&->&[->|Hc']%elem_of_cons&Hl) _; [left; by exists l'|right; by exists c', l'].
  - intros l (l'&->&_) (c'&l''&[= <- <-]&Hc'&_). done.
Qed.

Lemma copy_tree_copied depth s d h h' :
  fs_wf (h_fs h) → h_fs h !! s = Some IDir → apart s d → Forall host_name d →
  clear_way d (h_fs h) → copy_tree depth (path_of s) (path_of d) h = (Ok (), h') →
  h_cwd h' = h_cwd h ∧ copied shown s d (h_fs h) (h_fs h').
Proof.
  revert s d h h'. induction depth as [|depth IH]; intros s d h h' Hwf Hs Ha Hd Hc H; [done|].
  cbn [copy_tree] in H. apply bind_ok_inv in H as ([]&h1&H1&H).
  apply create_dir_all_makes in H1 as (Hcwd1&Hm&Hok); [|done|done|apply Hc]. specialize (Hok eq_refl).
  pose proof (made_grows _ _ _ Hm) as Hg. pose proof (grows_keeps _ _ Hg _ _ Hs) as Hs1.
  assert (copy_ready s d h1) as Hready.
  { split; [by eapply grows_wf|done|done|by eapply grows_clear]. }
  apply bind_ok_inv in H as (names&h2&H2&H).
  apply with_err_ok, read_dir_node in H2 as [-> [Hf2 Hc2]]; [|apply Hready|done].
  assert (copy_ready s d h2) as Hready2 by (destruct Hready; split; by rewrite Hf2).
  apply copy_entries_copied in H as [Hcwd3 Hcp]; [|done| |done|apply children_NoDup|done|].
  3:{ rewrite Hf2. intros c Hcin. by apply elem_of_children. }
  2:{ intros c g g' [Gwf Gs Gd Gc] Gn Gc' G. apply IH in G; [done|done|done|by apply apart_child| |].
      - apply Forall_app. split; [done|by apply Forall_singleton].
      - by apply clear_below. }
  split; [congruence|]. rewrite Hf2 in Hcp.
  eapply copied_ext; [..|eapply (copied_trans _ _ _ _ _ _ _ Ha); [|by apply (copied_made s d)|exact Hcp]].
  - intros l [->|(c&l'&->&_&Hl)]; [apply Forall_nil_2|done].
  - intros [|c l] Hl [n Hn]; [by left|]. right. exists c, l. split_and!; [done| |done].
    apply elem_of_children. rewrite (cons_middle c), app_assoc in Hn.
    apply (grows_keeps _ _ Hg) in Hn. destruct Hready as [Hwf1 _ _ _].
    destruct l as [|c' l]; [rewrite app_nil_r in Hn; by eexists|]. exists IDir. by eapply wf_above.
  - by intros l -> (?&?&?&_).
Qed.

Lemma copy_directory_copied s d h h' :
  fs_wf (h_fs h) → h_fs h !! s = Some IDir → apart s d → Forall host_name d →
  clear_way d (h_fs h) → copy_directory (path_of s) (path_of d) h = (Ok (), h') →
  h_cwd h' = h_cwd h ∧ copied shown s d (h_fs h) (h_fs h').
Proof.
  intros Hwf Hs Ha Hd Hc H. apply bind_ok_inv in H as (depth&h1&H1&H).
  apply gets_ok_inv in H1 as [-> ->]. by apply copy_tree_copied in H.
Qed.
End copies.
