(* ===== verification/XtaskBundle.v ===== *)
(** * What a package holds

    [bundle_files] lists exactly the files of a tree, and the tree of an image mirrors the [fs]
    directory of the workspace and lists it in the configuration of the boot loader. *)
From S2P Require Import Prelude RustStr Text Api Vfs Host HostTree BuildHost Xtask XtaskDocs XtaskRun.
From S2P Require Import BuildTree.

(** ** Steps *)
(** A step that changes files only below a location, makes no link, and otherwise at most adds
    directories. *)
Record step (d : location) (fs fs' : FileSystem) : Prop := {
  step_wf : fs_wf fs → fs_wf fs';
  step_links k t : fs' !! k = Some (ILink t) → fs !! k = Some (ILink t);
  step_keep k n : ¬ d `prefix_of` k → fs !! k = Some n → fs' !! k = Some n;
  step_files k x : ¬ d `prefix_of` k → fs' !! k = Some (IFile x) → fs !! k = Some (IFile x) }.

Lemma made_step d d' fs fs' : made d fs fs' → step d' fs fs'.
Proof.
  intros [Hg Ho]. split; [apply Hg|..].
  - intros k t. by apply grows_link.
  - intros k n _. apply (grows_keeps _ _ Hg).
  - intros k x _ Hk. destruct (fs !! k) as [n|] eqn:Hf.
    + rewrite (grows_keeps _ _ Hg _ _ Hf) in Hk. congruence.
    + destruct (grows_dirs _ _ Hg k Hf); congruence.
Qed.
Lemma fresh_step d fs fs' : fresh d fs fs' → step d fs fs'.
Proof.
  intros [Hw Hd He Hk Ho]. split; [done|..|done|].
  - intros k t [?|[? _]]%Ho; done.
  - intros k x _ [?|[? _]]%Ho; done.
Qed.
Lemma copied_step s d fs fs' : copied shown s d fs fs' → step d fs fs'.
Proof.
  intros [Hw Hi Ho Hk]. split; [done|..].
  - intros k t [?|[(l&Hl&_&Hn)|[? _]]]%Ho; [done| |done].
    destruct (Hi l _ Hl Hn) as [Hx _]. by destruct (Hx t).
  - intros k n Hp Hn. apply Hk; [done|]. intros l _ ->. destruct Hp. by apply prefix_app_r.
  - intros k x Hp [?|[(l&_&->&_)|[? _]]]%Ho; [done| |done]. destruct Hp. by apply prefix_app_r.
Qed.
Lemma edits_step d fs fs' : edits d fs fs' → step d fs fs'.
Proof.
  intros [Hw Ho Hl]. split; [done|done|..].
  - intros k n Hk. by rewrite Ho.
  - intros k x Hk. by rewrite Ho.
Qed.

Lemma step_clear r d fs fs' : step d fs fs' → clear_way r fs → clear_way r fs'.
Proof.
  intros [_ Hl _ _] [Ht Hb]. split; intros k t Hk Hkt%Hl; [by apply (Ht k t)|by apply (Hb k t)].
Qed.
Lemma step_file d fs fs' k x :
  step d fs fs' → ¬ d `prefix_of` k → fs' !! k = Some (IFile x) ↔ fs !! k = Some (IFile x).
Proof. intros [_ _ Hk Hf] Hd. split; auto. Qed.

(** A step that only adds directories. *)
Definition plain_step (fs fs' : FileSystem) : Prop := ∀ d, step d fs fs'.
Lemma plain_step_keep fs fs' k n : plain_step fs fs' → fs !! k = Some n → fs' !! k = Some n.
Proof. intros Hs. apply (step_keep _ _ _ (Hs (k ++ [""]))), prefix_snoc_not. Qed.
Lemma plain_step_file fs fs' k x :
  plain_step fs fs' → fs' !! k = Some (IFile x) ↔ fs !! k = Some (IFile x).
Proof. intros Hs. apply (step_file (k ++ [""])); [done|]. apply prefix_snoc_not. Qed.
Lemma step_trans d fs fs1 fs2 : step d fs fs1 → step d fs1 fs2 → step d fs fs2.
Proof. intros [w1 l1 k1 f1] [w2 l2 k2 f2]. split; auto. Qed.

(** A copy into a place without files shows what the source shows. *)
Lemma copied_mirror s d fs fs' l x :
  copied shown s d fs fs' → (∀ l x, fs !! (d ++ l) ≠ Some (IFile x)) →
  fs' !! (d ++ l) = Some (IFile x) ↔ shown l ∧ fs !! (s ++ l) = Some (IFile x).
Proof.
  intros [_ Hi Ho _] He. split.
  - intros [?|[(l'&Hl'&Hx&Hn)|[? _]]]%Ho; [by apply He in H| |done].
    apply (inj (app d)) in Hx as <-. done.
  - intros [Hl Hn]. by apply Hi.
Qed.
Lemma fresh_no_files d fs fs' l x : fresh d fs fs' → fs' !! (d ++ l) ≠ Some (IFile x).
Proof.
  intros Hf Hx. destruct l as [|c l].
  - rewrite app_nil_r, (fresh_dir _ _ _ Hf) in Hx. done.
  - rewrite (fresh_empty _ _ _ Hf) in Hx; [done|by apply prefix_app_r|].
    intros Heq. apply (f_equal length) in Heq. rewrite length_app in Heq. simpl in Heq. lia.
Qed.

(** ** The list of the bundle *)
Section bundle.
Context {E Stream C : Type} `{HE : !HostEnv E Stream} `{TH : !ToolHost E Stream C}.
Implicit Types h : Host E.
Notation Task := (M (Host E) str).

#[local] Instance placeholder_dec c : Decision (placeholder c).
Proof. unfold placeholder. apply _. Defined.

Lemma visible_shown q l : visible placeholder q (q ++ l) ↔ shown l.
Proof.
  split; [|by exists l]. intros (l'&He&Hl). by apply (inj (app q)) in He as <-.
Qed.

Lemma bundle_entry_collects subtree q c :
  (∀ h paths h', fs_wf (h_fs h) → h_fs h !! (q ++ [c]) = Some IDir →
    subtree (path_of (q ++ [c])) h = (Ok paths, h') →
    same_files h h' ∧ lists_files placeholder (h_fs h) (q ++ [c]) paths) →
  collects_at placeholder (collect_entry subtree : str → str → Task (list str)) q c.
Proof.
  intros Hsub n h paths h' Hwf Hn H. unfold collect_entry in H.
  case_bool_decide as Hc; [rewrite decide_True by done|rewrite decide_False by done].
  { by injection H as <- <-. }
  apply bind_ok_inv in H as (node&h2&H2&H).
  apply with_err_ok, (stat_node _ _ n) in H2 as [-> Hs2]; [|done..].
  pose proof Hs2 as [Hf _]. destruct n as [data| |t]; [| |done].
  - injection H as <- <-. split; [done|by eapply leaf_lists].
  - destruct (Hsub h2 paths h') as [Hs3 Hl]; [by rewrite Hf..|done|].
    rewrite Hf in Hl. split; [by etrans|done].
Qed.
Lemma bundle_entry_returns (subtree : str → Task (list str)) name k n h :
  fs_wf (h_fs h) → h_fs h !! k = Some n →
  (∀ h', same_files h h' → n = IDir → (subtree (path_of k) h').1 ≠ Panic) →
  (collect_entry subtree name (path_of k) h).1 ≠ Panic.
Proof.
  intros Hwf Hk Hsub. unfold collect_entry. case_bool_decide; [done|]. rewrite bind_run.
  pose proof (sound_with_err io_text _ h (stat_sound false (path_of k))) as Hnp.
  fold (io (stat false (path_of k))) in Hnp.
  destruct (io _ h) as [[node|e|] h2] eqn:H2; [|done..].
  apply with_err_ok, (stat_node _ _ n) in H2 as [-> Hs2]; [|done..].
  destruct n as [data| |t]; [done|by apply Hsub|done].
Qed.

(** The name of a file of the bundle. *)
Definition bundle_path (l : list str) : str := "fs/" ++ slashes (join "/" l).

Lemma bundle_names_run q paths h names h' :
  Forall (λ p, ∃ l, p = path_of (q ++ l) ∧ Forall host_name (q ++ l)) paths →
  bundle_names (path_of q) paths h = (Ok names, h') →
  h' = h ∧ ∃ locs, paths = (λ l, path_of (q ++ l)) <$> locs ∧ names = bundle_path <$> locs
    ∧ Forall (λ l, Forall host_name (q ++ l)) locs.
Proof.
  revert h names h'. induction paths as [|p paths IH]; intros h names h' Hp H.
  { injection H as <- <-. split; [done|]. by exists []. }
  apply Forall_cons in Hp as [(l&->&Hl) Hp]. cbn [bundle_names] in H.
  apply bind_ok_inv in H as (name&h1&H1&H). apply bind_ok_inv in H as (rest&h2&H2&H).
  injection H as <- <-. unfold bundle_name in H1.
  rewrite strip_location in H1 by (try done; by apply prefix_app_r).
  rewrite drop_app_length in H1. cbn [ok_or] in H1. rewrite bind_lift_ok in H1.
  apply bind_ok_inv in H1 as (rel&h3&H3&H1). apply lift_ok_inv in H3 as [H3 ->].
  unfold from_utf8 in H3. destruct (valid_utf8 (join "/" l)); [|done]. injection H3 as <-.
  destruct (_ || _); [done|]. injection H1 as <- <-.
  apply IH in H2 as (->&locs&->&->&Hlocs); [|done]. split; [done|]. exists (l :: locs).
  split_and!; [done..|]. by constructor.
Qed.

Lemma bundle_names_returns root paths h : (bundle_names root paths h).1 ≠ Panic.
Proof.
  revert h. induction paths as [|p paths IH]; intros h; [done|]. cbn [bundle_names].
  rewrite bind_run. unfold bundle_name. rewrite bind_run. unfold lift.
  destruct (path_strip_prefix p root); [|done]. cbn [ok_or]. rewrite bind_run.
  destruct (from_utf8 _); [|done]. cbn [ok_or]. destruct (_ || _); [done|]. cbn.
  rewrite bind_run. specialize (IH h). by destruct (bundle_names root paths h) as [[]].
Qed.

(** The list of the bundle: it ends, and a list it gives names every file of the tree that is
    shown once, and nothing else. *)
Lemma bundle_files_exact q h :
  fs_wf (h_fs h) → h_fs h !! q = Some IDir →
  (bundle_files (path_of q) h).1 ≠ Panic ∧ same_files h (bundle_files (path_of q) h).2
  ∧ ∀ names, (bundle_files (path_of q) h).1 = Ok names →
    ∃ locs, names = bundle_path <$> locs ∧ NoDup locs
      ∧ ∀ l, l ∈ locs ↔ shown l ∧ ∃ data, h_fs h !! (q ++ l) = Some (IFile data).
Proof.
  intros Hwf Hq. pose proof (bundle_files_same (path_of q) h) as Hs.
  destruct (bundle_files (path_of q) h) as [r h'] eqn:H. cbn [fst snd] in Hs |- *.
  unfold bundle_files in H. rewrite bind_run in H. unfold gets in H. cbv beta iota in H.
  rewrite bind_run in H. destruct (collect_files _ (path_of q) h) as [r1 h1] eqn:H1.
  assert (r1 ≠ Panic) as Hn1.
  { change r1 with ((r1, h1).1). rewrite <-H1.
    apply (walk_returns _ _ (fs_depth (h_fs h)));
      [apply bundle_entry_same|apply bundle_entry_returns|by apply fs_depth_bounded|done|lia]. }
  destruct r1 as [paths|e|]; [|by injection H as <- <-|done].
  apply (walk_lists placeholder) in H1 as [Hs1 [_ Hnd Hl]];
    [|intros subtree p c Hsub; by apply bundle_entry_collects|done..].
  split_and!; [|done|].
  - pose proof (bundle_names_returns (path_of q) (merge_sort path_le paths) h1) as Hn.
    by rewrite H in Hn.
  - intros names ->. apply bundle_names_run in H as (_&locs&Hlocs&->&Hnames).
    + exists locs. split; [done|]. split.
      { apply (NoDup_fmap_1 (λ l, path_of (q ++ l))). by rewrite <-Hlocs, merge_sort_Permutation. }
      intros l.
      assert (l ∈ locs ↔ path_of (q ++ l) ∈ paths ∧ Forall host_name (q ++ l)) as ->.
      { rewrite <-(merge_sort_Permutation path_le paths), Hlocs, list_elem_of_fmap. split.
        - intros Hin. split; [by exists l|]. rewrite Forall_forall in Hnames. by apply Hnames.
        - intros [(l'&Hx&Hin) Hn]. apply path_of_inj_names in Hx; [|done|].
          + by apply (inj (app q)) in Hx as ->.
          + rewrite Forall_forall in Hnames. by apply Hnames. }
      rewrite Hl. split.
      * intros [(k&data&Hk&Hv&Hd) Hn]. apply path_of_inj_names in Hk as <-;
          [|done|by eapply wf_names]. split; [by apply (visible_shown q)|by exists data].
      * intros [Hsh [data Hd]]. split; [|by eapply wf_names]. exists (q ++ l), data.
        split_and!; [done|by apply visible_shown|done].
    + apply Forall_forall. intros p. rewrite merge_sort_Permutation, Hl.
      intros (k&data&->&(l&->&_)&Hd). exists l. split; [done|]. by eapply wf_names.
Qed.
End bundle.

(** ** From the workspace to the tree of the image *)
Section staging.
Context {E Stream C : Type} `{HE : !HostEnv E Stream} `{TH : !ToolHost E Stream C} `{SH : !Sha256}.
Implicit Types h : Host E.
Context (Hstat : ∀ e, (host_fault SysStat e).1 = None).
Context (r : location) (Hr : Forall host_name r) (bp : BuildProcess) (arch : BareMetalArch).
Context (Hroot : path_parent (bp_manifest_dir bp) = Some (path_of r)).

(** Well-formed files without links in the workspace or on the way to it. *)
Definition ready h : Prop := fs_wf (h_fs h) ∧ clear_way r (h_fs h).

Lemma ready_step d h h' : ready h → step d (h_fs h) (h_fs h') → ready h'.
Proof. intros [Hwf Hc] Hs. split; [by eapply step_wf|by eapply step_clear]. Qed.
Lemma ready_clear l h : ready h → clear_way (r ++ l) (h_fs h).
Proof. intros [_ Hc]. by apply clear_below. Qed.

Lemma names_at l : Forall host_name l → Forall host_name (r ++ l).
Proof. intros Hl. by apply Forall_app. Qed.

(** The single tasks, below the workspace. *)
Lemma create_at l h h' :
  ready h → Forall host_name l → io (create_dir_all (path_of (r ++ l))) h = (Ok (), h') →
  plain_step (h_fs h) (h_fs h') ∧ h_fs h' !! (r ++ l) = Some IDir.
Proof.
  intros Hh Hl H. apply create_dir_all_makes in H as (_&Hm&Hd);
    [|by apply names_at|apply Hh|by apply ready_clear].
  split; [|by apply Hd]. intros d. by eapply made_step.
Qed.
Lemma recreate_at l h h' :
  ready h → Forall host_name l → recreate_directory (path_of (r ++ l)) h = (Ok (), h') →
  fresh (r ++ l) (h_fs h) (h_fs h').
Proof.
  intros Hh Hl H. apply recreate_fresh in H as [_ ?];
    [done|done|apply Hh|by apply names_at|by apply ready_clear].
Qed.
Lemma copy_directory_at l k h h' :
  ready h → Forall host_name k → apart (r ++ l) (r ++ k) → h_fs h !! (r ++ l) = Some IDir →
  copy_directory (path_of (r ++ l)) (path_of (r ++ k)) h = (Ok (), h') →
  copied shown (r ++ l) (r ++ k) (h_fs h) (h_fs h').
Proof.
  intros Hh Hk Ha Hd H. apply copy_directory_copied in H as [_ ?];
    [done|apply Hh|done|done|by apply names_at|by apply ready_clear].
Qed.
Lemma copy_at source l c h h' :
  ready h → Forall host_name (l ++ [c]) → h_fs h !! (r ++ l) = Some IDir →
  copy source (path_of (r ++ l ++ [c])) h = (Ok (), h') →
  step (r ++ l ++ [c]) (h_fs h) (h_fs h') ∧ ∃ x, h_fs h' !! (r ++ l ++ [c]) = Some (IFile x).
Proof.
  intros Hh Hn Hd H. pose proof (names_at _ Hn) as Hrn. rewrite app_assoc in H, Hrn |- *.
  unfold copy in H. rewrite parent_path_of in H by done.
  apply bind_ok_inv in H as ([]&h1&H1&H). pose proof Hn as [Hl _]%Forall_app.
  apply create_dir_all_makes in H1 as (_&Hm&_); [|by apply names_at|apply Hh|by apply ready_clear].
  apply made_nothing in Hm; [|apply Hh|done]. apply with_err_ok in H.
  pose proof Hh as [Hwf Hc].
  assert (edits ((r ++ l) ++ [c]) (h_fs h) (h_fs h')
    ∧ ∃ x, h_fs h' !! ((r ++ l) ++ [c]) = Some (IFile x)) as [He Hx]; [|by split; [apply edits_step|]].
  apply fs_copy_run in H as [_ [[_ ?]|(q&t&data'&dd&_&_&Ht&Htd&Hf2&_)]]; [done| |by rewrite Hm].
  apply clear_lookup in Ht as ->; [|done|].
  2:{ rewrite Hm, <-app_assoc. by apply ready_clear. }
  rewrite Hm in Hf2, Htd. rewrite Hf2, lookup_insert_eq. split; [|by eexists].
  apply file_edits. intros _. apply wf_insert; try done. by apply Forall_app in Hrn as [_ [? _]%Forall_cons].
Qed.

Definition package_place : list str := ["dist"; arch_label arch].
Definition staging_place : list str := ["target"; "afos-" ++ arch_label arch ++ "-iso"].

Lemma label_name : host_name (arch_label arch).
Proof. destruct arch; by_eval. Qed.
Lemma iso_name : host_name ("afos-" ++ arch_label arch ++ "-iso").
Proof. destruct arch; by_eval. Qed.
#[local] Hint Resolve label_name iso_name : core.

(** Places below the workspace that are not below one another. *)
Ltac off := let H := fresh in intros [? H]%prefix_app_inv; simpl in H; congruence.

(** The files the workspace offers: the regular files below [fs], those named [.gitkeep] and
    those in a directory of that name apart, which the code skips. *)
Definition source_file h (l : list str) (x : list byte) : Prop :=
  shown l ∧ h_fs h !! (r ++ "fs" :: l) = Some (IFile x).

Lemma create_all_at ls h h' :
  ready h → Forall (Forall host_name) ls →
  for_each (λ p, io (create_dir_all p)) ((λ l, path_of (r ++ l)) <$> ls) h = (Ok (), h') →
  plain_step (h_fs h) (h_fs h').
Proof.
  intros Hh Hls. revert h Hh. induction ls as [|l ls IH]; intros h Hh H.
  { injection H as <-. intros d. by split. }
  apply Forall_cons in Hls as [Hl Hls]. cbn [for_each fmap list_fmap] in H.
  apply bind_ok_inv in H as ([]&h1&H1&H). apply create_at in H1 as [Hs1 _]; [|done..].
  apply IH in H as Hs2; [|done|by apply (ready_step []  h)].
  intros d. by eapply step_trans.
Qed.

Lemma prepare_at h h' :
  ready h → h_fs h !! (r ++ ["fs"]) = Some IDir →
  (∀ l x, h_fs h !! (r ++ package_place ++ "fs" :: l) ≠ Some (IFile x)) →
  prepare_bundle_filesystem bp (path_of (r ++ package_place)) h = (Ok (), h') →
  step (r ++ package_place ++ ["fs"]) (h_fs h) (h_fs h')
  ∧ h_fs h' !! (r ++ package_place ++ ["fs"]) = Some IDir
  ∧ ∀ l x, h_fs h' !! (r ++ package_place ++ "fs" :: l) = Some (IFile x) ↔ source_file h l x.
Proof.
  intros Hh Hfs Hempty H. unfold prepare_bundle_filesystem, workspace_root in H.
  rewrite Hroot, bind_lift_ok in H. unfold package_place in *. pose proof label_name as Hlabel.
  rewrite !join_at in H by names. rewrite (join_child r "fs") in H by (apply names_at; names).
  apply bind_ok_inv in H as ([]&h1&H1&H).
  apply (copy_directory_at ["fs"]) in H1 as Hcp; [|done|names|split; off|done].
  pose proof (copied_step _ _ _ _ Hcp) as Hs1. pose proof (ready_step _ _ _ Hh Hs1) as Hh1.
  assert (plain_step (h_fs h1) (h_fs h')) as Hs2.
  { apply (create_all_at [["dist"; arch_label arch; "fs"; "apps"];
      ["dist"; arch_label arch; "fs"; "user"; "config"]; ["dist"; arch_label arch; "fs"; "user"; "saves"];
      ["dist"; arch_label arch; "fs"; "user"; "appdata"]]) in H; [done|done|].
    repeat (apply Forall_cons_2; [names|]). apply Forall_nil_2. }
  split_and!.
  - eapply step_trans; [exact Hs1|apply Hs2].
  - eapply plain_step_keep; [done|]. destruct (copied_in _ _ _ _ _ Hcp [] IDir) as [_ Hd];
      [apply Forall_nil_2|by rewrite app_nil_r|]. by rewrite app_nil_r in Hd.
  - intros l x. rewrite (plain_step_file _ _ _ _ Hs2). unfold source_file.
    change (["dist"; arch_label arch] ++ "fs" :: l)
      with ((["dist"; arch_label arch] ++ ["fs"]) ++ l).
    rewrite (app_assoc r), (cons_middle "fs" r l), (app_assoc r ["fs"]).
    apply (copied_mirror _ _ _ _ l x Hcp). intros l' x'. rewrite <-app_assoc. apply Hempty.
Qed.

(** The package holds the kernel and the files of the workspace. *)
Lemma package_tree_at h h' :
  ready h → h_fs h !! (r ++ ["fs"]) = Some IDir →
  package_tree bp arch (path_of r) (path_of (r ++ package_place)) h = (Ok (), h') →
  ready h' ∧ h_fs h' !! (r ++ package_place ++ ["boot"]) = Some IDir
  ∧ h_fs h' !! (r ++ package_place ++ ["fs"]) = Some IDir
  ∧ (∃ x, h_fs h' !! (r ++ package_place ++ ["boot"; "afos.elf"]) = Some (IFile x))
  ∧ ∀ l x, h_fs h' !! (r ++ package_place ++ "fs" :: l) = Some (IFile x) ↔ source_file h l x.
Proof.
  intros Hh Hfs H. unfold package_tree, package_place in *. pose proof label_name as Hlabel.
  set (p := ["dist"; arch_label arch]) in *.
  apply bind_ok_inv in H as ([]&h1&H1&H). apply create_at in H1 as [Hs1 _]; [|done|names].
  pose proof (ready_step [] _ _ Hh (Hs1 [])) as Hh1.
  rewrite !(join_at r p) in H by names.
  apply bind_ok_inv in H as ([]&h2&H2&H). apply recreate_at in H2 as Hfr2; [|done|names].
  pose proof (fresh_step _ _ _ Hfr2) as Hs2. pose proof (ready_step _ _ _ Hh1 Hs2) as Hh2.
  apply bind_ok_inv in H as ([]&h3&H3&H). apply recreate_at in H3 as Hfr3; [|done|names].
  pose proof (fresh_step _ _ _ Hfr3) as Hs3. pose proof (ready_step _ _ _ Hh2 Hs3) as Hh3.
  assert (h_fs h3 !! (r ++ p ++ ["boot"]) = Some IDir) as Hboot3.
  { apply (step_keep _ _ _ Hs3); [off|]. apply Hfr2. }
  rewrite (join_at r (p ++ ["boot"])) in H by names.
  apply bind_ok_inv in H as ([]&h4&H4&H).
  apply (copy_at _ (p ++ ["boot"])) in H4 as (Hs4&x4&Hx4); [|done|names|done].
  pose proof (ready_step _ _ _ Hh3 Hs4) as Hh4.
  assert (∀ k n, h_fs h !! (r ++ "fs" :: k) = Some n → h_fs h4 !! (r ++ "fs" :: k) = Some n) as Hk.
  { intros k n Hn. apply (step_keep _ _ _ Hs4); [off|]. apply (step_keep _ _ _ Hs3); [off|].
    apply (step_keep _ _ _ Hs2); [off|]. by eapply plain_step_keep. }
  apply prepare_at in H as (Hs5&Hfs5&Hfiles); [|done|by apply Hk|].
  2:{ intros l x. rewrite (step_file _ _ _ _ _ Hs4) by off.
      pose proof (fresh_no_files _ _ _ l x Hfr3) as Hx. by rewrite <-!app_assoc in Hx. }
  unfold package_place in Hs5, Hfs5, Hfiles. fold p in Hs5, Hfs5, Hfiles. split_and!.
  - by eapply ready_step.
  - apply (step_keep _ _ _ Hs5); [off|]. by apply (step_keep _ _ _ Hs4); [off|].
  - done.
  - exists x4. apply (step_keep _ _ _ Hs5); [off|]. by rewrite <-app_assoc in Hx4.
  - intros l x. rewrite Hfiles. unfold source_file.
    assert (h_fs h4 !! (r ++ "fs" :: l) = Some (IFile x) ↔ h_fs h !! (r ++ "fs" :: l) = Some (IFile x))
      as ->; [|done].
    rewrite (step_file _ _ _ _ _ Hs4) by off. rewrite (step_file _ _ _ _ _ Hs3) by off.
    rewrite (step_file _ _ _ _ _ Hs2) by off. by apply plain_step_file.
Qed.

(** The two trees of the image, before its configuration. *)
Lemma stage_trees_at {A} (k : M (Host E) str A) a h h' :
  ready h → h_fs h !! (r ++ package_place ++ ["boot"]) = Some IDir →
  h_fs h !! (r ++ package_place ++ ["fs"]) = Some IDir →
  (∃ x, h_fs h !! (r ++ package_place ++ ["boot"; "afos.elf"]) = Some (IFile x)) →
  (recreate_directory (path_of (r ++ staging_place));;
   copy_directory (path_of (r ++ package_place ++ ["boot"])) (path_of (r ++ staging_place ++ ["boot"]));;
   copy_directory (path_of (r ++ package_place ++ ["fs"])) (path_of (r ++ staging_place ++ ["fs"]));;
   io (create_dir_all (path_of (r ++ staging_place ++ ["boot"; "limine"])));; k) h = (Ok a, h') →
  ∃ h4, k h4 = (Ok a, h') ∧ ready h4
    ∧ h_fs h4 !! (r ++ staging_place ++ ["fs"]) = Some IDir
    ∧ (∃ x, h_fs h4 !! (r ++ staging_place ++ ["boot"; "afos.elf"]) = Some (IFile x))
    ∧ ∀ l x, h_fs h4 !! (r ++ staging_place ++ "fs" :: l) = Some (IFile x)
        ↔ shown l ∧ h_fs h !! (r ++ package_place ++ "fs" :: l) = Some (IFile x).
Proof.
  intros Hh Hboot Hfs [xk Hkernel] H. unfold package_place, staging_place in *.
  pose proof label_name as Hlabel. pose proof iso_name as Hiso.
  set (p := ["dist"; arch_label arch]) in *.
  set (s := ["target"; "afos-" ++ arch_label arch ++ "-iso"]) in *.
  apply bind_ok_inv in H as ([]&h1&H1&H). apply recreate_at in H1 as Hfr1; [|done|names].
  pose proof (fresh_step _ _ _ Hfr1) as Hs1. pose proof (ready_step _ _ _ Hh Hs1) as Hh1.
  apply bind_ok_inv in H as ([]&h2&H2&H).
  apply (copy_directory_at (p ++ ["boot"])) in H2 as Hcp2;
    [|done|names|split; off|by apply (step_keep _ _ _ Hs1); [off|]].
  pose proof (copied_step _ _ _ _ Hcp2) as Hs2. pose proof (ready_step _ _ _ Hh1 Hs2) as Hh2.
  apply bind_ok_inv in H as ([]&h3&H3&H).
  apply (copy_directory_at (p ++ ["fs"])) in H3 as Hcp3; [|done|names|split; off|].
  2:{ apply (step_keep _ _ _ Hs2); [off|]. by apply (step_keep _ _ _ Hs1); [off|]. }
  pose proof (copied_step _ _ _ _ Hcp3) as Hs3. pose proof (ready_step _ _ _ Hh2 Hs3) as Hh3.
  apply bind_ok_inv in H as ([]&h4&H4&H). apply create_at in H4 as [Hs4 _]; [|done|names].
  exists h4. split_and!; [done|by apply (ready_step [] h3)|..].
  - eapply plain_step_keep; [done|].
    destruct (copied_in _ _ _ _ _ Hcp3 [] IDir) as [_ Hd]; [apply Forall_nil_2| |].
    + rewrite app_nil_r. apply (step_keep _ _ _ Hs2); [off|]. by apply (step_keep _ _ _ Hs1); [off|].
    + by rewrite app_nil_r in Hd.
  - exists xk. eapply plain_step_keep; [done|]. apply (step_keep _ _ _ Hs3); [off|].
    destruct (copied_in _ _ _ _ _ Hcp2 ["afos.elf"] (IFile xk)) as [_ Hd]; [by apply Forall_singleton| |].
    + rewrite <-!app_assoc. by apply (step_keep _ _ _ Hs1); [off|].
    + by rewrite <-!app_assoc in Hd.
  - intros l x. rewrite (plain_step_file _ _ _ _ Hs4).
    pose proof (copied_mirror _ _ _ _ l x Hcp3) as Hm. rewrite <-!app_assoc in Hm.
    rewrite Hm.
    + rewrite (step_file _ _ _ _ _ Hs2) by off. by rewrite (step_file _ _ _ _ _ Hs1) by off.
    + intros l' x'. rewrite <-!app_assoc, (step_file _ _ _ _ _ Hs2) by off.
      pose proof (fresh_no_files _ _ _ ("fs" :: l') x' Hfr1) as Hx. by rewrite <-!app_assoc in Hx.
Qed.

(** The tree of the image: the kernel, the files, and the configuration that lists them. *)
Lemma stage_at h h' :
  ready h → h_fs h !! (r ++ package_place ++ ["boot"]) = Some IDir →
  h_fs h !! (r ++ package_place ++ ["fs"]) = Some IDir →
  (∃ x, h_fs h !! (r ++ package_place ++ ["boot"; "afos.elf"]) = Some (IFile x)) →
  stage_image (path_of (r ++ package_place)) (path_of (r ++ staging_place)) h = (Ok (), h') →
  (∃ x, h_fs h' !! (r ++ staging_place ++ ["boot"; "afos.elf"]) = Some (IFile x))
  ∧ (∀ l x, h_fs h' !! (r ++ staging_place ++ "fs" :: l) = Some (IFile x)
       ↔ shown l ∧ h_fs h !! (r ++ package_place ++ "fs" :: l) = Some (IFile x))
  ∧ ∃ locs,
      h_fs h' !! (r ++ staging_place ++ ["limine.conf"])
        = Some (IFile (limine_config (bundle_path <$> locs)))
      ∧ NoDup locs
      ∧ ∀ l, l ∈ locs ↔ shown l ∧ ∃ x, h_fs h' !! (r ++ staging_place ++ "fs" :: l) = Some (IFile x).
Proof.
  intros Hh Hboot Hfs Hkernel H. pose proof label_name as Hlabel. pose proof iso_name as Hiso.
  unfold stage_image in H. rewrite !(join_at r package_place), !(join_at r staging_place) in H
    by (unfold package_place, staging_place; names).
  rewrite (join_at r (staging_place ++ ["boot"])) in H by (unfold staging_place; names).
  rewrite <-(app_assoc staging_place) in H.
  apply stage_trees_at in H as (h4&H&Hh4&Hdir&[xk Hk]&Hfiles); [|done..].
  apply bind_ok_inv in H as (list_&h5&H5&H).
  pose proof (bundle_files_exact (r ++ staging_place ++ ["fs"]) h4 (proj1 Hh4) Hdir) as (_&Hs5&Hlist).
  rewrite H5 in Hs5, Hlist. cbn [fst snd] in Hs5, Hlist. destruct Hs5 as [Hf5 _].
  destruct (Hlist list_ eq_refl) as (locs&->&Hnd&Hlocs). apply with_err_ok in H.
  set (conf := r ++ staging_place ++ ["limine.conf"]) in *.
  apply fs_write_run in H as (_&_&[[_ ?]|(q&d&Hq&_&Hf&Hd)]); [done|].
  apply clear_lookup in Hq as ->; [|apply names_at; unfold staging_place; names|].
  2:{ rewrite Hf5. by apply ready_clear. }
  rewrite (Hd eq_refl), Hf5 in Hf.
  assert (∀ l, conf ≠ r ++ staging_place ++ "fs" :: l) as Hne.
  { intros l Hx. apply (inj (app r)) in Hx. discriminate Hx. }
  rewrite Hf. split_and!.
  - exists xk. rewrite lookup_insert_ne; [done|]. intros Hx. apply (inj (app r)) in Hx. discriminate Hx.
  - intros l x. rewrite lookup_insert_ne by done. apply Hfiles.
  - exists locs. rewrite lookup_insert_eq. split_and!; [done..|]. intros l.
    rewrite lookup_insert_ne by done. rewrite Hlocs. by rewrite <-!app_assoc.
Qed.
End staging.
