(* ===== verification/XtaskBoot.v ===== *)
(** * From the workspace to the booted kernel

    The boot loader between the image the build tool makes and the kernel that starts from it:
    what its documentation promises of a configuration of the shape [limine_config] writes, and
    with it that the files below the workspace's [fs] directory, other than [.gitkeep] files,
    are the boot files of the kernel ([packaged_files_boot]). *)
From S2P Require Import Prelude RustStr Text Api Vfs Contract BareMetal Kernel Boot Host HostTree.
From S2P Require Import BuildHost Xtask XtaskDocs XtaskRun BuildTree XtaskBundle.

(** ** The boot loader *)
(** Text without a meaning of its own in the configuration. *)
Definition plain_char (b : byte) : bool :=
  is_ascii_alphanumeric b || bool_decide (b ∈ ("._-/:" : str)).
Definition plain_text (s : str) : Prop := s ≠ [] ∧ Forall (λ b, plain_char b = true) s.
#[export] Instance plain_text_dec s : Decision (plain_text s).
Proof. unfold plain_text. apply _. Defined.

(** A module of an entry: where it is, the string for it, and what is there. *)
Record LoaderModule := { ld_path : str; ld_string : str; ld_data : list byte }.

(** The text of a configuration with some options of the menu and one entry. *)
Definition option_line (key value : str) : str := key ++ ": " ++ value ++ [nl].
Definition limine_text (menu : list (str * str)) (title kernel : str) (modules : list LoaderModule)
    : str :=
  (menu ≫= λ o, option_line o.1 o.2) ++ [nl] ++ "/" ++ title ++ [nl]
  ++ option_line "protocol" "limine" ++ option_line "path" ("boot():" ++ kernel)
  ++ (modules ≫= λ m, option_line "module_path" ("boot():" ++ ld_path m)
                      ++ option_line "module_string" (ld_string m)).

(** Options that concern what the menu shows, and how long. *)
Definition menu_options : list str := ["timeout"; "quiet"; "serial"; "interface_branding"].

(** The loader, from the files of the volume it starts from to the modules it hands over.  Its
    documentation: options are lines [key: value]; a line with a slash in front begins an
    entry; without a timeout the first entry is started at once; [module_path] names a module,
    [boot()] being the volume, and [module_string] the string of the module before it. *)
Class LimineLoader := {
  limine_modules : (str → option (list byte)) → option (list BootModule);
  limine_reads volume menu title kernel image modules :
    Forall (λ o, o.1 ∈ menu_options ∧ plain_text o.2) menu → ("timeout", "0") ∈ menu →
    plain_text title → plain_text kernel →
    Forall (λ m, plain_text (ld_path m) ∧ plain_text (ld_string m)) modules →
    volume "/limine.conf" = Some (limine_text menu title kernel modules) →
    volume kernel = Some image →
    Forall (λ m, volume (ld_path m) = Some (ld_data m)) modules →
    limine_modules volume
    = Some ((λ m, {| bm_cmdline := ld_string m; bm_data := ld_data m |}) <$> modules) }.

(** ** The names of the files *)
(** A name the loader and the kernel both take as it is. *)
Definition plain_name (c : str) : Prop :=
  host_name c ∧ Forall (λ b, is_ascii_alphanumeric b || bool_decide (b ∈ ("._-" : str)) = true) c.
#[export] Instance plain_name_dec c : Decision (plain_name c).
Proof. unfold plain_name, host_name. apply _. Defined.

(** Where a file of the workspace may be for the kernel to accept it. *)
Definition boot_place (l : list str) : Prop :=
  Forall plain_name l ∧ head l ∈ (Some <$> (["sys"; "apps"; "user"] : list str)).
#[export] Instance boot_place_dec l : Decision (boot_place l).
Proof. unfold boot_place. apply _. Defined.

Lemma plain_not b c :
  plain_name c → is_ascii_alphanumeric b || bool_decide (b ∈ ("._-" : str)) = false → b ∉ c.
Proof. intros [_ Hp] Hb Hin. rewrite Forall_forall in Hp. apply Hp in Hin. congruence. Qed.
Lemma plain_component c : plain_name c → component c.
Proof.
  intros Hc. pose proof Hc as [(?&?&?&?&?) _]. split_and!; try done.
  by apply plain_not; [|by_eval].
Qed.
Lemma plain_components l : Forall plain_name l → Forall component l.
Proof. intros H. eapply Forall_impl; [done|]. apply plain_component. Qed.

Lemma join_chars (P : byte → Prop) l : P slash → Forall (Forall P) l → Forall P (join "/" l).
Proof.
  intros Hs. induction l as [|c l IH]; intros Hl; [by constructor|].
  apply Forall_cons in Hl as [Hc Hl]. destruct l as [|d l]; [done|].
  rewrite join_cons by done. rewrite !Forall_app. split_and!; [done|by constructor|by apply IH].
Qed.
Lemma plain_join l : Forall plain_name l → Forall (λ b, plain_char b = true) (join "/" l).
Proof.
  intros Hl. apply join_chars; [by_eval|]. eapply Forall_impl; [done|]. intros c [_ Hc].
  eapply Forall_impl; [done|]. intros b. unfold plain_char. cbn beta.
  rewrite !orb_true_iff, !bool_decide_eq_true. set_solver.
Qed.
Lemma slashes_plain l : Forall plain_name l → slashes (join "/" l) = join "/" l.
Proof.
  intros Hl%plain_join. unfold slashes. induction Hl as [|b s Hb _ IH]; [done|].
  rewrite fmap_cons, IH. case_bool_decide as He; [|done]. subst b. vm_compute in Hb. done.
Qed.
Lemma plain_path pre l :
  pre ≠ [] → Forall (λ b, plain_char b = true) pre → Forall plain_name l →
  plain_text (pre ++ join "/" l).
Proof.
  intros Hne Hp Hl. split; [by destruct pre|]. apply Forall_app. split; [done|by apply plain_join].
Qed.

(** A path below another. *)
Lemma under_prefix k l :
  Forall component k → Forall component l → k ≠ [] →
  under (path_of k) (path_of l) ↔ k `prefix_of` l.
Proof.
  intros Hk Hl Hne. split.
  - intros [Heq|[s Hs]]; [by apply path_of_inj in Heq as ->|]. apply (f_equal (split slash)) in Hs.
    rewrite split_app_sep, !split_path_of in Hs by done.
    destruct k as [|c k]; [done|]. destruct l as [|d l].
    + injection Hs as Hc. apply Forall_cons in Hk as [[? _] _]. by destruct c.
    + exists (split slash s). by injection Hs as -> ->.
  - intros [m ->]. destruct m as [|d m]; [left; by rewrite app_nil_r|]. right.
    exists (join "/" (d :: m)). unfold path_of. rewrite join_app by done. by rewrite app_assoc.
Qed.
Lemma under_root d l :
  Forall component l → d ∈ (["sys"; "apps"; "user"] : list str) →
  under ("/" ++ d) (path_of l) ↔ head l = Some d.
Proof.
  intros Hl Hd. assert (component d) as Hc.
  { repeat (apply elem_of_cons in Hd as [->|Hd]; [by_eval|]). by apply elem_of_nil in Hd. }
  change ("/" ++ d) with (path_of [d]). rewrite under_prefix; [|by apply Forall_singleton|done..].
  split; [by intros [m ->]|]. destruct l as [|c l]; [done|]. intros [= ->]. by exists l.
Qed.

Lemma boot_place_file l data : boot_place l → boot_file (path_of l, data).
Proof.
  intros [Hl%plain_components (d&Hd&Hin)%list_elem_of_fmap]. split; [by exists l|]. cbn [fst].
  rewrite <-(under_root d) in Hd by done.
  repeat (apply elem_of_cons in Hin as [->|Hin]; [tauto|]). by apply elem_of_nil in Hin.
Qed.

(** ** The configuration *)
Definition loader_module (data : list str → list byte) (l : list str) : LoaderModule :=
  {| ld_path := "/" ++ bundle_path l; ld_string := "afos-file:" ++ path_of l; ld_data := data l |}.
Definition afos_menu : list (str * str) :=
  [("timeout", "0"); ("quiet", "yes"); ("serial", "yes"); ("interface_branding", "AFOS")].

Lemma module_lines_text data l :
  Forall plain_name l →
  module_lines (bundle_path l)
  = option_line "module_path" ("boot():" ++ ld_path (loader_module data l))
    ++ option_line "module_string" (ld_string (loader_module data l)).
Proof.
  intros Hl. unfold module_lines, bundle_path, loader_module, path_of. cbn [ld_path ld_string].
  unfold bundle_path. rewrite slashes_plain by done.
  change ("fs/" ++ join "/" l) with ("fs" ++ "/" ++ join "/" l). rewrite strip_prefix_app.
  cbn [default]. unfold option_line. by rewrite <-!app_assoc.
Qed.

(** What [limine_config] writes is a configuration the loader documents. *)
Lemma limine_config_text data locs :
  Forall (Forall plain_name) locs →
  limine_config (bundle_path <$> locs)
  = limine_text afos_menu "AFOS" "/boot/afos.elf" (loader_module data <$> locs).
Proof.
  intros Hl. unfold limine_config, limine_text.
  assert ((bundle_path <$> locs) ≫= module_lines
    = (loader_module data <$> locs) ≫= λ m,
        option_line "module_path" ("boot():" ++ ld_path m) ++ option_line "module_string" (ld_string m))
    as ->.
  { induction Hl as [|l locs Hl _ IH]; [done|]. rewrite !fmap_cons, !bind_cons, IH.
    by rewrite (module_lines_text data). }
  generalize ((loader_module data <$> locs) ≫= λ m,
    option_line "module_path" ("boot():" ++ ld_path m) ++ option_line "module_string" (ld_string m)).
  intros rest. reflexivity.
Qed.

Lemma loader_modules_plain data locs :
  Forall (Forall plain_name) locs →
  Forall (λ m, plain_text (ld_path m) ∧ plain_text (ld_string m)) (loader_module data <$> locs).
Proof.
  intros Hl. apply Forall_fmap. eapply Forall_impl; [exact Hl|]. intros l Hp.
  unfold compose, loader_module, bundle_path, path_of. cbn [ld_path ld_string].
  rewrite slashes_plain by done. rewrite !app_assoc. split; apply plain_path; try done; by_eval.
Qed.

(** ** What the kernel is given *)
(** No file is at another's place or inside another: so it is with the files of a tree. *)
Definition no_nesting (locs : list (list str)) : Prop :=
  NoDup locs ∧ ∀ k l, k ∈ locs → l ∈ locs → k `prefix_of` l → k = l.

Lemma plain_path_inj locs k l :
  Forall boot_place locs → k ∈ locs → l ∈ locs → path_of k = path_of l → k = l.
Proof.
  rewrite Forall_forall. intros Hb Hk Hl.
  apply path_of_inj; apply plain_components; [apply (Hb k)|apply (Hb l)]; done.
Qed.

Lemma mutable_paths (data : list str → list byte) locs mutable :
  Forall boot_place locs → no_nesting locs →
  absolute <$> mutable = filter (λ f, ¬ under "/sys" f.1) ((λ l, (path_of l, data l)) <$> locs) →
  NoDup (if_path <$> mutable) ∧ not_nested (if_path <$> mutable).
Proof.
  intros Hb [Hnd Hpre] Hm.
  assert (∀ i, i ∈ mutable → ∃ l, l ∈ locs ∧ "/" ++ if_path i = path_of l) as Hloc.
  { intros i Hi. apply (list_elem_of_fmap_2 absolute) in Hi. rewrite Hm in Hi.
    apply list_elem_of_filter in Hi as [_ (l&Hx&Hl)%list_elem_of_fmap]. exists l.
    split; [done|]. exact (f_equal fst Hx). }
  split.
  - apply (NoDup_fmap_1 (λ p, "/" ++ p)). rewrite <-list_fmap_compose.
    apply (sublist_NoDup _ (path_of <$> locs)).
    + apply NoDup_fmap_2_strong; [|done]. intros k l. by apply plain_path_inj.
    + change ((λ p, "/" ++ p) ∘ if_path) with (fst ∘ absolute). rewrite list_fmap_compose, Hm.
      etrans; [apply fmap_sublist, sublist_filter|]. by rewrite <-list_fmap_compose.
  - intros f g (i&->&Hi)%list_elem_of_fmap (j&->&Hj)%list_elem_of_fmap Hu.
    destruct (Hloc i Hi) as (k&Hk&Hik), (Hloc j Hj) as (l&Hl&Hjl).
    assert (k = l) as ->; [|apply (inj (app "/")); congruence]. apply Hpre; [done..|].
    rewrite Forall_forall in Hb. destruct (Hb k Hk) as [Hck Hhk], (Hb l Hl) as [Hcl _].
    apply under_prefix; [by apply plain_components..| |].
    { intros ->. by apply list_elem_of_fmap in Hhk as (d&Hd&_). }
    rewrite <-Hik, <-Hjl.
    destruct Hu as [->|[s ->]]; [by left|right]. exists s. by rewrite app_assoc.
Qed.

Lemma boot_files_of (data : list str → list byte) (locs : list (list str)) :
  Forall boot_place locs → no_nesting locs → (∃ l, "sys" :: l ∈ locs) →
  ∃ bf, load_boot_files ((λ l, {| bm_cmdline := "afos-file:" ++ path_of l; bm_data := data l |}) <$> locs)
        = Some bf
    ∧ (∀ f, f ∈ bf_system bf
         ↔ ∃ l, "sys" :: l ∈ locs ∧ f = embedded (path_of ("sys" :: l), data ("sys" :: l)))
    ∧ (∀ f, f ∈ absolute <$> bf_mutable bf
         ↔ ∃ l, l ∈ locs ∧ head l ≠ Some "sys" ∧ f = (path_of l, data l))
    ∧ NoDup (if_path <$> bf_mutable bf) ∧ not_nested (if_path <$> bf_mutable bf).
Proof.
  intros Hl Hnest Hsys. set (ms := _ <$> locs). set (fs := (λ l, (path_of l, data l)) <$> locs).
  assert (omap module_file ms = fs) as Hfs.
  { unfold ms, fs. clear. induction locs as [|l locs IH]; [done|]. rewrite !fmap_cons. cbn [omap list_omap].
    unfold module_file at 1. cbn [bm_cmdline bm_data]. rewrite strip_prefix_app.
    cbn [mbind option_bind]. by rewrite IH. }
  assert (∀ l, l ∈ locs → under "/sys" (path_of l) ↔ head l = Some "sys") as Hu.
  { intros l Hin. rewrite Forall_forall in Hl. destruct (Hl l Hin) as [Hp%plain_components _].
    apply (under_root "sys"); [done|by_eval]. }
  pose proof (boot_files_exact ms) as Hx. rewrite Hfs in Hx. destruct (load_boot_files ms) as [bf|].
  2:{ exfalso. apply Hx. split.
      - apply Forall_fmap. eapply Forall_impl; [exact Hl|]. intros l. apply boot_place_file.
      - destruct Hsys as [l Hin]. intros Hnil.
        assert ((path_of ("sys" :: l), data ("sys" :: l)) ∈ (filter (λ f, under "/sys" f.1) fs)) as Hf.
        { apply list_elem_of_filter. split; [by apply Hu|].
          by apply (list_elem_of_fmap_2 (λ l, (path_of l, data l))). }
        rewrite Hnil in Hf. by apply elem_of_nil in Hf. }
  destruct Hx as (_&_&Hs&Hm&_). exists bf. split; [done|].
  split; [intros f|split; [intros f|by apply (mutable_paths data locs)]].
  - rewrite Hs, list_elem_of_fmap. setoid_rewrite list_elem_of_filter. unfold fs.
    setoid_rewrite list_elem_of_fmap. split.
    + intros (y&->&Hy&l&->&Hin). pose proof (proj1 (Hu l Hin) Hy) as Hh.
      destruct l as [|d l]; [done|]. injection Hh as ->. by exists l.
    + intros (l&Hin&->). eexists. split; [done|]. split; [by apply Hu|]. by exists ("sys" :: l).
  - rewrite Hm, list_elem_of_filter. unfold fs. rewrite list_elem_of_fmap. split.
    + intros [Hy (l&->&Hin)]. exists l. split_and!; [done| |done]. by rewrite <-Hu.
    + intros (l&Hin&Hh&->). split; [by cbn [fst]; rewrite Hu|by exists l].
Qed.

Section boot.
Context {E Stream C : Type} `{HE : !HostEnv E Stream} `{TH : !ToolHost E Stream C} `{LL : !LimineLoader}.
Implicit Types h : Host E.
Context (Hstat : ∀ e, (host_fault SysStat e).1 = None).
Context (r : location) (Hr : Forall host_name r) (bp : BuildProcess) (arch : BareMetalArch).
Context (Hroot : path_parent (bp_manifest_dir bp) = Some (path_of r)).

(** The packaging of the files, as [package] does it. *)
Definition package_files : M (Host E) str () :=
  package_tree bp arch (path_of r) (path_of (r ++ package_place arch));;
  stage_image (path_of (r ++ package_place arch)) (path_of (r ++ staging_place arch)).

(** Every packaging that succeeds has gone through it. *)
Lemma package_stages `{SH : !Sha256} h h' :
  package bp arch h = (Ok (), h') → ∃ h1 h2, package_files h1 = (Ok (), h2).
Proof.
  pose proof (label_name arch) as Hlabel. pose proof (iso_name arch) as Hiso. intros H.
  unfold package, workspace_root in H. rewrite Hroot in H.
  apply bind_ok_inv in H as (?&?&_&H). apply bind_ok_inv in H as (limine&?&_&H).
  apply bind_ok_inv in H as (?&h1&_&H). rewrite bind_lift_ok in H.
  rewrite !join_twice in H by names.
  apply bind_ok_inv in H as ([]&h2&H2&H). apply bind_ok_inv in H as ([]&h3&H3&_).
  exists h1, h3. unfold package_files, package_place, staging_place. rewrite bind_run, H2.
  by rewrite join_twice in H3 by names.
Qed.

(** A volume that holds the staged tree. *)
Definition images h (volume : str → option (list byte)) : Prop :=
  ∀ l data, h_fs h !! (r ++ staging_place arch ++ l) = Some (IFile data) →
    volume (path_of l) = Some data.

Lemma package_files_at h h' :
  ready r h → h_fs h !! (r ++ ["fs"]) = Some IDir → package_files h = (Ok (), h') →
  (∃ x, h_fs h' !! (r ++ staging_place arch ++ ["boot"; "afos.elf"]) = Some (IFile x))
  ∧ ∃ locs,
      h_fs h' !! (r ++ staging_place arch ++ ["limine.conf"])
        = Some (IFile (limine_config (bundle_path <$> locs)))
      ∧ NoDup locs ∧ (∀ l, l ∈ locs ↔ ∃ x, source_file r h l x)
      ∧ ∀ l x, source_file r h l x → h_fs h' !! (r ++ staging_place arch ++ "fs" :: l) = Some (IFile x).
Proof.
  intros Hh Hfs H. apply bind_ok_inv in H as ([]&h1&H1&H).
  apply (package_tree_at Hstat) in H1 as (Hh1&Hb1&Hf1&Hk1&Hs1); [|done..].
  apply (stage_at Hstat) in H as (Hk&Hfiles&locs&Hconf&Hnd&Hlocs); [|done..].
  assert (∀ l x, h_fs h' !! (r ++ staging_place arch ++ "fs" :: l) = Some (IFile x)
    ↔ source_file r h l x) as Hx.
  { intros l x. rewrite Hfiles, Hs1. unfold source_file. tauto. }
  split; [done|]. exists locs. split_and!; [done..| |by intros l x ?%Hx].
  intros l. rewrite Hlocs. setoid_rewrite Hx. split; [by intros [_ ?]|].
  intros [x Hl]. split; [apply Hl|by exists x].
Qed.

(** The files of the workspace are the leaves of a tree. *)
Lemma source_no_nesting h locs :
  ready r h → NoDup locs → (∀ l, l ∈ locs ↔ ∃ x, source_file r h l x) → no_nesting locs.
Proof.
  intros [Hwf _] Hnd Hlocs. split; [done|].
  intros k l [x [_ Hk]]%Hlocs [y [_ Hl]]%Hlocs [m ->]. destruct m as [|c m]; [by rewrite app_nil_r|].
  exfalso. rewrite (no_children_below _ (r ++ "fs" :: k)) in Hl; [done|done|..].
  - apply not_dir_no_children; [done|]. by rewrite Hk.
  - exists (c :: m). by rewrite <-!app_assoc.
  - intros Heq. apply (f_equal length) in Heq. rewrite !length_app in Heq. simpl in Heq.
    rewrite length_app in Heq. simpl in Heq. lia.
Qed.

(** A loader that finds the configuration and the files hands over the files. *)
Lemma loader_gives (data : list str → list byte) locs image volume :
  Forall (Forall plain_name) locs → [] ∉ locs →
  volume (path_of ["limine.conf"]) = Some (limine_config (bundle_path <$> locs)) →
  volume (path_of ["boot"; "afos.elf"]) = Some image →
  (∀ l, l ∈ locs → volume (path_of ("fs" :: l)) = Some (data l)) →
  limine_modules volume
  = Some ((λ l, {| bm_cmdline := "afos-file:" ++ path_of l; bm_data := data l |}) <$> locs).
Proof.
  intros Hplain Hne Hconf Hk Hfiles.
  pose proof (limine_reads volume afos_menu "AFOS" "/boot/afos.elf" image (loader_module data <$> locs))
    as Hmods. rewrite <-list_fmap_compose in Hmods. apply Hmods.
  1-4: by_eval.
  - by apply loader_modules_plain.
  - by rewrite <-limine_config_text.
  - exact Hk.
  - apply Forall_fmap, Forall_forall. intros l Hl. rewrite Forall_forall in Hplain.
    unfold compose, loader_module, bundle_path. cbn [ld_path ld_data].
    rewrite slashes_plain by auto. rewrite <-(Hfiles l Hl). unfold path_of.
    rewrite join_cons; [done|]. by intros ->.
Qed.

(** C36. From the workspace to the kernel: when packaging has staged an image, a loader that
    starts from a volume with the staged files hands the kernel modules from which it loads
    exactly the files of the workspace's [fs] directory, with their contents: those below
    [fs/sys] as system files, the others as initial files of the persistent mounts, none of
    them twice or inside another one.  The files of [fs] are the regular files, except those
    called [.gitkeep], which packaging skips.  Names are letters, digits, dots, dashes and
    underscores, below [sys], [apps] or [user], there is a system file, the workspace has no
    symbolic links, and the host never refuses [stat] (a refused [exists] would leave the files
    of an earlier package in place). *)
Theorem packaged_files_boot h h' volume :
  ready r h → h_fs h !! (r ++ ["fs"]) = Some IDir →
  (∀ l x, source_file r h l x → boot_place l) →
  (∃ l x, source_file r h ("sys" :: l) x) →
  package_files h = (Ok (), h') → images h' volume →
  ∃ modules bf, limine_modules volume = Some modules ∧ load_boot_files modules = Some bf
    ∧ (∀ path x, {| ef_path := path; ef_data := x |} ∈ bf_system bf
         ↔ ∃ l, path = path_of ("sys" :: l) ∧ source_file r h ("sys" :: l) x)
    ∧ (∀ path x, (path, x) ∈ absolute <$> bf_mutable bf
         ↔ ∃ l, path = path_of l ∧ head l ≠ Some "sys" ∧ source_file r h l x)
    ∧ NoDup (if_path <$> bf_mutable bf) ∧ not_nested (if_path <$> bf_mutable bf).
Proof.
  intros Hh Hfs Hplace [ls [xs Hsys]] H Hvol.
  apply package_files_at in H as ([xk Hk]&locs&Hconf&Hnd&Hlocs&Hfiles); [|done..].
  set (data l := match h_fs h !! (r ++ "fs" :: l) with Some (IFile x) => x | _ => [] end).
  assert (∀ l x, source_file r h l x ↔ l ∈ locs ∧ x = data l) as Hdata.
  { intros l x. unfold data. split.
    - intros Hl. split; [apply Hlocs; by exists x|]. destruct Hl as [_ ->]. done.
    - intros [[y Hl]%Hlocs ->]. pose proof Hl as [_ Hy]. by rewrite Hy. }
  assert (Forall boot_place locs) as Hbp.
  { apply Forall_forall. intros l [x Hl]%Hlocs. by apply (Hplace l x). }
  assert (Forall (Forall plain_name) locs) as Hplain.
  { eapply Forall_impl; [exact Hbp|]. by intros l [? _]. }
  assert (limine_modules volume
    = Some ((λ l, {| bm_cmdline := "afos-file:" ++ path_of l; bm_data := data l |}) <$> locs)) as Hmods.
  { apply (loader_gives data locs xk); [done|..].
    - intros [x [_ Hx]]%Hlocs. by rewrite Hfs in Hx.
    - by apply (Hvol ["limine.conf"]).
    - by apply (Hvol ["boot"; "afos.elf"]).
    - intros l Hl. apply (Hvol ("fs" :: l)), Hfiles. by apply Hdata. }
  destruct (boot_files_of data locs) as (bf&Hbf&Hs&Hm&Hn);
    [done|by apply (source_no_nesting h)|apply Hdata in Hsys as [? _]; by exists ls|].
  eexists _, bf. split; [exact Hmods|]. split; [exact Hbf|].
  split; [intros path x|split; [intros path x|exact Hn]].
  - rewrite Hs. setoid_rewrite Hdata. split.
    + intros (l&Hl&[= -> ->]). by exists l.
    + intros (l&->&Hl&->). by exists l.
  - rewrite Hm. setoid_rewrite Hdata. split.
    + intros (l&Hl&Hh'&[= -> ->]). by exists l.
    + intros (l&->&Hh'&Hl&->). by exists l.
Qed.
End boot.
