(* ===== verification/XtaskSim.v ===== *)
(** * The build tool on a concrete host

    A host with tools, a child process, a digest and a boot loader that run: the inputs on which
    the theorems about the build tool are instantiated, and what a failed call, a rebuild of the
    desktop package or an odd file name does. *)
From S2P Require Import Prelude RustStr Text Api Vfs BareMetal Kernel Host HostTree DesktopSim BuildHost.
From S2P Require Import Xtask XtaskDocs XtaskRun BuildTree XtaskBundle XtaskBoot.

(** ** The host *)
(** The child shows one line of its script in its log whenever the tool sleeps. *)
Record BuildSim := mk_build_sim {
  bs_time : Z; bs_out : str; bs_child : option (location * list str) }.

Definition build_env (faults : SystemCall → option IoError) : HostEnv BuildSim () := {|
  host_fault call e := (faults call, e);
  host_write_fault _ e := (None, e);
  dir_len _ := 4096;
  target_os := "linux";
  target_arch := "x86_64";
  print text e := (true, mk_build_sim (bs_time e) (bs_out e ++ text) (bs_child e));
  stdout_flush := mret ();
  stdin_read_line := mret [];
  prompt_password _ := throw io_not_found;
  getrandom_fill buf := mret (replicate (length buf) x07);
  instant_now e := (bs_time e, e);
  tcp_connect _ _ := throw io_not_found;
  tcp_write stream data := mret (len data, stream);
  tcp_read stream out := mret (0, out, stream) |}.
#[export] Instance BuildSim_Env : HostEnv BuildSim () := build_env no_faults.
#[export] Program Instance BuildSim_Quiet : QuietHost BuildSim () := {| quiet _ := True |}.
Solve All Obligations with done.
Next Obligation. intros buf e b e' [= <- <-]. by rewrite length_replicate. Qed.

Definition show_line (h : Host BuildSim) : Host BuildSim :=
  match bs_child (h_env h) with
  | Some (log, line :: rest) =>
      let text := match h_fs h !! log with Some (IFile text) => text | _ => [] end in
      let e := mk_build_sim (bs_time (h_env h)) (bs_out (h_env h)) (Some (log, rest)) in
      mk_host (<[log := IFile (text ++ line)]> (h_fs h)) (h_cwd h) e
  | _ => h
  end.
Definition advance (d : Z) (h : Host BuildSim) : Host BuildSim :=
  set_env (mk_build_sim (bs_time (h_env h) + d) (bs_out (h_env h)) (bs_child (h_env h))) h.
Definition end_child (h : Host BuildSim) : Host BuildSim :=
  set_env (mk_build_sim (bs_time (h_env h)) (bs_out (h_env h)) None) h.

Definition success : ExitStatus := mk_status true "exit status: 0".
Definition killed : ExitStatus := mk_status false "signal: 9 (SIGKILL)".

(** [run] is what a program does to the files; a spawned machine follows [script]. *)
Definition sim_tools `{HE : !HostEnv BuildSim ()} (run : Command → M (Host BuildSim) IoError ExitStatus)
    (script : list str) : ToolHost BuildSim () location := {|
  cmd_status := run;
  cmd_spawn _ log h :=
    (Ok log, set_env (mk_build_sim (bs_time (h_env h)) (bs_out (h_env h)) (Some (log, script))) h);
  child_stdin _ := true;
  child_write _ _ := mret ();
  child_try_wait _ h := (Ok match bs_child (h_env h) with Some _ => None | None => Some killed end, h);
  child_kill _ h := (Ok (), end_child h);
  child_wait _ h := (Ok killed, end_child h);
  thread_sleep d h := show_line (advance d h);
  read_size n e := (inr 3%nat, e);
  eprint text e := (true, mk_build_sim (bs_time e) (bs_out e ++ text) (bs_child e)) |}.

(** Programs that succeed and leave the files alone. *)
Definition idle (c : Command) : M (Host BuildSim) IoError ExitStatus := mret success.

#[local] Instance idle_tools : ToolHost BuildSim () location := sim_tools idle [].

Definition build_host (fs : FileSystem) : Host BuildSim := mk_host fs [] (mk_build_sim 0 [] None).
Definition sim_build (l : list str) : BuildProcess := {|
  bp_args := l; bp_var _ := None; bp_manifest_dir := "/work/xtask"; bp_exe_suffix := "" |}.

(** ** The documentation *)
Definition page_text (title link body : str) : str :=
  "---" ++ [nl] ++ "title: " ++ title ++ [nl] ++ "permalink: " ++ link ++ [nl] ++ "---" ++ [nl] ++ body.
Definition doc_files : FileSystem := list_to_map
  [([], IDir); (["work"], IDir); (["work"; "docs"], IDir);
   (["work"; "docs"; "index.md"],
    IFile (page_text "AFOS" "/" (nav_include ++ " {{ '/apps/' | relative_url }}")));
   (["work"; "docs"; "404.md"], IFile (page_text "Missing" "/404.html" "{{ '/' | relative_url }}"));
   (["work"; "docs"; "APPS.md"], IFile (page_text "Apps" "/apps/" nav_include));
   (["work"; "docs"; "style.css"], IFile "body {}")].

Lemma docs_check_exact_witness :
  (check_docs (sim_build []) (build_host doc_files)).1 = Ok ()
  ∧ site_ok (build_host doc_files) ["work"; "docs"].
Proof.
  assert ((check_docs (sim_build []) (build_host doc_files)).1 = Ok ()) as Hr by by_vm.
  split; [exact Hr|].
  destruct (docs_check_exact (sim_build []) ["work"] (build_host doc_files))
    as (_&_&Hok&_); [by_eval|by_eval|by_vm|]. exact (Hok Hr).
Defined.

(** A link to a page that is not there is found. *)
Example dead_link_found :
  let fs := <[["work"; "docs"; "APPS.md"] :=
    IFile (page_text "Apps" "/apps/" (nav_include ++ "{{ '/gone/' | relative_url }}"))]> doc_files in
  (check_docs (sim_build []) (build_host fs)).1
  = Err "/work/docs/APPS.md links to undocumented permalink /gone/".
Proof. intros fs. by_vm. Qed.

(** ** The boot loader's archive *)
(** A digest: the pinned one for the genuine archive only. *)
Definition pinned_digest : list byte :=
  (λ i, z2b (0x205f98218bb0d5a8ccabf5f903dba9d935f7b0aa66f4262a99b0f5a8e668ec6d / 256 ^ Z.of_nat (31 - i)))
    <$> seq 0 32.
#[local] Instance sim_sha : Sha256 := {|
  Hasher := list byte;
  sha_new := [];
  sha_update s data := s ++ data;
  sha_finalize s := if decide (s = "genuine archive") then pinned_digest else replicate 32 x00 |}.
#[local] Instance sim_sha_streams : Sha256Streams.
Proof. split; [apply app_nil_r|]. intros s a b. symmetry. apply app_assoc. Qed.

(** [curl] writes what the network gives, [tar] the two loaders. *)
Definition fetching (download : list byte) (c : Command) : M (Host BuildSim) IoError ExitStatus :=
  match cmd_program c, cmd_args c with
  | program, [_; _; _; _; archive; _] =>
      if bool_decide (program = "curl") then fs_write archive download;; mret success else mret success
  | program, [_; _; _; cache; _] =>
      if bool_decide (program = "tar") then
        fs_write (path_join cache "BOOTX64.EFI") "x";;
        fs_write (path_join cache "BOOTAA64.EFI") "a";;
        mret success
      else mret success
  | _, _ => mret success
  end.
Lemma fs_write_wf p data :
  preserves (λ h : Host BuildSim, fs_wf (h_fs h)) (fs_write p data).
Proof.
  eapply preserves_edits_at; [apply fs_write_edits|done|..].
  - intros h h' Hwf [Hf _]. by rewrite Hf.
  - intros h h' q Hwf _ He _. by apply (edits_wf _ _ _ He).
Qed.
Lemma fetching_wf download c : preserves (λ h, fs_wf (h_fs h)) (fetching download c).
Proof.
  unfold fetching. destruct (cmd_args c) as [|? [|? [|? [|? [|? [|? [|]]]]]]]; try apply preserves_ret;
    case_bool_decide; try apply preserves_ret;
    repeat (apply preserves_bind; [apply fs_write_wf|intros _]); apply preserves_ret.
Qed.

Definition work_files : FileSystem := list_to_map
  [([], IDir); (["work"], IDir); (["work"; "target"], IDir)].
Definition limine_dir : location := ["work"; "target"; "limine-12.3.3"].

Lemma limine_is_pinned_witness :
  let TH := sim_tools (fetching "genuine archive") [] in
  let '(r, h') := ensure_limine (TH := TH) (sim_build []) (build_host work_files) in
  r = Ok (path_of limine_dir) ∧ h_fs h' !! (limine_dir ++ ["BOOTX64.EFI"]) = Some (IFile "x")
  ∧ ∃ h1 data r2 h2, contents_at h1 (limine_archive "/work") data
      ∧ hex_string (sha256 data) = LIMINE_SHA256
      ∧ cmd_status (ToolHost := TH) (tar_command (limine_archive "/work") (limine_cache "/work")) h1
        = (r2, h2)
      ∧ same_files h2 h' ∧ loaders_at h' (limine_cache "/work").
Proof.
  intros TH. set (run := ensure_limine (TH := TH) (sim_build []) (build_host work_files)).
  assert (run.1 = Ok (path_of limine_dir)) as Hr by by_vm.
  assert (h_fs run.2 !! (limine_dir ++ ["BOOTX64.EFI"]) = Some (IFile "x")) as Hx by by_vm.
  destruct run as [r h'] eqn:H. cbn [fst snd] in Hr, Hx.
  split; [done|]. split; [done|].
  destruct (limine_is_pinned (TH := TH) (sim_build []) "/work" (build_host work_files) r h')
    as [[_ [[Hf _] _]]|[[Hr' _]|Hp]]; [apply (fetching_wf "genuine archive")|by_eval|by_eval|exact H|..].
  - exfalso. rewrite Hf in Hx. vm_compute in Hx. discriminate Hx.
  - exfalso. rewrite Hr in Hr'. discriminate Hr'.
  - destruct Hp as (h1&data&r2&h2&Hp1&Hp2&Hp3&Hp4&Hp5). exists h1, data, r2, h2.
    rewrite Hr in Hp5. destruct (Hp5 eq_refl) as [_ Hloaders].
    exact (conj Hp1 (conj Hp2 (conj Hp3 (conj Hp4 Hloaders)))).
Defined.

(** Another archive is refused, and not unpacked. *)
Example forged_archive_refused :
  let run := ensure_limine (TH := sim_tools (fetching "forged") []) (sim_build [])
               (build_host work_files) in
  is_ok run.1 = false ∧ h_fs run.2 !! (limine_dir ++ ["BOOTX64.EFI"]) = None.
Proof. intros run. split; by_vm. Qed.

(** ** The data disk *)
Definition disk_files : FileSystem := list_to_map
  [([], IDir); (["work"], IDir); (["work"; "dist"], IDir); (["work"; "dist"; "x86_64"], IDir);
   (["work"; "dist"; "x86_64"; "afos-data.img"], IFile "saved"); (["work"; "fs"], IDir)].

Lemma no_links_in (fs : FileSystem) :
  bool_decide (map_Forall (λ (_ : location) n, match n with ILink _ => false | _ => true end = true) fs)
  = true → ∀ k t, fs !! k ≠ Some (ILink t).
Proof. intros Hall%bool_decide_eq_true k t Hk. by specialize (Hall k _ Hk). Qed.

Lemma package_keeps_disk_witness :
  let h := build_host disk_files in
  h_fs (package (sim_build []) X86_64 h).2 !! ["work"; "dist"; "x86_64"; "afos-data.img"]
  = Some (IFile "saved").
Proof.
  intros h. apply (ds_disk ["work"] X86_64 "saved").
  apply package_keeps_disk; [|done|by_eval|].
  - intros c h0 Hh0. exact Hh0.
  - split; [by_eval| |by_vm]. intros k t _. apply no_links_in. by_vm.
Defined.

(** When the host fails to say what is at the path of the disk, the disk is taken for missing
    and emptied. *)
Definition io_eio : IoError := mk_io_error KOther "Input/output error (os error 5)".
Definition stat_fails (call : SystemCall) : option IoError :=
  match call with SysStat | SysTruncate => Some io_eio | _ => None end.
Lemma failed_stat_empties_disk :
  let run := ensure_data_disk (HE := build_env stat_fails) "/work/dist/x86_64/afos-data.img"
               (build_host disk_files) in
  run.1 = Err (io_text io_eio)
  ∧ h_fs run.2 !! ["work"; "dist"; "x86_64"; "afos-data.img"] = Some (IFile [])
  ∧ disk_files !! ["work"; "dist"; "x86_64"; "afos-data.img"] = Some (IFile "saved").
Proof. intros run. split_and!; by_vm. Qed.

(** Packaging the desktop again removes what the packaged system has saved beside itself. *)
Definition desktop_files : FileSystem := list_to_map
  [([], IDir); (["work"], IDir); (["work"; "fs"], IDir); (["work"; "fs"; "sys"], IDir);
   (["work"; "fs"; "sys"; "README.txt"], IFile "AFOS"); (["work"; "target"], IDir);
   (["work"; "target"; "release"], IDir); (["work"; "target"; "release"; "afos"], IFile "elf")].
Definition saved_place : location := ["work"; "dist"; "desktop"; "fs"; "user"; "saves"; "game"].
Lemma desktop_package_forgets :
  let first := package_desktop (sim_build []) (build_host desktop_files) in
  let saved := fs_write (path_of saved_place) "level 9" first.2 in
  let again := package_desktop (sim_build []) saved.2 in
  first.1 = Ok () ∧ saved.1 = Ok () ∧ again.1 = Ok ()
  ∧ h_fs saved.2 !! saved_place = Some (IFile "level 9") ∧ h_fs again.2 !! saved_place = None
  ∧ h_fs again.2 !! ["work"; "dist"; "desktop"; "fs"; "sys"; "README.txt"] = Some (IFile "AFOS").
Proof. intros first saved again. split_and!; by_vm. Qed.

(** ** The smoke test *)
#[local] Program Instance BuildSim_Steady : SteadyTools BuildSim () location := {|
  clock := bs_time; child_running _ h := is_Some (bs_child (h_env h)) |}.
Solve All Obligations with done.
Next Obligation.
  intros d h Hd. cbn [thread_sleep idle_tools sim_tools]. unfold show_line, advance. cbn.
  destruct (bs_child (h_env h)) as [[log [|line rest]]|]; done.
Qed.
Next Obligation. intros child h [x Hx]. discriminate Hx. Qed.

Definition smoke_log : location := ["work"; "target"; "smoke.log"].
Definition hello_line : str := "Hello from a portable AFOS Rhai application!".
Definition smoke_host (script : list str) : Host BuildSim :=
  mk_host (<[smoke_log := IFile []]> work_files) [] (mk_build_sim 0 [] (Some (smoke_log, script))).
Definition smoke_test (script : list str) : res str () * Host BuildSim :=
  smoke_child smoke_log (path_of smoke_log) ("hello" ++ [nl]) [hello_line] (smoke_host script).

Lemma smoke_child_ends_witness :
  let '(r, h') := smoke_test ["AFOS:/us"; "er$ "; "hello" ++ [nl]; hello_line] in
  r = Ok () ∧ ¬ child_running smoke_log h'
  ∧ ∃ h1 : Host BuildSim, shows h1 (path_of smoke_log) ["AFOS:/user$ "].
Proof.
  set (run := smoke_test ["AFOS:/us"; "er$ "; "hello" ++ [nl]; hello_line]).
  assert (run.1 = Ok ()) as Hr by by_vm. destruct run as [r h'] eqn:H. cbn [fst] in Hr.
  split; [done|]. destruct (smoke_child_ends _ _ _ _ _ _ _ H) as (_&Hn&Hok). split; [done|].
  destruct (Hok Hr) as (h1&_&_&Hs&_). by exists h1.
Defined.

(** A machine that never shows its prompt is given up after a minute, and killed. *)
Example silent_machine_killed :
  let run := smoke_test ["Limine"] in
  run.1 = Err ("AFOS did not reach its shell within 60 seconds:" ++ [nl] ++ "Limine")
  ∧ bs_time (h_env run.2) = from_secs 60 ∧ bs_child (h_env run.2) = None.
Proof. intros run. split_and!; by_vm. Qed.

(** ** A boot loader *)
(** The lines after the title of the first entry. *)
Fixpoint first_entry (ls : list str) : list str :=
  match ls with
  | [] => []
  | l :: ls => if starts_with "/" l then ls else first_entry ls
  end.
Fixpoint entry_modules (volume : str → option (list byte)) (ls : list str) : option (list BootModule) :=
  match ls with
  | path :: ((string :: rest) as tail) =>
      match strip_prefix "module_path: boot():" path, strip_prefix "module_string: " string with
      | Some path, Some string =>
          data ← volume path;
          modules ← entry_modules volume rest;
          Some ({| bm_cmdline := string; bm_data := data |} :: modules)
      | _, _ => entry_modules volume tail
      end
  | _ => Some []
  end.

Definition one_line (s : str) : Prop := nl ∉ s ∧ cr ∉ s.
Lemma plain_one_line s : plain_text s → one_line s.
Proof.
  intros [_ Hs]. rewrite Forall_forall in Hs. split; intros Hin%Hs; vm_compute in Hin; done.
Qed.
Lemma option_one_line key value :
  one_line key → one_line value → one_line (key ++ ": " ++ value).
Proof. unfold one_line. intros [??] [??]. rewrite !not_elem_of_app. split_and!; try done; by_eval. Qed.
Lemma lines_option key value rest :
  one_line key → one_line value →
  lines (option_line key value ++ rest) = (key ++ ": " ++ value) :: lines rest.
Proof.
  intros Hk Hv. destruct (option_one_line _ _ Hk Hv) as [Hn Hc]. unfold option_line.
  rewrite <-(lines_line _ rest Hn Hc). by rewrite <-!app_assoc.
Qed.
Lemma menu_one_line key : key ∈ menu_options → one_line key ∧ starts_with "/" (key ++ ": ") = false.
Proof.
  intros Hk. unfold one_line.
  repeat (apply elem_of_cons in Hk as [->|Hk]; [split_and!; by_eval|]). by apply elem_of_nil in Hk.
Qed.
Lemma starts_with_app_l s t :
  starts_with "/" s = false → s ≠ [] → starts_with "/" (s ++ t) = false.
Proof.
  intros Hs Hne. destruct s as [|b s]; [done|]. unfold starts_with in *.
  apply bool_decide_eq_false. apply bool_decide_eq_false in Hs. intros [u Hu]. apply Hs.
  exists s. cbn in Hu. by injection Hu as ->.
Qed.

Lemma first_entry_menu menu title rest :
  Forall (λ o, o.1 ∈ menu_options ∧ plain_text o.2) menu → plain_text title →
  first_entry (lines ((menu ≫= λ o, option_line o.1 o.2) ++ [nl] ++ "/" ++ title ++ [nl] ++ rest))
  = lines rest.
Proof.
  intros Hm Ht. induction Hm as [|[k v] menu [Hk Hv] _ IH].
  - destruct (plain_one_line _ Ht) as [Hn Hc].
    change (([] : list (str * str)) ≫= _) with ([] : str). rewrite app_nil_l.
    change ([nl] ++ ?s) with ([] ++ nl :: s). rewrite lines_line by apply not_elem_of_nil.
    change (first_entry (?l :: ?ls)) with (if starts_with "/" l then ls else first_entry ls).
    change ("/" ++ title ++ [nl] ++ rest) with (("/" ++ title) ++ nl :: rest).
    rewrite lines_line; [done|..]; rewrite not_elem_of_app; (split; [by_eval|done]).
  - rewrite bind_cons, <-app_assoc. cbn [fst snd] in Hk, Hv |- *.
    destruct (menu_one_line _ Hk) as [Hl Hs]. rewrite lines_option by (done || by apply plain_one_line).
    cbn [first_entry]. rewrite app_assoc, (starts_with_app_l (k ++ ": ") v); [done|done|by destruct k].
Qed.
Lemma entry_modules_skip volume l ls :
  strip_prefix "module_path: boot():" l = None → entry_modules volume (l :: ls) = entry_modules volume ls.
Proof. intros Hl. destruct ls; [done|]. cbn [entry_modules]. by rewrite Hl. Qed.
Lemma entry_modules_text volume modules :
  Forall (λ m, plain_text (ld_path m) ∧ plain_text (ld_string m)) modules →
  Forall (λ m, volume (ld_path m) = Some (ld_data m)) modules →
  entry_modules volume (lines (modules ≫= λ m, option_line "module_path" ("boot():" ++ ld_path m)
                                         ++ option_line "module_string" (ld_string m)))
  = Some ((λ m, {| bm_cmdline := ld_string m; bm_data := ld_data m |}) <$> modules).
Proof.
  intros Hp. induction Hp as [|m modules [Hpath Hstring] _ IH]; intros Hv; [done|].
  apply Forall_cons in Hv as [Hm Hv]. rewrite bind_cons, <-app_assoc.
  pose proof (plain_one_line _ Hpath) as Hpl. pose proof (plain_one_line _ Hstring) as Hsl.
  rewrite lines_option; [|by_eval|].
  2:{ destruct Hpl. split; rewrite not_elem_of_app; (split; [by_eval|done]). }
  rewrite lines_option; [|by_eval|done].
  change ("module_path" ++ ": " ++ "boot():" ++ ld_path m) with ("module_path: boot():" ++ ld_path m).
  change ("module_string" ++ ": " ++ ld_string m) with ("module_string: " ++ ld_string m).
  cbn [entry_modules]. rewrite !strip_prefix_app. rewrite Hm. cbn [mbind option_bind].
  rewrite IH by done. done.
Qed.

#[local] Program Instance sim_limine : LimineLoader := {|
  limine_modules volume :=
    text ← volume "/limine.conf"; entry_modules volume (first_entry (lines text)) |}.
Next Obligation.
  intros volume menu title kernel image modules Hmenu _ Ht Hk Hp Hconf _ Hv. cbn beta.
  rewrite Hconf. cbn [mbind option_bind]. unfold limine_text. rewrite first_entry_menu by done.
  rewrite lines_option by by_eval. destruct (plain_one_line _ Hk).
  rewrite lines_option; [|by_eval|split; rewrite not_elem_of_app; (split; [by_eval|done])].
  rewrite <-(entry_modules_text volume) by done.
  by rewrite !entry_modules_skip.
Qed.

(** A workspace, and the volume with what is staged from it. *)
Definition source_files : FileSystem := list_to_map
  [([], IDir); (["work"], IDir); (["work"; "fs"], IDir); (["work"; "fs"; "sys"], IDir);
   (["work"; "fs"; "sys"; "README.txt"], IFile "AFOS"); (["work"; "fs"; "apps"], IDir);
   (["work"; "fs"; "apps"; ".gitkeep"], IFile ""); (["work"; "fs"; "apps"; "demo.rhai"], IFile "1");
   (["work"; "target"], IDir); (["work"; "target"; "x86_64-unknown-none"], IDir);
   (["work"; "target"; "x86_64-unknown-none"; "release"], IDir);
   (["work"; "target"; "x86_64-unknown-none"; "release"; "afos-kernel"], IFile "elf")].
Definition staged : res str () * Host BuildSim :=
  package_files ["work"] (sim_build []) X86_64 (build_host source_files).
(** The volume a staged tree makes. *)
Definition tree_volume (d : location) (fs : FileSystem) (p : str) : option (list byte) :=
  match fs !! (d ++ pieces p) with Some (IFile data) => Some data | _ => None end.
Lemma tree_volume_images r arch (h : Host BuildSim) :
  fs_wf (h_fs h) → images r arch h (tree_volume (r ++ staging_place arch) (h_fs h)).
Proof.
  intros Hwf l data Hl. pose proof (wf_names _ _ _ Hwf Hl) as Hn. unfold tree_volume.
  rewrite pieces_path_of_parts; [by rewrite <-app_assoc, Hl|].
  apply Forall_app in Hn as [_ [_ Hn]%Forall_app]. eapply Forall_impl; [exact Hn|].
  intros c (?&?&?&?&?). by split.
Qed.
Definition staged_volume : str → option (list byte) :=
  tree_volume (["work"] ++ staging_place X86_64) (h_fs staged.2).

Definition place_ok (k : location) (n : Inode) : bool :=
  match n with
  | IFile _ =>
      if bool_decide (take 2 k = ["work"; "fs"] ∧ shown (drop 2 k)) then bool_decide (boot_place (drop 2 k))
      else true
  | _ => true
  end.
Lemma source_places l x : source_file ["work"] (build_host source_files) l x → boot_place l.
Proof.
  intros [Hl Hx].
  assert (map_Forall (λ k n, place_ok k n = true) source_files) as Hall by by_eval.
  specialize (Hall _ _ Hx). unfold place_ok in Hall. cbn [take drop app] in Hall.
  rewrite !take_0, !drop_0 in Hall.
  rewrite (bool_decide_true (_ ∧ _)) in Hall by done. by apply bool_decide_eq_true in Hall.
Qed.
Lemma packaged_files_boot_witness :
  staged.1 = Ok ()
  ∧ ∃ modules bf, limine_modules staged_volume = Some modules ∧ load_boot_files modules = Some bf
    ∧ {| ef_path := "/sys/README.txt"; ef_data := "AFOS" |} ∈ bf_system bf
    ∧ ("/apps/demo.rhai", "1" : list byte) ∈ absolute <$> bf_mutable bf.
Proof.
  assert (staged.1 = Ok ()) as Hr by by_vm. split; [exact Hr|].
  assert (source_file ["work"] (build_host source_files) ["sys"; "README.txt"] "AFOS") as Hs
    by (split; [by_eval|by_vm]).
  assert (source_file ["work"] (build_host source_files) ["apps"; "demo.rhai"] "1") as Hd
    by (split; [by_eval|by_vm]).
  destruct (packaged_files_boot (HE := BuildSim_Env) (λ _, eq_refl) ["work"] ltac:(by_eval)
    (sim_build []) X86_64 ltac:(by_vm) (build_host source_files) staged.2 staged_volume) as (modules&bf&Hm&Hb&Hsys&Hmut&_).
  - split; [by_eval|]. split; intros k t _; apply no_links_in; by_vm.
  - by_vm.
  - exact source_places.
  - exact (ex_intro _ ["README.txt"] (ex_intro _ _ Hs)).
  - rewrite <-Hr. apply surjective_pairing.
  - apply tree_volume_images. by_eval.
  - exists modules, bf. split; [exact Hm|]. split; [exact Hb|]. split.
    + apply Hsys. exists ["README.txt"]. exact (conj eq_refl Hs).
    + apply Hmut. exists ["apps"; "demo.rhai"]. split; [by_vm|]. split; [done|exact Hd].
Defined.

(** A backslash in a file name becomes a slash in the list of the bundle: the configuration
    then names a file that is not there. *)
Definition odd_files : FileSystem := list_to_map
  [([], IDir); (["work"], IDir); (["work"; "fs"], IDir); (["work"; "fs"; "sys"], IDir);
   (["work"; "fs"; "sys"; "a" ++ [backslash] ++ "b"], IFile "AFOS")].
Lemma backslash_name_lost :
  (bundle_files "/work/fs" (build_host odd_files)).1 = Ok ["fs/sys/a/b"]
  ∧ odd_files !! ["work"; "fs"; "sys"; "a"; "b"] = None
  ∧ tree_volume ["work"] odd_files "/fs/sys/a/b" = None.
Proof. split_and!; by_vm. Qed.
